(* ===== verification/_CoqProject ===== *)
-Q . S2P
Prelude.v
Fsm.v
Store.v
TaskTransitions.v
Dag.v
PlanDag.v
PlanAdmission.v
PlanRegistry.v
PathScope.v
Review.v
Dispatch.v
Bytes.v
Crypto.v
Cert.v
Policy.v
Operators.v
Budget.v
Pricing.v
Session.v
Escalation.v
KernelEscalation.v
EscalationRuns.v
Completion.v
VerifierToken.v
AuditChain.v
Glob.v
Delegation.v
Toml.v
Gates.v
Hosts.v
Providers.v
StallTracker.v
Wire.v
Sni.v
Gateway.v
GatewayClient.v
GatewayRuntime.v
Egress.v
A3.v
Json.v
PlannerFetch.v
Recovery.v
RestartLifecycle.v
DomainGit.v
MergeCloseout.v
GitRecovery.v
