(* ===== verification/Prelude.v ===== *)
(** * RAXIS kernel core: a verification development

    RAXIS runs untrusted planner agents in isolated machines and lets them act
    only through a kernel.  An operator signs a plan and a policy; the kernel
    admits the plan's tasks to a scheduler, hands sessions to agents, checks
    every intent they submit against role, scope, budget and gates, moves tasks
    through a state machine kept in one SQLite store, and writes an audit chain.
    This library models that core, from the Rust sources under [src/raxis], and
    proves what makes it correct.

    ** How the program is modelled

    All kernel state is rows of one SQLite database used under one mutex, so a
    kernel operation is a function from a store to a result and a store: the
    monad [SE] below, with [result] for Rust's [Result] and [option] for a panic
    or an exhausted loop bound.  [with_tx] is a [conn.transaction()] dropped
    without [commit] on an error.  Enum columns hold their text.  Integers are
    [Z] with the wrap-around or saturation of their width written out.  Clock
    readings, fresh ids, hashes, random tokens, the repository and the audit
    sink are arguments of the operations that use them; base-16 text, Ed25519,
    UUID and JSON rendering are classes or parameters.

    ** Files

    - [Prelude]: results, the store monad and its [preserves] logic with the hint
      database [se], machine integers, SQLite errors and sums, the class
      [SqlEnum] (the round-trip contract of a stored enum, whose instances are in
      [Fsm]), strings.
    - [Fsm]: the lifecycle enums of [crates/types/src/fsm.rs], [escalation.rs],
      [capability.rs] and [intent.rs], each with its two text tables.
    - [Store]: the rows of the tables used ([crates/store/src/migration.rs]), the
      store [Db], and the deferred foreign-key transaction.
    - [TaskTransitions]: [kernel/src/initiatives/task_transitions.rs] and
      [kernel/src/orch_respawn_ceiling.rs], the one place a task changes state.
    - [Dag]: [kernel/src/scheduler/dag.rs] and [admit.rs], cycle check, admission
      and readiness.
    - [PlanDag], [PlanAdmission]: the graph rules, name resolution and hand-over
      of [kernel/src/initiatives/lifecycle.rs].
    - [PlanRegistry]: [kernel/src/initiatives/plan_registry.rs], the signed plans
      in memory.
    - [PathScope]: [kernel/src/path_scope.rs] with the entry validators of
      [lifecycle.rs], which paths a task or a merge may touch.
    - [Review]: [kernel/src/initiatives/review_aggregation.rs] and the activation
      gate of [kernel/src/handlers/intent.rs].
    - [Dispatch]: [kernel/src/authority/dispatch_matrix.rs].
    - [Policy], [Budget], [Pricing]: the accessors of [crates/policy], and
      [kernel/src/scheduler/lane.rs] and [budget.rs].
    - [Session]: [kernel/src/authority/session.rs] with the envelope check.
    - [Completion]: the [CompleteTask] path of [kernel/src/handlers/intent.rs],
      which composes transitions, sessions, path scope, review, budgets and the
      registry.
    - [VerifierToken]: [kernel/src/authority/verifier_token.rs].
    - [AuditChain]: [crates/audit/src/writer.rs] and [reader.rs].
    - [Bytes], [Crypto]: bytes and little-endian fields; the contracts of the hex
      and Ed25519 crates, [crates/crypto/src/verify.rs], separated text.
    - [Cert], [Operators]: [crates/types/src/operator_cert.rs],
      [crates/crypto/src/cert.rs] and [kernel/src/authority/revocations.rs]; the
      installation of a policy's operators ([crates/policy/src/bundle.rs]),
      [kernel/src/ipc/auth.rs] and [kernel/src/authority/cert_check.rs].
    - [Escalation]: [kernel/src/handlers/escalation.rs],
      [kernel/src/authority/escalation.rs] and Check 6b of
      [handlers/integration_merge_attribution.rs].
    - [KernelEscalation]: the ceiling trip, [kernel/src/initiative_escalation.rs]
      and the operator's answers of [kernel/src/ipc/operator.rs].
    - [EscalationRuns]: runs of all these operations over the one store.
    - [Glob], [Gates]: [kernel/src/gates/policy_lookup.rs], [claim.rs] and
      [mod.rs] over [kernel/src/witness_index.rs]; [Toml]: the values of a parsed
      plan.
    - [Delegation]: [kernel/src/authority/delegation.rs] and
      [crates/crypto/src/delegation.rs], against the columns a table declares.
    - [Hosts]: host patterns, URL hosts and the effective allowlists
      ([crates/egress-admission], [gateway/src/policy_view.rs],
      [crates/policy/src/bundle.rs]); [StallTracker]: its sliding windows.
    - [Wire]: the frames of [crates/tproxy-protocol] and [crates/ipc], over the
      class [Codec]; [Sni]: the two parsers that read the host of a connection.
    - [Egress]: the admission decision and loop of [crates/egress-admission];
      [A3]: mediated connections, tunnels and name resolution of
      [crates/session-spawn], [kernel/src/handlers/tproxy_admit.rs] and
      [dns_resolve.rs].
    - [Providers]: the validation of [[providers]] in
      [crates/policy/src/bundle.rs]; [Gateway]: the gateway process, from
      [gateway/src/dispatch.rs], [policy_view.rs] and [http_backend.rs];
      [GatewayClient]: the pump of [kernel/src/gateway/client.rs];
      [GatewayRuntime]: the request loop of [gateway/src/runtime.rs], and pump and
      loop over one byte stream; [PlannerFetch]:
      [kernel/src/handlers/planner_fetch.rs], which composes sessions, the pump
      and the stall tracker.
    - [Json]: the [serde_json] values the kernel reads.
    - [Recovery]: [kernel/src/recovery.rs] up to its git section, the boot sweeps
      and the resumption of tasks; [RestartLifecycle]:
      [kernel/src/restart_lifecycle.rs], the dumps of
      [kernel/src/deadlock_dump.rs] and the order of these steps in
      [kernel/src/main.rs].
    - [DomainGit]: the publication of a merge ([crates/domain-git/src/lib.rs])
      over the classes [Git], [GitLaws] and [CommandLaws];
      [MergeCloseout]: the closeout of an integration merge in
      [kernel/src/handlers/intent.rs] as a sequence of durable worlds;
      [GitRecovery]: the recovery of flagged merges at the end of
      [kernel/src/recovery.rs], over any of these worlds.

    An operation keeps its Rust name.  Where one function is long its loop body,
    a statement or a numbered step is a definition of its own with a descriptive
    name.

    ** What the theorems show

    - Task state: a transition does exactly its documented writes or nothing;
      terminal rows are frozen under any sequence of requests; terminal edges
      close activations; each committed edge is audited once.
    - Plans: validation terminates on every input, accepts exactly the
      well-formed acyclic plans and names a real offender; a validated plan is
      admitted; admission is atomic and keeps the graph acyclic; an admitted
      initiative always has a ready task until it is done.
    - Scope: the path check accepts exactly what the signed plan grants, by whole
      path segments; exports cannot widen the scope of an initiative whatever
      completions are requested; completion is all or nothing.
    - Review and gates: the verdict is the logical AND over the declared
      reviewers; the activation gate agrees with it and opens exactly when every
      predecessor is done and reviewed; edge marking is sound for it; verifier
      tokens are single use and deduplicated.
    - Authority: sequence numbers and nonces cannot be replayed over any run of
      envelopes; a revoked session stays revoked; duties are separated.
    - Operators: a policy is installed exactly when every entry matches its key,
      certificate and self-signature; an emergency certificate can only rotate
      the epoch; a request reaches its handler exactly when it was granted and
      the certificate is live.
    - Escalations: over any run of submissions, approvals, denials, trips,
      failures and merges a row is resolved once and stays well typed, tokens
      belong to approved rows, a lineage stays within its window and quarantine
      is permanent; approval is signed and all or nothing; a ceiling trip stops
      everything in flight.
    - Gates: the glob matcher decides its language; a pass means a passing newest
      witness for every applicable gate; claims are evaluated by their documented
      precedence.
    - Egress: a connection is admitted exactly when it names an allowed host on a
      redirected port; the loop answers and records every request whatever
      fails; the host parsers read nothing outside their buffer and find the
      name that was sent; a tunnel is claimed once, by the token of an audited
      grant; stalls are reported exactly when the history calls for one; proxy,
      kernel and gateway agree on lower-case hosts; framed messages are read
      back in order.
    - Provider calls: a planner's fetch is forwarded exactly for a session that
      may make it, leaves the gateway exactly when policy, provider and limits
      admit it, under the credentials of the first provider that serves its host,
      and is answered once, with the answer to this very request, as long as no
      job interrupts a read of the pump; every caller is resolved when the pump
      stops; at most 512 calls run at once.
    - Restart: a successful recovery leaves a quiescent store; the interrupted
      tasks are admitted again exactly when the supervisor restarted the kernel,
      they were not blocked before and their initiative is not quarantined; no
      forensic dump is lost.
    - Merges: publication moves the ref to what it reports and keeps the object
      graph complete, or leaves the ref alone; the object copy ends; a published
      merge clears its flag and completes coordinator and initiative; the flag
      and the audit record of a merge never exist together, so a merge that
      crashed is never repaired, while one whose only loss is the clearing of the
      flag is; the sweep settles every flagged initiative once.
    - Money: no sequence of reservations, releases and transitions takes a lane
      over its cap; a rejected token report stays rejected when it grows.
    - Audit: two verified chains with the same last hash are equal unless a hash
      collision is exhibited; what the writer wrote verifies; reopening from the
      file gives the running writer back.

    Several theorems state behaviour that differs from the comments around the
    code or from its intent: [sync_failure_breaks_chain],
    [verifier_ignores_first_sequence], [legal_reachability],
    [transition_to_admitted_sources], [single_slot_lane_never_reserves],
    [long_chain_depends_on_order], [finalize_sources],
    [retried_completion_skips_path_check], [structural_check_admits_forgery],
    [uppercase_key_is_irrevocable], [dispatch_gate_iff], [grace_use_is_final],
    [shipped_schema_has_no_delegations], [required_claims_never_pass],
    [deadlock_escalates_once], [failed_initiative_escalation],
    [resubmission_returns_first], [implicit_grant_reach],
    [threshold_one_alerts_at_once], [oversized_body_desynchronizes],
    [ipc_stream_round_trip], [unrecorded_refusals], [unknown_kind_accepted],
    [userinfo_smuggles_credentials], [interrupted_read_drops_everyone],
    [full_size_answer_stops_gateway], [clamped_fetches_refused],
    [auto_resume_admits_exactly], [interrupted_boot_strands_tasks],
    [boot_resumes_iff_restarted], [interrupted_copy_is_published],
    [mislabelled_entry_is_published], [closeout_outcome],
    [failed_merge_bypasses_transitions] and [crashed_merge_is_never_repaired].

    ** Bounds

    Loops without a structural argument take fuel, and a theorem shows it is
    enough: [Dag.dfs] by [dfs_fuel] (a visited task is not expanded twice, so
    there are at most as many pushes as edges), [PlanDag.visit] by [visit_fuel]
    (every step takes an edge of a task or finishes it), [strip_all] by the length of the string (each step
    removes a character),
    the object copy of [DomainGit] by [copy_fuel] (two more than the references
    between the source's objects, [publishing_terminates]),
    the loops of [Sni] by the length of the buffer ([sni_parser_total]) and
    [Egress.run_admission_loop_with_context] by the length of the input.  The
    pump and the request loop are step functions over sequences of events of any
    length; the widths of their queues (1024 jobs, 512 calls, 1024 answers) are
    those of the code.

    ** Not modelled

    SQLite's own failures (I/O, busy) except where the code goes on after one
    (the [fault] of the recovery sweeps, the [ce_fails] of the closeout), lock
    poisoning, log lines, and everything that is process, network or
    virtual-machine I/O.  The git object library and the [git] program are an
    interface; TOML and JSON decoding and the cryptographic primitives are library
    calls.  Of the intents completion and the closeout of an integration merge are
    modelled end to end; the snapshot taken during the closeout is an argument, and
    the escalation task that a failed merge starts is not modelled there (its
    effects are [KernelEscalation]).  The witness submission handler, approval
    tokens at use ([authority/approval.rs], whose tables no migration creates), the
    other intents and the policy validators are the planned extensions, in that
    order. *)

From Stdlib Require Export ZArith Lia.
From stdpp Require Export base option gmap strings fin_maps sets relations numbers list sorting.

#[export] Set Default Goal Selector "!".

(** ** Results: Rust's [Result<T, E>] *)

Inductive result (E A : Type) : Type :=
  | Ok (a : A)
  | Err (e : E).
Arguments Ok {E A} a.
Arguments Err {E A} e.

Definition is_ok {E A} (r : result E A) : bool :=
  match r with Ok _ => true | Err _ => false end.

Definition map_err {E F A} (f : E → F) (r : result E A) : result F A :=
  match r with Ok a => Ok a | Err e => Err (f e) end.

Definition ok_or {E A} (o : option A) (e : E) : result E A :=
  match o with Some a => Ok a | None => Err e end.

#[export] Instance result_ret {E} : MRet (result E) := λ A a, Ok a.
#[export] Instance result_bind {E} : MBind (result E) := λ A B f r,
  match r with Ok a => f a | Err e => Err e end.

#[export] Instance result_eq_dec {E A} `{!EqDecision E, !EqDecision A} :
  EqDecision (result E A).
Proof. solve_decision. Defined.

(** ** The store monad

    Kernel code runs against one SQLite connection held under a mutex.  A
    computation takes the store, may fail, and may have written rows before it
    fails; only [with_tx] (a [conn.transaction()] that is dropped without
    [commit] on [Err]) undoes those writes. *)

Definition SE (S E A : Type) : Type := S → result E A * S.

#[export] Instance se_ret {S E} : MRet (SE S E) := λ A a s, (Ok a, s).
#[export] Instance se_bind {S E} : MBind (SE S E) := λ A B f m s,
  match m s with
  | (Ok a, s') => f a s'
  | (Err e, s') => (Err e, s')
  end.

Definition throw {S E A} (e : E) : SE S E A := λ s, (Err e, s).
Definition gets {S E A} (f : S → A) : SE S E A := λ s, (Ok (f s), s).
Definition modify {S E} (f : S → S) : SE S E unit := λ s, (Ok tt, f s).
Definition lift_result {S E A} (r : result E A) : SE S E A := λ s, (r, s).
Definition se_map_err {S E F A} (f : E → F) (m : SE S E A) : SE S F A :=
  λ s, let '(r, s') := m s in (map_err f r, s').
Definition guard_or {S E} (b : bool) (e : E) : SE S E unit :=
  λ s, (if b then Ok tt else Err e, s).
Definition with_tx {S E A} (m : SE S E A) : SE S E A :=
  λ s, match m s with
       | (Ok a, s') => (Ok a, s')
       | (Err e, _) => (Err e, s)
       end.

(** Sequencing one fallible write per list element, stopping at the first
    failure (a Rust [for] loop whose body ends in [?]). *)
Fixpoint for_each {S E A} (f : A → SE S E unit) (l : list A) : SE S E unit :=
  match l with
  | [] => mret tt
  | x :: l' => _ ← f x; for_each f l'
  end.

Section se_facts.
Context {S E : Type}.
Implicit Types s : S.

Lemma se_bind_ok_inv {A B} (m : SE S E A) (f : A → SE S E B) s b s' :
  (x ← m; f x) s = (Ok b, s') →
  ∃ a s1, m s = (Ok a, s1) ∧ f a s1 = (Ok b, s').
Proof.
  unfold mbind, se_bind. destruct (m s) as [[a|e] s1] eqn:Hm; intros H;
    [by eauto | discriminate].
Qed.

Lemma se_bind_ok {A B} (m : SE S E A) (f : A → SE S E B) s a s1 :
  m s = (Ok a, s1) → (x ← m; f x) s = f a s1.
Proof. unfold mbind, se_bind. by intros ->. Qed.

Lemma se_bind_err {A B} (m : SE S E A) (f : A → SE S E B) s e s1 :
  m s = (Err e, s1) → (x ← m; f x) s = (Err e, s1).
Proof. unfold mbind, se_bind. by intros ->. Qed.

Lemma se_bind_err_inv {A B} (m : SE S E A) (f : A → SE S E B) s e s' :
  (x ← m; f x) s = (Err e, s') →
  m s = (Err e, s') ∨ ∃ a s1, m s = (Ok a, s1) ∧ f a s1 = (Err e, s').
Proof.
  unfold mbind, se_bind. destruct (m s) as [[a|e'] s1] eqn:Hm; intros H;
    [by eauto | left; congruence].
Qed.

Lemma with_tx_err_rollback {A} (m : SE S E A) s e s' :
  with_tx m s = (Err e, s') → s' = s.
Proof. unfold with_tx. destruct (m s) as [[a|e'] s1]; by intros [=]. Qed.

Lemma with_tx_ok_inv {A} (m : SE S E A) s a s' :
  with_tx m s = (Ok a, s') → m s = (Ok a, s').
Proof. unfold with_tx. destruct (m s) as [[b|e'] s1]; by intros [=->->]. Qed.

(** A relation between the store before and after, whatever the outcome. *)
Definition preserves {A} (P : S → Prop) (m : SE S E A) : Prop :=
  ∀ s, P s → P (m s).2.

Lemma preserves_ret {A} P (a : A) : preserves P (mret a : SE S E A).
Proof. by intros s Hs. Qed.
Lemma preserves_throw {A} P (e : E) : preserves P (throw e : SE S E A).
Proof. by intros s Hs. Qed.
Lemma preserves_gets {A} P (f : S → A) : preserves P (gets f : SE S E A).
Proof. by intros s Hs. Qed.
Lemma preserves_lift {A} P (r : result E A) : preserves P (lift_result r : SE S E A).
Proof. by intros s Hs. Qed.
Lemma preserves_guard P b (e : E) : preserves P (guard_or b e : SE S E unit).
Proof. by intros s Hs. Qed.
Lemma preserves_bind {A B} P (m : SE S E A) (f : A → SE S E B) :
  preserves P m → (∀ a, preserves P (f a)) → preserves P (x ← m; f x).
Proof.
  intros Hm Hf s Hs. unfold mbind, se_bind.
  specialize (Hm s Hs). destruct (m s) as [[a|e] s1]; [by apply Hf | done].
Qed.
Lemma preserves_modify P (f : S → S) :
  (∀ s, P s → P (f s)) → preserves P (modify f : SE S E unit).
Proof. intros Hf s Hs. by apply Hf. Qed.
Lemma preserves_with_tx {A} P (m : SE S E A) : preserves P m → preserves P (with_tx m).
Proof.
  intros Hm s Hs. specialize (Hm s Hs). unfold with_tx.
  by destruct (m s) as [[a|e] s1].
Qed.
Lemma preserves_for_each {A} P (f : A → SE S E unit) l :
  (∀ a, preserves P (f a)) → preserves P (for_each f l).
Proof.
  intros Hf. induction l as [|x l IH]; [apply preserves_ret |].
  simpl. apply preserves_bind; [apply Hf | done].
Qed.
End se_facts.

Arguments preserves {S E A} P m.

Lemma se_map_err_run {S E F A} (f : E → F) (m : SE S E A) s :
  se_map_err f m s = (map_err f (m s).1, (m s).2).
Proof. unfold se_map_err. by destruct (m s). Qed.

(** Running a bind whose first part keeps [P]: either it failed and [P] still
    holds, or the rest runs from a store where [P] holds. *)
Lemma se_bind_keeps {S E A B} (P : S → Prop) (m : SE S E A) (f : A → SE S E B) s
    (Q : result E B * S → Prop) :
  preserves P m → P s → (∀ e s1, P s1 → Q (Err e, s1)) →
  (∀ a s1, m s = (Ok a, s1) → P s1 → Q (f a s1)) → Q ((x ← m; f x) s).
Proof.
  intros Hm Hs Herr Hok. unfold mbind, se_bind. specialize (Hm s Hs).
  destruct (m s) as [[a|e] s1]; eauto.
Qed.

Lemma preserves_map_err {S E F A} P (f : E → F) (m : SE S E A) :
  preserves P m → preserves P (se_map_err f m).
Proof.
  intros Hm s Hs. specialize (Hm s Hs). unfold se_map_err. by destruct (m s).
Qed.

Create HintDb se.
#[export] Hint Resolve preserves_ret preserves_throw preserves_gets preserves_lift
  preserves_guard preserves_with_tx preserves_map_err preserves_for_each
  preserves_modify : se.
#[export] Hint Extern 1 (preserves _ (mbind _ _)) => apply preserves_bind; [| intros ?] : se.

(** Peel the successful binds off a run, one store at a time. *)
Ltac se_step H :=
  let a := fresh "a" in let s := fresh "s" in
  let H1 := fresh H in
  apply se_bind_ok_inv in H as (a & s & H1 & H).

(** Unfold the monad so that [destruct] and [simplify_eq] see the branches. *)
Ltac se_unfold :=
  unfold mbind, se_bind, mret, se_ret, throw, gets, modify, lift_result,
    guard_or, se_map_err in *.

(** ** Machine integers

    Rust integers at their width: [u64]/[u32]/[i64] values are [Z] in range.
    [kernel] is built with the release profile, which does not set
    [overflow-checks], so plain [+] on [i64] wraps. *)

Definition u32_max : Z := 2^32 - 1.
Definition u64_max : Z := 2^64 - 1.
Definition i64_max : Z := 2^63 - 1.
Definition i64_min : Z := - 2^63.

Definition in_u32 (z : Z) : Prop := (0 ≤ z ≤ u32_max)%Z.
Definition in_u64 (z : Z) : Prop := (0 ≤ z ≤ u64_max)%Z.
Definition in_i64 (z : Z) : Prop := (i64_min ≤ z ≤ i64_max)%Z.

Definition sat_add_u64 (x y : Z) : Z := Z.min (x + y) u64_max.
Definition sat_mul_u64 (x y : Z) : Z := Z.min (x * y) u64_max.
Definition clamp_i64 (z : Z) : Z := Z.max i64_min (Z.min z i64_max).
Definition sat_add_i64 (x y : Z) : Z := clamp_i64 (x + y).
Definition sat_sub_i64 (x y : Z) : Z := clamp_i64 (x - y).
Definition sat_mul_i64 (x y : Z) : Z := clamp_i64 (x * y).

(** [x as i64] (two's complement re-reading) and wrapping [i64] addition. *)
Definition as_i64 (z : Z) : Z := ((z + 2^63) mod 2^64 - 2^63)%Z.
Definition wrap_add_i64 (x y : Z) : Z := as_i64 (x + y).
Definition wrap_sub_i64 (x y : Z) : Z := as_i64 (x - y).

Lemma as_i64_id z : in_i64 z → as_i64 z = z.
Proof.
  unfold in_i64, as_i64, i64_min, i64_max. intros H.
  rewrite Z.mod_small; lia.
Qed.

Lemma as_i64_range z : in_i64 (as_i64 z).
Proof.
  unfold in_i64, as_i64, i64_min, i64_max.
  pose proof (Z.mod_pos_bound (z + 2^63) (2^64) ltac:(lia)). lia.
Qed.

Ltac widths :=
  unfold in_u32, in_u64, in_i64, sat_add_u64, sat_mul_u64, sat_add_i64,
    sat_sub_i64, sat_mul_i64, clamp_i64, u32_max, u64_max, i64_max, i64_min in *.

(** ** SQLite

    An [INTEGER] column holds an [i64].  [SUM] adds its inputs one at a time
    and raises on overflow; [rusqlite] refuses to read a negative integer as
    [u64], and a value above the range of the target type. *)

Inductive SqlError : Type :=
  | SqlNoRows                          (* rusqlite::Error::QueryReturnedNoRows *)
  | SqlConstraintPrimaryKey            (* SqliteFailure, extended code 1555 *)
  | SqlConstraintUnique                (* SqliteFailure, extended code 2067 *)
  | SqlConstraintForeignKey            (* SqliteFailure, extended code 787 *)
  | SqlConstraintCheck                 (* SqliteFailure, extended code 275 *)
  | SqlNoSuchColumn (column : string)  (* SqliteFailure, SQLITE_ERROR at prepare *)
  | SqlNoSuchTable (table : string)
  | SqlIntegerOverflow                 (* SUM overflow *)
  | SqlIntegralValueOutOfRange         (* FromSql range check *)
  | SqlInvalidColumnType.              (* FromSql on a REAL or NULL value *)

#[export] Instance SqlError_eq_dec : EqDecision SqlError.
Proof. solve_decision. Defined.

Fixpoint sql_sum_from (acc : Z) (l : list Z) : option Z :=
  match l with
  | [] => Some acc
  | x :: l' =>
      let acc' := (acc + x)%Z in
      if bool_decide (i64_min ≤ acc' ≤ i64_max)%Z then sql_sum_from acc' l' else None
  end.
Definition sql_sum (l : list Z) : option Z := sql_sum_from 0 l.

Definition read_u64 (z : Z) : result SqlError Z :=
  if bool_decide (0 ≤ z)%Z then Ok z else Err SqlIntegralValueOutOfRange.
Definition read_u32 (z : Z) : result SqlError Z :=
  if bool_decide (0 ≤ z ≤ u32_max)%Z then Ok z else Err SqlIntegralValueOutOfRange.

Definition Zsum (l : list Z) : Z := foldr Z.add 0%Z l.

Lemma Zsum_app l1 l2 : Zsum (l1 ++ l2) = (Zsum l1 + Zsum l2)%Z.
Proof. induction l1 as [|x l1 IH]; simpl; lia. Qed.

#[export] Instance Zsum_Permutation : Proper ((≡ₚ) ==> (=)) Zsum.
Proof. intros l1 l2 H. induction H; simpl; lia. Qed.

Lemma Zsum_nonneg l : Forall (λ z, 0 ≤ z)%Z l → (0 ≤ Zsum l)%Z.
Proof. induction 1; simpl; lia. Qed.

Lemma sql_sum_from_exact acc l z : sql_sum_from acc l = Some z → z = (acc + Zsum l)%Z.
Proof.
  revert acc. induction l as [|x l IH]; intros acc; simpl; [intros [=]; lia |].
  case_bool_decide; [| done]. intros ->%IH. lia.
Qed.

Lemma sql_sum_exact l z : sql_sum l = Some z → z = Zsum l.
Proof. intros ->%sql_sum_from_exact. lia. Qed.

Lemma sql_sum_from_total acc l :
  Forall (λ z, 0 ≤ z)%Z l → (0 ≤ acc)%Z → (acc + Zsum l ≤ i64_max)%Z →
  sql_sum_from acc l = Some (acc + Zsum l)%Z.
Proof.
  intros Hl. revert acc. induction Hl as [|x l Hx Hl IH]; intros acc Hacc Hb; simpl in *.
  { f_equal. lia. }
  pose proof (Zsum_nonneg _ Hl). rewrite bool_decide_eq_true_2 by (widths; lia).
  rewrite IH by lia. f_equal. lia.
Qed.

Lemma sql_sum_total l :
  Forall (λ z, 0 ≤ z)%Z l → (Zsum l ≤ i64_max)%Z → sql_sum l = Some (Zsum l).
Proof. intros Hl Hb. unfold sql_sum. by rewrite sql_sum_from_total. Qed.

(** ** Strings *)

Fixpoint starts_with (p s : string) : bool :=
  match p, s with
  | EmptyString, _ => true
  | String a p', String b s' => if Ascii.eqb a b then starts_with p' s' else false
  | String _ _, EmptyString => false
  end.

Lemma string_app_cons a p t : String a p +:+ t = String a (p +:+ t).
Proof. reflexivity. Qed.

Lemma starts_with_iff p s : starts_with p s = true ↔ ∃ t, s = p +:+ t.
Proof.
  revert s. induction p as [|a p IH]; intros s; simpl.
  { split; [intros _; by exists s | done]. }
  destruct s as [|b s]; [split; [done | by intros [t [=]]] |].
  setoid_rewrite string_app_cons.
  destruct (Ascii.eqb_spec a b) as [<-|Hne].
  - rewrite IH. split; intros [t Ht]; exists t; congruence.
  - split; [done |]. intros [t [=]]. congruence.
Qed.

(** At-rest text codecs: one [as_sql_str]/[from_sql_str] pair per enum. *)
Fixpoint sql_parse {A} (tbl : list (string * A)) (s : string) : option A :=
  match tbl with
  | [] => None
  | (k, a) :: tbl' => if String.eqb k s then Some a else sql_parse tbl' s
  end.

Lemma sql_parse_Some {A} (tbl : list (string * A)) s a :
  sql_parse tbl s = Some a → (s, a) ∈ tbl.
Proof.
  induction tbl as [|[k b] tbl IH]; simpl; [done |].
  destruct (String.eqb_spec k s) as [->|]; [intros [= ->] | intros H%IH]; set_solver.
Qed.

(** What an enum's SQL codec promises: the two tables are inverse, so every
    variant survives a store round trip and every text that parses is the
    canonical text of what it parses to. *)
Class SqlEnum (A : Type) := {
  as_sql_str : A → string;
  from_sql_str : string → option A;
  from_as_sql_str a : from_sql_str (as_sql_str a) = Some a;
  from_sql_str_canonical s a : from_sql_str s = Some a → s = as_sql_str a;
}.

#[export] Hint Mode SqlEnum ! : typeclass_instances.

Lemma as_sql_str_inj `{SqlEnum A} (a b : A) : as_sql_str a = as_sql_str b → a = b.
Proof.
  intros Heq. pose proof (from_as_sql_str a) as Ha.
  rewrite Heq, from_as_sql_str in Ha. congruence.
Qed.

Lemma from_sql_str_iff `{SqlEnum A} s (a : A) : from_sql_str s = Some a ↔ s = as_sql_str a.
Proof. split; [apply from_sql_str_canonical | intros ->; apply from_as_sql_str]. Qed.

(** Both laws of [SqlEnum] for a concrete pair of tables. *)
Ltac sql_enum_round_trip := intros []; reflexivity.
Ltac sql_enum_canonical :=
  intros s a H%sql_parse_Some;
  repeat (apply elem_of_cons in H as [[= -> ->]|H]; [reflexivity |]);
  by apply elem_of_nil in H.

(** ** Finite maps *)

Lemma alter_Some_insert `{Countable K} {A} (f : A → A) (m : gmap K A) i x :
  m !! i = Some x → alter f i m = <[i := f x]> m.
Proof.
  intros Hi. apply map_eq. intros j. destruct (decide (i = j)) as [<-|Hne].
  - by rewrite lookup_alter_eq, lookup_insert_eq, Hi.
  - by rewrite lookup_alter_ne, lookup_insert_ne by done.
Qed.

Lemma map_Forall_mono `{Countable K} {A} (P : K → A → Prop) (m1 m2 : gmap K A) :
  m1 ⊆ m2 → map_Forall P m2 → map_Forall P m1.
Proof. intros Hsub HP k x Hk. eapply HP, lookup_weaken; eauto. Qed.

(** ** Trimming

    [str::trim] removes Unicode [White_Space] characters; strings are UTF-8
    byte sequences, so the characters are matched by their encodings. *)

Definition utf8 (l : list nat) : string := String.string_of_list_ascii (Ascii.ascii_of_nat <$> l).

Definition whitespace_encodings : list string :=
  utf8 <$> [[9]; [10]; [11]; [12]; [13]; [32]; [194; 133]; [194; 160]; [225; 154; 128];
             [226; 128; 128]; [226; 128; 129]; [226; 128; 130]; [226; 128; 131];
             [226; 128; 132]; [226; 128; 133]; [226; 128; 134]; [226; 128; 135];
             [226; 128; 136]; [226; 128; 137]; [226; 128; 138]; [226; 128; 168];
             [226; 128; 169]; [226; 128; 175]; [226; 129; 159]; [227; 128; 128]].

Definition strip_one (encodings : list string) (s : string) : option string :=
  match List.find (λ w, starts_with w s) encodings with
  | Some w => Some (String.substring (String.length w) (String.length s) s)
  | None => None
  end.

Fixpoint strip_all (fuel : nat) (encodings : list string) (s : string) : string :=
  match fuel with
  | O => s
  | S fuel =>
      match strip_one encodings s with
      | Some s' => strip_all fuel encodings s'
      | None => s
      end
  end.

Definition trim_start (s : string) : string :=
  strip_all (String.length s) whitespace_encodings s.
Definition trim_end (s : string) : string :=
  String.rev (strip_all (String.length s) (String.rev <$> whitespace_encodings) (String.rev s)).
Definition str_trim (s : string) : string := trim_end (trim_start s).

(** Well-formed UTF-8, as [str::from_utf8] decides it. *)
Definition in_byte (lo hi n : nat) : bool := (lo <=? n) && (n <=? hi).
Fixpoint utf8_valid_bytes (fuel : nat) (l : list nat) : bool :=
  match fuel with
  | O => false
  | S fuel =>
      match l with
      | [] => true
      | a :: l1 =>
          if a <? 128 then utf8_valid_bytes fuel l1
          else
            match l1 with
            | b :: l2 =>
                if in_byte 194 223 a && in_byte 128 191 b then utf8_valid_bytes fuel l2
                else
                  match l2 with
                  | c :: l3 =>
                      let b3 := if a =? 224 then in_byte 160 191 b
                                else if a =? 237 then in_byte 128 159 b else in_byte 128 191 b in
                      if in_byte 224 239 a && b3 && in_byte 128 191 c then utf8_valid_bytes fuel l3
                      else
                        match l3 with
                        | d :: l4 =>
                            let b4 := if a =? 240 then in_byte 144 191 b
                                      else if a =? 244 then in_byte 128 143 b
                                      else in_byte 128 191 b in
                            in_byte 240 244 a && b4 && in_byte 128 191 c && in_byte 128 191 d
                              && utf8_valid_bytes fuel l4
                        | [] => false
                        end
                  | [] => false
                  end
            | [] => false
            end
      end
  end.
Definition utf8_valid (s : string) : bool :=
  utf8_valid_bytes (S (String.length s)) (Ascii.nat_of_ascii <$> String.list_ascii_of_string s).

(** ** More strings *)

Lemma str_app_assoc a b c : (a +:+ b) +:+ c = a +:+ (b +:+ c).
Proof. induction a as [|x a IH]; [done |]. rewrite !string_app_cons. by rewrite IH. Qed.

Lemma str_app_nil_r a : a +:+ "" = a.
Proof. induction a as [|x a IH]; [done |]. rewrite string_app_cons. by rewrite IH. Qed.

Definition chars (s : string) : list Ascii.ascii := String.list_ascii_of_string s.

Definition ascii_lower (c : Ascii.ascii) : Ascii.ascii :=
  let n := Ascii.nat_of_ascii c in
  if (65 <=? n) && (n <=? 90) then Ascii.ascii_of_nat (n + 32) else c.

Lemma chars_app a b : chars (a +:+ b) = chars a ++ chars b.
Proof. induction a as [|x a IH]; [done |]. rewrite string_app_cons. simpl. unfold chars in *. by rewrite IH. Qed.

Lemma str_length_app a b : String.length (a +:+ b) = String.length a + String.length b.
Proof. induction a as [|x a IH]; [done |]. rewrite string_app_cons. simpl. by rewrite IH. Qed.

Lemma rev_app_spec a b : String.rev_app a b = String.rev_app a "" +:+ b.
Proof.
  revert b. induction a as [|x a IH]; intros b; simpl; [done |].
  rewrite (IH (String x b)), (IH (String x "")), str_app_assoc. done.
Qed.

Lemma str_rev_snoc a c : String.rev (a +:+ String c "") = String c (String.rev a).
Proof.
  unfold String.rev. induction a as [|x a IH]; [done |]. rewrite string_app_cons. simpl.
  rewrite rev_app_spec, IH, (rev_app_spec a (String x "")). done.
Qed.

Lemma str_rev_nonempty s : s ≠ "" → String.rev s ≠ "".
Proof.
  destruct s as [|x s]; [done |]. intros _. unfold String.rev. simpl. rewrite rev_app_spec.
  destruct (String.rev_app s ""); [done |]. by rewrite string_app_cons.
Qed.

(** [s.chars().count()]: a UTF-8 string has one character per byte that is not a
    continuation byte ([0b10xxxxxx]). *)
Definition is_continuation (c : Ascii.ascii) : bool :=
  let n := Ascii.nat_of_ascii c in (128 <=? n) && (n <? 192).
Definition chars_count (s : string) : nat :=
  length (List.filter (λ c, negb (is_continuation c)) (chars s)).

(** [s.is_char_boundary(n)] for [n <= s.len()], and the loop that lowers an index
    to a boundary. *)
Definition is_char_boundary (s : string) (n : nat) : bool :=
  (n =? 0) || match nth_error (chars s) n with
              | Some c => negb (is_continuation c)
              | None => true
              end.
Fixpoint boundary_below (s : string) (n : nat) : nat :=
  match n with
  | O => 0
  | S n' => if is_char_boundary s n then n else boundary_below s n'
  end.
(** [s[..end]] at the last boundary within [max] bytes. *)
Definition truncate_str (max : nat) (s : string) : string :=
  if String.length s <=? max then s
  else String.substring 0 (boundary_below s max) s.

(** ** Queries that keep one row

    [ORDER BY key DESC LIMIT 1] leaves the choice among equal keys to SQLite:
    [pick] stands for it and [Latest] for what the query promises. *)

Record Latest {A} (key : A → Z) (pick : list A → option A) : Prop := {
  latest_some l : l ≠ [] → is_Some (pick l);
  latest_in l x : pick l = Some x → x ∈ l;
  latest_max l x y : pick l = Some x → y ∈ l → (key y ≤ key x)%Z;
}.

(** The first row with the greatest key. *)
Fixpoint latest_by {A} (key : A → Z) (l : list A) : option A :=
  match l with
  | [] => None
  | x :: l' =>
      match latest_by key l' with
      | Some y => if (key x <? key y)%Z then Some y else Some x
      | None => Some x
      end
  end.

Lemma latest_by_latest {A} (key : A → Z) : Latest key (latest_by key).
Proof.
  split.
  - intros [|x l] Hl; [done |]. simpl. destruct (latest_by key l); [case_match |]; by eexists.
  - intros l. induction l as [|x l IH]; intros y; simpl; [done |].
    destruct (latest_by key l) as [z|]; [| intros [= <-]; by left].
    case_match; intros [= <-]; [right; by apply IH | by left].
  - intros l. induction l as [|x l IH]; intros y z; simpl; [done |].
    destruct (latest_by key l) as [w|] eqn:Hw.
    + destruct (Z.ltb_spec (key x) (key w)); intros [= <-] [->|Hz]%elem_of_cons; try lia.
      * by apply IH.
      * specialize (IH w z eq_refl Hz). lia.
    + intros [= <-] [->|Hz]%elem_of_cons; [lia |].
      destruct l as [|a l]; [by apply elem_of_nil in Hz |]. simpl in Hw. by repeat case_match.
Qed.

(** ** Splitting and ordering *)

(** [s.split(c)]. *)
Fixpoint split_on (c : Ascii.ascii) (s : string) : list string :=
  match s with
  | EmptyString => [""]
  | String a s' =>
      if Ascii.eqb a c then "" :: split_on c s'
      else match split_on c s' with
           | [] => [String a ""]
           | w :: ws => String a w :: ws
           end
  end.

(** [s.ends_with(c)]. *)
Fixpoint ends_with (c : Ascii.ascii) (s : string) : bool :=
  match s with
  | EmptyString => false
  | String a EmptyString => Ascii.eqb a c
  | String _ s' => ends_with c s'
  end.

Fixpoint join_with (c : Ascii.ascii) (l : list string) : string :=
  match l with
  | [] => ""
  | [w] => w
  | w :: l' => w +:+ String c (join_with c l')
  end.

Lemma split_on_nonempty c s : split_on c s ≠ [].
Proof. destruct s as [|a s]; simpl; [done |]. case_match; [done | by case_match]. Qed.

Lemma split_on_app c a b : split_on c (a +:+ String c b) = split_on c a ++ split_on c b.
Proof.
  induction a as [|x a IH].
  { change ("" +:+ String c b) with (String c b). simpl. by rewrite Ascii.eqb_refl. }
  rewrite string_app_cons. simpl. destruct (Ascii.eqb_spec x c) as [->|Hne].
  - by rewrite IH.
  - rewrite IH. pose proof (split_on_nonempty c a). by destruct (split_on c a).
Qed.

Lemma join_split c s : join_with c (split_on c s) = s.
Proof.
  induction s as [|a s IH]; [done |]. simpl. pose proof (split_on_nonempty c s).
  destruct (Ascii.eqb_spec a c) as [->|Hne].
  - destruct (split_on c s) as [|w ws]; [done |]. by rewrite <-IH.
  - destruct (split_on c s) as [|w [|w' ws]]; [done | |]; by rewrite <-IH.
Qed.

Lemma join_app c l1 l2 :
  l1 ≠ [] → l2 ≠ [] → join_with c (l1 ++ l2) = join_with c l1 +:+ String c (join_with c l2).
Proof.
  intros H1 H2. induction l1 as [|w l1 IH]; [done |].
  destruct l1 as [|w' l1]; [by destruct l2 |].
  change (join_with c ((w :: w' :: l1) ++ l2))
    with (w +:+ String c (join_with c ((w' :: l1) ++ l2))).
  rewrite IH by done.
  change (join_with c (w :: w' :: l1)) with (w +:+ String c (join_with c (w' :: l1))).
  by rewrite str_app_assoc, string_app_cons.
Qed.

Lemma ends_with_iff c s : ends_with c s = true ↔ ∃ t, s = t +:+ String c "".
Proof.
  induction s as [|a s IH]; [split; [done |] |].
  { intros [t Ht]. destruct t; by rewrite ?string_app_cons in Ht. }
  destruct s as [|b s].
  - simpl. rewrite Ascii.eqb_eq. split; [intros ->; by exists "" |].
    intros [[|x t] Ht]; [by injection Ht |]. rewrite string_app_cons in Ht.
    injection Ht as _ Ht. by destruct t.
  - change (ends_with c (String a (String b s))) with (ends_with c (String b s)).
    rewrite IH. split; intros [t Ht].
    + exists (String a t). by rewrite string_app_cons, <-Ht.
    + destruct t as [|x t]; [discriminate |]. rewrite string_app_cons in Ht.
      exists t. congruence.
Qed.

(** [Vec<String>::sort]: byte order. *)
Definition str_le (a b : string) : Prop := String.leb a b = true.
#[export] Instance str_le_dec a b : Decision (str_le a b).
Proof. unfold str_le. apply _. Defined.
#[export] Instance str_le_total : Total str_le.
Proof. intros a b. unfold str_le. destruct (String.leb_total a b) as [H|H]; auto. Qed.
Definition sort_strings (l : list string) : list string := merge_sort str_le l.

Lemma sort_strings_perm l : sort_strings l ≡ₚ l.
Proof. apply merge_sort_Permutation. Qed.
Lemma sort_strings_sorted l : Sorted str_le (sort_strings l).
Proof. apply Sorted_merge_sort, _. Qed.

(** ** Lists *)

Lemma list_filter_ext {A} (P Q : A → Prop) `{∀ x, Decision (P x), ∀ x, Decision (Q x)}
    (l : list A) :
  (∀ x, x ∈ l → P x ↔ Q x) → filter P l = filter Q l.
Proof.
  induction l as [|x l IH]; intros HPQ; [done |]. rewrite !filter_cons.
  assert (Hl : filter P l = filter Q l) by (apply IH; intros y Hy; apply HPQ; by right).
  destruct (decide (P x)) as [HP|HP]; destruct (decide (Q x)) as [HQ|HQ]; rewrite ?Hl; try done;
    exfalso; rewrite (HPQ x) in HP by (by left); done.
Qed.
