(* ===== verification/Fsm.v ===== *)
(** * Persisted enums of the kernel

    The closed vocabularies that [raxis-types] stores as SQL text:
    [crates/types/src/fsm.rs], [capability.rs], [escalation.rs], [intent.rs] and
    [operator_cert.rs].  Each module has the source's constructors, the
    [as_sql_str]/[from_sql_str] tables as the source writes them (two separate
    tables), the predicates on the enum, and the [SqlEnum] instance that proves
    the tables inverse. *)

From S2P Require Import Prelude.

(** ** [InitiativeState]: lifecycle state of an initiative *)
Module InitiativeState.
Inductive InitiativeState : Type :=
  | Draft
  | ApprovedPlan
  | Executing
  | Blocked
  | RecoveryRequired
  | Completed
  | Failed
  | Aborted.
#[export] Instance initiative_state_eq_dec : EqDecision InitiativeState.
Proof. solve_decision. Defined.

Definition initiative_state_as_sql_str (x : InitiativeState) : string :=
  match x with
  | Draft => "Draft"
  | ApprovedPlan => "ApprovedPlan"
  | Executing => "Executing"
  | Blocked => "Blocked"
  | RecoveryRequired => "RecoveryRequired"
  | Completed => "Completed"
  | Failed => "Failed"
  | Aborted => "Aborted"
  end.

Definition initiative_state_from_sql_str : string → option InitiativeState :=
  sql_parse [
    ("Draft", Draft);
    ("ApprovedPlan", ApprovedPlan);
    ("Executing", Executing);
    ("Blocked", Blocked);
    ("RecoveryRequired", RecoveryRequired);
    ("Completed", Completed);
    ("Failed", Failed);
    ("Aborted", Aborted) ].

Definition initiative_state_all : list InitiativeState :=
  [Draft; ApprovedPlan; Executing; Blocked; RecoveryRequired; Completed; Failed; Aborted].

#[export] Program Instance initiative_state_sql : SqlEnum InitiativeState := {|
  as_sql_str := initiative_state_as_sql_str;
  from_sql_str := initiative_state_from_sql_str |}.
Next Obligation. sql_enum_round_trip. Qed.
Next Obligation. sql_enum_canonical. Qed.
End InitiativeState.
Abbreviation InitiativeState := InitiativeState.InitiativeState.
Export (hints) InitiativeState.
(** ** [TaskState]: lifecycle state of a task *)
Module TaskState.
Inductive TaskState : Type :=
  | Admitted_
  | Running
  | GatesPending
  | Completed
  | Failed
  | Aborted
  | Cancelled
  | BlockedRecoveryPending.
#[export] Instance task_state_eq_dec : EqDecision TaskState.
Proof. solve_decision. Defined.

Definition task_state_as_sql_str (x : TaskState) : string :=
  match x with
  | Admitted_ => "Admitted"
  | Running => "Running"
  | GatesPending => "GatesPending"
  | Completed => "Completed"
  | Failed => "Failed"
  | Aborted => "Aborted"
  | Cancelled => "Cancelled"
  | BlockedRecoveryPending => "BlockedRecoveryPending"
  end.

Definition task_state_from_sql_str : string → option TaskState :=
  sql_parse [
    ("Admitted", Admitted_);
    ("Running", Running);
    ("GatesPending", GatesPending);
    ("Completed", Completed);
    ("Failed", Failed);
    ("Aborted", Aborted);
    ("Cancelled", Cancelled);
    ("BlockedRecoveryPending", BlockedRecoveryPending) ].

Definition task_state_all : list TaskState :=
  [Admitted_; GatesPending; Running; Completed; Failed; Aborted; Cancelled; BlockedRecoveryPending].

#[export] Program Instance task_state_sql : SqlEnum TaskState := {|
  as_sql_str := task_state_as_sql_str;
  from_sql_str := task_state_from_sql_str |}.
Next Obligation. sql_enum_round_trip. Qed.
Next Obligation. sql_enum_canonical. Qed.
End TaskState.
Abbreviation TaskState := TaskState.TaskState.
Export (hints) TaskState.
(** ** [BlockReason] *)
Module BlockReason.
Inductive BlockReason : Type :=
  | OperatorAbort
  | WitnessTimeout
  | KernelCrash
  | BudgetExhausted.
#[export] Instance block_reason_eq_dec : EqDecision BlockReason.
Proof. solve_decision. Defined.

Definition block_reason_as_sql_str (x : BlockReason) : string :=
  match x with
  | OperatorAbort => "OperatorAbort"
  | WitnessTimeout => "WitnessTimeout"
  | KernelCrash => "KernelCrash"
  | BudgetExhausted => "BudgetExhausted"
  end.

Definition block_reason_from_sql_str : string → option BlockReason :=
  sql_parse [
    ("OperatorAbort", OperatorAbort);
    ("WitnessTimeout", WitnessTimeout);
    ("KernelCrash", KernelCrash);
    ("BudgetExhausted", BudgetExhausted) ].

#[export] Program Instance block_reason_sql : SqlEnum BlockReason := {|
  as_sql_str := block_reason_as_sql_str;
  from_sql_str := block_reason_from_sql_str |}.
Next Obligation. sql_enum_round_trip. Qed.
Next Obligation. sql_enum_canonical. Qed.
End BlockReason.
Abbreviation BlockReason := BlockReason.BlockReason.
Export (hints) BlockReason.
(** ** [SessionAgentType]: the agent kind of a planner session *)
Module SessionAgentType.
Inductive SessionAgentType : Type :=
  | Orchestrator
  | Executor
  | Reviewer.
#[export] Instance session_agent_type_eq_dec : EqDecision SessionAgentType.
Proof. solve_decision. Defined.

Definition session_agent_type_as_sql_str (x : SessionAgentType) : string :=
  match x with
  | Orchestrator => "Orchestrator"
  | Executor => "Executor"
  | Reviewer => "Reviewer"
  end.

Definition session_agent_type_from_sql_str : string → option SessionAgentType :=
  sql_parse [
    ("Orchestrator", Orchestrator);
    ("Executor", Executor);
    ("Reviewer", Reviewer) ].

Definition session_agent_type_all : list SessionAgentType :=
  [Orchestrator; Executor; Reviewer].

#[export] Program Instance session_agent_type_sql : SqlEnum SessionAgentType := {|
  as_sql_str := session_agent_type_as_sql_str;
  from_sql_str := session_agent_type_from_sql_str |}.
Next Obligation. sql_enum_round_trip. Qed.
Next Obligation. sql_enum_canonical. Qed.
End SessionAgentType.
Abbreviation SessionAgentType := SessionAgentType.SessionAgentType.
Export (hints) SessionAgentType.
(** ** [CloneStrategy] *)
Module CloneStrategy.
Inductive CloneStrategy : Type :=
  | Full
  | Blobless
  | Sparse.
#[export] Instance clone_strategy_eq_dec : EqDecision CloneStrategy.
Proof. solve_decision. Defined.

Definition clone_strategy_as_sql_str (x : CloneStrategy) : string :=
  match x with
  | Full => "full"
  | Blobless => "blobless"
  | Sparse => "sparse"
  end.

Definition clone_strategy_from_sql_str : string → option CloneStrategy :=
  sql_parse [
    ("full", Full);
    ("blobless", Blobless);
    ("sparse", Sparse) ].

Definition clone_strategy_all : list CloneStrategy :=
  [Full; Blobless; Sparse].

#[export] Program Instance clone_strategy_sql : SqlEnum CloneStrategy := {|
  as_sql_str := clone_strategy_as_sql_str;
  from_sql_str := clone_strategy_from_sql_str |}.
Next Obligation. sql_enum_round_trip. Qed.
Next Obligation. sql_enum_canonical. Qed.
End CloneStrategy.
Abbreviation CloneStrategy := CloneStrategy.CloneStrategy.
Export (hints) CloneStrategy.
(** ** [SubtaskActivationState] *)
Module SubtaskActivationState.
Inductive SubtaskActivationState : Type :=
  | PendingActivation
  | Active
  | Completed
  | Failed.
#[export] Instance subtask_activation_state_eq_dec : EqDecision SubtaskActivationState.
Proof. solve_decision. Defined.

Definition subtask_activation_state_as_sql_str (x : SubtaskActivationState) : string :=
  match x with
  | PendingActivation => "PendingActivation"
  | Active => "Active"
  | Completed => "Completed"
  | Failed => "Failed"
  end.

Definition subtask_activation_state_from_sql_str : string → option SubtaskActivationState :=
  sql_parse [
    ("PendingActivation", PendingActivation);
    ("Active", Active);
    ("Completed", Completed);
    ("Failed", Failed) ].

Definition subtask_activation_state_all : list SubtaskActivationState :=
  [PendingActivation; Active; Completed; Failed].

#[export] Program Instance subtask_activation_state_sql : SqlEnum SubtaskActivationState := {|
  as_sql_str := subtask_activation_state_as_sql_str;
  from_sql_str := subtask_activation_state_from_sql_str |}.
Next Obligation. sql_enum_round_trip. Qed.
Next Obligation. sql_enum_canonical. Qed.
End SubtaskActivationState.
Abbreviation SubtaskActivationState := SubtaskActivationState.SubtaskActivationState.
Export (hints) SubtaskActivationState.
(** ** [IntegrationMergeAttemptState] *)
Module IntegrationMergeAttemptState.
Inductive IntegrationMergeAttemptState : Type :=
  | AwaitingPreMergeVerifiers
  | PreMergeVerifiersPassed
  | BlockedByPreMergeVerifier
  | CompletedAdvanceApplied
  | DiscardedCandidateOnly
  | DiscardedCrashRecovery.
#[export] Instance merge_attempt_state_eq_dec : EqDecision IntegrationMergeAttemptState.
Proof. solve_decision. Defined.

Definition merge_attempt_state_as_sql_str (x : IntegrationMergeAttemptState) : string :=
  match x with
  | AwaitingPreMergeVerifiers => "AwaitingPreMergeVerifiers"
  | PreMergeVerifiersPassed => "PreMergeVerifiersPassed"
  | BlockedByPreMergeVerifier => "BlockedByPreMergeVerifier"
  | CompletedAdvanceApplied => "CompletedAdvanceApplied"
  | DiscardedCandidateOnly => "DiscardedCandidateOnly"
  | DiscardedCrashRecovery => "DiscardedCrashRecovery"
  end.

Definition merge_attempt_state_from_sql_str : string → option IntegrationMergeAttemptState :=
  sql_parse [
    ("AwaitingPreMergeVerifiers", AwaitingPreMergeVerifiers);
    ("PreMergeVerifiersPassed", PreMergeVerifiersPassed);
    ("BlockedByPreMergeVerifier", BlockedByPreMergeVerifier);
    ("CompletedAdvanceApplied", CompletedAdvanceApplied);
    ("DiscardedCandidateOnly", DiscardedCandidateOnly);
    ("DiscardedCrashRecovery", DiscardedCrashRecovery) ].

Definition merge_attempt_state_all : list IntegrationMergeAttemptState :=
  [AwaitingPreMergeVerifiers; PreMergeVerifiersPassed; BlockedByPreMergeVerifier; CompletedAdvanceApplied; DiscardedCandidateOnly; DiscardedCrashRecovery].

#[export] Program Instance merge_attempt_state_sql : SqlEnum IntegrationMergeAttemptState := {|
  as_sql_str := merge_attempt_state_as_sql_str;
  from_sql_str := merge_attempt_state_from_sql_str |}.
Next Obligation. sql_enum_round_trip. Qed.
Next Obligation. sql_enum_canonical. Qed.
End IntegrationMergeAttemptState.
Abbreviation IntegrationMergeAttemptState := IntegrationMergeAttemptState.IntegrationMergeAttemptState.
Export (hints) IntegrationMergeAttemptState.
(** ** [IntegrationMergeAttemptDiscardReason] *)
Module IntegrationMergeAttemptDiscardReason.
Inductive IntegrationMergeAttemptDiscardReason : Type :=
  | VerifierBlocked
  | CandidateComputationFailed
  | CrashRecovery
  | MergeAbortedByOperator.
#[export] Instance discard_reason_eq_dec : EqDecision IntegrationMergeAttemptDiscardReason.
Proof. solve_decision. Defined.

Definition discard_reason_as_sql_str (x : IntegrationMergeAttemptDiscardReason) : string :=
  match x with
  | VerifierBlocked => "verifier_blocked"
  | CandidateComputationFailed => "candidate_computation_failed"
  | CrashRecovery => "crash_recovery"
  | MergeAbortedByOperator => "merge_aborted_by_operator"
  end.

Definition discard_reason_from_sql_str : string → option IntegrationMergeAttemptDiscardReason :=
  sql_parse [
    ("verifier_blocked", VerifierBlocked);
    ("candidate_computation_failed", CandidateComputationFailed);
    ("crash_recovery", CrashRecovery);
    ("merge_aborted_by_operator", MergeAbortedByOperator) ].

Definition discard_reason_all : list IntegrationMergeAttemptDiscardReason :=
  [VerifierBlocked; CandidateComputationFailed; CrashRecovery; MergeAbortedByOperator].

#[export] Program Instance discard_reason_sql : SqlEnum IntegrationMergeAttemptDiscardReason := {|
  as_sql_str := discard_reason_as_sql_str;
  from_sql_str := discard_reason_from_sql_str |}.
Next Obligation. sql_enum_round_trip. Qed.
Next Obligation. sql_enum_canonical. Qed.
End IntegrationMergeAttemptDiscardReason.
Abbreviation IntegrationMergeAttemptDiscardReason := IntegrationMergeAttemptDiscardReason.IntegrationMergeAttemptDiscardReason.
Export (hints) IntegrationMergeAttemptDiscardReason.
(** ** [TerminalCriteria] *)
Module TerminalCriteria.
Inductive TerminalCriteria : Type :=
  | AllTasksSucceeded
  | AllTasksTerminal
  | MinSuccessCount.
#[export] Instance terminal_criteria_eq_dec : EqDecision TerminalCriteria.
Proof. solve_decision. Defined.

Definition terminal_criteria_as_sql_str (x : TerminalCriteria) : string :=
  match x with
  | AllTasksSucceeded => "AllTasksSucceeded"
  | AllTasksTerminal => "AllTasksTerminal"
  | MinSuccessCount => "MinSuccessCount"
  end.

Definition terminal_criteria_from_sql_str : string → option TerminalCriteria :=
  sql_parse [
    ("AllTasksSucceeded", AllTasksSucceeded);
    ("AllTasksTerminal", AllTasksTerminal);
    ("MinSuccessCount", MinSuccessCount) ].

#[export] Program Instance terminal_criteria_sql : SqlEnum TerminalCriteria := {|
  as_sql_str := terminal_criteria_as_sql_str;
  from_sql_str := terminal_criteria_from_sql_str |}.
Next Obligation. sql_enum_round_trip. Qed.
Next Obligation. sql_enum_canonical. Qed.
End TerminalCriteria.
Abbreviation TerminalCriteria := TerminalCriteria.TerminalCriteria.
Export (hints) TerminalCriteria.
(** ** [ReviewVerdict]: a reviewer's submitted verdict *)
Module ReviewVerdict.
Inductive ReviewVerdict : Type :=
  | Approved
  | Rejected.
#[export] Instance review_verdict_eq_dec : EqDecision ReviewVerdict.
Proof. solve_decision. Defined.

Definition review_verdict_as_sql_str (x : ReviewVerdict) : string :=
  match x with
  | Approved => "Approved"
  | Rejected => "Rejected"
  end.

Definition review_verdict_from_sql_str : string → option ReviewVerdict :=
  sql_parse [
    ("Approved", Approved);
    ("Rejected", Rejected) ].

Definition review_verdict_all : list ReviewVerdict :=
  [Approved; Rejected].

#[export] Program Instance review_verdict_sql : SqlEnum ReviewVerdict := {|
  as_sql_str := review_verdict_as_sql_str;
  from_sql_str := review_verdict_from_sql_str |}.
Next Obligation. sql_enum_round_trip. Qed.
Next Obligation. sql_enum_canonical. Qed.
End ReviewVerdict.
Abbreviation ReviewVerdict := ReviewVerdict.ReviewVerdict.
Export (hints) ReviewVerdict.
(** ** [PlanBundleNonceOutcome] *)
Module PlanBundleNonceOutcome.
Inductive PlanBundleNonceOutcome : Type :=
  | Admitted_
  | TerminallyRejected.
#[export] Instance nonce_outcome_eq_dec : EqDecision PlanBundleNonceOutcome.
Proof. solve_decision. Defined.

Definition nonce_outcome_as_sql_str (x : PlanBundleNonceOutcome) : string :=
  match x with
  | Admitted_ => "Admitted"
  | TerminallyRejected => "TerminallyRejected"
  end.

Definition nonce_outcome_from_sql_str : string → option PlanBundleNonceOutcome :=
  sql_parse [
    ("Admitted", Admitted_);
    ("TerminallyRejected", TerminallyRejected) ].

Definition nonce_outcome_all : list PlanBundleNonceOutcome :=
  [Admitted_; TerminallyRejected].

#[export] Program Instance nonce_outcome_sql : SqlEnum PlanBundleNonceOutcome := {|
  as_sql_str := nonce_outcome_as_sql_str;
  from_sql_str := nonce_outcome_from_sql_str |}.
Next Obligation. sql_enum_round_trip. Qed.
Next Obligation. sql_enum_canonical. Qed.
End PlanBundleNonceOutcome.
Abbreviation PlanBundleNonceOutcome := PlanBundleNonceOutcome.PlanBundleNonceOutcome.
Export (hints) PlanBundleNonceOutcome.
(** ** [EscalationStatus] ([crates/types/src/escalation.rs]) *)
Module EscalationStatus.
Inductive EscalationStatus : Type :=
  | Pending
  | Approved
  | Denied
  | TimedOut
  | TokenExpired
  | Consumed.
#[export] Instance escalation_status_eq_dec : EqDecision EscalationStatus.
Proof. solve_decision. Defined.

Definition escalation_status_as_sql_str (x : EscalationStatus) : string :=
  match x with
  | Pending => "Pending"
  | Approved => "Approved"
  | Denied => "Denied"
  | TimedOut => "TimedOut"
  | TokenExpired => "TokenExpired"
  | Consumed => "Consumed"
  end.

Definition escalation_status_from_sql_str : string → option EscalationStatus :=
  sql_parse [
    ("Pending", Pending);
    ("Approved", Approved);
    ("Denied", Denied);
    ("TimedOut", TimedOut);
    ("TokenExpired", TokenExpired);
    ("Consumed", Consumed) ].

Definition escalation_status_all : list EscalationStatus :=
  [Pending; Approved; Denied; TimedOut; TokenExpired; Consumed].

#[export] Program Instance escalation_status_sql : SqlEnum EscalationStatus := {|
  as_sql_str := escalation_status_as_sql_str;
  from_sql_str := escalation_status_from_sql_str |}.
Next Obligation. sql_enum_round_trip. Qed.
Next Obligation. sql_enum_canonical. Qed.
End EscalationStatus.
Abbreviation EscalationStatus := EscalationStatus.EscalationStatus.
Export (hints) EscalationStatus.
(** ** [CapabilityClass] ([crates/types/src/capability.rs]): [as_str] and [parse_persisted] *)
Module CapabilityClass.
Inductive CapabilityClass : Type :=
  | WriteSecrets
  | NetworkEgress
  | BreakGlass
  | InfraRead
  | InfraMutate
  | DeployStaging
  | DeployProduction.
#[export] Instance capability_class_eq_dec : EqDecision CapabilityClass.
Proof. solve_decision. Defined.

Definition capability_class_as_sql_str (x : CapabilityClass) : string :=
  match x with
  | WriteSecrets => "WriteSecrets"
  | NetworkEgress => "NetworkEgress"
  | BreakGlass => "BreakGlass"
  | InfraRead => "InfraRead"
  | InfraMutate => "InfraMutate"
  | DeployStaging => "DeployStaging"
  | DeployProduction => "DeployProduction"
  end.

Definition capability_class_from_sql_str : string → option CapabilityClass :=
  sql_parse [
    ("WriteSecrets", WriteSecrets);
    ("NetworkEgress", NetworkEgress);
    ("BreakGlass", BreakGlass);
    ("InfraRead", InfraRead);
    ("InfraMutate", InfraMutate);
    ("DeployStaging", DeployStaging);
    ("DeployProduction", DeployProduction) ].

#[export] Program Instance capability_class_sql : SqlEnum CapabilityClass := {|
  as_sql_str := capability_class_as_sql_str;
  from_sql_str := capability_class_from_sql_str |}.
Next Obligation. sql_enum_round_trip. Qed.
Next Obligation. sql_enum_canonical. Qed.
End CapabilityClass.
Abbreviation CapabilityClass := CapabilityClass.CapabilityClass.
Export (hints) CapabilityClass.
(** ** [DelegationStatus] ([crates/types/src/capability.rs])

    [NotGranted] is synthetic: it has no at-rest text. *)
Module DelegationStatus.
Inductive DelegationStatus : Type :=
  | Active
  | StaleOnNextUse
  | RenewalRequired
  | Expired
  | NotGranted.
#[export] Instance delegation_status_eq_dec : EqDecision DelegationStatus.
Proof. solve_decision. Defined.

Definition delegation_status_stored : list DelegationStatus :=
  [Active; StaleOnNextUse; RenewalRequired].

Definition delegation_status_as_sql_str (x : DelegationStatus) : option string :=
  match x with
  | Active => Some "Active"
  | StaleOnNextUse => Some "StaleOnNextUse"
  | RenewalRequired => Some "RenewalRequired"
  | Expired => Some "Expired"
  | NotGranted => None
  end.

Definition delegation_status_from_sql_str : string → option DelegationStatus :=
  sql_parse [
    ("Active", Active);
    ("StaleOnNextUse", StaleOnNextUse);
    ("RenewalRequired", RenewalRequired);
    ("Expired", Expired) ].

Definition allows_use (x : DelegationStatus) : bool :=
  match x with Active | StaleOnNextUse => true | _ => false end.

Definition is_stale_use (x : DelegationStatus) : bool :=
  bool_decide (x = StaleOnNextUse).

Lemma delegation_status_round_trip x s :
  delegation_status_as_sql_str x = Some s ↔ delegation_status_from_sql_str s = Some x.
Proof.
  split.
  - destruct x; intros [= <-]; reflexivity.
  - intros H%sql_parse_Some.
    repeat (apply elem_of_cons in H as [[= -> ->]|H]; [reflexivity |]).
    by apply elem_of_nil in H.
Qed.
End DelegationStatus.
Abbreviation DelegationStatus := DelegationStatus.DelegationStatus.
Export (hints) DelegationStatus.

(** ** [IntentKind] ([crates/types/src/intent.rs]) *)
Module IntentKind.
Inductive IntentKind : Type :=
  | SingleCommit
  | IntegrationMerge
  | CompleteTask
  | ReportFailure
  | ActivateSubTask
  | RetrySubTask
  | SubmitReview
  | StructuredOutput
  | BatchActivateSubTasks.
#[export] Instance intent_kind_eq_dec : EqDecision IntentKind.
Proof. solve_decision. Defined.

Definition intent_kind_as_str (k : IntentKind) : string :=
  match k with
  | SingleCommit => "SingleCommit"
  | IntegrationMerge => "IntegrationMerge"
  | CompleteTask => "CompleteTask"
  | ReportFailure => "ReportFailure"
  | ActivateSubTask => "ActivateSubTask"
  | RetrySubTask => "RetrySubTask"
  | SubmitReview => "SubmitReview"
  | StructuredOutput => "StructuredOutput"
  | BatchActivateSubTasks => "BatchActivateSubTasks"
  end.
End IntentKind.
Abbreviation IntentKind := IntentKind.IntentKind.
Export (hints) IntentKind.

(** ** Predicates *)

Definition initiative_is_terminal (x : InitiativeState) : bool :=
  match x with
  | InitiativeState.Completed | InitiativeState.Failed | InitiativeState.Aborted => true
  | _ => false
  end.

Definition task_is_terminal (x : TaskState) : bool :=
  match x with
  | TaskState.Completed | TaskState.Aborted | TaskState.Cancelled => true
  | _ => false
  end.

Definition task_is_blocked (x : TaskState) : bool :=
  match x with
  | TaskState.BlockedRecoveryPending | TaskState.GatesPending => true
  | _ => false
  end.

Definition implies_can_delegate (x : SessionAgentType) : bool :=
  match x with SessionAgentType.Orchestrator => true | _ => false end.

Definition activation_is_terminal (x : SubtaskActivationState) : bool :=
  match x with
  | SubtaskActivationState.Completed | SubtaskActivationState.Failed => true
  | _ => false
  end.

Definition merge_attempt_is_terminal (x : IntegrationMergeAttemptState) : bool :=
  match x with
  | IntegrationMergeAttemptState.BlockedByPreMergeVerifier
  | IntegrationMergeAttemptState.CompletedAdvanceApplied
  | IntegrationMergeAttemptState.DiscardedCandidateOnly
  | IntegrationMergeAttemptState.DiscardedCrashRecovery => true
  | _ => false
  end.

Definition discard_terminal_state (r : IntegrationMergeAttemptDiscardReason) :
    IntegrationMergeAttemptState :=
  match r with
  | IntegrationMergeAttemptDiscardReason.VerifierBlocked =>
      IntegrationMergeAttemptState.BlockedByPreMergeVerifier
  | IntegrationMergeAttemptDiscardReason.CandidateComputationFailed =>
      IntegrationMergeAttemptState.DiscardedCandidateOnly
  | IntegrationMergeAttemptDiscardReason.CrashRecovery
  | IntegrationMergeAttemptDiscardReason.MergeAbortedByOperator =>
      IntegrationMergeAttemptState.DiscardedCrashRecovery
  end.

(** ** The CHECK lists

    [crates/store/src/migration.rs] renders each enum column's
    [CHECK (col IN (..))] list from the enum's [ALL] table with
    [check_in_clause]; a text passes the CHECK when it is in that list. *)

Definition check_in {A} `{SqlEnum A} (all : list A) (s : string) : bool :=
  bool_decide (s ∈ as_sql_str <$> all).

(** The CHECK admits exactly the texts the kernel can read back. *)
Definition check_matches_parser {A} `{SqlEnum A} (all : list A) : Prop :=
  ∀ s, check_in all s = true ↔ is_Some (from_sql_str (A:=A) s).

Lemma check_matches_parser_all {A} `{SqlEnum A} (all : list A) :
  (∀ a, a ∈ all) → check_matches_parser all.
Proof.
  intros Hall s. unfold check_in. rewrite bool_decide_eq_true, list_elem_of_fmap. split.
  - intros (a & -> & _). rewrite from_as_sql_str. eauto.
  - intros [a Ha]. exists a. split; [by apply from_sql_str_canonical | done].
Qed.

Ltac all_listed := intros []; set_solver.

(** For every enum column whose DDL CHECK list is rendered from the enum's
    [ALL] table, the CHECK accepts a text exactly when [from_sql_str] parses it,
    so a row SQLite accepted never holds a state the kernel cannot read, and
    every state the kernel writes is accepted. *)
Theorem check_lists_match_parsers :
  check_matches_parser InitiativeState.initiative_state_all ∧
  check_matches_parser TaskState.task_state_all ∧
  check_matches_parser SessionAgentType.session_agent_type_all ∧
  check_matches_parser CloneStrategy.clone_strategy_all ∧
  check_matches_parser SubtaskActivationState.subtask_activation_state_all ∧
  check_matches_parser IntegrationMergeAttemptState.merge_attempt_state_all ∧
  check_matches_parser IntegrationMergeAttemptDiscardReason.discard_reason_all ∧
  check_matches_parser ReviewVerdict.review_verdict_all ∧
  check_matches_parser PlanBundleNonceOutcome.nonce_outcome_all ∧
  check_matches_parser EscalationStatus.escalation_status_all.
Proof. split_and!; apply check_matches_parser_all; all_listed. Qed.
