(* ===== verification/Store.v ===== *)
(** * The kernel store

    The SQLite tables the modelled code reads and writes, one record per row
    with the columns of the final schema ([crates/store/src/migration.rs]) that
    the code touches, and one field of [Db] per table.  A table with a primary
    key is a finite map on the key; [task_dag_edges] and the exported-path
    snapshots are row lists, because the code reads them as row sets.  Enum
    columns hold text, as they do at rest.  [PRAGMA foreign_keys = ON] is set by
    [Store::open]; [fk_deferred] is the connection's [defer_foreign_keys] flag,
    which a transaction may raise and which [COMMIT] and [ROLLBACK] clear. *)

From S2P Require Import Prelude Fsm.

(** InitiativeRow: one row of [initiatives] (migrations 1, 8 and 19). *)
Record InitiativeRow := MkInitiativeRow {
  ini_state : string;
  ini_terminal_criteria_json : string;
  ini_plan_artifact_sha256 : string;
  ini_created_at : Z;
  ini_approved_at : option Z;
  ini_completed_at : option Z;
  ini_orchestrator_no_progress_respawn_count : Z;
  ini_plan_bundle_sha256 : option string;
}.
#[export] Instance InitiativeRow_eq_dec : EqDecision InitiativeRow.
Proof. solve_decision. Defined.

Definition upd_ini_orchestrator_no_progress_respawn_count (f : Z → Z) (r : InitiativeRow) : InitiativeRow :=
  MkInitiativeRow r.(ini_state) r.(ini_terminal_criteria_json) (r.(ini_plan_artifact_sha256)) r.(ini_created_at) r.(ini_approved_at) r.(ini_completed_at) (f r.(ini_orchestrator_no_progress_respawn_count)) r.(ini_plan_bundle_sha256).

Definition upd_ini_state (f : string → string) (r : InitiativeRow) : InitiativeRow :=
  MkInitiativeRow (f r.(ini_state)) r.(ini_terminal_criteria_json) (r.(ini_plan_artifact_sha256)) r.(ini_created_at) r.(ini_approved_at) r.(ini_completed_at) r.(ini_orchestrator_no_progress_respawn_count) r.(ini_plan_bundle_sha256).

(** TaskRow: one row of [tasks] (migrations 1, 7, 12, 23 and 30), keyed by [task_id]. *)
Record TaskRow := MkTaskRow {
  task_initiative_id : string;
  task_lane_id : string;
  task_state : string;
  task_block_reason : option string;
  task_actor : string;
  task_policy_epoch : Z;
  task_admitted_at : Z;
  task_transitioned_at : Z;
  task_session_id : option string;
  task_evaluation_sha : option string;
  task_base_sha : option string;
  task_submitted_claims_json : option string;
  task_admission_reserved_units : option Z;
  task_actual_cost : Z;
  task_review_verdict : option string;
  task_name : option string;
  task_is_gate_fixup : bool;
  task_parent_gate_failure_task_id : option string;
  task_parent_gate_failure_type : option string;
  task_cumulative_token_cost_micros : Z;
}.
#[export] Instance TaskRow_eq_dec : EqDecision TaskRow.
Proof. solve_decision. Defined.

(** EdgeRow: one row of [task_dag_edges]. *)
Record EdgeRow := MkEdgeRow {
  edge_initiative_id : string;
  edge_predecessor : string;
  edge_successor : string;
  edge_satisfied : bool;
}.
#[export] Instance EdgeRow_eq_dec : EqDecision EdgeRow.
Proof. solve_decision. Defined.

(** ActivationRow: one row of [subtask_activations] (migration 5), keyed by [activation_id]. *)
Record ActivationRow := MkActivationRow {
  act_task_id : string;
  act_initiative_id : string;
  act_state : string;
  act_session_id : option string;
  act_evaluation_sha : option string;
  act_crash_retry_count : Z;
  act_review_reject_count : Z;
  act_created_at : Z;
  act_activated_at : option Z;
  act_terminated_at : option Z;
}.
#[export] Instance ActivationRow_eq_dec : EqDecision ActivationRow.
Proof. solve_decision. Defined.

(** ReservationRow: one row of [lane_budget_reservations], keyed by [(lane_id, task_id)]. *)
Record ReservationRow := MkReservationRow {
  resv_cost : Z;
  resv_at : Z;
}.
#[export] Instance ReservationRow_eq_dec : EqDecision ReservationRow.
Proof. solve_decision. Defined.

(** SessionRow: one row of [sessions] (migrations 1, 5 and 18), keyed by [session_id]. *)
Record SessionRow := MkSessionRow {
  sess_role_id : string;
  sess_token : string;
  sess_lineage_id : string;
  sess_worktree_root : option string;
  sess_base_sha : option string;
  sess_base_tracking_ref : option string;
  sess_fetch_quota : Z;
  sess_sequence_number : Z;
  sess_created_at : Z;
  sess_expires_at : Z;
  sess_revoked : bool;
  sess_revoked_at : option Z;
  sess_agent_type : option string;
  sess_can_delegate : bool;
  sess_initiative_id : option string;
}.
#[export] Instance SessionRow_eq_dec : EqDecision SessionRow.
Proof. solve_decision. Defined.

Definition upd_sess_sequence_number (f : Z → Z) (r : SessionRow) : SessionRow :=
  MkSessionRow r.(sess_role_id) r.(sess_token) r.(sess_lineage_id) r.(sess_worktree_root) r.(sess_base_sha) r.(sess_base_tracking_ref) r.(sess_fetch_quota) (f r.(sess_sequence_number)) r.(sess_created_at) r.(sess_expires_at) r.(sess_revoked) r.(sess_revoked_at) r.(sess_agent_type) r.(sess_can_delegate) r.(sess_initiative_id).

(** NonceRow: one row of [nonce_cache], keyed by [(session_id, sequence_num)]. *)
Record NonceRow := MkNonceRow {
  nonce_envelope : string;
  nonce_observed_at : Z;
}.
#[export] Instance NonceRow_eq_dec : EqDecision NonceRow.
Proof. solve_decision. Defined.

(** VerifierTokenRow: one row of [verifier_run_tokens] (migrations 1, 27 and 28), keyed by [verifier_run_id]. *)
Record VerifierTokenRow := MkVerifierTokenRow {
  vrt_task_id : string;
  vrt_gate_type : string;
  vrt_evaluation_sha : string;
  vrt_token_hash : string;
  vrt_issued_at : Z;
  vrt_expires_at : Z;
  vrt_consumed : bool;
  vrt_consumed_at : option Z;
  vrt_gate_source : string;
  vrt_gate_hook : string;
  vrt_image_alias : option string;
  vrt_command : option string;
  vrt_on_failure : option string;
  vrt_status : string;
  vrt_failure_reason : option string;
}.
#[export] Instance VerifierTokenRow_eq_dec : EqDecision VerifierTokenRow.
Proof. solve_decision. Defined.

(** ExportRow: one row of [task_exported_path_snapshots]. *)
Record ExportRow := MkExportRow {
  export_task_id : string;
  export_path : string;
}.
#[export] Instance ExportRow_eq_dec : EqDecision ExportRow.
Proof. solve_decision. Defined.

(** IntentRangeRow: one row of [task_intent_ranges], keyed by [(task_id, head_sha)]. *)
Record IntentRangeRow := MkIntentRangeRow {
  range_base_sha : string;
  range_accepted_at : Z;
}.
#[export] Instance IntentRangeRow_eq_dec : EqDecision IntentRangeRow.
Proof. solve_decision. Defined.

(** WitnessRow: one row of [witness_records], keyed by [verifier_run_id]. *)
Record WitnessRow := MkWitnessRow {
  wit_evaluation_sha : string;
  wit_task_id : string;
  wit_gate_type : string;
  wit_result_class : string;
  wit_blob_sha256 : string;
  wit_blob_path : string;
  wit_recorded_at : Z;
}.
#[export] Instance WitnessRow_eq_dec : EqDecision WitnessRow.
Proof. solve_decision. Defined.

(** DelegationRow: one row of [delegations] as [kernel/src/authority/delegation.rs]
    writes and reads it, keyed by [delegation_id]. *)
Record DelegationRow := MkDelegationRow {
  deleg_session_id : string;
  deleg_capability_class : string;
  deleg_scope_json : option string;
  deleg_granted_by : string;
  deleg_granted_at : Z;
  deleg_expires_at : Z;
  deleg_use_count : Z;
  deleg_max_uses : option Z;
  deleg_status : string;
}.
#[export] Instance DelegationRow_eq_dec : EqDecision DelegationRow.
Proof. solve_decision. Defined.

(** PlanArtifactRow: one row of [plan_bundle_artifacts] (migration 8). *)
Record PlanArtifactRow := MkPlanArtifactRow {
  pba_bundle_sha256 : string;
  pba_artifact_name : string;
  pba_artifact_bytes : string;
}.
#[export] Instance PlanArtifactRow_eq_dec : EqDecision PlanArtifactRow.
Proof. solve_decision. Defined.

(** EscalationRow: one row of [escalations] (migrations 1 and 20), keyed by
    [escalation_id]. *)
Record EscalationRow := MkEscalationRow {
  esc_session_id : string;
  esc_task_id : string;
  esc_lineage_id : string;
  esc_initiative_id : string;
  esc_class : string;
  esc_requested_scope_json : string;
  esc_justification : string;
  esc_idempotency_key : string;
  esc_status : string;
  esc_created_at : Z;
  esc_timeout_at : Z;
  esc_resolved_at : option Z;
  esc_resolution_notes : option string;
  esc_initiator : string;
}.
#[export] Instance EscalationRow_eq_dec : EqDecision EscalationRow.
Proof. solve_decision. Defined.

(** ApprovalTokenRow: one row of [approval_tokens], keyed by [approval_token_id]. *)
Record ApprovalTokenRow := MkApprovalTokenRow {
  apt_escalation_id : string;
  apt_scope_json : string;
  apt_issued_by_operator_id : string;
  apt_policy_epoch : Z;
  apt_token_hash : string;
  apt_nonce : string;
  apt_issued_at : Z;
  apt_expires_at : Z;
  apt_consumed : bool;
}.
#[export] Instance ApprovalTokenRow_eq_dec : EqDecision ApprovalTokenRow.
Proof. solve_decision. Defined.

(** RateLimitRow: one row of [lineage_rate_limits], keyed by [lineage_id]. *)
Record RateLimitRow := MkRateLimitRow {
  rl_window_start : Z;
  rl_escalation_count : Z;
  rl_quarantined : Z;
  rl_quarantine_trigger_count : Z;
  rl_quarantined_at : option Z;
}.
#[export] Instance RateLimitRow_eq_dec : EqDecision RateLimitRow.
Proof. solve_decision. Defined.

(** The whole store. *)
Record Db := MkDb {
  initiatives : gmap string InitiativeRow;
  tasks : gmap string TaskRow;
  dag_edges : list EdgeRow;
  activations : gmap string ActivationRow;
  reservations : gmap (string * string) ReservationRow;
  sessions : gmap string SessionRow;
  nonce_cache : gmap (string * Z) NonceRow;
  verifier_tokens : gmap string VerifierTokenRow;
  exported_paths : list ExportRow;
  intent_ranges : gmap (string * string) IntentRangeRow;
  witness_records : gmap string WitnessRow;
  delegations : gmap string DelegationRow;
  signed_plan_artifacts : gmap string string;
  plan_bundle_artifacts : list PlanArtifactRow;
  escalations : gmap string EscalationRow;
  approval_tokens : gmap string ApprovalTokenRow;
  lineage_rate_limits : gmap string RateLimitRow;
  fk_deferred : bool;
}.

Definition empty_db : Db :=
  MkDb ∅ ∅ [] ∅ ∅ ∅ ∅ ∅ [] ∅ ∅ ∅ ∅ [] ∅ ∅ ∅ false.

Definition on_initiatives (f : gmap string InitiativeRow → gmap string InitiativeRow) (d : Db) : Db :=
  MkDb (f d.(initiatives)) d.(tasks) d.(dag_edges) d.(activations) d.(reservations) d.(sessions) d.(nonce_cache) d.(verifier_tokens) d.(exported_paths) d.(intent_ranges) d.(witness_records) d.(delegations) d.(signed_plan_artifacts) d.(plan_bundle_artifacts) d.(escalations) d.(approval_tokens) d.(lineage_rate_limits) d.(fk_deferred).

Definition on_tasks (f : gmap string TaskRow → gmap string TaskRow) (d : Db) : Db :=
  MkDb d.(initiatives) (f d.(tasks)) d.(dag_edges) d.(activations) d.(reservations) d.(sessions) d.(nonce_cache) d.(verifier_tokens) d.(exported_paths) d.(intent_ranges) d.(witness_records) d.(delegations) d.(signed_plan_artifacts) d.(plan_bundle_artifacts) d.(escalations) d.(approval_tokens) d.(lineage_rate_limits) d.(fk_deferred).

Definition on_dag_edges (f : list EdgeRow → list EdgeRow) (d : Db) : Db :=
  MkDb d.(initiatives) d.(tasks) (f d.(dag_edges)) d.(activations) d.(reservations) d.(sessions) d.(nonce_cache) d.(verifier_tokens) d.(exported_paths) d.(intent_ranges) d.(witness_records) d.(delegations) d.(signed_plan_artifacts) d.(plan_bundle_artifacts) d.(escalations) d.(approval_tokens) d.(lineage_rate_limits) d.(fk_deferred).

Definition on_activations (f : gmap string ActivationRow → gmap string ActivationRow) (d : Db) : Db :=
  MkDb d.(initiatives) d.(tasks) d.(dag_edges) (f d.(activations)) d.(reservations) d.(sessions) d.(nonce_cache) d.(verifier_tokens) d.(exported_paths) d.(intent_ranges) d.(witness_records) d.(delegations) d.(signed_plan_artifacts) d.(plan_bundle_artifacts) d.(escalations) d.(approval_tokens) d.(lineage_rate_limits) d.(fk_deferred).

Definition on_reservations (f : gmap (string * string) ReservationRow → gmap (string * string) ReservationRow) (d : Db) : Db :=
  MkDb d.(initiatives) d.(tasks) d.(dag_edges) d.(activations) (f d.(reservations)) d.(sessions) d.(nonce_cache) d.(verifier_tokens) d.(exported_paths) d.(intent_ranges) d.(witness_records) d.(delegations) d.(signed_plan_artifacts) d.(plan_bundle_artifacts) d.(escalations) d.(approval_tokens) d.(lineage_rate_limits) d.(fk_deferred).

Definition on_sessions (f : gmap string SessionRow → gmap string SessionRow) (d : Db) : Db :=
  MkDb d.(initiatives) d.(tasks) d.(dag_edges) d.(activations) d.(reservations) (f d.(sessions)) d.(nonce_cache) d.(verifier_tokens) d.(exported_paths) d.(intent_ranges) d.(witness_records) d.(delegations) d.(signed_plan_artifacts) d.(plan_bundle_artifacts) d.(escalations) d.(approval_tokens) d.(lineage_rate_limits) d.(fk_deferred).

Definition on_nonce_cache (f : gmap (string * Z) NonceRow → gmap (string * Z) NonceRow) (d : Db) : Db :=
  MkDb d.(initiatives) d.(tasks) d.(dag_edges) d.(activations) d.(reservations) d.(sessions) (f d.(nonce_cache)) d.(verifier_tokens) d.(exported_paths) d.(intent_ranges) d.(witness_records) d.(delegations) d.(signed_plan_artifacts) d.(plan_bundle_artifacts) d.(escalations) d.(approval_tokens) d.(lineage_rate_limits) d.(fk_deferred).

Definition on_verifier_tokens (f : gmap string VerifierTokenRow → gmap string VerifierTokenRow) (d : Db) : Db :=
  MkDb d.(initiatives) d.(tasks) d.(dag_edges) d.(activations) d.(reservations) d.(sessions) d.(nonce_cache) (f d.(verifier_tokens)) d.(exported_paths) d.(intent_ranges) d.(witness_records) d.(delegations) d.(signed_plan_artifacts) d.(plan_bundle_artifacts) d.(escalations) d.(approval_tokens) d.(lineage_rate_limits) d.(fk_deferred).

Definition on_exported_paths (f : list ExportRow → list ExportRow) (d : Db) : Db :=
  MkDb d.(initiatives) d.(tasks) d.(dag_edges) d.(activations) d.(reservations) d.(sessions) d.(nonce_cache) d.(verifier_tokens) (f d.(exported_paths)) d.(intent_ranges) d.(witness_records) d.(delegations) d.(signed_plan_artifacts) d.(plan_bundle_artifacts) d.(escalations) d.(approval_tokens) d.(lineage_rate_limits) d.(fk_deferred).

Definition on_intent_ranges (f : gmap (string * string) IntentRangeRow → gmap (string * string) IntentRangeRow) (d : Db) : Db :=
  MkDb d.(initiatives) d.(tasks) d.(dag_edges) d.(activations) d.(reservations) d.(sessions) d.(nonce_cache) d.(verifier_tokens) d.(exported_paths) (f d.(intent_ranges)) d.(witness_records) d.(delegations) d.(signed_plan_artifacts) d.(plan_bundle_artifacts) d.(escalations) d.(approval_tokens) d.(lineage_rate_limits) d.(fk_deferred).

Definition on_witness_records (f : gmap string WitnessRow → gmap string WitnessRow) (d : Db) : Db :=
  MkDb d.(initiatives) d.(tasks) d.(dag_edges) d.(activations) d.(reservations) d.(sessions) d.(nonce_cache) d.(verifier_tokens) d.(exported_paths) d.(intent_ranges) (f d.(witness_records)) d.(delegations) d.(signed_plan_artifacts) d.(plan_bundle_artifacts) d.(escalations) d.(approval_tokens) d.(lineage_rate_limits) d.(fk_deferred).

Definition on_delegations (f : gmap string DelegationRow → gmap string DelegationRow) (d : Db) : Db :=
  MkDb d.(initiatives) d.(tasks) d.(dag_edges) d.(activations) d.(reservations) d.(sessions) d.(nonce_cache) d.(verifier_tokens) d.(exported_paths) d.(intent_ranges) d.(witness_records) (f d.(delegations)) d.(signed_plan_artifacts) d.(plan_bundle_artifacts) d.(escalations) d.(approval_tokens) d.(lineage_rate_limits) d.(fk_deferred).

Definition on_escalations (f : gmap string EscalationRow → gmap string EscalationRow) (d : Db) : Db :=
  MkDb d.(initiatives) d.(tasks) d.(dag_edges) d.(activations) d.(reservations) d.(sessions) d.(nonce_cache) d.(verifier_tokens) d.(exported_paths) d.(intent_ranges) d.(witness_records) d.(delegations) d.(signed_plan_artifacts) d.(plan_bundle_artifacts) (f d.(escalations)) d.(approval_tokens) d.(lineage_rate_limits) d.(fk_deferred).

Definition on_approval_tokens (f : gmap string ApprovalTokenRow → gmap string ApprovalTokenRow) (d : Db) : Db :=
  MkDb d.(initiatives) d.(tasks) d.(dag_edges) d.(activations) d.(reservations) d.(sessions) d.(nonce_cache) d.(verifier_tokens) d.(exported_paths) d.(intent_ranges) d.(witness_records) d.(delegations) d.(signed_plan_artifacts) d.(plan_bundle_artifacts) d.(escalations) (f d.(approval_tokens)) d.(lineage_rate_limits) d.(fk_deferred).

Definition on_lineage_rate_limits (f : gmap string RateLimitRow → gmap string RateLimitRow) (d : Db) : Db :=
  MkDb d.(initiatives) d.(tasks) d.(dag_edges) d.(activations) d.(reservations) d.(sessions) d.(nonce_cache) d.(verifier_tokens) d.(exported_paths) d.(intent_ranges) d.(witness_records) d.(delegations) d.(signed_plan_artifacts) d.(plan_bundle_artifacts) d.(escalations) d.(approval_tokens) (f d.(lineage_rate_limits)) d.(fk_deferred).

Definition on_fk_deferred (f : bool → bool) (d : Db) : Db :=
  MkDb d.(initiatives) d.(tasks) d.(dag_edges) d.(activations) d.(reservations) d.(sessions) d.(nonce_cache) d.(verifier_tokens) d.(exported_paths) d.(intent_ranges) d.(witness_records) d.(delegations) d.(signed_plan_artifacts) d.(plan_bundle_artifacts) d.(escalations) d.(approval_tokens) d.(lineage_rate_limits) (f d.(fk_deferred)).

(** A store computation: the connection under its mutex. *)
Abbreviation M := (SE Db).

(** A foreign-key check made by one statement: with enforcement deferred it
    always passes and is left to [COMMIT]. *)
Definition fk_ok (d : Db) (b : bool) : bool := d.(fk_deferred) || b.

Definition has_task (d : Db) (t : string) : bool := bool_decide (is_Some (d.(tasks) !! t)).
Definition has_initiative (d : Db) (i : string) : bool :=
  bool_decide (is_Some (d.(initiatives) !! i)).

(** The foreign keys of [tasks] and [task_dag_edges], as [COMMIT] checks them
    when enforcement was deferred. *)
Definition edge_fk_ok (d : Db) (e : EdgeRow) : bool :=
  has_initiative d e.(edge_initiative_id) && has_task d e.(edge_predecessor)
    && has_task d e.(edge_successor).
Definition tasks_fk_ok (d : Db) : bool :=
  bool_decide (map_Forall (λ _ r, has_initiative d r.(task_initiative_id) = true) d.(tasks)).
Definition commit_fk_ok (d : Db) : bool :=
  forallb (edge_fk_ok d) d.(dag_edges) && tasks_fk_ok d.

(** [conn.transaction()] followed by [PRAGMA defer_foreign_keys = 1]: the body
    runs with enforcement deferred, [COMMIT] checks what was deferred. *)
Definition with_deferred_tx {E A} (sql_err : SqlError → E) (m : M E A) : M E A := λ d,
  match m (on_fk_deferred (λ _, true) d) with
  | (Ok a, d') =>
      if commit_fk_ok d' then (Ok a, on_fk_deferred (λ _, false) d')
      else (Err (sql_err SqlConstraintForeignKey), d)
  | (Err e, _) => (Err e, d)
  end.
