(* ===== verification/TaskTransitions.v ===== *)
(** * Task state transitions

    [kernel/src/initiatives/task_transitions.rs]: the one place that moves
    [tasks.state], with its side effects on [subtask_activations] and on the
    orchestrator no-progress counter, and the no-progress counter itself
    ([kernel/src/orch_respawn_ceiling.rs]).  The wall clock is the argument
    [now]; the audit sink is a parameter. *)

From S2P Require Import Prelude Fsm Store.

(** ** Errors *)

(** The variants of [LifecycleError] that task and initiative operations
    raise (the plan-validation variants are raised by plan admission only). *)
Module LifecycleError.
Inductive LifecycleError : Type :=
  | InitiativeNotFound (initiative_id : string)
  | InitiativeTerminal (current_state : string)
  | TaskNotFound (task_id : string)
  | TaskNotFailed (current_state : string)
  | TaskNotRetryable (current_state : string)
  | TaskNotAbortable (current_state : string)
  | PlanSignatureInvalid (reason : string)
  | PlanInvalid (reason : string)
  | Sql (e : SqlError).
#[export] Instance LifecycleError_eq_dec : EqDecision LifecycleError.
Proof. solve_decision. Defined.
End LifecycleError.
Abbreviation LifecycleError := LifecycleError.LifecycleError.
Export (hints) LifecycleError.

(** ** Actors and records *)

Inductive TransitionActor : Type :=
  | Kernel
  | Operator (fingerprint : string).

Definition as_audit_string (a : TransitionActor) : string :=
  match a with
  | Kernel => "kernel"
  | Operator fingerprint => "operator:" +:+ fingerprint
  end.

Record TaskTransitionRecord := MkTaskTransitionRecord {
  rec_task_id : string;
  rec_initiative_id : string;
  rec_from_state : TaskState;
  rec_to_state : TaskState;
  rec_actor : TransitionActor;
  rec_transitioned_at : Z;
  rec_policy_epoch : Z;
}.

(** ** The transition table *)

Definition is_legal_transition (from to : TaskState) : bool :=
  match from, to with
  | TaskState.Admitted_, TaskState.Running => true
  | TaskState.Admitted_, TaskState.GatesPending => true
  | TaskState.Admitted_, TaskState.Aborted => true
  | TaskState.Admitted_, TaskState.Cancelled => true
  | TaskState.Running, TaskState.Completed => true
  | TaskState.Running, TaskState.Failed => true
  | TaskState.Running, TaskState.GatesPending => true
  | TaskState.Running, TaskState.Admitted_ => true
  | TaskState.Running, TaskState.Aborted => true
  | TaskState.Running, TaskState.Cancelled => true
  | TaskState.GatesPending, TaskState.Admitted_ => true
  | TaskState.GatesPending, TaskState.Failed => true
  | TaskState.GatesPending, TaskState.Aborted => true
  | TaskState.GatesPending, TaskState.Cancelled => true
  | TaskState.BlockedRecoveryPending, TaskState.Admitted_ => true
  | TaskState.BlockedRecoveryPending, TaskState.Aborted => true
  | TaskState.Failed, TaskState.Admitted_ => true
  | _, _ => false
  end.

(** ** The no-progress counter *)

Definition MAX_ORCH_NO_PROGRESS_RESPAWNS : Z := 3.
Definition MAX_SCALED_ORCH_NO_PROGRESS_RESPAWNS : Z := 40.

(** [usize] is 64 bits wide on every supported target. *)
Definition scaled_no_progress_respawn_ceiling (task_count reviewer_count gate_count : Z) : Z :=
  let shape := sat_add_u64 (sat_add_u64 (sat_add_u64 task_count reviewer_count) gate_count) 2 in
  let capped :=
    if bool_decide (shape ≤ u32_max)%Z then shape else MAX_SCALED_ORCH_NO_PROGRESS_RESPAWNS in
  Z.min (Z.max capped MAX_ORCH_NO_PROGRESS_RESPAWNS) MAX_SCALED_ORCH_NO_PROGRESS_RESPAWNS.

Inductive CeilingOutcome : Type :=
  | Permitted (count_after_increment : Z)
  | Exceeded (count_after_increment max_attempts : Z).

(** [UPDATE .. SET c = c + 1], then read it back.  At [i64::MAX] SQLite turns
    the sum into a REAL, which the read refuses. *)
Definition increment_no_progress_count_with_ceiling_in_tx
    (initiative_id : string) (max_attempts : Z) : M SqlError CeilingOutcome := λ d,
  match d.(initiatives) !! initiative_id with
  | None => (Ok (Permitted 0), d)
  | Some r =>
      let c := (r.(ini_orchestrator_no_progress_respawn_count) + 1)%Z in
      if bool_decide (c ≤ i64_max)%Z then
        let d' := on_initiatives
          <[initiative_id := upd_ini_orchestrator_no_progress_respawn_count (λ _, c) r]> d in
        let count := if bool_decide (0 ≤ c ≤ u32_max)%Z then c else u32_max in
        (Ok (if bool_decide (max_attempts < count)%Z
             then Exceeded count max_attempts else Permitted count), d')
      else (Err SqlInvalidColumnType, d)
  end.

Definition increment_no_progress_count_in_tx (initiative_id : string) : M SqlError CeilingOutcome :=
  increment_no_progress_count_with_ceiling_in_tx initiative_id MAX_ORCH_NO_PROGRESS_RESPAWNS.

Definition reset_row (r : InitiativeRow) : InitiativeRow :=
  if bool_decide (0 < r.(ini_orchestrator_no_progress_respawn_count))%Z
  then upd_ini_orchestrator_no_progress_respawn_count (λ _, 0%Z) r else r.

Definition reset_no_progress_count_in_tx (initiative_id : string) : M SqlError unit :=
  modify (on_initiatives (alter reset_row initiative_id)).

Definition lookup_initiative_id_for_task_in_tx (task_id : string) : M SqlError (option string) :=
  gets (λ d, task_initiative_id <$> d.(tasks) !! task_id).

(** ** The transition *)

(** The table's CHECK constraint on [subtask_activations]. *)
Definition activation_check (r : ActivationRow) : bool :=
  let some {A} (o : option A) := match o with Some _ => true | None => false end in
  (String.eqb r.(act_state) "PendingActivation" && negb (some r.(act_session_id))
     && negb (some r.(act_activated_at)) && negb (some r.(act_terminated_at)))
  || (String.eqb r.(act_state) "Active" && some r.(act_session_id)
     && some r.(act_activated_at) && negb (some r.(act_terminated_at)))
  || ((String.eqb r.(act_state) "Completed" || String.eqb r.(act_state) "Failed")
     && some r.(act_activated_at) && some r.(act_terminated_at)).

(** [UPDATE subtask_activations SET .. WHERE p], which fails as a whole when a
    rewritten row violates the CHECK constraint. *)
Definition update_activations (p : ActivationRow → bool) (f : ActivationRow → ActivationRow)
    : M SqlError unit := λ d,
  if bool_decide (map_Forall (λ _ r, p r = true → activation_check (f r) = true) d.(activations))
  then (Ok tt, on_activations (fmap (λ r, if p r then f r else r)) d)
  else (Err SqlConstraintCheck, d).

Definition close_activation (st : string) (now : Z) (r : ActivationRow) : ActivationRow :=
  MkActivationRow r.(act_task_id) r.(act_initiative_id) st r.(act_session_id)
    r.(act_evaluation_sha) r.(act_crash_retry_count) r.(act_review_reject_count)
    r.(act_created_at) r.(act_activated_at) (Some now).

Definition active_for (task_id : string) (r : ActivationRow) : bool :=
  String.eqb r.(act_task_id) task_id && String.eqb r.(act_state) "Active".

(** [UPDATE tasks SET state, transitioned_at, block_reason, actor]. *)
Definition write_task_state (st : string) (now : Z) (reason : option string) (actor : string)
    (r : TaskRow) : TaskRow :=
  MkTaskRow r.(task_initiative_id) r.(task_lane_id) st reason actor r.(task_policy_epoch)
    r.(task_admitted_at) now r.(task_session_id) r.(task_evaluation_sha) r.(task_base_sha)
    r.(task_submitted_claims_json) r.(task_admission_reserved_units) r.(task_actual_cost)
    r.(task_review_verdict) r.(task_name) r.(task_is_gate_fixup)
    r.(task_parent_gate_failure_task_id) r.(task_parent_gate_failure_type)
    r.(task_cumulative_token_cost_micros).

(** Runnable and success states clear [block_reason], the others store it. *)
Definition stored_block_reason (new_state : TaskState) (reason : option string) : option string :=
  match new_state with
  | TaskState.Running | TaskState.Admitted_ | TaskState.Completed => None
  | TaskState.GatesPending | TaskState.Failed | TaskState.BlockedRecoveryPending => reason
  | TaskState.Aborted | TaskState.Cancelled => reason
  end.

(** The states that close the task's active sub-task activation. *)
Definition closes_activation (new_state : TaskState) : bool :=
  match new_state with
  | TaskState.Completed | TaskState.Failed | TaskState.Aborted | TaskState.Cancelled => true
  | _ => false
  end.

Definition activation_state_terminal (new_state : TaskState) : string :=
  match new_state with TaskState.Completed => "Completed" | _ => "Failed" end.

Definition transition_task_in_tx (now : Z) (task_id : string) (new_state : TaskState)
    (block_reason : option string) (actor : TransitionActor)
    : M LifecycleError TaskTransitionRecord :=
  row ← (λ d, (ok_or (d.(tasks) !! task_id) (LifecycleError.TaskNotFound task_id), d));
  current_state ← lift_result
    (ok_or (from_sql_str row.(task_state))
       (LifecycleError.TaskNotAbortable row.(task_state)));
  _ ← guard_or (is_legal_transition current_state new_state)
        (LifecycleError.TaskNotAbortable row.(task_state));
  _ ← modify (on_tasks (alter
        (write_task_state (as_sql_str new_state) now
           (stored_block_reason new_state block_reason) (as_audit_string actor)) task_id));
  _ ← (if closes_activation new_state
       then se_map_err LifecycleError.Sql
              (update_activations (active_for task_id)
                 (close_activation (activation_state_terminal new_state) now))
       else mret tt);
  _ ← se_map_err LifecycleError.Sql (reset_no_progress_count_in_tx row.(task_initiative_id));
  mret (MkTaskTransitionRecord task_id row.(task_initiative_id) current_state new_state actor
          now (Z.max row.(task_policy_epoch) 0)).

Definition transition_task (now : Z) (task_id : string) (new_state : TaskState)
    (block_reason : option string) (actor : TransitionActor)
    : M LifecycleError TaskTransitionRecord :=
  with_tx (transition_task_in_tx now task_id new_state block_reason actor).

(** ** Paired audit writes *)

(** [AuditEventKind::TaskStateChanged] with the envelope fields of [emit]. *)
Record TaskStateChanged := MkTaskStateChanged {
  tsc_task_id : string;
  tsc_from_state : string;
  tsc_to_state : string;
  tsc_actor : string;
  tsc_policy_epoch : Z;
  tsc_session : option string;
  tsc_initiative : string;
}.

Section audit.
  (** The sink's state and its [emit], which may fail. *)
  Context {Sink : Type} (emit : TaskStateChanged → Sink → bool * Sink).

(** A failed emit is logged and dropped. *)
Definition emit_task_state_changed_audit (r : TaskTransitionRecord) (session_id : option string)
    (k : Sink) : Sink :=
  (emit (MkTaskStateChanged r.(rec_task_id) (as_sql_str r.(rec_from_state))
     (as_sql_str r.(rec_to_state)) (as_audit_string r.(rec_actor)) r.(rec_policy_epoch)
     session_id r.(rec_initiative_id)) k).2.

Definition transition_task_with_audit (now : Z) (task_id : string) (new_state : TaskState)
    (block_reason : option string) (actor : TransitionActor) (session_id : option string)
    : SE (Db * Sink) LifecycleError TaskTransitionRecord := λ '(d, k),
  match transition_task now task_id new_state block_reason actor d with
  | (Ok r, d') => (Ok r, (d', emit_task_state_changed_audit r session_id k))
  | (Err e, d') => (Err e, (d', k))
  end.
End audit.

(** ** Specification *)

(** Every row of [subtask_activations] satisfies the table's CHECK, which
    SQLite guarantees of any store it accepted. *)
Definition activations_ok (d : Db) : Prop :=
  map_Forall (λ _ r, activation_check r = true) d.(activations).
#[export] Instance activations_ok_dec d : Decision (activations_ok d).
Proof. unfold activations_ok. apply _. Defined.

(** What a transition promises to have done to the store. *)
Definition transitioned (now : Z) (task_id : string) (new_state : TaskState)
    (block_reason : option string) (actor : TransitionActor) (row : TaskRow) (d : Db) : Db :=
  MkDb (alter reset_row row.(task_initiative_id) d.(initiatives))
    (<[task_id := write_task_state (as_sql_str new_state) now
          (stored_block_reason new_state block_reason) (as_audit_string actor) row]> d.(tasks))
    d.(dag_edges)
    (if closes_activation new_state
     then (λ r, if active_for task_id r
                then close_activation (activation_state_terminal new_state) now r else r)
          <$> d.(activations)
     else d.(activations))
    d.(reservations) d.(sessions) d.(nonce_cache) d.(verifier_tokens) d.(exported_paths)
    d.(intent_ranges) d.(witness_records) d.(delegations) d.(signed_plan_artifacts)
    d.(plan_bundle_artifacts) d.(escalations) d.(approval_tokens)
    d.(lineage_rate_limits) d.(fk_deferred).

Lemma close_activation_check st now task_id r :
  active_for task_id r = true → activation_check r = true →
  st = "Completed" ∨ st = "Failed" → activation_check (close_activation st now r) = true.
Proof.
  unfold active_for, activation_check, close_activation; simpl.
  rewrite !andb_true_iff, !String.eqb_eq. intros [_ ->]; simpl.
  destruct (act_session_id r), (act_activated_at r), (act_terminated_at r); simpl; try done;
    by intros _ [-> | ->].
Qed.

Lemma activation_state_terminal_cases ns :
  activation_state_terminal ns = "Completed" ∨ activation_state_terminal ns = "Failed".
Proof. destruct ns; auto. Qed.

Lemma update_activations_ok d task_id now ns :
  activations_ok d →
  update_activations (active_for task_id) (close_activation (activation_state_terminal ns) now) d
  = (Ok tt, on_activations (fmap (λ r, if active_for task_id r
       then close_activation (activation_state_terminal ns) now r else r)) d).
Proof.
  intros Hok. unfold update_activations. rewrite bool_decide_eq_true_2; [done |].
  intros k r Hr Hact. eapply close_activation_check; eauto using activation_state_terminal_cases.
Qed.

(** The whole run of a transition, by the three reads it makes. *)
Lemma transition_task_in_tx_run d now t ns reason actor :
  activations_ok d →
  transition_task_in_tx now t ns reason actor d =
  match d.(tasks) !! t with
  | None => (Err (LifecycleError.TaskNotFound t), d)
  | Some row =>
      match from_sql_str row.(task_state) with
      | None => (Err (LifecycleError.TaskNotAbortable row.(task_state)), d)
      | Some cur =>
          if is_legal_transition cur ns then
            (Ok (MkTaskTransitionRecord t row.(task_initiative_id) cur ns actor now
                   (Z.max row.(task_policy_epoch) 0)),
             transitioned now t ns reason actor row d)
          else (Err (LifecycleError.TaskNotAbortable row.(task_state)), d)
      end
  end.
Proof.
  intros Hok. unfold transition_task_in_tx, transitioned. se_unfold.
  destruct (tasks d !! t) as [row|] eqn:Hrow; [| done]. unfold ok_or at 1.
  destruct (from_sql_str (task_state row)) as [cur|]; [| done]. unfold ok_or.
  destruct (is_legal_transition cur ns); [| done].
  unfold on_tasks at 1. rewrite (alter_Some_insert _ _ _ _ Hrow).
  destruct (closes_activation ns); [| done].
  rewrite update_activations_ok by done. reflexivity.
Qed.

Lemma transition_task_run d now t ns reason actor :
  activations_ok d →
  transition_task now t ns reason actor d = transition_task_in_tx now t ns reason actor d.
Proof.
  intros Hok. unfold transition_task, with_tx.
  rewrite transition_task_in_tx_run by done.
  by repeat case_match; simplify_eq.
Qed.

Lemma transitioned_activations_ok now t ns reason actor row d :
  activations_ok d → activations_ok (transitioned now t ns reason actor row d).
Proof.
  intros Hok k r. unfold transitioned; simpl.
  destruct (closes_activation ns); [| apply Hok].
  rewrite lookup_fmap_Some. intros (r0 & <- & Hr0).
  specialize (Hok _ _ Hr0). simpl in Hok.
  destruct (active_for t r0) eqn:Hact; [| done].
  eapply close_activation_check; eauto using activation_state_terminal_cases.
Qed.

Lemma transition_task_ok_inv d now t ns reason actor r d' :
  activations_ok d →
  transition_task now t ns reason actor d = (Ok r, d') →
  ∃ row cur, d.(tasks) !! t = Some row ∧ from_sql_str row.(task_state) = Some cur ∧
    is_legal_transition cur ns = true ∧
    r = MkTaskTransitionRecord t row.(task_initiative_id) cur ns actor now
          (Z.max row.(task_policy_epoch) 0) ∧
    d' = transitioned now t ns reason actor row d.
Proof.
  intros Hok. rewrite transition_task_run, transition_task_in_tx_run by done.
  repeat case_match; intros [=]; subst; eauto 10.
Qed.

Lemma transition_task_preserves_activations_ok now t ns reason actor :
  preserves activations_ok (transition_task now t ns reason actor).
Proof.
  intros d Hok. rewrite transition_task_run, transition_task_in_tx_run by done.
  repeat case_match; simpl; auto using transitioned_activations_ok.
Qed.

(** A request to [transition_task], and the store after a sequence of them,
    failed ones included. *)
Record TransitionReq := MkTransitionReq {
  req_now : Z; req_task : string; req_state : TaskState;
  req_reason : option string; req_actor : TransitionActor }.

Definition run_req (d : Db) (q : TransitionReq) : Db :=
  (transition_task q.(req_now) q.(req_task) q.(req_state) q.(req_reason) q.(req_actor) d).2.
Definition run_reqs (d : Db) (qs : list TransitionReq) : Db := foldl run_req d qs.

Lemma terminal_no_exit s s' : task_is_terminal s = true → is_legal_transition s s' = false.
Proof. by destruct s, s'. Qed.

Lemma run_req_terminal_row d q t row s :
  activations_ok d → d.(tasks) !! t = Some row →
  from_sql_str row.(task_state) = Some s → task_is_terminal s = true →
  (run_req d q).(tasks) !! t = Some row.
Proof.
  intros Hok Hrow Hs Hterm. unfold run_req.
  rewrite transition_task_run, transition_task_in_tx_run by done.
  destruct (decide (t = req_task q)) as [->|Hne].
  - by rewrite Hrow, Hs, terminal_no_exit.
  - repeat case_match; simpl; rewrite ?lookup_insert_ne by done; done.
Qed.

(** The one-step relation of the transition table. *)
Definition legal_step (s s' : TaskState) : Prop := is_legal_transition s s' = true.

Lemma legal_step_to_admitted s : task_is_terminal s = false → rtc legal_step s TaskState.Admitted_.
Proof. destruct s; intros [=]; try apply rtc_refl; by apply rtc_once. Qed.

Lemma legal_step_from_admitted s :
  s ≠ TaskState.BlockedRecoveryPending → rtc legal_step TaskState.Admitted_ s.
Proof.
  intros Hs. destruct s; try done; try apply rtc_refl; try (by apply rtc_once);
    apply rtc_l with TaskState.Running; try done; by apply rtc_once.
Qed.

(** [n + 1] consecutive increments, with the outcome of the last one. *)
Fixpoint increment_times (n : nat) (initiative_id : string) (max_attempts : Z)
    : M SqlError CeilingOutcome :=
  match n with
  | O => increment_no_progress_count_with_ceiling_in_tx initiative_id max_attempts
  | S n' =>
      _ ← increment_no_progress_count_with_ceiling_in_tx initiative_id max_attempts;
      increment_times n' initiative_id max_attempts
  end.

Lemma increment_times_outcome n i max d r :
  d.(initiatives) !! i = Some r →
  (0 ≤ r.(ini_orchestrator_no_progress_respawn_count))%Z →
  let c := (r.(ini_orchestrator_no_progress_respawn_count) + Z.of_nat n + 1)%Z in
  (c ≤ u32_max)%Z →
  (increment_times n i max d).1 = Ok (if bool_decide (max < c)%Z then Exceeded c max else Permitted c).
Proof.
  revert d r. induction n as [|n IH]; intros d r Hr Hpos c Hc; simpl;
    unfold mbind, se_bind, increment_no_progress_count_with_ceiling_in_tx at 1; rewrite Hr;
    rewrite (bool_decide_eq_true_2 (_ ≤ i64_max)%Z) by (subst c; widths; lia).
  - simpl. replace (ini_orchestrator_no_progress_respawn_count r + 1)%Z with c by (subst c; lia).
    by rewrite !(bool_decide_eq_true_2 (0 ≤ c ≤ u32_max)%Z) by (subst c; lia).
  - erewrite IH; [| apply lookup_insert_eq | simpl; lia | simpl; subst c; lia].
    simpl. by replace (_ + 1 + Z.of_nat n + 1)%Z with c by (subst c; lia).
Qed.

(** ** Properties *)

(** C9: [transition_task] succeeds exactly when the task's row exists, its state
    text parses and the table allows the edge; it then writes the new state, the
    actor, the timestamp and the block reason on that row, closes the task's
    active activations when the new state ends the task's work, clears the
    initiative's no-progress counter, changes nothing else, and returns the
    record of exactly that step. *)
Theorem transition_task_ok_iff d now t ns reason actor r d' :
  activations_ok d →
  transition_task now t ns reason actor d = (Ok r, d') ↔
  ∃ row cur, d.(tasks) !! t = Some row ∧ row.(task_state) = as_sql_str cur ∧
    is_legal_transition cur ns = true ∧
    r = MkTaskTransitionRecord t row.(task_initiative_id) cur ns actor now
          (Z.max row.(task_policy_epoch) 0) ∧
    d' = transitioned now t ns reason actor row d.
Proof.
  intros Hok. split.
  - intros (row & cur & Hrow & Hcur & H)%transition_task_ok_inv; [| done].
    apply from_sql_str_iff in Hcur. eauto.
  - intros (row & cur & Hrow & Hcur & Hleg & -> & ->).
    rewrite transition_task_run, transition_task_in_tx_run, Hrow by done.
    by rewrite (proj2 (from_sql_str_iff _ _) Hcur), Hleg.
Qed.

(** A rejected transition says why and leaves the store untouched: the task
    is unknown, or its state text does not allow the edge. *)
Theorem transition_task_err_iff d now t ns reason actor e d' :
  activations_ok d →
  transition_task now t ns reason actor d = (Err e, d') ↔
  d' = d ∧
  ((d.(tasks) !! t = None ∧ e = LifecycleError.TaskNotFound t) ∨
   (∃ row, d.(tasks) !! t = Some row ∧ e = LifecycleError.TaskNotAbortable row.(task_state) ∧
      ∀ cur, row.(task_state) = as_sql_str cur → is_legal_transition cur ns = false)).
Proof.
  intros Hok. rewrite transition_task_run, transition_task_in_tx_run by done.
  destruct (tasks d !! t) as [row|]; [| naive_solver].
  destruct (from_sql_str (task_state row)) as [cur|] eqn:Hcur.
  - pose proof (from_sql_str_canonical _ _ Hcur) as Htxt.
    destruct (is_legal_transition cur ns) eqn:Hleg.
    + split; [done |]. intros [_ [[? _]|(row' & [= <-] & _ & H)]]; [done |].
      specialize (H _ Htxt). congruence.
    + split; [intros [= <- <-]; split; [done |]; right; exists row | naive_solver].
      split_and!; [done..|]. intros cur' Heq. rewrite Htxt in Heq.
      by apply as_sql_str_inj in Heq as <-.
  - split; [intros [= <- <-]; split; [done |]; right; exists row | naive_solver].
    split_and!; [done..|]. intros cur' Heq. by rewrite Heq, from_as_sql_str in Hcur.
Qed.

(** C2: no sequence of transition requests, whatever the tasks, targets, actors
    and times, changes the row of a task that is [Completed], [Aborted] or
    [Cancelled]. *)
Theorem terminal_task_frozen qs d t row s :
  activations_ok d → d.(tasks) !! t = Some row →
  from_sql_str row.(task_state) = Some s → task_is_terminal s = true →
  (run_reqs d qs).(tasks) !! t = Some row.
Proof.
  unfold run_reqs. revert d. induction qs as [|q qs IH]; intros d Hok Hrow Hs Hterm; [done |].
  simpl. apply IH; eauto using run_req_terminal_row.
  by apply transition_task_preserves_activations_ok.
Qed.

(** Reachability of the transition table: a state leads to another one
    through legal steps exactly when it is the same state, or the start is not
    terminal and the target is not [BlockedRecoveryPending], which only the
    start-up sweep can write. *)
Theorem legal_reachability s s' :
  rtc legal_step s s' ↔
  s = s' ∨ (task_is_terminal s = false ∧ s' ≠ TaskState.BlockedRecoveryPending).
Proof.
  split.
  - intros H. induction H as [s|s s1 s' Hstep _ IH]; [by left |]. right.
    split; [by destruct s, s1 |]. destruct IH as [<-|[_ ?]]; [by destruct s, s1 | done].
  - intros [-> | [Ht Hs']]; [apply rtc_refl |].
    transitivity TaskState.Admitted_; auto using legal_step_to_admitted, legal_step_from_admitted.
Qed.

(** Once a transition into [Completed], [Failed], [Aborted] or [Cancelled]
    commits, no activation of that task is [Active], each one that was is
    [Completed] for a completed task and [Failed] otherwise with its end time
    stamped, every other activation row is as before, and the table's CHECK
    still holds. *)
Theorem terminal_transition_closes_activations d now t ns reason actor r d' :
  activations_ok d → closes_activation ns = true →
  transition_task now t ns reason actor d = (Ok r, d') →
  activations_ok d' ∧
  ∀ k a, d.(activations) !! k = Some a →
    d'.(activations) !! k =
      Some (if active_for t a then close_activation (activation_state_terminal ns) now a else a) ∧
    ∀ a', d'.(activations) !! k = Some a' → active_for t a' = false.
Proof.
  intros Hok Hcl (row & cur & Hrow & Hcur & Hleg & -> & ->)%transition_task_ok_inv; [| done].
  split; [by apply transitioned_activations_ok |].
  intros k a Ha. unfold transitioned; simpl. rewrite Hcl, lookup_fmap, Ha; simpl.
  split; [done |]. intros a' [= <-].
  destruct (active_for t a) eqn:Hact; [| done].
  unfold active_for, close_activation; simpl. destruct ns; simpl; by rewrite ?andb_false_r.
Qed.

(** The audit pair: a committed transition hands the sink exactly one event,
    which names the task, both states, the actor and the epoch of the row, even
    when the sink refuses it; a rejected one hands it none and changes no row. *)
Theorem transition_audit_paired {Sink} (emit : TaskStateChanged → Sink → bool * Sink)
    now t ns reason actor session d k res d' k' :
  activations_ok d →
  transition_task_with_audit emit now t ns reason actor session (d, k) = (res, (d', k')) →
  match res with
  | Ok r => ∃ row (cur : TaskState), d.(tasks) !! t = Some row ∧ row.(task_state) = as_sql_str cur ∧
      d' = transitioned now t ns reason actor row d ∧
      k' = (emit (MkTaskStateChanged t row.(task_state) (as_sql_str ns) (as_audit_string actor)
              (Z.max row.(task_policy_epoch) 0) session row.(task_initiative_id)) k).2
  | Err _ => d' = d ∧ k' = k
  end.
Proof.
  intros Hok. unfold transition_task_with_audit.
  destruct (transition_task now t ns reason actor d) as [[r|e] d1] eqn:Ht; intros [= <- <- <-].
  - apply transition_task_ok_inv in Ht as (row & cur & Hrow & Hcur & _ & -> & ->); [| done].
    apply from_sql_str_iff in Hcur. exists row, cur. rewrite Hcur. done.
  - by apply with_tx_err_rollback in Ht.
Qed.

(** A committed transition gives its initiative a fresh no-progress budget:
    the next [max] consecutive respawns are permitted, with their running count,
    and every later one is reported as exceeding the ceiling. *)
Theorem transition_refills_respawn_budget d now t ns reason actor r d' i max n :
  activations_ok d →
  transition_task now t ns reason actor d = (Ok r, d') →
  d.(initiatives) !! r.(rec_initiative_id) = Some i →
  (0 ≤ i.(ini_orchestrator_no_progress_respawn_count))%Z →
  (Z.of_nat n < u32_max)%Z →
  let c := (Z.of_nat n + 1)%Z in
  (increment_times n r.(rec_initiative_id) max d').1 =
    Ok (if bool_decide (max < c)%Z then Exceeded c max else Permitted c).
Proof.
  intros Hok (row & cur & _ & _ & _ & -> & ->)%transition_task_ok_inv Hi Hpos Hn; [| done].
  simpl in *. set (i' := reset_row i).
  assert (Hcnt : ini_orchestrator_no_progress_respawn_count i' = 0%Z).
  { unfold i', reset_row. case_bool_decide; simpl; lia. }
  rewrite (increment_times_outcome _ _ _ _ i'); rewrite ?Hcnt; try lia; [done |].
  simpl. by rewrite lookup_alter_eq, Hi.
Qed.

(** The ceiling an initiative gets from its plan is between 3 and 40, and is
    the number of declared tasks, reviewers and gates plus two in between. *)
Theorem scaled_ceiling_bounds t r g :
  in_u64 t → in_u64 r → in_u64 g →
  let c := scaled_no_progress_respawn_ceiling t r g in
  (3 ≤ c ≤ 40)%Z ∧ ((1 ≤ t + r + g ≤ 38)%Z → c = (t + r + g + 2)%Z) ∧
  ((38 ≤ t + r + g)%Z → c = 40%Z).
Proof.
  intros Ht Hr Hg c. unfold c, scaled_no_progress_respawn_ceiling,
    MAX_SCALED_ORCH_NO_PROGRESS_RESPAWNS, MAX_ORCH_NO_PROGRESS_RESPAWNS.
  widths. case_bool_decide; lia.
Qed.

(** ** Witnesses: one initiative with a running task and its active activation *)

Definition demo_initiative : InitiativeRow := MkInitiativeRow "Executing" "{}" "sha" 10 (Some 11%Z) None 3 None.
Definition demo_task (st : string) : TaskRow :=
  MkTaskRow "i" "lane" st None "kernel" 4 20 20 None None None None None 0 None (Some "build")
    false None None 0.
Definition demo_db : Db :=
  MkDb {[ "i" := demo_initiative ]}
    {[ "t" := demo_task "Running"; "u" := demo_task "Completed" ]} []
    {[ "a" := MkActivationRow "t" "i" "Active" (Some "s") None 0 0 20 (Some 21%Z) None ]}
    ∅ ∅ ∅ ∅ [] ∅ ∅ ∅ ∅ [] ∅ ∅ ∅ false.

Lemma transition_task_ok_iff_witness :
  ∃ d', transition_task 30 "t" TaskState.Failed (Some "boom") Kernel demo_db =
    (Ok (MkTaskTransitionRecord "t" "i" TaskState.Running TaskState.Failed Kernel 30 4), d').
Proof.
  eexists. apply (transition_task_ok_iff demo_db); [by apply (bool_decide_unpack _) |].
  exists (demo_task "Running"), TaskState.Running. split_and!; reflexivity.
Defined.

Lemma transition_task_err_iff_witness :
  transition_task 30 "u" TaskState.Admitted_ None Kernel demo_db =
    (Err (LifecycleError.TaskNotAbortable "Completed"), demo_db).
Proof.
  apply (transition_task_err_iff demo_db); [by apply (bool_decide_unpack _) |].
  split; [reflexivity |]. right. exists (demo_task "Completed").
  split; [reflexivity |]. split; [reflexivity |]. intros []; simpl; intros [=]; reflexivity.
Defined.

Lemma terminal_task_frozen_witness :
  (run_reqs demo_db [MkTransitionReq 30 "u" TaskState.Running None Kernel;
                     MkTransitionReq 31 "t" TaskState.Completed None Kernel]).(tasks) !! "u"
  = Some (demo_task "Completed").
Proof.
  apply (terminal_task_frozen _ demo_db "u" _ TaskState.Completed);
    [by apply (bool_decide_unpack _) | reflexivity..].
Defined.

Lemma terminal_transition_closes_activations_witness :
  match transition_task 30 "t" TaskState.Completed None Kernel demo_db with
  | (Ok _, d') => activations_ok d' ∧ d'.(activations) !! "a" =
      Some (MkActivationRow "t" "i" "Completed" (Some "s") None 0 0 20 (Some 21%Z) (Some 30%Z))
  | (Err _, _) => False
  end.
Proof.
  destruct (transition_task _ _ _ _ _ _) as [[r|e] d'] eqn:E; [| by vm_compute in E].
  apply terminal_transition_closes_activations in E as [Hok H]; [| by apply (bool_decide_unpack _) | done].
  split; [done |]. exact (proj1 (H "a" _ eq_refl)).
Defined.

Lemma transition_audit_paired_witness :
  let emit := λ (e : TaskStateChanged) (k : list TaskStateChanged), (false, e :: k) in
  match transition_task_with_audit emit 30 "t" TaskState.Completed None Kernel None (demo_db, []) with
  | (Ok _, (_, k)) => k = [MkTaskStateChanged "t" "Running" "Completed" "kernel" 4 None "i"]
  | (Err _, _) => False
  end.
Proof.
  intros emit. destruct (transition_task_with_audit _ _ _ _ _ _ _ _) as [[r|e] [d' k]] eqn:E.
  - apply transition_audit_paired in E as (row & cur & Hrow & _ & _ & ->);
      [| by apply (bool_decide_unpack _)].
    vm_compute in Hrow. by simplify_eq.
  - by vm_compute in E.
Defined.

Lemma transition_refills_respawn_budget_witness :
  match transition_task 30 "t" TaskState.Completed None Kernel demo_db with
  | (Ok _, d') => (increment_times 2 "i" 3 d').1 = Ok (Permitted 3) ∧
                  (increment_times 3 "i" 3 d').1 = Ok (Exceeded 4 3)
  | (Err _, _) => False
  end.
Proof.
  destruct (transition_task _ _ _ _ _ _) as [[r|e] d'] eqn:E; [| by vm_compute in E].
  assert (Hr : rec_initiative_id r = "i") by (vm_compute in E; by inversion E).
  rewrite <-Hr.
  split.
  - apply (transition_refills_respawn_budget demo_db 30 "t" TaskState.Completed None Kernel r d'
      demo_initiative 3 2); rewrite ?Hr; try done; by apply (bool_decide_unpack _).
  - apply (transition_refills_respawn_budget demo_db 30 "t" TaskState.Completed None Kernel r d'
      demo_initiative 3 3); rewrite ?Hr; try done; by apply (bool_decide_unpack _).
Defined.

Lemma scaled_ceiling_bounds_witness :
  scaled_no_progress_respawn_ceiling 5 2 1 = 10%Z.
Proof. apply (scaled_ceiling_bounds 5 2 1); widths; lia. Defined.
