(* ===== verification/Dag.v ===== *)
(** * Task DAG and plan admission

    [kernel/src/scheduler/dag.rs], [kernel/src/scheduler/admit.rs] and the error
    type of [kernel/src/scheduler/mod.rs].  An edge row says that its successor
    depends on its predecessor; the cycle check walks from a task to its
    predecessors. *)

From S2P Require Import Prelude Fsm Store TaskTransitions.

(** ** Errors *)
Module SchedulerError.
Inductive SchedulerError : Type :=
  | UnknownLane (lane_id : string)
  | NoLaneAssigned
  | CyclicDependency
  | DagDepthExceeded
  | BudgetExceeded (kind : string)
  | CorruptReservationState (task_id : string)
  | InvalidStateTransition (task_id reason : string)
  | TaskNotFound (task_id : string)
  | Sql (e : SqlError).
#[export] Instance SchedulerError_eq_dec : EqDecision SchedulerError.
Proof. solve_decision. Defined.
End SchedulerError.
Abbreviation SchedulerError := SchedulerError.SchedulerError.
Export (hints) SchedulerError.

(** ** Cycle detection *)

Definition MAX_DAG_DEPTH : nat := 64.

(** [SELECT predecessor_task_id FROM task_dag_edges WHERE successor_task_id = n]. *)
Definition preds_of (edges : list EdgeRow) (n : string) : list string :=
  edge_predecessor <$> filter (λ e, e.(edge_successor) = n) edges.

(** The [while let Some((node, depth)) = stack.pop()] loop.  The head of the
    list is the top of the stack, so the predecessors, pushed in row order, end
    up reversed on top.  [None] is "out of fuel". *)
Fixpoint dfs (fuel : nat) (edges : list EdgeRow) (new_task : string) (visited : gset string)
    (stack : list (string * nat)) : option (result SchedulerError unit) :=
  match fuel with
  | O => None
  | S fuel =>
      match stack with
      | [] => Some (Ok tt)
      | (node, depth) :: stack =>
          if bool_decide (MAX_DAG_DEPTH < depth) then Some (Err SchedulerError.DagDepthExceeded)
          else if bool_decide (node = new_task) then Some (Err SchedulerError.CyclicDependency)
          else if bool_decide (node ∈ visited) then dfs fuel edges new_task visited stack
          else dfs fuel edges new_task ({[ node ]} ∪ visited)
                 (reverse ((λ p, (p, S depth)) <$> preds_of edges node) ++ stack)
      end
  end.

(** Every edge is pushed at most once and every iteration pops once, so two
    iterations more than there are edges are enough ([dfs_fuel_enough]); the
    default is never taken. *)
Definition dfs_fuel (edges : list EdgeRow) : nat := 2 + length edges.

Definition check_dep (edges : list EdgeRow) (new_task dep : string) : result SchedulerError unit :=
  default (Err SchedulerError.DagDepthExceeded)
    (dfs (dfs_fuel edges) edges new_task ∅ [(dep, 0)]).

Definition detect_cycle_in (new_task : string) (proposed_deps : list string)
    : M SchedulerError unit :=
  for_each (λ dep d, (check_dep d.(dag_edges) new_task dep, d)) proposed_deps.

(** ** Edge insertion *)

(** [INSERT OR IGNORE INTO task_dag_edges]: a primary-key conflict is ignored,
    a foreign-key violation is not. *)
Definition insert_edge (initiative_id pred succ : string) : M SqlError unit := λ d,
  if bool_decide (Exists (λ e, e.(edge_predecessor) = pred ∧ e.(edge_successor) = succ) d.(dag_edges))
  then (Ok tt, d)
  else
    let e := MkEdgeRow initiative_id pred succ false in
    if fk_ok d (edge_fk_ok d e) then (Ok tt, on_dag_edges (λ l, l ++ [e]) d)
    else (Err SqlConstraintForeignKey, d).

Definition insert_edges_in (initiative_id task_id : string) (dependencies : list string)
    : M SchedulerError unit :=
  for_each (λ dep, se_map_err SchedulerError.Sql (insert_edge initiative_id dep task_id))
    dependencies.

Definition add_task (initiative_id task_id : string) (dependencies : list string)
    : M SchedulerError unit :=
  _ ← detect_cycle_in task_id dependencies;
  insert_edges_in initiative_id task_id dependencies.

(** ** Plan admission *)

Record PlanTask := MkPlanTask {
  pt_task_id : string;
  pt_initiative_id : string;
  pt_lane_id : string;
  pt_name : string;
  pt_dependencies : list string;
}.

Definition admitted_row (task : PlanTask) (policy_epoch now : Z) : TaskRow :=
  MkTaskRow task.(pt_initiative_id) task.(pt_lane_id) (as_sql_str TaskState.Admitted_) None
    "kernel" (as_i64 policy_epoch) now now None None None None None 0 None (Some task.(pt_name))
    false None None 0.

(** [INSERT INTO tasks], with the primary key on [task_id], the unique index on
    [(initiative_id, task_name)] and the foreign key to [initiatives]. *)
Definition insert_task (task_id : string) (row : TaskRow) : M SqlError unit := λ d,
  if bool_decide (is_Some (d.(tasks) !! task_id)) then (Err SqlConstraintPrimaryKey, d)
  else if bool_decide (map_Forall (λ _ r, ¬ (r.(task_initiative_id) = row.(task_initiative_id) ∧
            r.(task_name) = row.(task_name) ∧ is_Some row.(task_name))) d.(tasks)) then
    if fk_ok d (has_initiative d row.(task_initiative_id))
    then (Ok tt, on_tasks <[task_id := row]> d)
    else (Err SqlConstraintForeignKey, d)
  else (Err SqlConstraintUnique, d).

Definition admit_in_tx (task : PlanTask) (policy_epoch now : Z) : M SchedulerError string :=
  _ ← detect_cycle_in task.(pt_task_id) task.(pt_dependencies);
  _ ← se_map_err SchedulerError.Sql
        (insert_task task.(pt_task_id) (admitted_row task policy_epoch now));
  _ ← insert_edges_in task.(pt_initiative_id) task.(pt_task_id) task.(pt_dependencies);
  mret task.(pt_task_id).

(** ** Readiness *)

Definition blocked_by (d : Db) (t : string) (e : EdgeRow) : bool :=
  bool_decide (e.(edge_successor) = t) &&
  match d.(tasks) !! e.(edge_predecessor) with
  | Some p => negb (String.eqb p.(task_state) (as_sql_str TaskState.Completed))
  | None => false
  end.

Definition is_ready (d : Db) (initiative_id t : string) (r : TaskRow) : bool :=
  String.eqb r.(task_initiative_id) initiative_id &&
  String.eqb r.(task_state) (as_sql_str TaskState.Admitted_) &&
  negb (existsb (blocked_by d t) d.(dag_edges)).

Definition next_ready_tasks (initiative_id : string) : M SchedulerError (list string) :=
  gets (λ d, (map_to_list (filter (λ kr, is_ready d initiative_id kr.1 kr.2 = true) d.(tasks))).*1).

(** ** Gate clearance *)

(** [LifecycleError]'s [Display] is used only by the catch-all arm. *)
Definition map_transition_error (show : LifecycleError → string) (task_id : string)
    (e : LifecycleError) : SchedulerError :=
  match e with
  | LifecycleError.TaskNotFound t => SchedulerError.TaskNotFound t
  | LifecycleError.TaskNotAbortable current_state =>
      SchedulerError.InvalidStateTransition task_id
        ("task is not in " +:+ as_sql_str TaskState.GatesPending +:+ " state (current: "
         +:+ current_state +:+ ")")
  | LifecycleError.Sql e => SchedulerError.Sql e
  | other => SchedulerError.InvalidStateTransition task_id
               ("transition_task failed: " +:+ show other)
  end.

Definition transition_to_admitted {Sink} (emit : TaskStateChanged → Sink → bool * Sink)
    (show : LifecycleError → string) (now : Z) (task_id : string) (session_id : option string)
    : SE (Db * Sink) SchedulerError unit :=
  se_map_err (map_transition_error show task_id)
    (_ ← transition_task_with_audit emit now task_id TaskState.Admitted_ None Kernel session_id;
     mret tt).

(** ** The dependency relation *)

(** [x] depends directly on [y]. *)
Definition depends (edges : list EdgeRow) (x y : string) : Prop := y ∈ preds_of edges x.
Definition acyclic (edges : list EdgeRow) : Prop := ∀ x, ¬ tc (depends edges) x x.

Lemma depends_iff edges x y :
  depends edges x y ↔
  ∃ e, e ∈ edges ∧ e.(edge_successor) = x ∧ e.(edge_predecessor) = y.
Proof.
  unfold depends, preds_of. rewrite list_elem_of_fmap.
  setoid_rewrite list_elem_of_filter. naive_solver.
Qed.

(** Edges whose successor has not been visited: what is left to push. *)
Definition pending (edges : list EdgeRow) (visited : gset string) : nat :=
  length (filter (λ e, e.(edge_successor) ∉ visited) edges).

Lemma pending_visit edges visited n :
  n ∉ visited →
  pending edges visited = length (preds_of edges n) + pending edges ({[ n ]} ∪ visited).
Proof.
  intros Hn. unfold pending, preds_of. rewrite length_fmap.
  induction edges as [|e edges IH]; [done |].
  rewrite !filter_cons. repeat case_decide; simpl; set_solver || lia.
Qed.

Lemma dfs_fuel_enough edges new_task fuel visited stack :
  length stack + pending edges visited < fuel →
  is_Some (dfs fuel edges new_task visited stack).
Proof.
  revert visited stack. induction fuel as [|fuel IH]; intros visited stack Hf; [lia |].
  simpl. destruct stack as [|[n k] stack]; [by eauto |]. simpl in Hf.
  repeat case_bool_decide; try (by eauto); apply IH; [lia |].
  rewrite length_app, length_reverse, length_fmap.
  rewrite (pending_visit _ _ n) in Hf by done. lia.
Qed.

Section dfs.
Context (edges : list EdgeRow) (new_task dep : string).

(** What the loop keeps true: stack entries carry the length of a dependency
    path from [dep]; visited nodes are not the new task and their predecessors
    are visited or still on the stack. *)
Record dfs_inv (visited : gset string) (stack : list (string * nat)) : Prop := {
  inv_paths n k : (n, k) ∈ stack → nsteps (depends edges) k dep n;
  inv_closed v p : v ∈ visited → depends edges v p → p ∈ visited ∨ p ∈ stack.*1;
  inv_new v : v ∈ visited → v ≠ new_task;
  inv_start : dep ∈ visited ∨ dep ∈ stack.*1;
}.

Lemma dfs_inv_init : dfs_inv ∅ [(dep, 0)].
Proof.
  split; [| set_solver | set_solver | set_solver].
  intros n k [= -> ->]%list_elem_of_singleton. constructor.
Qed.

Lemma dfs_inv_skip visited n k stack :
  dfs_inv visited ((n, k) :: stack) → n ∈ visited → dfs_inv visited stack.
Proof.
  intros [Hp Hc Hn Hs] Hv. split; [set_solver | | done | set_solver].
  intros v p Hvis Hdep. specialize (Hc v p Hvis Hdep). set_solver.
Qed.

Lemma dfs_inv_visit visited n k stack :
  dfs_inv visited ((n, k) :: stack) → n ≠ new_task →
  dfs_inv ({[ n ]} ∪ visited) (reverse ((λ p, (p, S k)) <$> preds_of edges n) ++ stack).
Proof.
  intros [Hp Hc Hn Hs] Hne.
  assert (Hrev : ∀ p j, (p, j) ∈ reverse ((λ p, (p, S k)) <$> preds_of edges n) ↔
                        depends edges n p ∧ j = S k).
  { intros p j. rewrite elem_of_reverse, list_elem_of_fmap.
    unfold depends. naive_solver. }
  split.
  - intros p j [[Hdep ->]%Hrev|Hin]%elem_of_app; [| apply Hp; set_solver].
    eapply nsteps_r; [apply (Hp n); set_solver | done].
  - intros v p Hv Hdep. rewrite fmap_app, elem_of_app.
    destruct (decide (v = n)) as [->|Hvn].
    + right. left. apply list_elem_of_fmap. exists (p, S k). split; [done | by apply Hrev].
    + specialize (Hc v p ltac:(set_solver) Hdep). set_solver.
  - intros v [->%elem_of_singleton|Hv]%elem_of_union; [done | by apply Hn].
  - rewrite fmap_app, elem_of_app. set_solver.
Qed.

Lemma dfs_inv_done visited : dfs_inv visited [] → ¬ rtc (depends edges) dep new_task.
Proof.
  intros [_ Hc Hn Hs] Hreach.
  assert (Hall : ∀ y, rtc (depends edges) dep y → y ∈ visited).
  { apply rtc_ind_r; [set_solver |]. intros y z _ Hyz IH.
    destruct (Hc _ _ IH Hyz); [done | set_solver]. }
  by apply (Hn new_task (Hall _ Hreach)).
Qed.

(** What each answer of the loop means. *)
Definition dfs_meaning (r : result SchedulerError unit) : Prop :=
  match r with
  | Ok _ => ¬ rtc (depends edges) dep new_task
  | Err SchedulerError.CyclicDependency => rtc (depends edges) dep new_task
  | Err SchedulerError.DagDepthExceeded =>
      ∃ k n, MAX_DAG_DEPTH < k ∧ nsteps (depends edges) k dep n
  | Err _ => False
  end.

Lemma dfs_sound fuel visited stack r :
  dfs_inv visited stack → dfs fuel edges new_task visited stack = Some r → dfs_meaning r.
Proof.
  revert visited stack. induction fuel as [|fuel IH]; intros visited stack Hinv; [done |].
  simpl. destruct stack as [|[n k] stack]; [intros [= <-]; by eapply dfs_inv_done |].
  pose proof (inv_paths _ _ Hinv n k ltac:(set_solver)) as Hpath.
  case_bool_decide; [intros [= <-]; simpl; eauto |].
  case_bool_decide; [intros [= <-]; subst; by eapply rtc_nsteps_2 |].
  case_bool_decide; eauto using dfs_inv_skip, dfs_inv_visit.
Qed.

Lemma check_dep_meaning : dfs_meaning (check_dep edges new_task dep).
Proof.
  unfold check_dep.
  destruct (dfs_fuel_enough edges new_task (dfs_fuel edges) ∅ [(dep, 0)]) as [r Hr].
  { assert (pending edges ∅ ≤ length edges) by apply length_filter. unfold dfs_fuel. simpl. lia. }
  rewrite Hr; simpl. eapply dfs_sound; eauto using dfs_inv_init.
Qed.
End dfs.

Lemma detect_cycle_in_run d t deps :
  ∃ r, detect_cycle_in t deps d = (r, d) ∧
    match r with
    | Ok _ => ∀ p, p ∈ deps → ¬ rtc (depends d.(dag_edges)) p t
    | Err e => ∃ p, p ∈ deps ∧ dfs_meaning d.(dag_edges) t p (Err e)
    end.
Proof.
  unfold detect_cycle_in. induction deps as [|p deps IH]; simpl.
  { exists (Ok tt). split; [done | set_solver]. }
  unfold mbind, se_bind. pose proof (check_dep_meaning d.(dag_edges) t p) as Hp.
  destruct (check_dep (dag_edges d) t p) as [[]|e]; [| exists (Err e); set_solver].
  destruct IH as (r & -> & Hr). exists r. split; [done |].
  destruct r; [| set_solver]. intros q [->|Hq]%elem_of_cons; auto.
Qed.

Lemma detect_cycle_in_ok_inv d t deps d' :
  detect_cycle_in t deps d = (Ok tt, d') →
  d' = d ∧ ∀ p, p ∈ deps → ¬ rtc (depends d.(dag_edges)) p t.
Proof.
  destruct (detect_cycle_in_run d t deps) as (r & -> & Hr). by intros [= -> <-].
Qed.

(** ** Adding edges into one task keeps the graph acyclic *)

Section add_edges.
Context (R R' : string → string → Prop) (t : string) (deps : list string).
Context (HR' : ∀ x y, R' x y → R x y ∨ (x = t ∧ y ∈ deps)).
Context (Hdeps : ∀ p, p ∈ deps → ¬ rtc R p t).

Lemma path_first_new a b : rtc R' a b → rtc R a b ∨ rtc R a t.
Proof.
  intros H. induction H as [a|a c b Hac _ IH]; [by left; apply rtc_refl |].
  destruct (HR' _ _ Hac) as [Hac'|[-> _]]; [| by right; apply rtc_refl].
  destruct IH; [left | right]; by eapply rtc_l.
Qed.

Lemma no_path_back p : p ∈ deps → ¬ rtc R' p t.
Proof. intros Hp H. apply (Hdeps p Hp). by destruct (path_first_new _ _ H). Qed.

Lemma path_through_new a b :
  rtc R' a b → rtc R a b ∨ ∃ p, p ∈ deps ∧ rtc R' a t ∧ rtc R' p b.
Proof.
  intros H. induction H as [a|a c b Hac Hcb IH]; [by left; apply rtc_refl |].
  destruct (HR' _ _ Hac) as [Hac'|[-> Hc]].
  - destruct IH as [?|(p & ? & ? & ?)]; [left; by eapply rtc_l |].
    right. exists p. split_and!; [done | by eapply rtc_l | done].
  - right. exists c. split_and!; [done | apply rtc_refl | done].
Qed.

Lemma add_edges_acyclic : (∀ x, ¬ tc R x x) → ∀ x, ¬ tc R' x x.
Proof.
  intros Hac x Hcyc. assert (∃ y, R' x y ∧ rtc R' y x) as (y & Hxy & Hyx).
  { inversion Hcyc; subst; [by eauto using rtc_refl |]. by eauto using tc_rtc. }
  destruct (HR' _ _ Hxy) as [Hxy'|[-> Hy]]; [| by apply (no_path_back y)].
  destruct (path_through_new _ _ Hyx) as [Hold|(p & Hp & Hyt & Hpx)].
  - apply (Hac x). eapply tc_rtc_r; [by apply tc_once | done].
  - apply (no_path_back p Hp). etransitivity; [exact Hpx |]. by eapply rtc_l.
Qed.
End add_edges.

(** ** What the insertions write *)

Lemma on_dag_edges_nil d : on_dag_edges (λ l, l ++ []) d = d.
Proof. destruct d; unfold on_dag_edges; simpl. by rewrite app_nil_r. Qed.

Lemma on_dag_edges_app d l1 l2 :
  on_dag_edges (λ l, l ++ l2) (on_dag_edges (λ l, l ++ l1) d) = on_dag_edges (λ l, l ++ l1 ++ l2) d.
Proof. unfold on_dag_edges; simpl. by rewrite app_assoc. Qed.

(** A row [insert_edges_in i t deps] may add to [d]. *)
Definition new_edge_for (d : Db) (i t : string) (deps : list string) (e : EdgeRow) : Prop :=
  e.(edge_initiative_id) = i ∧ e.(edge_successor) = t ∧ e.(edge_predecessor) ∈ deps ∧
  fk_ok d (edge_fk_ok d e) = true.

Lemma insert_edge_run d i p t :
  ∃ new, (insert_edge i p t d).2 = on_dag_edges (λ l, l ++ new) d ∧
    Forall (new_edge_for d i t [p]) new ∧
    (is_ok (insert_edge i p t d).1 = true → depends (d.(dag_edges) ++ new) t p).
Proof.
  unfold insert_edge. case_bool_decide as Hex.
  { exists []. rewrite on_dag_edges_nil, app_nil_r. split_and!; [done | constructor |].
    intros _. apply depends_iff. apply Exists_exists in Hex as (e & ? & ? & ?).
    exists e. by split_and!. }
  destruct (fk_ok _ _) eqn:Hfk.
  - eexists [_]. split; [done |]. split.
    + apply Forall_singleton. unfold new_edge_for; simpl. split_and!; [done.. | set_solver | done].
    + intros _. apply depends_iff. eexists. split; [apply elem_of_app; right; by left |].
      by split_and!.
  - exists []. rewrite on_dag_edges_nil. split_and!; [done | constructor | done].
Qed.

Lemma edge_fk_ok_edges f d e : edge_fk_ok (on_dag_edges f d) e = edge_fk_ok d e.
Proof. done. Qed.

Lemma insert_edges_in_run d i t deps :
  ∃ new, (insert_edges_in i t deps d).2 = on_dag_edges (λ l, l ++ new) d ∧
    Forall (new_edge_for d i t deps) new ∧
    (is_ok (insert_edges_in i t deps d).1 = true →
     ∀ p, p ∈ deps → depends (d.(dag_edges) ++ new) t p).
Proof.
  unfold insert_edges_in. revert d. induction deps as [|p deps IH]; intros d; simpl.
  { exists []. rewrite on_dag_edges_nil. split_and!; [done | constructor | set_solver]. }
  unfold mbind, se_bind. rewrite !se_map_err_run.
  destruct (insert_edge_run d i p t) as (n1 & Hd1 & Hn1 & Hdep1).
  assert (Hmono : Forall (new_edge_for d i t (p :: deps)) n1).
  { eapply Forall_impl; [exact Hn1 |]. unfold new_edge_for. set_solver. }
  destruct (insert_edge i p t d) as [[[]|e] d1]; simpl in *; subst d1.
  - destruct (IH (on_dag_edges (λ l, l ++ n1) d)) as (n2 & Hd2 & Hn2 & Hdep2).
    exists (n1 ++ n2). rewrite Hd2, on_dag_edges_app. split; [done |]. split.
    + apply Forall_app. split; [done |]. eapply Forall_impl; [exact Hn2 |].
      unfold new_edge_for, fk_ok; simpl. intros e. rewrite edge_fk_ok_edges. set_solver.
    + intros Hok q [->|Hq]%elem_of_cons.
      * specialize (Hdep1 eq_refl). rewrite app_assoc. revert Hdep1. rewrite !depends_iff. set_solver.
      * specialize (Hdep2 Hok q Hq). simpl in Hdep2. by rewrite <-app_assoc in Hdep2.
  - exists n1. split_and!; [done | done | done].
Qed.

Lemma depends_app_new edges new x y d i t deps :
  Forall (new_edge_for d i t deps) new →
  depends (edges ++ new) x y → depends edges x y ∨ (x = t ∧ y ∈ deps).
Proof.
  intros Hnew (e & Hin & <- & <-)%depends_iff. apply elem_of_app in Hin as [Hin|Hin].
  - left. apply depends_iff. eauto.
  - right. rewrite Forall_forall in Hnew. destruct (Hnew _ Hin) as (_ & ? & ? & _). done.
Qed.

(** The two steps every admission path makes on the edge table. *)
Lemma checked_insert_acyclic d d1 i t deps d2 :
  acyclic d.(dag_edges) → detect_cycle_in t deps d = (Ok tt, d1) →
  d2.(dag_edges) = d.(dag_edges) →
  acyclic (insert_edges_in i t deps d2).2.(dag_edges).
Proof.
  intros Hac [_ Hun]%detect_cycle_in_ok_inv Hd2.
  destruct (insert_edges_in_run d2 i t deps) as (new & -> & Hnew & _). simpl. rewrite Hd2.
  unfold acyclic. refine (add_edges_acyclic (depends (dag_edges d)) _ t deps _ _ _); [| exact Hun | exact Hac].
  intros x y. by eapply depends_app_new.
Qed.

Lemma insert_task_run t row d r d' :
  insert_task t row d = (r, d') →
  match r with
  | Ok _ => d' = on_tasks <[t := row]> d ∧ d.(tasks) !! t = None ∧
            fk_ok d (has_initiative d row.(task_initiative_id)) = true
  | Err _ => d' = d
  end.
Proof.
  unfold insert_task. repeat case_bool_decide; repeat case_match; intros [= <- <-]; try done.
  split_and!; [done | by apply eq_None_not_Some | done].
Qed.

Definition edges_acyclic (d : Db) : Prop := acyclic d.(dag_edges).

Lemma admit_in_tx_acyclic task epoch now : preserves edges_acyclic (admit_in_tx task epoch now).
Proof.
  intros d Hac. unfold admit_in_tx, mbind, se_bind.
  destruct (detect_cycle_in _ _ d) as [[[]|e] d1] eqn:Hdet;
    [| by destruct (detect_cycle_in_run d (pt_task_id task) (pt_dependencies task))
         as (? & Heq & _); rewrite Heq in Hdet; simplify_eq].
  pose proof (detect_cycle_in_ok_inv _ _ _ _ Hdet) as [-> _].
  unfold se_map_err. destruct (insert_task _ _ d) as [[[]|e] d2] eqn:Hins; simpl;
    apply insert_task_run in Hins; [| by subst].
  destruct Hins as (-> & _).
  pose proof (checked_insert_acyclic d d (pt_initiative_id task) _ _
    (on_tasks <[pt_task_id task := admitted_row task epoch now]> d) Hac Hdet eq_refl) as H.
  by destruct (insert_edges_in _ _ _ _) as [[[]|?] ?].
Qed.

Lemma admit_in_tx_ok_inv task epoch now d x d' :
  admit_in_tx task epoch now d = (Ok x, d') →
  d.(tasks) !! task.(pt_task_id) = None ∧
  d'.(tasks) = <[task.(pt_task_id) := admitted_row task epoch now]> d.(tasks) ∧
  d'.(initiatives) = d.(initiatives) ∧
  (∃ new, d'.(dag_edges) = d.(dag_edges) ++ new) ∧
  ∀ p, p ∈ task.(pt_dependencies) → depends d'.(dag_edges) task.(pt_task_id) p.
Proof.
  intros H. se_step H.
  destruct a. apply detect_cycle_in_ok_inv in H0 as [-> _].
  se_step H. rewrite se_map_err_run in H0.
  destruct (insert_task _ _ d) as [[[]|e] d1] eqn:Hins; simplify_eq/=.
  apply insert_task_run in Hins as (-> & Hnone & _).
  se_step H. destruct a. apply pair_equal_spec in H as [_ <-].
  edestruct insert_edges_in_run as (new & Hd & _ & Hdeps). rewrite H0 in Hd, Hdeps.
  simpl in Hd, Hdeps. subst. simpl. eauto 10.
Qed.

(** The task loop of plan approval. *)
Definition admit_plan (epoch now : Z) (plan : list PlanTask) : M SchedulerError unit :=
  for_each (λ task, _ ← admit_in_tx task epoch now; mret tt) plan.

Lemma depends_mono edges new x y : depends edges x y → depends (edges ++ new) x y.
Proof. rewrite !depends_iff. set_solver. Qed.

Lemma admit_plan_ok_inv epoch now plan d d' :
  admit_plan epoch now plan d = (Ok tt, d') →
  d.(tasks) ⊆ d'.(tasks) ∧ (∃ new, d'.(dag_edges) = d.(dag_edges) ++ new) ∧
  ∀ task, task ∈ plan →
    d'.(tasks) !! task.(pt_task_id) = Some (admitted_row task epoch now) ∧
    ∀ p, p ∈ task.(pt_dependencies) → depends d'.(dag_edges) task.(pt_task_id) p.
Proof.
  unfold admit_plan. revert d. induction plan as [|task plan IH]; intros d H; simpl in H.
  { apply pair_equal_spec in H as [_ <-]. split_and!; [done | exists []; by rewrite app_nil_r | set_solver]. }
  se_step H. se_step H0. apply pair_equal_spec in H0 as [_ <-].
  apply admit_in_tx_ok_inv in H1 as (Hnone & Htasks & _ & [n1 Hn1] & Hdeps).
  apply IH in H as (Hsub & [n2 Hn2] & Hplan). rewrite Hn1, <-app_assoc in Hn2.
  split_and!.
  - transitivity (tasks s0); [| done]. rewrite Htasks. by apply insert_subseteq.
  - eauto.
  - intros t [->|Ht]%elem_of_cons; [| by apply Hplan]. split.
    + eapply lookup_weaken; [| exact Hsub]. by rewrite Htasks, lookup_insert_eq.
    + intros p Hp. rewrite Hn2, app_assoc, <-Hn1. by apply depends_mono, Hdeps.
Qed.

Lemma admit_plan_acyclic epoch now plan : preserves edges_acyclic (admit_plan epoch now plan).
Proof.
  apply preserves_for_each. intros task.
  apply preserves_bind; [apply admit_in_tx_acyclic | intros; apply preserves_ret].
Qed.

(** ** Readiness, in terms of the rows *)

Lemma is_ready_iff d i t r :
  is_ready d i t r = true ↔
  r.(task_initiative_id) = i ∧ r.(task_state) = as_sql_str TaskState.Admitted_ ∧
  ∀ p pr, depends d.(dag_edges) t p → d.(tasks) !! p = Some pr →
    pr.(task_state) = as_sql_str TaskState.Completed.
Proof.
  unfold is_ready. rewrite !andb_true_iff, !String.eqb_eq, negb_true_iff.
  rewrite <-not_true_iff_false, existsb_exists. setoid_rewrite depends_iff.
  split.
  - intros [[Hi Ha] Hex]. split_and!; [done.. |]. intros p pr (e & He & Hs & Hp) Hpr.
    destruct (decide (task_state pr = as_sql_str TaskState.Completed)) as [?|Hne]; [done |].
    exfalso. apply Hex. exists e. rewrite <-list_elem_of_In. split; [done |].
    unfold blocked_by. rewrite bool_decide_eq_true_2, Hp, Hpr by done. simpl.
    by apply negb_true_iff, String.eqb_neq.
  - intros (Hi & Ha & Hall). split_and!; [done.. |]. intros (e & He & Hb).
    apply list_elem_of_In in He. unfold blocked_by in Hb.
    apply andb_true_iff in Hb as [Hs%bool_decide_eq_true Hb].
    destruct (tasks d !! edge_predecessor e) as [pr|] eqn:Hpr; [| done].
    apply negb_true_iff, String.eqb_neq in Hb. apply Hb.
    eapply Hall; [| exact Hpr]. eauto.
Qed.

Lemma next_ready_tasks_run i d :
  ∃ l, next_ready_tasks i d = (Ok l, d) ∧
    ∀ t, t ∈ l ↔ ∃ r, d.(tasks) !! t = Some r ∧ is_ready d i t r = true.
Proof.
  eexists. split; [reflexivity |]. intros t. rewrite list_elem_of_fmap. split.
  - intros ([t' r] & -> & Hin). apply elem_of_map_to_list, map_lookup_filter_Some in Hin. eauto.
  - intros (r & Hr & Hready). exists (t, r). split; [done |].
    by apply elem_of_map_to_list, map_lookup_filter_Some.
Qed.

Lemma commit_fk_pred d x p :
  commit_fk_ok d = true → depends d.(dag_edges) x p → is_Some (d.(tasks) !! p).
Proof.
  unfold commit_fk_ok. rewrite andb_true_iff, forallb_forall. intros [He _].
  intros (e & Hin & _ & <-)%depends_iff. apply list_elem_of_In, He in Hin. unfold edge_fk_ok, has_task in Hin.
  rewrite !andb_true_iff, !bool_decide_eq_true in Hin. naive_solver.
Qed.

Lemma acyclic_sn edges x : acyclic edges → sn (depends edges) x.
Proof.
  intros Hac. apply tc_finite_sn; [exact Hac |].
  exists (edge_predecessor <$> edges). intros y Hy.
  assert (∃ z, depends edges z y) as [z (e & He & _ & <-)%depends_iff].
  { induction Hy; eauto. }
  by apply list_elem_of_fmap_2.
Qed.

(** ** Properties *)

(** The cycle check always answers (its loop ends within one iteration per
    edge), never writes, and its answers mean what they say on the dependency
    graph: [Ok] that no proposed dependency leads back to the new task,
    [CyclicDependency] that one does, [DagDepthExceeded] that a chain of more
    than 64 dependencies starts at one of them; it fails in no other way. *)
Theorem detect_cycle_in_correct d t deps :
  ∃ r, detect_cycle_in t deps d = (r, d) ∧
  match r with
  | Ok _ => ∀ p, p ∈ deps → ¬ rtc (depends d.(dag_edges)) p t
  | Err SchedulerError.CyclicDependency => ∃ p, p ∈ deps ∧ rtc (depends d.(dag_edges)) p t
  | Err SchedulerError.DagDepthExceeded =>
      ∃ p k n, p ∈ deps ∧ 64 < k ∧ nsteps (depends d.(dag_edges)) k p n
  | Err _ => False
  end.
Proof.
  destruct (detect_cycle_in_run d t deps) as (r & Hr & Hm). exists r. split; [done |].
  destruct r as [|e]; [done |]. destruct Hm as (p & Hp & Hm).
  destruct e; try done; [by eauto |]. destruct Hm as (k & n & Hk & Hn). eauto 10.
Qed.

(** C8: admitting a plan is all or nothing.  If the transaction commits, the
    dependency graph is still acyclic, every foreign key of the task and edge
    tables resolves, earlier task rows are unchanged, and every task of the plan
    has its [Admitted] row and an edge to each declared dependency, in whatever
    order the plan lists them; if anything fails the store is as before. *)
Theorem plan_admission_atomic epoch now plan d r d' :
  edges_acyclic d →
  with_deferred_tx SchedulerError.Sql (admit_plan epoch now plan) d = (r, d') →
  match r with
  | Ok _ =>
      edges_acyclic d' ∧ commit_fk_ok d' = true ∧ d'.(fk_deferred) = false ∧
      d.(tasks) ⊆ d'.(tasks) ∧
      ∀ task, task ∈ plan →
        d'.(tasks) !! task.(pt_task_id) = Some (admitted_row task epoch now) ∧
        ∀ p, p ∈ task.(pt_dependencies) → depends d'.(dag_edges) task.(pt_task_id) p
  | Err _ => d' = d
  end.
Proof.
  intros Hac. unfold with_deferred_tx. set (d0 := on_fk_deferred (λ _, true) d).
  pose proof (admit_plan_acyclic epoch now plan d0 Hac) as Hac'.
  destruct (admit_plan epoch now plan d0) as [[[]|e] d1] eqn:Hrun; [| by intros [= <- <-]].
  apply admit_plan_ok_inv in Hrun as (Hsub & _ & Hplan).
  destruct (commit_fk_ok d1) eqn:Hfk; intros [= <- <-]; [| done].
  split_and!; [exact Hac' | exact Hfk | done | exact Hsub | exact Hplan].
Qed.

(** [add_task] leaves the dependency graph acyclic whatever it returns, also
    when an edge insertion fails half way. *)
Theorem add_task_acyclic i t deps : preserves edges_acyclic (add_task i t deps).
Proof.
  intros d Hac. unfold add_task, mbind, se_bind.
  destruct (detect_cycle_in_run d t deps) as (r & Hdet & _). rewrite Hdet.
  destruct r as [[]|e]; [| done]. by eapply checked_insert_acyclic.
Qed.

(** [next_ready_tasks] returns exactly the admitted tasks of the initiative
    all of whose declared dependencies are completed tasks. *)
Theorem next_ready_tasks_spec i d l d' :
  commit_fk_ok d = true → next_ready_tasks i d = (Ok l, d') →
  d' = d ∧ ∀ t, t ∈ l ↔ ∃ r, d.(tasks) !! t = Some r ∧ r.(task_initiative_id) = i ∧
    r.(task_state) = as_sql_str TaskState.Admitted_ ∧
    ∀ p, depends d.(dag_edges) t p →
      ∃ pr, d.(tasks) !! p = Some pr ∧ pr.(task_state) = as_sql_str TaskState.Completed.
Proof.
  intros Hfk Hrun. destruct (next_ready_tasks_run i d) as (l' & Hrun' & Hl).
  rewrite Hrun' in Hrun. simplify_eq. split; [done |]. intros t. rewrite Hl.
  setoid_rewrite is_ready_iff. split.
  - intros (r & Hr & Hi & Ha & Hall). exists r. split_and!; [done.. |]. intros p Hp.
    destruct (commit_fk_pred _ _ _ Hfk Hp) as [pr Hpr]. eauto.
  - intros (r & Hr & Hi & Ha & Hall). exists r. split_and!; [done.. |]. intros p pr Hp Hpr.
    destruct (Hall p Hp) as (pr' & Hpr' & ?). congruence.
Qed.

(** C16: scheduling never deadlocks on the graph: in an initiative whose tasks
    are all admitted or completed and whose dependencies stay inside it, as long
    as one task is admitted, some task is ready. *)
Theorem next_ready_tasks_progress i d l d' :
  edges_acyclic d → commit_fk_ok d = true →
  map_Forall (λ _ r, r.(task_initiative_id) = i →
     r.(task_state) = as_sql_str TaskState.Admitted_ ∨
     r.(task_state) = as_sql_str TaskState.Completed) d.(tasks) →
  (∀ x p xr pr, depends d.(dag_edges) x p → d.(tasks) !! x = Some xr → d.(tasks) !! p = Some pr →
     xr.(task_initiative_id) = i → pr.(task_initiative_id) = i) →
  (∃ t r, d.(tasks) !! t = Some r ∧ r.(task_initiative_id) = i ∧
     r.(task_state) = as_sql_str TaskState.Admitted_) →
  next_ready_tasks i d = (Ok l, d') → l ≠ [].
Proof.
  intros Hac Hfk Hstates Hinside (t & r & Hr & Hi & Ha) Hrun.
  destruct (next_ready_tasks_run i d) as (l' & Hrun' & Hl).
  assert (l' = l) as -> by congruence.
  pose proof (acyclic_sn _ t Hac) as Hsn. revert r Hr Hi Ha.
  induction Hsn as [t _ IH]; intros r Hr Hi Ha Hnil.
  destruct (is_ready d i t r) eqn:Hready.
  { assert (t ∈ l) as Hin by (apply Hl; eauto). rewrite Hnil in Hin. by apply elem_of_nil in Hin. }
  unfold is_ready in Hready. rewrite Hi, String.eqb_refl, (proj2 (String.eqb_eq _ _) Ha) in Hready.
  apply negb_false_iff, existsb_exists in Hready as (e & He & Hb%andb_true_iff).
  destruct Hb as [Hs%bool_decide_eq_true Hb].
  destruct (tasks d !! edge_predecessor e) as [pr|] eqn:Hpr; [| done].
  assert (Hdep : depends (dag_edges d) t (edge_predecessor e)).
  { apply depends_iff. exists e. by rewrite list_elem_of_In. }
  apply (IH _ Hdep pr Hpr); [eauto | | done].
  destruct (Hstates _ _ Hpr) as [?|Hc]; [by eauto | done |]. by rewrite Hc in Hb.
Qed.

(** Clearing the gates re-admits a task exactly when its row is [Running],
    [GatesPending], [Failed] or [BlockedRecoveryPending]: the transition table
    is the only guard, so a task that never waited on a gate is accepted too. *)
Theorem transition_to_admitted_sources {Sink} (emit : TaskStateChanged → Sink → bool * Sink)
    show now t session d k r :
  activations_ok d → d.(tasks) !! t = Some r →
  (transition_to_admitted emit show now t session (d, k)).1 = Ok tt ↔
  r.(task_state) ∈ as_sql_str <$> [TaskState.Running; TaskState.GatesPending; TaskState.Failed;
                                   TaskState.BlockedRecoveryPending].
Proof.
  intros Hok Hr. unfold transition_to_admitted. rewrite se_map_err_run.
  unfold transition_task_with_audit, mbind, se_bind.
  rewrite transition_task_run, transition_task_in_tx_run, Hr by done.
  destruct (from_sql_str (task_state r)) as [s|] eqn:Hs.
  - apply from_sql_str_canonical in Hs as ->. destruct s; simpl; set_solver.
  - simpl. split; [done |]. intros Hin. exfalso.
    repeat (apply elem_of_cons in Hin as [Heq|Hin]; [by rewrite Heq in Hs |]).
    by apply elem_of_nil in Hin.
Qed.

(** ** Witnesses: a two-task plan that lists the dependent task first *)

Definition demo_plan : list PlanTask :=
  [MkPlanTask "b" "i" "lane" "beta" ["a"]; MkPlanTask "a" "i" "lane" "alpha" []].
Definition demo_base : Db :=
  on_fk_deferred (λ _, true) (on_initiatives (λ _, {[ "i" := demo_initiative ]}) empty_db).
Definition demo_dag : Db := (admit_plan 4 30 demo_plan demo_base).2.

Lemma acyclic_nil : acyclic [].
Proof.
  intros x Hx. inversion Hx as [? ? H|? ? ? H]; subst; by apply depends_iff in H as (e & He & _); inversion He.
Qed.

Lemma demo_dag_acyclic : edges_acyclic demo_dag.
Proof. apply admit_plan_acyclic. exact acyclic_nil. Qed.

Lemma plan_admission_atomic_witness :
  match with_deferred_tx SchedulerError.Sql (admit_plan 4 30 demo_plan)
          (on_fk_deferred (λ _, false) demo_base) with
  | (Ok _, d') => edges_acyclic d' ∧ depends d'.(dag_edges) "b" "a"
  | (Err _, _) => False
  end.
Proof.
  destruct (with_deferred_tx _ _ _) as [[[]|e] d'] eqn:E; [| by vm_compute in E].
  apply plan_admission_atomic in E as (Hac & _ & _ & _ & Hplan); [| exact acyclic_nil].
  split; [done |].
  apply (Hplan (MkPlanTask "b" "i" "lane" "beta" ["a"])); simpl; [by left | by left].
Defined.

Lemma next_ready_tasks_spec_witness :
  match next_ready_tasks "i" demo_dag with
  | (Ok l, _) => "a" ∈ l ∧ "b" ∉ l
  | (Err _, _) => False
  end.
Proof.
  destruct (next_ready_tasks "i" demo_dag) as [[l|e] d'] eqn:E; [| by vm_compute in E].
  apply next_ready_tasks_spec in E as [_ H]; [| by vm_compute]. split.
  - apply H. eexists. split; [vm_compute; reflexivity |]. split; [done |]. split; [done |].
    intros p Hp. apply depends_iff in Hp as (e & He & Hs & _).
    vm_compute in He. by apply list_elem_of_singleton in He as ->.
  - intros (r & _ & _ & _ & Hall)%H. destruct (Hall "a") as (pr & Hpr & Hc).
    + apply depends_iff. eexists. split; [vm_compute; by left | done].
    + vm_compute in Hpr. by simplify_eq.
Defined.

Lemma next_ready_tasks_progress_witness :
  match next_ready_tasks "i" demo_dag with (Ok l, _) => l ≠ [] | (Err _, _) => False end.
Proof.
  destruct (next_ready_tasks "i" demo_dag) as [[l|e] d'] eqn:E; [| by vm_compute in E].
  refine (next_ready_tasks_progress "i" demo_dag l d' demo_dag_acyclic _ _ _ _ E).
  - by vm_compute.
  - apply (bool_decide_unpack (map_Forall (λ _ r, r.(task_initiative_id) = "i" →
      r.(task_state) = "Admitted" ∨ r.(task_state) = "Completed") demo_dag.(tasks))). by vm_compute.
  - intros x p xr pr _ _ Hp _.
    assert (H : map_Forall (λ _ r, r.(task_initiative_id) = "i") demo_dag.(tasks)).
    { apply (bool_decide_unpack _). by vm_compute. }
    exact (H p pr Hp).
  - exists "a". eexists. split; [vm_compute; reflexivity | done].
Defined.

Lemma transition_to_admitted_sources_witness :
  (transition_to_admitted (λ e k, (true, e :: k)) (λ _, "") 30 "t" None (demo_db, [])).1 = Ok tt.
Proof.
  apply (transition_to_admitted_sources _ _ _ _ _ demo_db [] (demo_task "Running"));
    [by apply (bool_decide_unpack _) | reflexivity | by left].
Defined.
