(* ===== verification/PlanDag.v ===== *)
(** * Plan validation

    The checks [kernel/src/initiatives/lifecycle.rs] makes on a parsed plan
    before its transaction begins: the shape of the task graph
    ([validate_plan_dag]), the identity of its tasks, the syntax of its path
    lists, and the translation of task names into task ids.  The TOML parser is
    not modelled; operator-facing suggestion texts are left out of the errors.
    Indexing a missing key panics in the code: a panic, like an exhausted loop
    bound, is [None] here, and no plan reaches either. *)

From S2P Require Import Prelude Fsm Store TaskTransitions Dag.

(** ** Plans *)

Inductive TaskKind : Type := Agent | WorkspaceMerge.
#[export] Instance TaskKind_eq_dec : EqDecision TaskKind.
Proof. solve_decision. Defined.

Definition task_kind_as_plan_str (k : TaskKind) : string :=
  match k with Agent => "agent" | WorkspaceMerge => "workspace_merge" end.
Definition task_kind_from_plan_str (s : string) : option TaskKind :=
  sql_parse [("agent", Agent); ("workspace_merge", WorkspaceMerge)] s.

(** The fields of a parsed [[tasks]] block these checks read. *)
Record PlanDecl := MkPlanDecl {
  pd_task_id : string;
  pd_name : string;
  pd_predecessors : list string;
  pd_task_kind : TaskKind;
  pd_clone_strategy : CloneStrategy;
  pd_session_agent_type : SessionAgentType;
  pd_path_allowlist : list string;
}.

Inductive IntegrationMergeVerifierAppliesTo : Type := All | TaskSet | Last.
Record IntegrationMergeVerifierEntry := MkIntegrationMergeVerifierEntry {
  imv_name : string;
  imv_applies_to : IntegrationMergeVerifierAppliesTo;
  imv_task_set : list string;
}.

Module PlanError.
Inductive PlanError : Type :=
  | PlanDagInvalid (rule offending_task : string)
  | PlanTaskIdAlreadyExists (task_id existing_initiative_id : string)
  | PathAllowlistInvalidSyntax (task_id entry reason : string)
  | CrossCuttingArtifactInvalidSyntax (entry reason : string)
  | PlanCloneStrategyInvalid (rule offending_task : string)
  | PlanIntegrationMergeVerifierInvalid (rule offending_verifier : string).
#[export] Instance PlanError_eq_dec : EqDecision PlanError.
Proof. solve_decision. Defined.
End PlanError.
Abbreviation PlanError := PlanError.PlanError.
Export (hints) PlanError.

(** ** The task graph *)

(** Rule 1: the first name already seen. *)
Fixpoint duplicate_name (seen : gset string) (tasks : list PlanDecl) : option string :=
  match tasks with
  | [] => None
  | pt :: tasks =>
      if bool_decide (pt.(pd_name) ∈ seen) then Some pt.(pd_name)
      else duplicate_name ({[ pt.(pd_name) ]} ∪ seen) tasks
  end.

(** [tasks.iter().map(..).collect::<HashMap<_, _>>()]: the last of a name wins. *)
Definition task_index (tasks : list PlanDecl) : gmap string PlanDecl :=
  foldl (λ m pt, <[pt.(pd_name) := pt]> m) ∅ tasks.

Definition self_loop (pt : PlanDecl) : bool :=
  existsb (λ d, String.eqb d pt.(pd_name)) pt.(pd_predecessors).

Definition dangling (index : gmap string PlanDecl) (pt : PlanDecl) : bool :=
  existsb (λ d, negb (bool_decide (is_Some (index !! d)))) pt.(pd_predecessors).

(** [task_index[dep]] panics on a missing name. *)
Definition reviewer_pred (index : gmap string PlanDecl) (pt : PlanDecl) : option bool :=
  foldr (λ dep rest, pred ← index !! dep;
                     if bool_decide (pred.(pd_session_agent_type) = SessionAgentType.Reviewer)
                     then Some true else rest)
    (Some false) pt.(pd_predecessors).

Definition unmerged_fan_in (pt : PlanDecl) : bool :=
  match pt.(pd_task_kind) with
  | WorkspaceMerge => false
  | Agent => bool_decide (pt.(pd_session_agent_type) = SessionAgentType.Executor) &&
             (1 <? length pt.(pd_predecessors))
  end.

(** The first task of a plan with a fault. *)
Definition offender (p : PlanDecl → bool) (tasks : list PlanDecl) : option string :=
  pd_name <$> List.find p tasks.

Fixpoint reviewer_offender (index : gmap string PlanDecl) (tasks : list PlanDecl)
    : option (option string) :=
  match tasks with
  | [] => Some None
  | pt :: tasks =>
      b ← reviewer_pred index pt;
      if (b : bool) then Some (Some pt.(pd_name)) else reviewer_offender index tasks
  end.

(** *** Three-colour depth-first search *)

Inductive Color : Type := White | Gray | Black.
#[export] Instance Color_eq_dec : EqDecision Color.
Proof. solve_decision. Defined.

Inductive Visit : Type :=
  | Finished (color : gmap string Color)
  | Cycle (node : string)
  | Panicked
  | OutOfFuel.

(** The [while let Some((node_id, idx)) = stack.pop()] loop from one start. *)
Fixpoint visit (fuel : nat) (index : gmap string PlanDecl) (color : gmap string Color)
    (stack : list (string * nat)) : Visit :=
  match fuel with
  | O => OutOfFuel
  | S fuel =>
      match stack with
      | [] => Finished color
      | (node_id, idx) :: stack =>
          match index !! node_id with
          | None => Panicked
          | Some pt =>
              match pt.(pd_predecessors) !! idx with
              | Some dep =>
                  match color !! dep with
                  | None => Panicked
                  | Some White =>
                      visit fuel index (<[dep := Gray]> color) ((dep, 0) :: (node_id, S idx) :: stack)
                  | Some Gray => Cycle node_id
                  | Some Black => visit fuel index color ((node_id, S idx) :: stack)
                  end
              | None => visit fuel index (<[node_id := Black]> color) stack
              end
          end
      end
  end.

(** Every iteration takes an edge or retires a task. *)
Definition visit_fuel (tasks : list PlanDecl) : nat :=
  S (sum_list_with (λ pt, S (length pt.(pd_predecessors))) tasks).

Fixpoint visit_all (fuel : nat) (index : gmap string PlanDecl) (color : gmap string Color)
    (starts : list PlanDecl) : Visit :=
  match starts with
  | [] => Finished color
  | start :: starts =>
      match color !! start.(pd_name) with
      | None => Panicked
      | Some White =>
          match visit fuel index (<[start.(pd_name) := Gray]> color) [(start.(pd_name), 0)] with
          | Finished color' => visit_all fuel index color' starts
          | stopped => stopped
          end
      | Some _ => visit_all fuel index color starts
      end
  end.

Definition all_white (tasks : list PlanDecl) : gmap string Color :=
  foldl (λ m pt, <[pt.(pd_name) := White]> m) ∅ tasks.

Definition validate_plan_dag (tasks : list PlanDecl) : option (result PlanError unit) :=
  let fail rule name := Some (Err (PlanError.PlanDagInvalid rule name)) in
  let index := task_index tasks in
  match duplicate_name ∅ tasks with
  | Some name => fail "duplicate_task_name" name
  | None =>
  match offender self_loop tasks with
  | Some name => fail "self_loop" name
  | None =>
  match offender (dangling index) tasks with
  | Some name => fail "dangling_dependency" name
  | None =>
  match reviewer_offender index tasks with
  | None => None
  | Some (Some name) => fail "reviewer_as_predecessor" name
  | Some None =>
  match offender unmerged_fan_in tasks with
  | Some name => fail "executor_multi_predecessor_without_workspace_merge" name
  | None =>
  match visit_all (visit_fuel tasks) index (all_white tasks) tasks with
  | Finished _ => Some (Ok tt)
  | Cycle name => fail "cyclic_dependency" name
  | Panicked | OutOfFuel => None
  end end end end end end.

(** ** The dependency relation of a plan *)

Definition plan_depends (tasks : list PlanDecl) (x y : string) : Prop :=
  ∃ pt, pt ∈ tasks ∧ pt.(pd_name) = x ∧ y ∈ pt.(pd_predecessors).

Lemma foldl_insert_notin {A} (key : PlanDecl → string) (val : PlanDecl → A) l (m : gmap string A) k :
  k ∉ key <$> l → foldl (λ m pt, <[key pt := val pt]> m) m l !! k = m !! k.
Proof.
  revert m. induction l as [|a l IH]; intros m Hk; simpl; [done |].
  rewrite fmap_cons, not_elem_of_cons in Hk. rewrite IH by apply Hk.
  by rewrite lookup_insert_ne by naive_solver.
Qed.

Lemma foldl_insert_in {A} (key : PlanDecl → string) (val : PlanDecl → A) l (m : gmap string A) a :
  NoDup (key <$> l) → a ∈ l → foldl (λ m pt, <[key pt := val pt]> m) m l !! key a = Some (val a).
Proof.
  revert m. induction l as [|b l IH]; intros m Hnd; simpl; [set_solver |].
  rewrite fmap_cons in Hnd. apply NoDup_cons in Hnd as [Hb Hnd].
  intros [->|Ha]%elem_of_cons; [| by apply IH].
  rewrite foldl_insert_notin by done. by rewrite lookup_insert_eq.
Qed.

Lemma foldl_insert_dom {A} (key : PlanDecl → string) (val : PlanDecl → A) l k :
  is_Some (foldl (λ m pt, <[key pt := val pt]> m) (∅ : gmap string A) l !! k) ↔ k ∈ key <$> l.
Proof.
  assert (Hgen : ∀ m : gmap string A, is_Some (foldl (λ m pt, <[key pt := val pt]> m) m l !! k) ↔
                  is_Some (m !! k) ∨ k ∈ key <$> l).
  { induction l as [|a l IH]; intros m; simpl; [set_solver |]. rewrite IH.
    destruct (decide (k = key a)) as [->|Hne].
    - rewrite lookup_insert_eq. set_solver.
    - rewrite lookup_insert_ne by done. set_solver. }
  rewrite Hgen, lookup_empty. split; [intros [[? ?]|?]; done | by right].
Qed.

Section graph.
Context (tasks : list PlanDecl).
Abbreviation names := (pd_name <$> tasks).
Abbreviation index := (task_index tasks).
Abbreviation dep := (plan_depends tasks).
Context (Hnodup : NoDup names).
Context (Hdeclared : ∀ x y, dep x y → y ∈ names).

Definition preds (n : string) : list string :=
  match index !! n with Some pt => pt.(pd_predecessors) | None => [] end.

Lemma task_index_name n : n ∈ names → ∃ pt, pt ∈ tasks ∧ pt.(pd_name) = n ∧ index !! n = Some pt.
Proof.
  intros (pt & -> & Hpt)%list_elem_of_fmap. exists pt. split_and!; [done | done |].
  unfold task_index. by rewrite (foldl_insert_in pd_name id).
Qed.

Lemma task_index_task pt : pt ∈ tasks → index !! pt.(pd_name) = Some pt.
Proof. intros Hpt. unfold task_index. by rewrite (foldl_insert_in pd_name id). Qed.

Lemma dep_preds x y : dep x y ↔ y ∈ preds x.
Proof.
  unfold preds. split.
  - intros (pt & Hpt & <- & Hy). by rewrite task_index_task.
  - destruct (index !! x) as [pt|] eqn:Hx; [| set_solver].
    assert (x ∈ names) as Hin.
    { apply (foldl_insert_dom pd_name id). exists pt. exact Hx. }
    destruct (task_index_name x Hin) as (pt' & Hpt & <- & Hx'). rewrite Hx in Hx'. injection Hx' as <-.
    intros Hy. by exists pt.
Qed.

(** What is left to do: edges of unvisited tasks and of open frames. *)
Definition white_weight (color : gmap string Color) : nat :=
  sum_list_with (λ pt, match color !! pt.(pd_name) with
                       | Some White => S (length pt.(pd_predecessors))
                       | _ => 0
                       end) tasks.
Definition stack_weight (stack : list (string * nat)) : nat :=
  sum_list_with (λ f, S (length (preds f.1) - f.2)) stack.

(** Each frame's earlier predecessors are explored, except the one it waits for. *)
Fixpoint frames_ok (color : gmap string Color) (child : option string)
    (stack : list (string * nat)) : Prop :=
  match stack with
  | [] => True
  | (n, i) :: rest =>
      n ∈ names ∧
      (∀ j y, preds n !! j = Some y → j < i → color !! y = Some Black ∨ Some y = child) ∧
      (match child with Some c => dep n c | None => True end) ∧
      frames_ok color (Some n) rest
  end.

Record visit_inv (color : gmap string Color) (stack : list (string * nat)) : Prop := {
  vi_dom n : is_Some (color !! n) ↔ n ∈ names;
  vi_gray n : color !! n = Some Gray ↔ n ∈ stack.*1;
  vi_nodup : NoDup stack.*1;
  vi_black n : color !! n = Some Black → Acc (λ y x, dep x y) n;
  vi_frames : frames_ok color None stack;
}.

Lemma white_weight_ext color color' :
  (∀ n, color !! n = Some White ↔ color' !! n = Some White) → white_weight color = white_weight color'.
Proof.
  intros Hx. unfold white_weight. clear Hnodup Hdeclared. induction tasks as [|a l IH]; simpl; [done |].
  rewrite IH. f_equal. specialize (Hx (pd_name a)). repeat case_match; naive_solver.
Qed.

Lemma white_weight_gray color y :
  y ∈ names → color !! y = Some White →
  white_weight color = white_weight (<[y := Gray]> color) + S (length (preds y)).
Proof.
  intros (pt & -> & Hpt)%list_elem_of_fmap Hw.
  assert (Hp : preds pt.(pd_name) = pt.(pd_predecessors)) by (unfold preds; by rewrite task_index_task).
  rewrite Hp. clear Hp. unfold white_weight. revert Hpt. generalize Hnodup. clear Hnodup Hdeclared.
  induction tasks as [|a l IH]; intros Hnd Hpt; [set_solver |].
  rewrite fmap_cons in Hnd. apply NoDup_cons in Hnd as [Ha Hnd]. simpl.
  apply elem_of_cons in Hpt as [->|Hpt].
  - rewrite Hw, lookup_insert_eq. cut (∀ l', pd_name a ∉ pd_name <$> l' →
      sum_list_with (λ pt, match color !! pd_name pt with
        Some White => S (length (pd_predecessors pt)) | _ => 0 end) l' =
      sum_list_with (λ pt, match <[pd_name a:=Gray]> color !! pd_name pt with
        Some White => S (length (pd_predecessors pt)) | _ => 0 end) l').
    { intros H. rewrite (H l Ha). lia. }
    induction l' as [|b l' IHl]; intros Hb; simpl; [done |].
    rewrite fmap_cons, not_elem_of_cons in Hb. rewrite IHl, lookup_insert_ne by naive_solver. done.
  - rewrite (IH Hnd Hpt). rewrite lookup_insert_ne; [lia |].
    intros Heq. apply Ha. rewrite <-Heq. by apply list_elem_of_fmap_2.
Qed.

Lemma frames_ok_mono color color' child stack :
  (∀ z, color !! z = Some Black → color' !! z = Some Black) →
  frames_ok color child stack → frames_ok color' child stack.
Proof.
  intros Hm. revert child. induction stack as [|[n i] stack IH]; intros child; simpl; [done |].
  intros (Hn & Hj & Hc & Hrest). split_and!; [done | | done | by apply IH].
  intros j y Hy Hlt. destruct (Hj j y Hy Hlt); [left; by apply Hm | by right].
Qed.

Lemma frames_reach color c stack :
  frames_ok color (Some c) stack → ∀ m, m ∈ stack.*1 → tc dep m c.
Proof.
  revert c. induction stack as [|[n i] stack IH]; intros c; simpl; [set_solver |].
  intros (_ & _ & Hd & Hrest) m [->|Hm]%elem_of_cons; [by apply tc_once |].
  eapply tc_r; [by eapply IH | done].
Qed.

(** The four moves of the loop. *)
Lemma visit_push color n i stack y :
  visit_inv color ((n, i) :: stack) → preds n !! i = Some y → color !! y = Some White →
  visit_inv (<[y := Gray]> color) ((y, 0) :: (n, S i) :: stack).
Proof.
  intros [Hdom Hgray Hnd Hblack (Hn & Hj & _ & Hrest)] Hy Hw.
  assert (Hstay : ∀ z, color !! z = Some Black → <[y:=Gray]> color !! z = Some Black).
  { intros z Hz. rewrite lookup_insert_ne by congruence. done. }
  assert (Hdep : dep n y) by (apply dep_preds; by apply list_elem_of_lookup_2 in Hy).
  split.
  - intros m. destruct (decide (m = y)) as [->|Hne]; [| by rewrite lookup_insert_ne].
    rewrite lookup_insert_eq. split; [intros _; by eapply Hdeclared | by eauto].
  - intros m. destruct (decide (m = y)) as [->|Hne]; [rewrite lookup_insert_eq; set_solver |].
    rewrite lookup_insert_ne, Hgray by done. set_solver.
  - apply NoDup_cons. split; [| done]. intros Hin. apply (Hgray y) in Hin. rewrite Hw in Hin. discriminate.
  - intros m. destruct (decide (m = y)) as [->|Hne]; [by rewrite lookup_insert_eq |].
    rewrite lookup_insert_ne by done. apply Hblack.
  - cbn [frames_ok]. split_and!; [by eapply Hdeclared | intros; lia | done | done | | done |].
    + intros j z Hz Hlt. destruct (decide (j = i)) as [->|Hne]; [right; congruence |].
      left. apply Hstay. destruct (Hj j z Hz) as [?|?]; [lia | done | done].
    + by eapply frames_ok_mono.
Qed.

Lemma visit_skip color n i stack y :
  visit_inv color ((n, i) :: stack) → preds n !! i = Some y → color !! y = Some Black →
  visit_inv color ((n, S i) :: stack).
Proof.
  intros [Hdom Hgray Hnd Hblack (Hn & Hj & _ & Hrest)] Hy Hb. split; [done | done | done | done |].
  cbn [frames_ok]. split_and!; [done | | done | done].
  intros j z Hz Hlt. destruct (decide (j = i)) as [->|Hne]; [left | apply (Hj j z Hz); lia].
  rewrite Hy in Hz. by injection Hz as <-.
Qed.

Lemma visit_pop color n i stack :
  visit_inv color ((n, i) :: stack) → preds n !! i = None →
  visit_inv (<[n := Black]> color) stack.
Proof.
  intros [Hdom Hgray Hnd Hblack (Hn & Hj & _ & Hrest)] Hend.
  apply lookup_ge_None in Hend. apply NoDup_cons in Hnd as [Hnin Hnd].
  assert (Hstay : ∀ z, color !! z = Some Black → <[n:=Black]> color !! z = Some Black).
  { intros z Hz. destruct (decide (z = n)) as [->|]; [by rewrite lookup_insert_eq |].
    by rewrite lookup_insert_ne. }
  split; [| | done | |].
  - intros m. destruct (decide (m = n)) as [->|Hne]; [rewrite lookup_insert_eq; by naive_solver |].
    by rewrite lookup_insert_ne.
  - intros m. destruct (decide (m = n)) as [->|Hne]; [rewrite lookup_insert_eq; set_solver |].
    rewrite lookup_insert_ne, Hgray by done. set_solver.
  - intros m. destruct (decide (m = n)) as [->|Hne].
    + intros _. constructor. intros y [j Hy]%dep_preds%list_elem_of_lookup.
      apply Hblack. pose proof (lookup_lt_Some _ _ _ Hy).
      destruct (Hj j y Hy) as [?|?]; [lia | done | done].
    + rewrite lookup_insert_ne by done. apply Hblack.
  - destruct stack as [|[m k] stack]; [done |]. cbn [frames_ok] in Hrest |- *.
    destruct Hrest as (Hm & Hjm & _ & Hrest). split_and!; [done | | done | by eapply frames_ok_mono].
    intros j z Hz Hlt. left. destruct (Hjm j z Hz Hlt) as [Hb|[= ->]]; [by apply Hstay |].
    by rewrite lookup_insert_eq.
Qed.

Lemma visit_cycle color n i stack y :
  visit_inv color ((n, i) :: stack) → preds n !! i = Some y → color !! y = Some Gray → tc dep n n.
Proof.
  intros [_ Hgray _ _ (_ & _ & _ & Hrest)] Hy Hg.
  assert (Hdep : dep n y) by (apply dep_preds; by apply list_elem_of_lookup_2 in Hy).
  apply Hgray in Hg. simpl in Hg. apply elem_of_cons in Hg as [->|Hg]; [by apply tc_once |].
  eapply tc_l; [exact Hdep |]. by eapply frames_reach.
Qed.

(** Nothing that was started is left unexplored. *)
Definition explored (color color' : gmap string Color) : Prop :=
  ∀ z c, color !! z = Some c → c ≠ White → color' !! z = Some Black.

Lemma visit_spec fuel color stack :
  visit_inv color stack → white_weight color + stack_weight stack < fuel →
  match visit fuel index color stack with
  | Finished color' => visit_inv color' [] ∧ explored color color'
  | Cycle n => tc dep n n
  | Panicked | OutOfFuel => False
  end.
Proof.
  revert color stack. induction fuel as [|fuel IH]; intros color stack Hinv Hf; [lia |].
  destruct stack as [|[n i] stack]; cbn [visit].
  { split; [done |]. intros z c Hz Hne. destruct c; [done | | done].
    apply (vi_gray _ _ Hinv) in Hz. set_solver. }
  assert (Hn : n ∈ names) by apply (vi_frames _ _ Hinv).
  destruct (task_index_name n Hn) as (pt & _ & _ & Hpt). rewrite Hpt.
  assert (Hpreds : preds n = pt.(pd_predecessors)) by (unfold preds; by rewrite Hpt).
  rewrite <-Hpreds. cbn [stack_weight sum_list_with] in Hf. fold (stack_weight stack) in Hf. simpl in Hf.
  destruct (preds n !! i) as [y|] eqn:Hy.
  - pose proof (lookup_lt_Some _ _ _ Hy) as Hlt.
    assert (Hyn : y ∈ names).
    { apply (Hdeclared n), dep_preds. by apply list_elem_of_lookup_2 in Hy. }
    destruct (proj2 (vi_dom _ _ Hinv y) Hyn) as [c Hc]. rewrite Hc. destruct c.
    + pose proof (visit_push _ _ _ _ _ Hinv Hy Hc) as Hinv'.
      pose proof (white_weight_gray color y Hyn Hc) as Hw.
      specialize (IH _ _ Hinv'). cbn [stack_weight sum_list_with] in IH. fold (stack_weight stack) in IH.
      simpl in IH. specialize (IH ltac:(lia)). destruct (visit fuel _ _ _); [| done..].
      destruct IH as [Hi Hx]. split; [done |]. intros z c Hz Hne.
      destruct (decide (z = y)) as [->|Hzy]; [congruence |].
      apply (Hx z c); [by rewrite lookup_insert_ne | done].
    + by eapply visit_cycle.
    + apply IH; [by eapply visit_skip |]. cbn [stack_weight sum_list_with]. fold (stack_weight stack).
      simpl. lia.
  - pose proof (visit_pop _ _ _ _ Hinv Hy) as Hinv'.
    assert (Hnw : color !! n = Some Gray) by (apply (vi_gray _ _ Hinv); set_solver).
    assert (Hw : white_weight (<[n:=Black]> color) = white_weight color).
    { apply white_weight_ext. intros a.
      destruct (decide (a = n)) as [->|Hne]; [by rewrite lookup_insert_eq, Hnw |].
      by rewrite lookup_insert_ne. }
    specialize (IH _ _ Hinv' ltac:(lia)). destruct (visit fuel _ _ _); [| done..].
    destruct IH as [Hi Hx]. split; [done |]. intros z c Hz Hne.
    destruct (decide (z = n)) as [->|Hzn]; [by apply (Hx n Black); [rewrite lookup_insert_eq |] |].
    apply (Hx z c); [by rewrite lookup_insert_ne | done].
Qed.

Lemma white_weight_bound color : white_weight color < visit_fuel tasks.
Proof.
  unfold white_weight, visit_fuel. clear Hnodup Hdeclared.
  induction tasks as [|a l IH]; simpl; [lia |]. repeat case_match; lia.
Qed.

Lemma explored_trans c1 c2 c3 : explored c1 c2 → explored c2 c3 → explored c1 c3.
Proof. intros H1 H2 z c Hz Hne. apply (H2 z Black); [by apply (H1 z c) | done]. Qed.

Lemma visit_start color s :
  visit_inv color [] → s ∈ names → color !! s = Some White →
  visit_inv (<[s := Gray]> color) [(s, 0)].
Proof.
  intros [Hdom Hgray _ Hblack _] Hs Hw. split.
  - intros m. destruct (decide (m = s)) as [->|Hne]; [rewrite lookup_insert_eq; by naive_solver |].
    by rewrite lookup_insert_ne.
  - intros m. destruct (decide (m = s)) as [->|Hne]; [rewrite lookup_insert_eq; set_solver |].
    rewrite lookup_insert_ne, Hgray by done. set_solver.
  - apply NoDup_singleton.
  - intros m. destruct (decide (m = s)) as [->|Hne]; [by rewrite lookup_insert_eq |].
    rewrite lookup_insert_ne by done. apply Hblack.
  - cbn [frames_ok]. split_and!; [done | intros; lia | done | done].
Qed.

Lemma visit_all_spec starts color :
  visit_inv color [] → (∀ pt, pt ∈ starts → pt ∈ tasks) →
  match visit_all (visit_fuel tasks) index color starts with
  | Finished color' => visit_inv color' [] ∧ explored color color' ∧
      ∀ pt, pt ∈ starts → color' !! pt.(pd_name) = Some Black
  | Cycle n => tc dep n n
  | Panicked | OutOfFuel => False
  end.
Proof.
  revert color. induction starts as [|s starts IH]; intros color Hinv Hsub; cbn [visit_all].
  { split_and!; [done | | set_solver]. intros z c Hz Hne. destruct c; [done | | done].
    apply (vi_gray _ _ Hinv) in Hz. set_solver. }
  assert (Hs : s.(pd_name) ∈ names) by (apply list_elem_of_fmap_2, Hsub; by left).
  assert (Hrest : ∀ color', visit_inv color' [] → explored color color' →
    color' !! s.(pd_name) = Some Black →
    match visit_all (visit_fuel tasks) index color' starts with
    | Finished color' => visit_inv color' [] ∧ explored color color' ∧
        ∀ pt, pt ∈ s :: starts → color' !! pt.(pd_name) = Some Black
    | Cycle n => tc dep n n
    | Panicked | OutOfFuel => False
    end).
  { intros c1 H1 Hx1 Hb1. specialize (IH c1 H1 ltac:(set_solver)).
    destruct (visit_all _ _ _ _) as [c2| | |]; [| done..]. destruct IH as (H2 & Hx2 & Hb2).
    split_and!; [done | by eapply explored_trans |].
    intros pt [->|Hpt]%elem_of_cons; [by apply (Hx2 _ Black) | by apply Hb2]. }
  destruct (proj2 (vi_dom _ _ Hinv _) Hs) as [c Hc]. rewrite Hc. destruct c.
  - pose proof (visit_spec (visit_fuel tasks) _ _ (visit_start _ _ Hinv Hs Hc)) as Hv.
    assert (Hlt : white_weight (<[s.(pd_name) := Gray]> color) + stack_weight [(s.(pd_name), 0)]
                    < visit_fuel tasks).
    { pose proof (white_weight_gray _ _ Hs Hc). pose proof (white_weight_bound color). simpl. lia. }
    specialize (Hv Hlt).
    destruct (visit _ _ _ _) as [c1| | |]; [| done..]. destruct Hv as [H1 Hx1].
    apply Hrest; [done | | by apply (Hx1 _ Gray); [rewrite lookup_insert_eq |]].
    intros z c Hz Hne. apply (Hx1 z c); [| done].
    rewrite lookup_insert_ne; [done |]. congruence.
  - apply (vi_gray _ _ Hinv) in Hc. set_solver.
  - apply Hrest; [done | | done]. intros z c Hz Hne. destruct c; [done | | done].
    apply (vi_gray _ _ Hinv) in Hz. set_solver.
Qed.

Lemma all_white_lookup n c : all_white tasks !! n = Some c → c = White.
Proof.
  unfold all_white. assert (Hm : ∀ c, (∅ : gmap string Color) !! n = Some c → c = White) by done.
  revert Hm. generalize (∅ : gmap string Color). clear Hnodup Hdeclared.
  induction tasks as [|a l IH]; intros m Hm; simpl; [apply Hm |]. apply IH.
  intros c'. destruct (decide (n = a.(pd_name))) as [->|Hne];
    [rewrite lookup_insert_eq; by intros [= <-] | rewrite lookup_insert_ne by done; apply Hm].
Qed.

Lemma all_white_inv : visit_inv (all_white tasks) [].
Proof.
  split; [| | constructor | | done].
  - intros n. apply (foldl_insert_dom pd_name (λ _, White)).
  - intros n. split; [intros Hn; by apply all_white_lookup in Hn | set_solver].
  - intros n Hn. by apply all_white_lookup in Hn.
Qed.
End graph.

Lemma acc_no_cycle {A} (R : relation A) x : Acc (λ y x, R x y) x → ¬ tc R x x.
Proof.
  induction 1 as [x _ IH]. intros Hcyc. inversion Hcyc as [? ? Hxx|? y ? Hxy Hyx]; subst.
  - by apply (IH x).
  - apply (IH y Hxy). eapply tc_r; done.
Qed.

(** ** What the rules mean *)

Definition reviewer_task (pt : PlanDecl) : Prop :=
  pt.(pd_session_agent_type) = SessionAgentType.Reviewer.

Record plan_well_formed (tasks : list PlanDecl) : Prop := {
  wf_names : NoDup (pd_name <$> tasks);
  wf_declared x y : plan_depends tasks x y → y ∈ pd_name <$> tasks;
  wf_no_reviewer x p : plan_depends tasks x p.(pd_name) → p ∈ tasks → ¬ reviewer_task p;
  wf_fan_in pt : pt ∈ tasks → pt.(pd_task_kind) = Agent →
    pt.(pd_session_agent_type) = SessionAgentType.Executor → length pt.(pd_predecessors) ≤ 1;
  wf_acyclic x : ¬ tc (plan_depends tasks) x x;
}.

Inductive dag_violation (tasks : list PlanDecl) : string → string → Prop :=
  | violates_duplicate n : 2 ≤ length (filter (λ pt, pt.(pd_name) = n) tasks) →
      dag_violation tasks "duplicate_task_name" n
  | violates_self_loop n : plan_depends tasks n n → dag_violation tasks "self_loop" n
  | violates_declared n y : plan_depends tasks n y → y ∉ pd_name <$> tasks →
      dag_violation tasks "dangling_dependency" n
  | violates_reviewer n p : plan_depends tasks n p.(pd_name) → p ∈ tasks → reviewer_task p →
      dag_violation tasks "reviewer_as_predecessor" n
  | violates_fan_in pt : pt ∈ tasks → pt.(pd_task_kind) = Agent →
      pt.(pd_session_agent_type) = SessionAgentType.Executor → 1 < length pt.(pd_predecessors) →
      dag_violation tasks "executor_multi_predecessor_without_workspace_merge" pt.(pd_name)
  | violates_acyclic n : tc (plan_depends tasks) n n → dag_violation tasks "cyclic_dependency" n.

Lemma names_twice tasks n :
  NoDup (pd_name <$> tasks) → length (filter (λ pt, pt.(pd_name) = n) tasks) ≤ 1.
Proof.
  induction tasks as [|a l IH]; [simpl; lia |]. rewrite fmap_cons, NoDup_cons. intros [Ha Hl].
  destruct (decide (a.(pd_name) = n)) as [<-|Hne]; [| by rewrite filter_cons_False; [apply IH |]].
  rewrite filter_cons_True by done. simpl.
  enough (filter (λ pt, pt.(pd_name) = a.(pd_name)) l = []) as -> by (simpl; lia).
  apply elem_of_nil_inv. intros b [Hb Hin]%list_elem_of_filter. apply Ha. rewrite <-Hb.
  by apply list_elem_of_fmap_2.
Qed.

Lemma violation_not_well_formed tasks rule n : dag_violation tasks rule n → ¬ plan_well_formed tasks.
Proof.
  intros Hv [Hn Hd Hr Hf Ha]. destruct Hv as [n Hl|n Hl|n y Hl Hy|n p Hl Hp Hv|pt Hpt Hk He Hl|n Hl].
  - pose proof (names_twice tasks n Hn). lia.
  - by apply (Ha n), tc_once.
  - by apply Hy, (Hd n).
  - by eapply Hr.
  - specialize (Hf pt Hpt Hk He). lia.
  - by apply (Ha n).
Qed.

Lemma duplicate_name_spec tasks seen :
  match duplicate_name seen tasks with
  | Some n => let k := length (filter (λ pt, pt.(pd_name) = n) tasks) in
      1 ≤ k ∧ (n ∈ seen ∨ 2 ≤ k)
  | None => NoDup (pd_name <$> tasks) ∧ ∀ n, n ∈ pd_name <$> tasks → n ∉ seen
  end.
Proof.
  revert seen. induction tasks as [|a l IH]; intros seen; cbn [duplicate_name].
  { split; [constructor | set_solver]. }
  case_bool_decide as Hin; [rewrite filter_cons_True by done; simpl; lia || (split; [lia | by left]) |].
  specialize (IH ({[ a.(pd_name) ]} ∪ seen)). destruct (duplicate_name _ l) as [n|]; cbv zeta in *.
  - destruct IH as [H1 H2]. destruct (decide (a.(pd_name) = n)) as [<-|Hne].
    + rewrite filter_cons_True by done. simpl. split; [lia | right; lia].
    + rewrite filter_cons_False by done. split; [done |]. set_solver.
  - destruct IH as [Hnd Hs]. rewrite fmap_cons. split; [apply NoDup_cons; split; [| done] |].
    + intros Ha. specialize (Hs _ Ha). set_solver.
    + intros n [->|Hn]%elem_of_cons; [done |]. specialize (Hs _ Hn). set_solver.
Qed.

Lemma offender_spec p tasks :
  match offender p tasks with
  | Some n => ∃ pt, pt ∈ tasks ∧ pt.(pd_name) = n ∧ p pt = true
  | None => ∀ pt, pt ∈ tasks → p pt = false
  end.
Proof.
  unfold offender. destruct (List.find p tasks) as [pt|] eqn:Hf; simpl.
  - apply find_some in Hf as [Hin Hp]. exists pt. by rewrite list_elem_of_In.
  - intros pt Hin. eapply find_none; [exact Hf | by apply list_elem_of_In].
Qed.

Lemma self_loop_iff pt : self_loop pt = true ↔ pt.(pd_name) ∈ pt.(pd_predecessors).
Proof.
  unfold self_loop. rewrite existsb_exists. setoid_rewrite <-list_elem_of_In.
  setoid_rewrite String.eqb_eq. naive_solver.
Qed.

Lemma dangling_iff tasks pt :
  dangling (task_index tasks) pt = true ↔ ∃ y, y ∈ pt.(pd_predecessors) ∧ y ∉ pd_name <$> tasks.
Proof.
  unfold dangling. rewrite existsb_exists. setoid_rewrite <-list_elem_of_In.
  setoid_rewrite negb_true_iff. setoid_rewrite bool_decide_eq_false.
  by setoid_rewrite (foldl_insert_dom pd_name id).
Qed.

Lemma unmerged_fan_in_iff pt :
  unmerged_fan_in pt = true ↔ pt.(pd_task_kind) = Agent ∧
    pt.(pd_session_agent_type) = SessionAgentType.Executor ∧ 1 < length pt.(pd_predecessors).
Proof.
  unfold unmerged_fan_in. destruct (pd_task_kind pt); [| naive_solver].
  rewrite andb_true_iff, bool_decide_eq_true, Nat.ltb_lt. naive_solver.
Qed.

Section reviewers.
Context (tasks : list PlanDecl).
Context (Hnodup : NoDup (pd_name <$> tasks)).
Context (Hdeclared : ∀ x y, plan_depends tasks x y → y ∈ pd_name <$> tasks).

Lemma reviewer_pred_spec pt : pt ∈ tasks →
  ∃ b, reviewer_pred (task_index tasks) pt = Some b ∧
    (b = true ↔ ∃ p, p ∈ tasks ∧ p.(pd_name) ∈ pt.(pd_predecessors) ∧ reviewer_task p).
Proof.
  intros Hpt. unfold reviewer_pred.
  assert (Hall : ∀ y, y ∈ pd_predecessors pt → y ∈ pd_name <$> tasks).
  { intros y Hy. apply (Hdeclared pt.(pd_name)). by exists pt. }
  induction (pd_predecessors pt) as [|y l IH]; simpl; [exists false; split; [done | set_solver] |].
  destruct (task_index_name tasks Hnodup y) as (p & Hp & Hy & ->); [apply Hall; by left |]. simpl.
  case_bool_decide as Hr.
  - exists true. split; [done |]. split; [intros _; exists p; set_solver | done].
  - destruct IH as (b & -> & Hb); [set_solver |]. exists b. split; [done |]. rewrite Hb.
    split; [intros (q & ? & ? & ?); exists q; set_solver |].
    intros (q & Hq & [Hqy|Hql]%elem_of_cons & Hqr); [| by exists q].
    rewrite <-Hy in Hqy. destruct Hr. rewrite <-Hqr. f_equal.
    apply (task_index_task tasks Hnodup) in Hp, Hq. rewrite Hqy, Hp in Hq. by injection Hq.
Qed.

Lemma reviewer_offender_spec l : (∀ pt, pt ∈ l → pt ∈ tasks) →
  ∃ r, reviewer_offender (task_index tasks) l = Some r ∧
  match r with
  | Some n => ∃ pt p, pt ∈ l ∧ pt.(pd_name) = n ∧ p ∈ tasks ∧ p.(pd_name) ∈ pt.(pd_predecessors) ∧
      reviewer_task p
  | None => ∀ pt p, pt ∈ l → p ∈ tasks → p.(pd_name) ∈ pt.(pd_predecessors) → ¬ reviewer_task p
  end.
Proof.
  induction l as [|pt l IH]; intros Hsub; cbn [reviewer_offender]; [exists None; set_solver |].
  destruct (reviewer_pred_spec pt) as (b & -> & Hb); [apply Hsub; by left |]. simpl. destruct b.
  - exists (Some pt.(pd_name)). split; [done |].
    destruct (proj1 Hb eq_refl) as (p & ? & ? & ?). exists pt, p. split_and!; [by left | done..].
  - destruct IH as (r & -> & Hr); [set_solver |]. exists r. split; [done |]. destruct r.
    + destruct Hr as (pt' & p & ? & ?). exists pt', p. split; [by right | done].
    + intros pt' p [->|Hin]%elem_of_cons Hp Hpp; [| by eapply Hr].
      intros Hrev. assert (false = true) by (apply Hb; by exists p). done.
Qed.
End reviewers.

Lemma validate_plan_dag_run tasks :
  ∃ r, validate_plan_dag tasks = Some r ∧ (r = Ok tt ↔ plan_well_formed tasks) ∧
  ∀ e, r = Err e → ∃ rule n, e = PlanError.PlanDagInvalid rule n ∧ dag_violation tasks rule n.
Proof.
  assert (Hfail : ∀ rule n, dag_violation tasks rule n →
    ∃ r, Some (Err (PlanError.PlanDagInvalid rule n)) = Some r ∧
      (r = Ok tt ↔ plan_well_formed tasks) ∧
      ∀ e, r = Err e → ∃ rule n, e = PlanError.PlanDagInvalid rule n ∧ dag_violation tasks rule n).
  { intros rule n Hv. eexists. split; [done |]. split; [| intros e [= <-]; eauto].
    split; [done |]. intros Hwf. by apply violation_not_well_formed in Hv. }
  unfold validate_plan_dag. cbv zeta.
  pose proof (duplicate_name_spec tasks ∅) as Hdup. destruct (duplicate_name ∅ tasks) as [n|].
  { apply Hfail, violates_duplicate. set_solver. }
  destruct Hdup as [Hnodup _].
  pose proof (offender_spec self_loop tasks) as Hself. destruct (offender self_loop tasks) as [n|].
  { destruct Hself as (pt & Hpt & <- & Hs%self_loop_iff). apply Hfail, violates_self_loop. by exists pt. }
  pose proof (offender_spec (dangling (task_index tasks)) tasks) as Hdang.
  destruct (offender (dangling _) tasks) as [n|].
  { destruct Hdang as (pt & Hpt & <- & (y & Hy & Hny)%dangling_iff).
    eapply Hfail, violates_declared; [by exists pt | done]. }
  assert (Hdeclared : ∀ x y, plan_depends tasks x y → y ∈ pd_name <$> tasks).
  { intros x y (pt & Hpt & <- & Hy). destruct (decide (y ∈ pd_name <$> tasks)) as [|Hny]; [done |].
    assert (true = false) by (rewrite <-(Hdang pt Hpt); symmetry; apply dangling_iff; eauto). done. }
  destruct (reviewer_offender_spec tasks Hnodup Hdeclared tasks) as (r & -> & Hrev); [done |].
  destruct r as [n|].
  { destruct Hrev as (pt & p & Hpt & <- & Hp & Hpp & Hr).
    eapply Hfail, violates_reviewer; [by exists pt | done | done]. }
  pose proof (offender_spec unmerged_fan_in tasks) as Hfan. destruct (offender unmerged_fan_in tasks) as [n|].
  { destruct Hfan as (pt & Hpt & <- & (Hk & He & Hl)%unmerged_fan_in_iff).
    by apply Hfail, violates_fan_in. }
  pose proof (visit_all_spec tasks Hnodup Hdeclared tasks _ (all_white_inv tasks Hnodup Hdeclared) (λ _ H, H)) as Hvisit.
  destruct (visit_all _ _ _ _) as [color|n| |]; [| by apply Hfail, violates_acyclic | done | done].
  destruct Hvisit as (Hinv & _ & Hblack). exists (Ok tt). split; [done |]. split; [| done].
  split; [intros _ | done]. split; [done | done | | |].
  - intros x p (pt & Hpt & _ & Hpp) Hp. exact (Hrev pt p Hpt Hp Hpp).
  - intros pt Hpt Hk He. apply Nat.nlt_ge. intros Hl.
    assert (true = false) by (rewrite <-(Hfan pt Hpt); symmetry; by apply unmerged_fan_in_iff). done.
  - intros x Hcyc. apply (acc_no_cycle (plan_depends tasks) x); [| done].
    assert (∃ y, plan_depends tasks x y) as (y & pt & Hpt & <- & _).
    { inversion Hcyc; eauto. }
    by apply (vi_black _ _ _ Hinv), Hblack.
Qed.

Lemma validated_well_formed tasks : validate_plan_dag tasks = Some (Ok tt) → plan_well_formed tasks.
Proof. destruct (validate_plan_dag_run tasks) as (r & -> & Hr & _). intros [= ->]. by apply Hr. Qed.

(** ** Properties *)

(** C7: plan validation decides well-formedness.  It always returns (no panic on
    a missing key, no endless walk), accepts exactly the plans with unique task
    names, declared dependencies, no dependency on a reviewer, merged fan-in and
    no dependency cycle, and a rejection names a task that breaks the rule it
    states. *)
Theorem validate_plan_dag_correct tasks :
  ∃ r, validate_plan_dag tasks = Some r ∧ (r = Ok tt ↔ plan_well_formed tasks) ∧
  ∀ e, r = Err e → ∃ rule n, e = PlanError.PlanDagInvalid rule n ∧ dag_violation tasks rule n.
Proof. apply validate_plan_dag_run. Qed.
