(* ===== verification/PlanAdmission.v ===== *)
(** * From a validated plan to its rows

    The rest of the plan pipeline of [kernel/src/initiatives/lifecycle.rs] around
    the graph check of [PlanDag]: fresh task ids, the clone-strategy rule, the
    translation of task names into ids and the hand-over to the scheduler, and
    the theorem that a plan which passed the checks is admitted. *)

From stdpp Require Import pretty.
From S2P Require Import Prelude Fsm Store TaskTransitions Dag PlanDag.

(** ** The remaining checks *)

Definition validate_plan_task_ids_globally_unused (tasks : list PlanDecl) : M PlanError unit :=
  for_each (λ task d,
    (match d.(Store.tasks) !! task.(pd_task_id) with
     | Some r => Err (PlanError.PlanTaskIdAlreadyExists task.(pd_task_id) r.(task_initiative_id))
     | None => Ok tt
     end, d)) tasks.

Definition clone_strategy_violation (task : PlanDecl) : option string :=
  if bool_decide (task.(pd_session_agent_type) = SessionAgentType.Orchestrator)
  then Some "orchestrator_task_not_permitted"
  else if bool_decide (task.(pd_clone_strategy) = CloneStrategy.Sparse) &&
          bool_decide (task.(pd_session_agent_type) = SessionAgentType.Orchestrator)
  then Some "sparse_orchestrator_exclusion"
  else None.

Fixpoint validate_sparse_orchestrator_exclusion (tasks : list PlanDecl) : result PlanError unit :=
  match tasks with
  | [] => Ok tt
  | task :: tasks =>
      match clone_strategy_violation task with
      | Some rule => Err (PlanError.PlanCloneStrategyInvalid rule task.(pd_name))
      | None => validate_sparse_orchestrator_exclusion tasks
      end
  end.

(** ** Names into ids *)

Definition by_name (tasks : list PlanDecl) : gmap string string :=
  foldl (λ m task, <[task.(pd_name) := task.(pd_task_id)]> m) ∅ tasks.

Definition with_predecessors (preds : list string) (t : PlanDecl) : PlanDecl :=
  MkPlanDecl t.(pd_task_id) t.(pd_name) preds t.(pd_task_kind) t.(pd_clone_strategy)
    t.(pd_session_agent_type) t.(pd_path_allowlist).

Definition resolve_task (ids : gmap string string) (task : PlanDecl) : result PlanError PlanDecl :=
  preds ← mapM (λ pred, ok_or (ids !! pred)
                  (PlanError.PlanDagInvalid "dangling_dependency" task.(pd_name)))
            task.(pd_predecessors);
  mret (with_predecessors preds task).

Definition resolve_verifier (ids : gmap string string) (v : IntegrationMergeVerifierEntry)
    : result PlanError IntegrationMergeVerifierEntry :=
  match v.(imv_applies_to) with
  | TaskSet =>
      set ← mapM (λ name, ok_or (ids !! name)
                    (PlanError.PlanIntegrationMergeVerifierInvalid "task_set_unknown_task" v.(imv_name)))
              v.(imv_task_set);
      mret (MkIntegrationMergeVerifierEntry v.(imv_name) v.(imv_applies_to) set)
  | _ => mret v
  end.

Definition resolve_plan_task_name_references (tasks : list PlanDecl)
    (verifiers : list IntegrationMergeVerifierEntry)
    : result PlanError (list PlanDecl * list IntegrationMergeVerifierEntry) :=
  tasks' ← mapM (resolve_task (by_name tasks)) tasks;
  verifiers' ← mapM (resolve_verifier (by_name tasks)) verifiers;
  mret (tasks', verifiers').

(** The [scheduler::PlanTask] built for each task: the workspace lane replaces
    the task's own. *)
Definition scheduler_task (initiative_id workspace_lane : string) (pt : PlanDecl) : PlanTask :=
  MkPlanTask pt.(pd_task_id) initiative_id workspace_lane pt.(pd_name) pt.(pd_predecessors).

(** ** Lemmas *)

Lemma mapM_ok {E A B} (f : A → result E B) l l' :
  mapM f l = Ok l' → Forall2 (λ a b, f a = Ok b) l l'.
Proof.
  revert l'. induction l as [|a l IH]; intros l'; simpl; [by intros [= <-] |].
  unfold mbind, result_bind. destruct (f a) as [b|] eqn:Hb; [| done].
  destruct (mapM f l) as [bs|]; [| done]. intros [= <-]. constructor; auto.
Qed.

Section admitted.
Context (tasks : list PlanDecl).
Context (Hnames : NoDup (pd_name <$> tasks)) (Hids : NoDup (pd_task_id <$> tasks)).

Lemma by_name_lookup n k :
  by_name tasks !! n = Some k ↔ ∃ y, y ∈ tasks ∧ y.(pd_name) = n ∧ y.(pd_task_id) = k.
Proof.
  split.
  - intros Hk. assert (Hin : n ∈ pd_name <$> tasks)
      by (apply (foldl_insert_dom pd_name pd_task_id); exists k; exact Hk).
    apply list_elem_of_fmap in Hin as (y & -> & Hy). exists y. split_and!; [done | done |].
    unfold by_name in Hk. rewrite (foldl_insert_in pd_name pd_task_id) in Hk by done. by injection Hk.
  - intros (y & Hy & <- & <-). unfold by_name. by rewrite (foldl_insert_in pd_name pd_task_id).
Qed.

Lemma resolve_task_ok x t : resolve_task (by_name tasks) x = Ok t →
  t.(pd_task_id) = x.(pd_task_id) ∧ t.(pd_name) = x.(pd_name) ∧
  ∀ k, k ∈ t.(pd_predecessors) → ∃ y, y ∈ tasks ∧ y.(pd_name) ∈ x.(pd_predecessors) ∧
    k = y.(pd_task_id).
Proof.
  unfold resolve_task, mbind, result_bind. destruct (mapM _ _) as [preds|] eqn:Hm; [| done].
  intros [= <-]. split_and!; [done | done |]. simpl. intros k Hk.
  apply mapM_ok in Hm. apply list_elem_of_lookup in Hk as [i Hi].
  destruct (Forall2_lookup_r _ _ _ _ _ Hm Hi) as (n & Hn & Hnk).
  destruct (by_name tasks !! n) as [k'|] eqn:Hbn; [| done]. injection Hnk as ->.
  apply by_name_lookup in Hbn as (y & Hy & <- & <-). exists y. split_and!; [done | | done].
  by apply list_elem_of_lookup_2 in Hn.
Qed.

(** A task is determined by its id. *)
Lemma task_by_id x y : x ∈ tasks → y ∈ tasks → x.(pd_task_id) = y.(pd_task_id) → x = y.
Proof.
  intros [i Hi]%list_elem_of_lookup [j Hj]%list_elem_of_lookup Heq.
  assert (i = j) as ->; [| congruence].
  eapply NoDup_lookup; [exact Hids | |]; rewrite list_lookup_fmap; [by rewrite Hi | rewrite Hj; simpl; congruence].
Qed.

Context (i : string) (d0 : Db).
Context (Hfk : commit_fk_ok d0 = true).
Context (Hunused : ∀ x, x ∈ tasks → d0.(Store.tasks) !! x.(pd_task_id) = None).

(** An edge of the plan. *)
Definition plan_edge (e : EdgeRow) : Prop :=
  ∃ x y, x ∈ tasks ∧ y ∈ tasks ∧ plan_depends tasks x.(pd_name) y.(pd_name) ∧
    e.(edge_successor) = x.(pd_task_id) ∧ e.(edge_predecessor) = y.(pd_task_id) ∧
    e.(edge_initiative_id) = i.

Lemma old_edges_elsewhere e x : e ∈ d0.(dag_edges) → x ∈ tasks → e.(edge_successor) ≠ x.(pd_task_id).
Proof.
  intros He Hx Heq. unfold commit_fk_ok in Hfk. apply andb_true_iff in Hfk as [Hedges _].
  rewrite forallb_forall in Hedges. apply list_elem_of_In, Hedges in He.
  unfold edge_fk_ok in He. apply andb_true_iff in He as [_ Hs]. unfold has_task in Hs.
  apply bool_decide_eq_true in Hs. rewrite Heq, Hunused in Hs by done. by destruct Hs.
Qed.

(** Dependency chains between plan tasks in the table are chains of the plan. *)
Lemma plan_chain new k a b :
  Forall plan_edge new → nsteps (depends (d0.(dag_edges) ++ new)) k a b →
  ∀ x, x ∈ tasks → a = x.(pd_task_id) →
  ∃ y, y ∈ tasks ∧ b = y.(pd_task_id) ∧ nsteps (plan_depends tasks) k x.(pd_name) y.(pd_name).
Proof.
  intros Hnew H. induction H as [a|k a c b Hac _ IH]; intros x Hx Ha.
  { exists x. split_and!; [done | done | constructor]. }
  apply depends_iff in Hac as (e & [He|He]%elem_of_app & Hs & Hp).
  { exfalso. eapply old_edges_elsewhere; [exact He | exact Hx | congruence]. }
  rewrite Forall_forall in Hnew. destruct (Hnew _ He) as (x' & y & Hx' & Hy & Hdep & Hxs & Hys & _).
  assert (x' = x) as -> by (apply task_by_id; congruence).
  destruct (IH y Hy) as (z & Hz & -> & Hchain); [congruence |].
  exists z. split_and!; [done | done |]. by econstructor.
Qed.

Context (Hwf : plan_well_formed tasks).
Context (Hdepth : ∀ k a b, nsteps (plan_depends tasks) k a b → k ≤ MAX_DAG_DEPTH).
Context (Hini : has_initiative d0 i = true).
Context (Hfresh : map_Forall (λ _ r, r.(task_initiative_id) ≠ i) d0.(Store.tasks)).

(** The store while the tasks [dn] have been admitted. *)
Record admitting (dn : list PlanDecl) (d : Db) : Prop := {
  ad_ini : d.(initiatives) = d0.(initiatives);
  ad_deferred : d.(fk_deferred) = true;
  ad_edges : ∃ new, d.(dag_edges) = d0.(dag_edges) ++ new ∧ Forall plan_edge new;
  ad_rows k r : d.(Store.tasks) !! k = Some r → d0.(Store.tasks) !! k = Some r ∨
    ∃ x, x ∈ dn ∧ x.(pd_task_id) = k ∧ r.(task_name) = Some x.(pd_name) ∧ r.(task_initiative_id) = i;
  ad_have k : is_Some (d0.(Store.tasks) !! k) ∨ k ∈ pd_task_id <$> dn → is_Some (d.(Store.tasks) !! k);
}.

Lemma no_back_path dn d x t : admitting dn d → x ∈ tasks → resolve_task (by_name tasks) x = Ok t →
  detect_cycle_in t.(pd_task_id) t.(pd_predecessors) d = (Ok tt, d).
Proof.
  intros [_ _ (new & Hedges & Hnew) _ _] Hx (Hid & _ & Hpreds)%resolve_task_ok.
  destruct (detect_cycle_in_run d t.(pd_task_id) t.(pd_predecessors)) as (r & -> & Hr).
  destruct r as [[]|e]; [done | exfalso]. destruct Hr as (p & Hp & Hmean).
  destruct (Hpreds p Hp) as (y & Hy & Hxy & ->). rewrite Hedges in Hmean.
  assert (Hdep : plan_depends tasks x.(pd_name) y.(pd_name)) by by exists x.
  destruct e; simpl in Hmean; try done.
  - apply rtc_nsteps in Hmean as [k Hk].
    destruct (plan_chain new k _ _ Hnew Hk y Hy eq_refl) as (z & Hz & Hzt & Hchain).
    assert (z = x) as -> by (apply task_by_id; congruence).
    apply (wf_acyclic _ Hwf x.(pd_name)). eapply tc_rtc_r; [by apply tc_once |].
    by eapply rtc_nsteps_2.
  - destruct Hmean as (k & n & Hlt & Hk).
    destruct (plan_chain new k _ _ Hnew Hk y Hy eq_refl) as (z & _ & _ & Hchain).
    apply Hdepth in Hchain. lia.
Qed.

Lemma insert_edges_deferred d t deps : d.(fk_deferred) = true →
  is_ok (insert_edges_in i t deps d).1 = true.
Proof.
  unfold insert_edges_in. revert d. induction deps as [|p deps IH]; intros d Hd; simpl; [done |].
  unfold mbind, se_bind. rewrite !se_map_err_run. unfold insert_edge, fk_ok.
  case_bool_decide; simpl; [by apply IH |]. rewrite Hd. simpl. by apply IH.
Qed.

Lemma admit_step epoch now lane dn d x t :
  admitting dn d → x ∈ tasks → x.(pd_task_id) ∉ pd_task_id <$> dn → x.(pd_name) ∉ pd_name <$> dn →
  resolve_task (by_name tasks) x = Ok t →
  ∃ d', admit_in_tx (scheduler_task i lane t) epoch now d = (Ok t.(pd_task_id), d') ∧
    admitting (dn ++ [x]) d'.
Proof.
  intros Had Hx Hnid Hnname Hres. pose proof (no_back_path _ _ _ _ Had Hx Hres) as Hcycle.
  apply resolve_task_ok in Hres as (Hid & Hname & Hpreds).
  destruct Had as [Hi Hdef (new & Hedges & Hnew) Hrows Hhave].
  unfold admit_in_tx, mbind, se_bind. cbn [scheduler_task pt_task_id pt_dependencies pt_initiative_id].
  rewrite Hcycle, se_map_err_run.
  assert (Hins : insert_task t.(pd_task_id) (admitted_row (scheduler_task i lane t) epoch now) d =
    (Ok tt, on_tasks <[t.(pd_task_id) := admitted_row (scheduler_task i lane t) epoch now]> d)).
  { unfold insert_task, fk_ok. rewrite Hdef. rewrite bool_decide_eq_false_2, bool_decide_eq_true_2; [done | |].
    - intros k r Hk (Hri & Hrn & _). simpl in Hri, Hrn.
      destruct (Hrows _ _ Hk) as [Hold|(z & Hz & _ & Hzn & _)]; [by apply (Hfresh _ _ Hold) |].
      apply Hnname. rewrite <-Hname. apply list_elem_of_fmap. exists z. split; [congruence | done].
    - intros [r Hk]. destruct (Hrows _ _ Hk) as [Hold|(z & Hz & Hzid & _)].
      + rewrite Hid, Hunused in Hold by done. discriminate.
      + apply Hnid. rewrite <-Hid, <-Hzid. by apply list_elem_of_fmap_2. }
  rewrite Hins. cbn [fst snd map_err].
  set (d1 := on_tasks _ d).
  pose proof (insert_edges_deferred d1 t.(pd_task_id) t.(pd_predecessors) Hdef) as Hok.
  destruct (insert_edges_in_run d1 i t.(pd_task_id) t.(pd_predecessors)) as (new' & Hd2 & Hnew' & _).
  destruct (insert_edges_in i t.(pd_task_id) t.(pd_predecessors) d1) as [[[]|e] d2]; [| done].
  simpl in Hd2. subst d2. eexists. split; [done |]. split; [done | done | | |].
  - exists (new ++ new'). simpl. rewrite Hedges, app_assoc. split; [done |]. apply Forall_app. split; [done |].
    eapply Forall_impl; [exact Hnew' |]. intros e (Hei & Hes & Hep & _).
    destruct (Hpreds _ Hep) as (y & Hy & Hxy & Hyp). exists x, y.
    split_and!; [done | done | by exists x | congruence | done | done].
  - intros k r. simpl. destruct (decide (k = t.(pd_task_id))) as [->|Hne].
    + rewrite lookup_insert_eq. intros [= <-]. right. exists x. simpl.
      split_and!; [set_solver | done | by rewrite Hname | done].
    + rewrite lookup_insert_ne by done. intros [?|(z & ? & ? & ?)]%Hrows; [by left |].
      right. exists z. split_and!; [set_solver | done | naive_solver | naive_solver].
  - intros k Hk. simpl. destruct (decide (k = t.(pd_task_id))) as [->|Hne];
      [by rewrite lookup_insert_eq |]. rewrite lookup_insert_ne by done. apply Hhave.
    rewrite fmap_app, elem_of_app in Hk. destruct Hk as [?|[?|Hk]]; [by left | by right |].
    apply list_elem_of_singleton in Hk. congruence.
Qed.

Lemma admit_rest epoch now lane rest ts : Forall2 (λ x t, resolve_task (by_name tasks) x = Ok t) rest ts →
  ∀ dn d, dn ++ rest = tasks → admitting dn d →
  ∃ d', admit_plan epoch now (scheduler_task i lane <$> ts) d = (Ok tt, d') ∧ admitting tasks d'.
Proof.
  unfold admit_plan. induction 1 as [|x t rest ts Hres _ IH]; intros dn d Heq Had.
  { exists d. rewrite app_nil_r in Heq. by subst dn. }
  assert (Hx : x ∈ tasks) by (rewrite <-Heq; set_solver).
  destruct (admit_step epoch now lane dn d x t Had Hx) as (d1 & Hd1 & Had1); [| | done |].
  - rewrite <-Heq, fmap_app in Hids. apply NoDup_app in Hids as (_ & Hdis & _).
    intros Hin. apply (Hdis _ Hin). by left.
  - rewrite <-Heq, fmap_app in Hnames. apply NoDup_app in Hnames as (_ & Hdis & _).
    intros Hin. apply (Hdis _ Hin). by left.
  - destruct (IH (dn ++ [x]) d1) as (d' & Hd' & Had'); [by rewrite <-app_assoc | done |].
    exists d'. split; [| done]. rewrite fmap_cons. cbn [for_each]. unfold mbind, se_bind.
    rewrite Hd1. exact Hd'.
Qed.

Lemma admitted_commits d : admitting tasks d → commit_fk_ok d = true.
Proof.
  intros [Hi _ (new & Hedges & Hnew) Hrows Hhave]. unfold commit_fk_ok in *.
  apply andb_true_iff in Hfk as [Hfe Hft]. rewrite forallb_forall in Hfe.
  unfold tasks_fk_ok in Hft. apply bool_decide_eq_true in Hft.
  apply andb_true_iff. split.
  - apply forallb_forall. intros e. rewrite <-list_elem_of_In, Hedges. intros [He|He]%elem_of_app.
    + apply list_elem_of_In, Hfe in He. revert He. unfold edge_fk_ok, has_task, has_initiative.
      rewrite Hi, !andb_true_iff, !bool_decide_eq_true. naive_solver.
    + rewrite Forall_forall in Hnew. destruct (Hnew _ He) as (x & y & Hx & Hy & _ & Hes & Hep & Hei).
      unfold edge_fk_ok, has_task, has_initiative in *. rewrite Hes, Hep, Hei, Hi, Hini. simpl.
      rewrite !andb_true_iff, !bool_decide_eq_true.
      split; apply Hhave; right; by apply list_elem_of_fmap_2.
  - unfold tasks_fk_ok. apply bool_decide_eq_true. intros k r Hk. unfold has_initiative in *. rewrite Hi.
    destruct (Hrows _ _ Hk) as [Hold|(x & _ & _ & _ & ->)]; [exact (Hft _ _ Hold) | done].
Qed.
End admitted.

Lemma ids_unused_inv tasks d : validate_plan_task_ids_globally_unused tasks d = (Ok tt, d) →
  ∀ x, x ∈ tasks → d.(Store.tasks) !! x.(pd_task_id) = None.
Proof.
  unfold validate_plan_task_ids_globally_unused. induction tasks as [|y l IH]; simpl; [set_solver |].
  unfold mbind, se_bind. destruct (Store.tasks d !! pd_task_id y) eqn:Hy; [done |].
  intros H x [->|Hx]%elem_of_cons; [done | by apply IH].
Qed.

Lemma resolve_ok tasks vs ts vs' : resolve_plan_task_name_references tasks vs = Ok (ts, vs') →
  Forall2 (λ x t, resolve_task (by_name tasks) x = Ok t) tasks ts.
Proof.
  unfold resolve_plan_task_name_references, mbind, result_bind.
  destruct (mapM (resolve_task _) tasks) eqn:Hm; [| done]. destruct (mapM (resolve_verifier _) vs); [| done].
  intros [= <- <-]. by apply mapM_ok.
Qed.

(** ** Properties *)

(** C14: a validated plan is admitted.  If the graph check accepts the plan, its
    generated ids are fresh and distinct, its initiative exists and has no task
    yet, and no dependency chain is longer than the scheduler's bound, the
    admission transaction commits, in whatever order the plan lists its tasks. *)
Theorem validated_plan_is_admitted epoch now i lane tasks vs ts vs' d :
  validate_plan_dag tasks = Some (Ok tt) →
  validate_plan_task_ids_globally_unused tasks d = (Ok tt, d) →
  resolve_plan_task_name_references tasks vs = Ok (ts, vs') →
  NoDup (pd_task_id <$> tasks) → commit_fk_ok d = true → has_initiative d i = true →
  map_Forall (λ _ r, r.(task_initiative_id) ≠ i) d.(Store.tasks) →
  (∀ k a b, nsteps (plan_depends tasks) k a b → k ≤ MAX_DAG_DEPTH) →
  ∃ d', with_deferred_tx SchedulerError.Sql (admit_plan epoch now (scheduler_task i lane <$> ts)) d
          = (Ok tt, d').
Proof.
  intros Hv Hunused Hres%resolve_ok Hids Hfk Hini Hfresh Hdepth.
  pose proof (ids_unused_inv _ _ Hunused) as Hnone. clear Hunused.
  apply validated_well_formed in Hv. set (d0 := on_fk_deferred (λ _, true) d).
  destruct (admit_rest tasks (wf_names _ Hv) Hids i d0 Hfk Hnone Hv Hdepth Hini Hfresh epoch now lane
    tasks ts Hres [] d0) as (d' & Hrun & Had); [done | |].
  { split; [done | done | exists []; by rewrite app_nil_r | by left | intros k [?|Hk]; [done | set_solver]]. }
  unfold with_deferred_tx. fold d0. rewrite Hrun.
  rewrite (admitted_commits tasks i d0 Hfk Hini) by done. by eexists.
Qed.

(** A chain of [n] tasks, each depending on the one before. *)
Fixpoint chain_plan (n : nat) : list PlanDecl :=
  match n with
  | O => []
  | S k => chain_plan k ++
      [MkPlanDecl (pretty k) ("task-" +:+ pretty k) (match k with O => [] | S j => ["task-" +:+ pretty j] end)
         Agent CloneStrategy.Blobless SessionAgentType.Executor []]
  end.

Definition admit_decls (decls : list PlanDecl) (d : Db) : option (result SchedulerError unit) :=
  match resolve_plan_task_name_references decls [] with
  | Ok (ts, _) => Some (with_deferred_tx SchedulerError.Sql
                          (admit_plan 1 1 (scheduler_task "i" "lane" <$> ts)) d).1
  | Err _ => None
  end.

Definition demo_initiative : Db :=
  on_initiatives <["i" := MkInitiativeRow "Draft" "{}" "00" 0 None None 0 None]> empty_db.

(** Plan validation does not know the scheduler's depth bound: a chain of 67
    tasks passes the graph check, is refused with [DagDepthExceeded] when its
    tasks are listed in dependency order, and is admitted when the same tasks are
    listed the other way round. *)
Theorem long_chain_depends_on_order :
  validate_plan_dag (chain_plan 67) = Some (Ok tt) ∧
  validate_plan_dag (reverse (chain_plan 67)) = Some (Ok tt) ∧
  admit_decls (chain_plan 67) demo_initiative = Some (Err SchedulerError.DagDepthExceeded) ∧
  admit_decls (reverse (chain_plan 67)) demo_initiative = Some (Ok tt).
Proof. split_and!; by vm_compute. Qed.

(** ** Witnesses *)

Definition small_plan : list PlanDecl :=
  [MkPlanDecl "1" "beta" ["alpha"] Agent CloneStrategy.Blobless SessionAgentType.Executor ["src/"];
   MkPlanDecl "2" "alpha" [] Agent CloneStrategy.Blobless SessionAgentType.Executor ["lib/"]].

Lemma small_plan_depends x y : plan_depends small_plan x y → x = "beta" ∧ y = "alpha".
Proof.
  intros (pt & Hpt & <- & Hy). unfold small_plan in Hpt.
  apply elem_of_cons in Hpt as [->|Hpt]; [simpl in *; set_solver |].
  apply list_elem_of_singleton in Hpt as ->. simpl in Hy. set_solver.
Qed.

Lemma validated_plan_is_admitted_witness :
  is_ok (with_deferred_tx SchedulerError.Sql
    (admit_plan 1 1 [MkPlanTask "1" "i" "lane" "beta" ["2"]; MkPlanTask "2" "i" "lane" "alpha" []])
    demo_initiative).1 = true.
Proof.
  destruct (validated_plan_is_admitted 1 1 "i" "lane" small_plan []
    [MkPlanDecl "1" "beta" ["2"] Agent CloneStrategy.Blobless SessionAgentType.Executor ["src/"];
     MkPlanDecl "2" "alpha" [] Agent CloneStrategy.Blobless SessionAgentType.Executor ["lib/"]] []
    demo_initiative) as [d' Hd'].
  - by vm_compute.
  - by vm_compute.
  - by vm_compute.
  - by apply (bool_decide_unpack _).
  - by vm_compute.
  - by vm_compute.
  - apply map_Forall_empty.
  - intros k a b H. destruct H as [|k a c b H1 H2]; [unfold MAX_DAG_DEPTH; lia |].
    apply small_plan_depends in H1 as [-> ->].
    inversion H2 as [|k' a' c' b' H3 _]; subst; [unfold MAX_DAG_DEPTH; lia |].
    apply small_plan_depends in H3 as [Heq _]. discriminate Heq.
  - exact (f_equal (λ x, is_ok x.1) Hd').
Defined.
