(* ===== verification/PlanRegistry.v ===== *)
(** * The plan registry

    [kernel/src/initiatives/plan_registry.rs]: the in-memory record of every
    signed plan, filled at approval and at boot.  [PlanRegistry] is a pair of
    hash maps behind read-write locks; a lock that is poisoned panics and is not
    modelled.  The registry is read by path enforcement, completion, review and
    activation, none of which changes it. *)

From S2P Require Import Prelude Fsm PlanDag.

(** [TaskKey]: a task id scoped by its initiative. *)
Definition TaskKey : Type := string * string.

Inductive WorkspaceMergeOnConflict : Type :=
  OrchestratorThenOperator | OperatorManual | FailClosed.
#[export] Instance WorkspaceMergeOnConflict_eq_dec : EqDecision WorkspaceMergeOnConflict.
Proof. solve_decision. Defined.

Definition on_conflict_as_plan_str (c : WorkspaceMergeOnConflict) : string :=
  match c with
  | OrchestratorThenOperator => "orchestrator_then_operator"
  | OperatorManual => "operator_manual"
  | FailClosed => "fail_closed"
  end.
Definition on_conflict_from_plan_str (s : string) : option WorkspaceMergeOnConflict :=
  sql_parse [("orchestrator_then_operator", OrchestratorThenOperator);
             ("operator_manual", OperatorManual); ("fail_closed", FailClosed)] s.

Inductive TaskVerifierOnFailure : Type := BlockReview | WarnOnly.
#[export] Instance TaskVerifierOnFailure_eq_dec : EqDecision TaskVerifierOnFailure.
Proof. solve_decision. Defined.

(** A [[tasks.verifiers]] block; [hints] holds JSON that only the verifier
    process reads and is left out. *)
Record TaskVerifierEntry := MkTaskVerifierEntry {
  tv_name : string;
  tv_image : string;
  tv_command : string;
  tv_timeout : string;
  tv_on_failure : TaskVerifierOnFailure;
  tv_artifact : option string;
  tv_artifact_max_bytes : option Z;
  tv_env : gmap string string;
  tv_allowed_egress : list string;
}.

Record TaskPlanFields := MkTaskPlanFields {
  task_kind : TaskKind;
  workspace_merge_on_conflict : WorkspaceMergeOnConflict;
  path_allowlist : list string;
  path_export_to_successors : bool;
  path_export_globs : list string;
  path_scope_override : bool;
  clone_strategy : CloneStrategy;
  session_agent_type : SessionAgentType;
  vm_image : string;
  description : string;
  custom_tools_json : option string;
  task_verifiers : list TaskVerifierEntry;
  max_crash_retries : option Z;
  max_review_rejections : option Z;
  max_turns : option Z;
  max_turns_step : option Z;
  model_chain : list string;
  elastic : option bool;
  min_vcpus : option Z;
  max_vcpus : option Z;
  min_memory_mb : option Z;
  max_memory_mb : option Z;
}.

Definition default_task_plan_fields : TaskPlanFields :=
  MkTaskPlanFields Agent OrchestratorThenOperator [] false [] false CloneStrategy.Blobless
    SessionAgentType.Executor "" "" None [] None None None None [] None None None None None.

Definition DEFAULT_MAX_CRASH_RETRIES : Z := 3.
Definition DEFAULT_MAX_REVIEW_REJECTIONS : Z := 2.
Definition DEFAULT_PLANNER_MAX_TURNS : Z := 100.

Definition effective_max_crash_retries (f : TaskPlanFields) : Z :=
  default DEFAULT_MAX_CRASH_RETRIES f.(max_crash_retries).
Definition effective_max_review_rejections (f : TaskPlanFields) : Z :=
  default DEFAULT_MAX_REVIEW_REJECTIONS f.(max_review_rejections).
Definition effective_max_turns (f : TaskPlanFields) (policy_default : option Z) : Z * string :=
  match f.(max_turns), policy_default with
  | Some c, _ => (c, "task")
  | None, Some d => (d, "policy")
  | None, None => (DEFAULT_PLANNER_MAX_TURNS, "compiled-default")
  end.

Record OrchestratorPlanFields := MkOrchestratorPlanFields {
  cross_cutting_artifacts : list string;
  orch_description : string;
  target_ref : string;
  repository_id : string;
  integration_merge_verifiers : list IntegrationMergeVerifierEntry;
  orch_elastic : option bool;
  max_concurrent_admissions : Z;
}.

Definition DEFAULT_TARGET_REF : string := "refs/heads/main".
Definition DEFAULT_MAX_CONCURRENT_ADMISSIONS : Z := 3.

Record PlanRegistry := MkPlanRegistry {
  inner : gmap TaskKey TaskPlanFields;
  orchestrators : gmap string OrchestratorPlanFields;
}.

Definition new_registry : PlanRegistry := MkPlanRegistry ∅ ∅.
Definition registry_insert (key : TaskKey) (fields : TaskPlanFields) (r : PlanRegistry)
    : PlanRegistry :=
  MkPlanRegistry (<[key := fields]> r.(inner)) r.(orchestrators).
Definition registry_get (r : PlanRegistry) (key : TaskKey) : option TaskPlanFields :=
  r.(inner) !! key.
Definition registry_contains (r : PlanRegistry) (key : TaskKey) : bool :=
  bool_decide (is_Some (r.(inner) !! key)).
Definition insert_orchestrator (initiative_id : string) (fields : OrchestratorPlanFields)
    (r : PlanRegistry) : PlanRegistry :=
  MkPlanRegistry r.(inner) (<[initiative_id := fields]> r.(orchestrators)).
Definition orchestrator (r : PlanRegistry) (initiative_id : string)
    : option OrchestratorPlanFields :=
  r.(orchestrators) !! initiative_id.
Definition orchestrator_concurrency_cap (r : PlanRegistry) (initiative_id : string) : Z :=
  default DEFAULT_MAX_CONCURRENT_ADMISSIONS
    (max_concurrent_admissions <$> orchestrator r initiative_id).

(** Hash-map iteration order is unspecified; the order here is the one of
    [map_to_list], and no result below depends on it. *)
Definition tasks_in_initiative (r : PlanRegistry) (initiative_id : string)
    : list (string * TaskPlanFields) :=
  (λ kf, (kf.1.2, kf.2)) <$>
    filter (λ kf : TaskKey * TaskPlanFields, kf.1.1 = initiative_id) (map_to_list r.(inner)).

Lemma elem_of_tasks_in_initiative r i t f :
  (t, f) ∈ tasks_in_initiative r i ↔ registry_get r (i, t) = Some f.
Proof.
  unfold tasks_in_initiative, registry_get. rewrite list_elem_of_fmap. split.
  - intros ([[i' t'] f'] & [= -> ->] & [Hi Hin]%list_elem_of_filter). simpl in *. subst.
    by apply elem_of_map_to_list in Hin.
  - intros H. exists ((i, t), f). split; [done |]. apply list_elem_of_filter.
    split; [done |]. by apply elem_of_map_to_list.
Qed.
