(* ===== verification/PathScope.v ===== *)
(** * Path scope

    [kernel/src/path_scope.rs] with the syntax validators of
    [kernel/src/initiatives/lifecycle.rs]: which repository paths a task may
    touch.  A [PathBuf] is a string here: touched paths are built from UTF-8
    strings, on which [to_string_lossy] is the identity. *)

From S2P Require Import Prelude Fsm Store PlanDag PlanRegistry.

(** ['/'], byte 47. *)
Definition slash : Ascii.ascii := Eval cbv in Ascii.ascii_of_nat 47.

(** ** Syntax, checked at approval *)

Definition has_parent_segment (entry : string) : bool :=
  existsb (String.eqb "..") (split_on slash entry).
Definition has_glob_character (entry : string) : bool :=
  existsb (λ c, existsb (Ascii.eqb c) (chars "*?[]{}")) (chars entry).

Definition path_allowlist_entry_violation (entry : string) : option string :=
  if String.eqb entry "" then Some "empty_entry"
  else if starts_with "!" entry then Some "negation_marker"
  else if starts_with "/" entry then Some "absolute_path"
  else if has_parent_segment entry then Some "path_escape"
  else if has_glob_character entry then Some "glob_character_in_path"
  else None.

(** The first entry of a list that a check rejects. *)
Fixpoint first_violation (check : string → option string) (l : list string)
    : option (string * string) :=
  match l with
  | [] => None
  | e :: l =>
      match check e with Some reason => Some (e, reason) | None => first_violation check l end
  end.

Fixpoint validate_path_allowlist_v2_format (tasks : list PlanDecl) : result PlanError unit :=
  match tasks with
  | [] => Ok tt
  | pt :: tasks =>
      match first_violation path_allowlist_entry_violation pt.(pd_path_allowlist) with
      | Some (e, reason) => Err (PlanError.PathAllowlistInvalidSyntax pt.(pd_task_id) e reason)
      | None => validate_path_allowlist_v2_format tasks
      end
  end.

Definition cross_cutting_violation (entry : string) : option string :=
  if String.eqb entry "" then Some "empty_entry"
  else if starts_with "!" entry then Some "negation_marker"
  else if starts_with "/" entry then Some "absolute_path"
  else if ends_with slash entry then Some "trailing_slash"
  else if has_parent_segment entry then Some "path_escape"
  else if existsb (Ascii.eqb slash) (chars entry) then Some "contains_slash"
  else if has_glob_character entry then Some "glob_character"
  else None.

Definition validate_cross_cutting_artifacts (fields : OrchestratorPlanFields)
    : result PlanError unit :=
  match first_violation cross_cutting_violation fields.(cross_cutting_artifacts) with
  | Some (e, reason) => Err (PlanError.CrossCuttingArtifactInvalidSyntax e reason)
  | None => Ok tt
  end.

(** ** Allow sets *)

Inductive PathEntry : Type :=
  | Exact (p : string)
  | DirectoryPrefix (p : string).

Definition path_entry_parse (entry : string) : option PathEntry :=
  if String.eqb entry "" then None
  else Some (if ends_with slash entry then DirectoryPrefix entry else Exact entry).

Definition path_entry_matches (e : PathEntry) (path : string) : bool :=
  match e with
  | Exact p => String.eqb p path
  | DirectoryPrefix p => starts_with p path
  end.

Record AllowSet := MkAllowSet {
  universal : bool;
  path_entries : list PathEntry;
  exact_paths : gset string;
}.
Definition universal_set : AllowSet := MkAllowSet true [] ∅.

Definition allow_set_matches (a : AllowSet) (path : string) : bool :=
  if a.(universal) then true
  else if existsb (λ e, path_entry_matches e path) a.(path_entries) then true
  else bool_decide (path ∈ a.(exact_paths)).

Module PathScopeError.
Inductive PathScopeError : Type :=
  | NoPlanEntry (initiative_id task_id : string)
  | InvalidPathEntry (entry : string)
  | Store (e : SqlError).
#[export] Instance PathScopeError_eq_dec : EqDecision PathScopeError.
Proof. solve_decision. Defined.
End PathScopeError.
Abbreviation PathScopeError := PathScopeError.PathScopeError.
Export (hints) PathScopeError.

(** The parent task whose scope a gate-fixup task borrows. *)
Definition gate_fixup_parent_task_id (initiative_id task_id : string)
    : M PathScopeError (option string) := λ d,
  (Ok (row ← d.(tasks) !! task_id;
       if String.eqb row.(task_initiative_id) initiative_id && row.(task_is_gate_fixup)
       then parent ← row.(task_parent_gate_failure_task_id);
            if String.eqb parent "" then None else Some parent
       else None), d).

Fixpoint parse_v2_entries (entries : list string) : result PathScopeError (list PathEntry) :=
  match entries with
  | [] => Ok []
  | raw :: entries =>
      entry ← ok_or (path_entry_parse raw) (PathScopeError.InvalidPathEntry raw);
      out ← parse_v2_entries entries;
      mret (entry :: out)
  end.

(** [SELECT predecessor_task_id FROM task_dag_edges WHERE successor_task_id = ?1]. *)
Definition predecessors_of (d : Db) (task_id : string) : list string :=
  edge_predecessor <$> filter (λ e, e.(edge_successor) = task_id) d.(dag_edges).

Definition exported_by (d : Db) (task_id : string) : list string :=
  export_path <$> filter (λ r, r.(export_task_id) = task_id) d.(exported_paths).

Definition exports_to_successors (registry : PlanRegistry) (key : TaskKey) : bool :=
  match registry_get registry key with
  | Some f => f.(path_export_to_successors)
  | None => false
  end.

Fixpoint collect_exports (initiative_id : string) (registry : PlanRegistry) (d : Db)
    (preds : list string) (out : gset string) : result PathScopeError (gset string) :=
  match preds with
  | [] => Ok out
  | pred_id :: preds =>
      row ← ok_or (d.(tasks) !! pred_id) (PathScopeError.Store SqlNoRows);
      if negb (String.eqb row.(task_state) "Completed")
      then collect_exports initiative_id registry d preds out
      else if negb (exports_to_successors registry (initiative_id, pred_id))
      then collect_exports initiative_id registry d preds out
      else collect_exports initiative_id registry d preds
             (out ∪ list_to_set (exported_by d pred_id))
  end.

Definition collect_predecessor_exports (initiative_id task_id : string) (registry : PlanRegistry)
    : M PathScopeError (gset string) := λ d,
  (collect_exports initiative_id registry d (predecessors_of d task_id) ∅, d).

(** The two halves of [effective_allow]: whose fields apply, and what they allow. *)
Definition resolve_scope (initiative_id task_id : string) (registry : PlanRegistry)
    : M PathScopeError (string * TaskPlanFields) :=
  match registry_get registry (initiative_id, task_id) with
  | Some fields => mret (task_id, fields)
  | None =>
      parent ← gate_fixup_parent_task_id initiative_id task_id;
      parent_task_id ← lift_result
        (ok_or parent (PathScopeError.NoPlanEntry initiative_id task_id));
      parent_fields ← lift_result
        (ok_or (registry_get registry (initiative_id, parent_task_id))
           (PathScopeError.NoPlanEntry initiative_id parent_task_id));
      mret (parent_task_id, parent_fields)
  end.

Definition scope_allow (initiative_id : string) (registry : PlanRegistry)
    (scoped : string * TaskPlanFields) : M PathScopeError AllowSet :=
  let '(scope_task_id, fields) := scoped in
  if fields.(path_scope_override) then mret universal_set
  else
    entries ← lift_result (parse_v2_entries fields.(path_allowlist));
    exact ← collect_predecessor_exports initiative_id scope_task_id registry;
    mret (MkAllowSet false entries exact).

Definition effective_allow (initiative_id task_id : string) (registry : PlanRegistry)
    : M PathScopeError AllowSet :=
  scoped ← resolve_scope initiative_id task_id registry;
  scope_allow initiative_id registry scoped.

Definition compute_hybrid_effective_allow (initiative_id : string) (registry : PlanRegistry)
    : result PathScopeError AllowSet :=
  let task_snapshot := tasks_in_initiative registry initiative_id in
  if existsb (λ tf, tf.2.(path_scope_override)) task_snapshot then Ok universal_set
  else
    entries ← parse_v2_entries (task_snapshot ≫= λ tf, tf.2.(path_allowlist));
    let exact := match orchestrator registry initiative_id with
                 | Some o => list_to_set o.(cross_cutting_artifacts)
                 | None => ∅
                 end in
    mret (MkAllowSet false entries exact).

(** ** Coverage *)

(** [Err paths] is a [PathPolicyViolation]. *)
Definition coverage (allow : AllowSet) (touched_paths : list string)
    : result (list string) unit :=
  match filter (λ s, allow_set_matches allow s = false) touched_paths with
  | [] => Ok tt
  | violations => Err (sort_strings violations)
  end.

Definition check_paths (touched_paths : list string) (initiative_id task_id : string)
    (registry : PlanRegistry) : M PathScopeError (result (list string) unit) :=
  allow ← effective_allow initiative_id task_id registry;
  mret (coverage allow touched_paths).

Definition check_paths_hybrid (touched_paths : list string) (initiative_id : string)
    (registry : PlanRegistry) : result PathScopeError (result (list string) unit) :=
  allow ← compute_hybrid_effective_allow initiative_id registry;
  mret (coverage allow touched_paths).

(** ** Specification *)

Definition segments (path : string) : list string := split_on slash path.

(** An entry covers itself; an entry that ends in a slash covers everything
    strictly below the directory it names, by whole path segments. *)
Definition entry_covers (entry path : string) : Prop :=
  entry = path ∨
  ∃ dir rest, entry = dir +:+ String slash "" ∧ rest ≠ [] ∧ segments path = segments dir ++ rest.

(** The task whose signed fields decide for [t], and those fields. *)
Inductive task_scope (registry : PlanRegistry) (d : Db) (i t : string)
    : string → TaskPlanFields → Prop :=
  | scope_own f : registry_get registry (i, t) = Some f → task_scope registry d i t t f
  | scope_fixup row parent f :
      registry_get registry (i, t) = None →
      d.(tasks) !! t = Some row → row.(task_initiative_id) = i → row.(task_is_gate_fixup) = true →
      row.(task_parent_gate_failure_task_id) = Some parent → parent ≠ "" →
      registry_get registry (i, parent) = Some f →
      task_scope registry d i t parent f.

(** [pred] is completed, its plan opts in to exporting, and [p] is in its
    snapshot. *)
Definition exports_from (registry : PlanRegistry) (d : Db) (i pred p : string) : Prop :=
  ∃ row, d.(tasks) !! pred = Some row ∧ row.(task_state) = "Completed" ∧
    exports_to_successors registry (i, pred) = true ∧ MkExportRow pred p ∈ d.(exported_paths).

Definition exported_to (registry : PlanRegistry) (d : Db) (i s p : string) : Prop :=
  ∃ pred, pred ∈ predecessors_of d s ∧ exports_from registry d i pred p.

Definition plan_grants (f : TaskPlanFields) (p : string) : Prop :=
  f.(path_scope_override) = true ∨ ∃ entry, entry ∈ f.(path_allowlist) ∧ entry_covers entry p.

Definition path_granted (registry : PlanRegistry) (d : Db) (i t p : string) : Prop :=
  ∃ s f, task_scope registry d i t s f ∧ (plan_grants f p ∨ exported_to registry d i s p).

Definition merge_granted (registry : PlanRegistry) (i p : string) : Prop :=
  (∃ t f, registry_get registry (i, t) = Some f ∧ plan_grants f p) ∨
  ∃ o, orchestrator registry i = Some o ∧ p ∈ o.(cross_cutting_artifacts).

(** What [validate_path_allowlist_v2_format] established at approval. *)
Definition registry_valid (registry : PlanRegistry) (i : string) : Prop :=
  ∀ t f entry, registry_get registry (i, t) = Some f → entry ∈ f.(path_allowlist) →
    path_allowlist_entry_violation entry = None.

(** The foreign key of [task_dag_edges.predecessor_task_id]. *)
Definition edges_resolved (d : Db) : Prop :=
  ∀ e, e ∈ d.(dag_edges) → is_Some (d.(tasks) !! e.(edge_predecessor)).

Lemma violation_free_nonempty entry : path_allowlist_entry_violation entry = None → entry ≠ "".
Proof. by intros H ->. Qed.

(** *** Entries *)

Lemma entry_covers_directory dir path :
  entry_covers (dir +:+ String slash "") path ↔ starts_with (dir +:+ String slash "") path = true.
Proof.
  rewrite starts_with_iff. split.
  - intros [<-|(dir' & rest & Hdir & Hrest & Hseg)]; [exists ""; by rewrite str_app_nil_r |].
    exists (join_with slash rest). unfold segments in Hseg.
    rewrite <-(join_split slash path), Hseg, join_app by (done || apply split_on_nonempty).
    rewrite join_split, Hdir, str_app_assoc. reflexivity.
  - intros [t ->]. right. exists dir, (split_on slash t).
    split; [done |]. split; [apply split_on_nonempty |].
    unfold segments. rewrite str_app_assoc, string_app_cons. apply split_on_app.
Qed.

Lemma path_entry_matches_iff entry e path :
  path_entry_parse entry = Some e → path_entry_matches e path = true ↔ entry_covers entry path.
Proof.
  unfold path_entry_parse. destruct (String.eqb entry ""); [done |].
  destruct (ends_with slash entry) eqn:Hend; intros [= <-]; simpl.
  - apply ends_with_iff in Hend as [dir ->]. by rewrite entry_covers_directory.
  - rewrite String.eqb_eq. split; [by left |]. intros [->|(dir & rest & -> & _)]; [done |].
    assert (ends_with slash (dir +:+ String slash "") = true); [| congruence].
    apply ends_with_iff. by exists dir.
Qed.

Lemma path_entry_parse_nonempty entry : entry ≠ "" → is_Some (path_entry_parse entry).
Proof. unfold path_entry_parse. destruct (String.eqb_spec entry ""); [done | by eexists]. Qed.

Lemma parse_v2_entries_spec l p :
  Forall (λ e, path_allowlist_entry_violation e = None) l →
  ∃ es, parse_v2_entries l = Ok es ∧
    (existsb (λ e, path_entry_matches e p) es = true ↔ ∃ entry, entry ∈ l ∧ entry_covers entry p).
Proof.
  induction 1 as [|raw l Hraw _ (es & IH & Hes)]; simpl.
  { exists []. split; [done |]. simpl. split; [done |]. intros (? & H%elem_of_nil & _). done. }
  destruct (path_entry_parse_nonempty raw) as [e He]; [by apply violation_free_nonempty |].
  rewrite He. simpl. rewrite IH. exists (e :: es). split; [done |]. simpl.
  rewrite orb_true_iff, (path_entry_matches_iff _ _ _ He), Hes. split.
  - intros [H|(entry & Hin & H)]; [exists raw | exists entry]; split; rewrite ?elem_of_cons; auto.
  - intros (entry & [->|Hin]%elem_of_cons & H); [by left | right; by exists entry].
Qed.

(** The entry list does not depend on the path asked about. *)
Lemma parse_v2_entries_ok l :
  Forall (λ e, path_allowlist_entry_violation e = None) l →
  ∃ es, parse_v2_entries l = Ok es ∧ ∀ p,
    existsb (λ e, path_entry_matches e p) es = true ↔ ∃ entry, entry ∈ l ∧ entry_covers entry p.
Proof.
  intros Hl. destruct (parse_v2_entries_spec l "" Hl) as (es & Hes & _). exists es.
  split; [done |]. intros p. destruct (parse_v2_entries_spec l p Hl) as (es' & Hes' & H).
  congruence.
Qed.

Lemma allow_set_matches_iff es ex p :
  allow_set_matches (MkAllowSet false es ex) p = true ↔
  existsb (λ e, path_entry_matches e p) es = true ∨ p ∈ ex.
Proof.
  unfold allow_set_matches. simpl. destruct (existsb _ es); [by split; auto |].
  rewrite bool_decide_eq_true. split; [auto | by intros [|]].
Qed.

(** *** Predecessor exports *)

Lemma elem_of_predecessors_of d s pred :
  pred ∈ predecessors_of d s ↔
  ∃ e, e ∈ d.(dag_edges) ∧ e.(edge_successor) = s ∧ e.(edge_predecessor) = pred.
Proof.
  unfold predecessors_of. rewrite list_elem_of_fmap. setoid_rewrite list_elem_of_filter.
  split; [intros (e & -> & <- & He) | intros (e & He & <- & <-)]; eauto.
Qed.

Lemma elem_of_exported_by d t p : p ∈ exported_by d t ↔ MkExportRow t p ∈ d.(exported_paths).
Proof.
  unfold exported_by. rewrite list_elem_of_fmap. setoid_rewrite list_elem_of_filter. split.
  - by intros ([t' p'] & -> & <- & He).
  - intros H. by exists (MkExportRow t p).
Qed.

Lemma collect_exports_spec i reg d preds out :
  Forall (λ t, is_Some (d.(tasks) !! t)) preds →
  ∃ out', collect_exports i reg d preds out = Ok out' ∧
    ∀ p, p ∈ out' ↔ p ∈ out ∨ ∃ pred, pred ∈ preds ∧ exports_from reg d i pred p.
Proof.
  intros Hp. revert out. induction Hp as [|pred preds [row Hrow] _ IH]; intros out; simpl.
  { exists out. split; [done |]. intros p. split; [by left |]. by intros [|(? & ?%elem_of_nil & _)]. }
  rewrite Hrow. simpl. setoid_rewrite elem_of_cons.
  destruct (String.eqb_spec (task_state row) "Completed") as [Hc|Hc]; simpl;
    [destruct (exports_to_successors reg (i, pred)) eqn:Hx; simpl |].
  - destruct (IH (out ∪ list_to_set (exported_by d pred))) as (out' & -> & Ho).
    exists out'. split; [done |]. intros p.
    rewrite Ho, elem_of_union, elem_of_list_to_set, elem_of_exported_by. split.
    + intros [[|]|(? & ? & ?)]; [by left | right | right; eauto].
      exists pred. split; [by left |]. by exists row.
    + intros [|(? & [->|] & Hf)]; [by do 2 left | left; right | right; eauto].
      by destruct Hf as (? & _ & _ & _ & ?).
  - destruct (IH out) as (out' & -> & Ho). exists out'. split; [done |]. intros p. rewrite Ho.
    split; [intros [|(? & ? & ?)]; eauto |]. intros [|(? & [->|] & Hf)]; eauto.
    destruct Hf as (? & _ & _ & ? & _). congruence.
  - destruct (IH out) as (out' & -> & Ho). exists out'. split; [done |]. intros p. rewrite Ho.
    split; [intros [|(? & ? & ?)]; eauto |]. intros [|(? & [->|] & Hf)]; eauto.
    destruct Hf as (? & ? & ? & _). congruence.
Qed.

Lemma collect_predecessor_exports_spec i s reg d :
  edges_resolved d →
  ∃ out, collect_predecessor_exports i s reg d = (Ok out, d) ∧
    ∀ p, p ∈ out ↔ exported_to reg d i s p.
Proof.
  intros Hd. unfold collect_predecessor_exports.
  destruct (collect_exports_spec i reg d (predecessors_of d s) ∅) as (out & -> & Hout).
  { apply Forall_forall. intros t (e & He & _ & <-)%elem_of_predecessors_of. by apply Hd. }
  exists out. split; [done |]. intros p. rewrite Hout. split; [by intros [?%elem_of_empty|] | by right].
Qed.

(** *** Resolution and coverage *)

Lemma task_scope_inj reg d i t s f s' f' :
  task_scope reg d i t s f → task_scope reg d i t s' f' → s = s' ∧ f = f'.
Proof. intros [] []; split; congruence. Qed.

Lemma task_scope_registered reg d i t s f :
  task_scope reg d i t s f → registry_get reg (i, s) = Some f.
Proof. by intros []. Qed.

Lemma scope_allow_run reg d i s f :
  registry_valid reg i → edges_resolved d → registry_get reg (i, s) = Some f →
  ∃ a, scope_allow i reg (s, f) d = (Ok a, d) ∧
    ∀ p, allow_set_matches a p = true ↔ plan_grants f p ∨ exported_to reg d i s p.
Proof.
  intros Hv Hd Hf. unfold plan_grants, scope_allow. destruct (path_scope_override f).
  { exists universal_set. split; [done |]. intros p. split; by auto. }
  destruct (parse_v2_entries_ok (path_allowlist f)) as (es & Hes & Hm).
  { apply Forall_forall. intros e He. by eapply Hv. }
  destruct (collect_predecessor_exports_spec i s reg d Hd) as (ex & Hex & Hout).
  exists (MkAllowSet false es ex). split.
  - rewrite Hes. unfold mbind, se_bind, lift_result. by rewrite Hex.
  - intros p. rewrite allow_set_matches_iff, Hm, Hout. split; [intros [|]; auto |].
    intros [[|]|]; by auto.
Qed.

Lemma resolve_scope_run reg d i t :
  match resolve_scope i t reg d with
  | (Ok (s, f), d') => d' = d ∧ task_scope reg d i t s f
  | (Err e, d') => d' = d ∧ (¬ ∃ s f, task_scope reg d i t s f) ∧
      ∃ t', e = PathScopeError.NoPlanEntry i t'
  end.
Proof.
  unfold resolve_scope. destruct (registry_get reg (i, t)) as [f|] eqn:Hf.
  { split; [done | by constructor]. }
  unfold gate_fixup_parent_task_id. se_unfold.
  destruct (tasks d !! t) as [row|] eqn:Hrow; simpl.
  2: { split; [done |]. split; [| by eexists]. intros (s & f & []); congruence. }
  destruct (String.eqb_spec (task_initiative_id row) i) as [Hi|Hi]; simpl.
  2: { split; [done |]. split; [| by eexists]. intros (s & f & []); congruence. }
  destruct (task_is_gate_fixup row) eqn:Hfix; simpl.
  2: { split; [done |]. split; [| by eexists]. intros (s & f & []); congruence. }
  destruct (task_parent_gate_failure_task_id row) as [parent|] eqn:Hp; simpl.
  2: { split; [done |]. split; [| by eexists]. intros (s & f & []); congruence. }
  destruct (String.eqb_spec parent "") as [Hne|Hne]; simpl.
  { split; [done |]. split; [| by eexists]. intros (s & f & []); congruence. }
  destruct (registry_get reg (i, parent)) as [f|] eqn:Hpf; simpl.
  2: { split; [done |]. split; [| by eexists]. intros (s & f & []); congruence. }
  split; [done |]. by eapply scope_fixup.
Qed.

Lemma effective_allow_run reg d i t :
  registry_valid reg i → edges_resolved d →
  match effective_allow i t reg d with
  | (Ok a, d') => d' = d ∧ ∃ s f, task_scope reg d i t s f ∧
      ∀ p, allow_set_matches a p = true ↔ plan_grants f p ∨ exported_to reg d i s p
  | (Err e, d') => d' = d ∧ (¬ ∃ s f, task_scope reg d i t s f) ∧
      ∃ t', e = PathScopeError.NoPlanEntry i t'
  end.
Proof.
  intros Hv Hd. unfold effective_allow, mbind, se_bind.
  pose proof (resolve_scope_run reg d i t) as Hr.
  destruct (resolve_scope i t reg d) as [[[s f]|e] d']; [| done].
  destruct Hr as [-> Hs].
  destruct (scope_allow_run reg d i s f Hv Hd (task_scope_registered _ _ _ _ _ _ Hs)) as (a & -> & Ha).
  eauto.
Qed.

(** The verdict of [coverage] for an allow set that decides [G]. *)
Definition coverage_verdict (G : string → Prop) (touched : list string)
    (r : result (list string) unit) : Prop :=
  match r with
  | Ok _ => ∀ p, p ∈ touched → G p
  | Err violations => violations ≠ [] ∧ Sorted str_le violations ∧
      ∀ p, p ∈ violations ↔ p ∈ touched ∧ ¬ G p
  end.

Lemma coverage_spec G a touched :
  (∀ p, allow_set_matches a p = true ↔ G p) → coverage_verdict G touched (coverage a touched).
Proof.
  intros HG. unfold coverage, coverage_verdict.
  destruct (filter _ touched) as [|v vs] eqn:Hf.
  - intros p Hp. apply HG. destruct (allow_set_matches a p) eqn:Hm; [done |].
    assert (p ∈ filter (λ s, allow_set_matches a s = false) touched) as Hin
      by by apply list_elem_of_filter.
    rewrite Hf in Hin. by apply elem_of_nil in Hin.
  - rewrite <-Hf. split; [| split; [apply sort_strings_sorted |]].
    + intros Hnil. pose proof (sort_strings_perm (v :: vs)) as Hp. rewrite <-Hf, Hnil in Hp.
      apply Permutation_nil_l in Hp. congruence.
    + intros p. rewrite sort_strings_perm, list_elem_of_filter, <-HG, not_true_iff_false. tauto.
Qed.

(** *** Merge scope *)

Lemma hybrid_allow_run reg i :
  registry_valid reg i →
  ∃ a, compute_hybrid_effective_allow i reg = Ok a ∧
    ∀ p, allow_set_matches a p = true ↔ merge_granted reg i p.
Proof.
  intros Hv. unfold compute_hybrid_effective_allow.
  destruct (existsb _ (tasks_in_initiative reg i)) eqn:Hov.
  { exists universal_set. split; [done |]. intros p. split; [intros _ | done].
    apply existsb_exists in Hov as ([t f] & Hin & Hf).
    apply list_elem_of_In, elem_of_tasks_in_initiative in Hin.
    left. exists t, f. split; [done | by left]. }
  destruct (parse_v2_entries_ok (tasks_in_initiative reg i ≫= λ tf, tf.2.(path_allowlist)))
    as (es & -> & Hm).
  { apply Forall_forall. intros e ([t f] & He & Hin)%list_elem_of_bind.
    apply elem_of_tasks_in_initiative in Hin. by eapply Hv. }
  simpl. eexists. split; [reflexivity |]. intros p. rewrite allow_set_matches_iff, Hm.
  unfold merge_granted. split.
  - intros [(e & ([t f] & He & Hin)%list_elem_of_bind & Hcov)|Hex].
    + apply elem_of_tasks_in_initiative in Hin. left. exists t, f. split; [done |].
      right. by exists e.
    + right. destruct (orchestrator reg i) as [o|]; [| by apply elem_of_empty in Hex].
      exists o. split; [done |]. by apply elem_of_list_to_set in Hex.
  - intros [(t & f & Hf & [Ho|(e & He & Hcov)])|(o & -> & Hp)].
    + exfalso. apply not_true_iff_false in Hov. apply Hov, existsb_exists. exists (t, f).
      split; [by apply list_elem_of_In, elem_of_tasks_in_initiative | done].
    + left. exists e. split; [| done]. apply list_elem_of_bind. exists (t, f).
      split; [done |]. by apply elem_of_tasks_in_initiative.
    + right. by apply elem_of_list_to_set.
Qed.

(** Every exported snapshot of an exporting task of [i] stays within what an
    integration merge of [i] may touch. *)
Definition exports_within_merge (reg : PlanRegistry) (i : string) (d : Db) : Prop :=
  ∀ t p, exports_to_successors reg (i, t) = true → MkExportRow t p ∈ d.(exported_paths) →
    merge_granted reg i p.

Lemma path_granted_merge_granted reg d i t p :
  exports_within_merge reg i d → path_granted reg d i t p → merge_granted reg i p.
Proof.
  intros Hx (s & f & Hs & [Hg|(pred & _ & row & _ & _ & Hopt & Hin)]); [| by eapply Hx].
  left. exists s, f. split; [by eapply task_scope_registered | done].
Qed.

Lemma check_paths_run reg d i t touched :
  registry_valid reg i → edges_resolved d →
  match check_paths touched i t reg d with
  | (Ok r, d') => d' = d ∧ (∃ s f, task_scope reg d i t s f) ∧
      coverage_verdict (path_granted reg d i t) touched r
  | (Err e, d') => d' = d ∧ (¬ ∃ s f, task_scope reg d i t s f) ∧
      ∃ t', e = PathScopeError.NoPlanEntry i t'
  end.
Proof.
  intros Hv Hd. unfold check_paths, mbind, se_bind.
  pose proof (effective_allow_run reg d i t Hv Hd) as Hr.
  destruct (effective_allow i t reg d) as [[a|e] d']; [| done].
  destruct Hr as (-> & s & f & Hs & Ha). simpl. split; [done |]. split; [eauto |].
  apply coverage_spec. intros p. rewrite Ha. unfold path_granted. split; [eauto |].
  intros (s' & f' & Hs' & H). by destruct (task_scope_inj _ _ _ _ _ _ _ _ Hs Hs') as [<- <-].
Qed.

(** ** Properties *)

(** C12: path enforcement answers for exactly the paths the plan grants: a task
    outside the registry (and its gate-fixup link) is refused, a batch passes
    iff every path is under the override, an entry of the signed allow-list or a
    completed exporting predecessor's snapshot, and otherwise the violation
    lists the uncovered paths, sorted. *)
Theorem check_paths_correct reg d i t touched :
  registry_valid reg i → edges_resolved d →
  match check_paths touched i t reg d with
  | (Ok r, d') => d' = d ∧ (∃ s f, task_scope reg d i t s f) ∧
      coverage_verdict (path_granted reg d i t) touched r
  | (Err e, d') => d' = d ∧ (¬ ∃ s f, task_scope reg d i t s f) ∧
      ∃ t', e = PathScopeError.NoPlanEntry i t'
  end.
Proof. apply check_paths_run. Qed.

(** An entry that passed the approval-time syntax check parses, and matches
    a path exactly when it is that path or names, ending in a slash, a directory
    whose segments are a proper prefix of the path's segments; so [src/] never
    admits [srcfoo/x]. *)
Theorem path_entry_boundary entry path :
  path_allowlist_entry_violation entry = None →
  ∃ e, path_entry_parse entry = Some e ∧ (path_entry_matches e path = true ↔ entry_covers entry path).
Proof.
  intros H%violation_free_nonempty%path_entry_parse_nonempty. destruct H as [e He].
  exists e. split; [done |]. by apply path_entry_matches_iff.
Qed.

(** The integration-merge check accepts exactly the paths some task of the
    initiative may write by its own plan, plus the cross-cutting artifacts; and
    as long as snapshots stay within that set, so does whatever any task of the
    initiative may touch, inherited exports included. *)
Theorem merge_scope_covers_tasks reg d i touched :
  registry_valid reg i → edges_resolved d → exports_within_merge reg i d →
  (∃ r, check_paths_hybrid touched i reg = Ok r ∧ coverage_verdict (merge_granted reg i) touched r) ∧
  ∀ t, (check_paths touched i t reg d).1 = Ok (Ok tt) →
    check_paths_hybrid touched i reg = Ok (Ok tt).
Proof.
  intros Hv Hd Hx. destruct (hybrid_allow_run reg i Hv) as (a & Ha & Hm).
  unfold check_paths_hybrid. rewrite Ha. simpl.
  pose proof (coverage_spec (merge_granted reg i) a touched Hm) as Hc.
  split; [eauto |]. intros t Ht. f_equal.
  pose proof (check_paths_run reg d i t touched Hv Hd) as Hr.
  destruct (check_paths touched i t reg d) as [[r|] d']; simpl in Ht; [| done].
  injection Ht as ->. destruct Hr as (_ & _ & Hr). simpl in Hr.
  destruct (coverage a touched) as [[]|[|v vs]]; [done | by destruct Hc |].
  destruct Hc as (_ & _ & Hc). destruct (proj1 (Hc v) ltac:(by left)) as [Hv1 Hv2].
  destruct Hv2. by eapply path_granted_merge_granted, Hr.
Qed.

(** ** Witnesses *)

Definition demo_fields (allow : list string) (export : bool) : TaskPlanFields :=
  MkTaskPlanFields Agent OrchestratorThenOperator allow export [] false CloneStrategy.Blobless
    SessionAgentType.Executor "" "" None [] None None None None [] None None None None None.

(** [build] writes below [src/] and exports; [test] writes one file of its own. *)
Definition demo_registry : PlanRegistry :=
  insert_orchestrator "i" (MkOrchestratorPlanFields ["CHANGELOG.md"] "" DEFAULT_TARGET_REF "r" [] None 3)
    (registry_insert ("i", "build") (demo_fields ["src/"] true)
      (registry_insert ("i", "test") (demo_fields ["tests/a.rs"] false) new_registry)).

Definition demo_row (st : string) : TaskRow :=
  MkTaskRow "i" "lane" st None "kernel" 4 20 20 None None None None None 0 None None false None None 0.

Definition demo_scope_db : Db :=
  on_exported_paths (λ _, [MkExportRow "build" "src/lib.rs"])
    (on_dag_edges (λ _, [MkEdgeRow "i" "build" "test" true])
      (on_tasks (λ _, {[ "build" := demo_row "Completed"; "test" := demo_row "Running" ]}) empty_db)).

Lemma demo_registry_valid : registry_valid demo_registry "i".
Proof.
  intros t f e Hf He. unfold demo_registry, registry_get in Hf. simpl in Hf.
  apply lookup_insert_Some in Hf as [[_ <-]|[_ Hf]]; [simpl in He; set_solver |].
  apply lookup_insert_Some in Hf as [[_ <-]|[_ Hf]]; [| by rewrite lookup_empty in Hf].
  simpl in He. apply list_elem_of_singleton in He as ->. by vm_compute.
Qed.

Lemma demo_edges_resolved : edges_resolved demo_scope_db.
Proof. intros e He. simpl in He. apply list_elem_of_singleton in He as ->. simpl. by eexists. Qed.

Lemma demo_exports_within_merge : exports_within_merge demo_registry "i" demo_scope_db.
Proof.
  intros t p _ Hin. simpl in Hin. apply list_elem_of_singleton in Hin as [= -> ->].
  left. exists "build", (demo_fields ["src/"] true). split; [by vm_compute |]. right.
  exists "src/". split; [by left |]. right. exists "src", ["lib.rs"]. by vm_compute.
Qed.

Lemma check_paths_correct_witness :
  check_paths ["tests/a.rs"; "src/lib.rs"; "srcfoo/x"; "src/main.rs"] "i" "test" demo_registry
    demo_scope_db = (Ok (Err ["src/main.rs"; "srcfoo/x"]), demo_scope_db) ∧
  ¬ path_granted demo_registry demo_scope_db "i" "test" "srcfoo/x".
Proof.
  pose proof (check_paths_correct demo_registry demo_scope_db "i" "test"
    ["tests/a.rs"; "src/lib.rs"; "srcfoo/x"; "src/main.rs"] demo_registry_valid
    demo_edges_resolved) as H.
  assert (check_paths ["tests/a.rs"; "src/lib.rs"; "srcfoo/x"; "src/main.rs"] "i" "test"
    demo_registry demo_scope_db = (Ok (Err ["src/main.rs"; "srcfoo/x"]), demo_scope_db)) as E
    by by vm_compute.
  rewrite E in H. split; [done |]. destruct H as (_ & _ & _ & _ & H).
  apply (H "srcfoo/x"). by right; left.
Defined.

Lemma path_entry_boundary_witness :
  path_allowlist_entry_violation "src/" = None ∧ ¬ entry_covers "src/" "srcfoo/x" ∧
  entry_covers "src/" "src/a/b".
Proof.
  split; [done |].
  destruct (path_entry_boundary "src/" "srcfoo/x" eq_refl) as (e & [= <-] & H1).
  destruct (path_entry_boundary "src/" "src/a/b" eq_refl) as (e & [= <-] & H2).
  split; [intros Hc; by apply H1 in Hc | by apply H2].
Defined.

Lemma merge_scope_covers_tasks_witness :
  check_paths_hybrid ["src/lib.rs"] "i" demo_registry = Ok (Ok tt) ∧
  (check_paths ["src/lib.rs"] "i" "test" demo_registry demo_scope_db).1 = Ok (Ok tt).
Proof.
  assert ((check_paths ["src/lib.rs"] "i" "test" demo_registry demo_scope_db).1 = Ok (Ok tt)) as E
    by by vm_compute.
  split; [| done].
  by apply (merge_scope_covers_tasks demo_registry demo_scope_db "i" ["src/lib.rs"]
    demo_registry_valid demo_edges_resolved demo_exports_within_merge) in E.
Defined.
