(* ===== verification/Review.v ===== *)
(** * Reviewer panels and predecessor gates

    [kernel/src/initiatives/review_aggregation.rs], which folds the verdicts of
    an executor's reviewers for the orchestrator, and the activation gate of
    [kernel/src/handlers/intent.rs]: [missing_predecessors_for_activation],
    [reviewer_gate_blocker_for_predecessor] and
    [mark_successor_edges_satisfied_if_unblocked].  The two fold the same rows
    independently; the properties relate them.  Warning lines are not
    modelled. *)

From S2P Require Import Prelude Fsm Store PlanDag PlanRegistry.

(** [task_dag_edges JOIN tasks ON t.task_id = e.successor_task_id WHERE
    e.predecessor_task_id = ?1]. *)
Definition successor_rows (d : Db) (task_id : string) : list (string * TaskRow) :=
  omap (λ e, row ← d.(tasks) !! e.(edge_successor); Some (e.(edge_successor), row))
    (filter (λ e, e.(edge_predecessor) = task_id) d.(dag_edges)).

(** ** Aggregation *)

(** [reviewer_task_id] only labels a warning line. *)
Record AgentTypeFilter := MkAgentTypeFilter {
  filter_registry : PlanRegistry;
  filter_initiative_id : string;
  filter_reviewer_task_id : string;
}.

Definition is_reviewer (f : AgentTypeFilter) (successor_task_id : string) : bool :=
  match registry_get f.(filter_registry) (f.(filter_initiative_id), successor_task_id) with
  | Some fields => bool_decide (fields.(session_agent_type) = SessionAgentType.Reviewer)
  | None => false
  end.

Inductive AggregateReviewVerdict : Type :=
  Pending | AllPassed | AtLeastOneRejected | NoSuccessors.
#[export] Instance AggregateReviewVerdict_eq_dec : EqDecision AggregateReviewVerdict.
Proof. solve_decision. Defined.

Definition wire_str (v : AggregateReviewVerdict) : string :=
  match v with
  | Pending => "AwaitingReviewerVerdicts"
  | AllPassed => "AllPassed"
  | AtLeastOneRejected => "AtLeastOneRejected"
  | NoSuccessors => "NoSuccessors"
  end.

Record AggregateOutcome := MkAggregateOutcome {
  verdict : AggregateReviewVerdict;
  outcome_count : Z;
}.

Definition row_verdict (row : TaskRow) : option ReviewVerdict :=
  s ← row.(task_review_verdict); from_sql_str s.

(** The loop's locals: [count], [any_pending], [any_rejected], [all_approved]. *)
Record Fold := MkFold {
  fold_count : Z;
  any_pending : bool;
  any_rejected : bool;
  all_approved : bool;
}.

Definition counted (agent_type_filter : option AgentTypeFilter) (sr : string * TaskRow) : bool :=
  match agent_type_filter with Some f => is_reviewer f sr.1 | None => true end.

Definition fold_row (agent_type_filter : option AgentTypeFilter) (st : Fold)
    (sr : string * TaskRow) : Fold :=
  if negb (counted agent_type_filter sr) then st
  else
    let count := (st.(fold_count) + 1)%Z in
    match row_verdict sr.2 with
    | None => MkFold count true st.(any_rejected) false
    | Some ReviewVerdict.Approved =>
        MkFold count st.(any_pending) st.(any_rejected) st.(all_approved)
    | Some ReviewVerdict.Rejected => MkFold count st.(any_pending) true false
    end.

(** [None] is the [debug_assert!(all_approved)] of the last branch failing. *)
Definition fold_outcome (st : Fold) : option AggregateOutcome :=
  v ← (if (st.(fold_count) =? 0)%Z then Some NoSuccessors
       else if st.(any_pending) then Some Pending
       else if st.(any_rejected) then Some AtLeastOneRejected
       else if st.(all_approved) then Some AllPassed else None);
  Some (MkAggregateOutcome v st.(fold_count)).

Definition compute_aggregate_review_outcome_with_conn (executor_task_id : string) (d : Db)
    (agent_type_filter : option AgentTypeFilter) : option AggregateOutcome :=
  fold_outcome (foldl (fold_row agent_type_filter) (MkFold 0 false false true)
                  (successor_rows d executor_task_id)).

Definition compute_aggregate_review_outcome (executor_task_id : string) (d : Db)
    (agent_type_filter : option AgentTypeFilter) : option AggregateOutcome :=
  compute_aggregate_review_outcome_with_conn executor_task_id d agent_type_filter.

Definition compute_aggregate_review_verdict (executor_task_id : string) (d : Db)
    (agent_type_filter : option AgentTypeFilter) : option AggregateReviewVerdict :=
  verdict <$> compute_aggregate_review_outcome executor_task_id d agent_type_filter.

(** ** The activation gate *)

Definition registered_agent_type (registry : PlanRegistry) (key : TaskKey)
    : option SessionAgentType :=
  session_agent_type <$> registry_get registry key.

(** The loop's locals: [reviewer_count], [any_pending], [any_rejected],
    [registry_missing]. *)
Record GateFold := MkGateFold {
  reviewer_count : Z;
  gate_pending : bool;
  gate_rejected : bool;
  registry_missing : bool;
}.

Definition gate_row (registry : PlanRegistry) (initiative_id : string) (st : GateFold)
    (sr : string * TaskRow) : GateFold :=
  match registry_get registry (initiative_id, sr.1) with
  | None => MkGateFold st.(reviewer_count) st.(gate_pending) st.(gate_rejected) true
  | Some fields =>
      if negb (bool_decide (fields.(session_agent_type) = SessionAgentType.Reviewer)) then st
      else
        let n := (st.(reviewer_count) + 1)%Z in
        match row_verdict sr.2 with
        | Some ReviewVerdict.Approved =>
            MkGateFold n st.(gate_pending) st.(gate_rejected) st.(registry_missing)
        | Some ReviewVerdict.Rejected =>
            MkGateFold n st.(gate_pending) true st.(registry_missing)
        | None => MkGateFold n true st.(gate_rejected) st.(registry_missing)
        end
  end.

Definition reviewer_gate_blocker_for_predecessor (registry : PlanRegistry)
    (initiative_id predecessor_task_id : string) (d : Db) : option string :=
  if negb (bool_decide (registered_agent_type registry (initiative_id, predecessor_task_id)
                        = Some SessionAgentType.Executor)) then None
  else
    let st := foldl (gate_row registry initiative_id) (MkGateFold 0 false false false)
                (successor_rows d predecessor_task_id) in
    if st.(registry_missing) then Some "ReviewerGateRegistryMissing"
    else if (st.(reviewer_count) =? 0)%Z then None
    else if st.(gate_pending) then Some "AwaitingReviewerVerdicts"
    else if st.(gate_rejected) then Some "AtLeastOneRejected"
    else None.

(** [task_dag_edges] joined with both its tasks, for one successor. *)
Definition predecessor_rows (d : Db) (task_id : string) : list (string * TaskRow) :=
  omap (λ e, row ← d.(tasks) !! e.(edge_predecessor);
             _ ← d.(tasks) !! e.(edge_successor);
             Some (e.(edge_predecessor), row))
    (filter (λ e, e.(edge_successor) = task_id) d.(dag_edges)).

Definition missing_predecessor (registry : PlanRegistry) (d : Db) (succ : TaskRow)
    (successor_agent_type : option SessionAgentType) (pr : string * TaskRow)
    : option (string * string) :=
  let '(pred_task_id, pred) := pr in
  let is_fixup_parent_edge := succ.(task_is_gate_fixup) &&
    bool_decide (succ.(task_parent_gate_failure_task_id) = Some pred_task_id) in
  if negb (String.eqb pred.(task_state) (as_sql_str TaskState.Completed)) then
    if is_fixup_parent_edge then
      match pred.(task_evaluation_sha) with
      | Some sha =>
          if String.eqb sha "" then Some (pred_task_id, "ParentEvaluationShaMissing") else None
      | None => Some (pred_task_id, "ParentEvaluationShaMissing")
      end
    else Some (pred_task_id, pred.(task_state))
  else if bool_decide (successor_agent_type = Some SessionAgentType.Reviewer) then None
  else
    blocker ← reviewer_gate_blocker_for_predecessor registry pred.(task_initiative_id)
                pred_task_id d;
    Some (pred_task_id, blocker).

Definition missing_predecessors_for_activation (task_id : string) (registry : PlanRegistry)
    (d : Db) : list (string * string) :=
  match d.(tasks) !! task_id with
  | None => []
  | Some succ =>
      omap (missing_predecessor registry d succ
              (registered_agent_type registry (succ.(task_initiative_id), task_id)))
        (predecessor_rows d task_id)
  end.

(** ** Edge satisfaction *)

Definition satisfy_edge (e : EdgeRow) : EdgeRow :=
  MkEdgeRow e.(edge_initiative_id) e.(edge_predecessor) e.(edge_successor) true.

Definition same_edge (i p s : string) (e : EdgeRow) : bool :=
  String.eqb e.(edge_initiative_id) i && String.eqb e.(edge_predecessor) p &&
  String.eqb e.(edge_successor) s.

(** The [UPDATE] of one successor and the rows it changed. *)
Definition mark_edge (i p s : string) (d : Db) : nat * Db :=
  (length (filter (λ e, same_edge i p s e = true) d.(dag_edges)),
   on_dag_edges (fmap (λ e, if same_edge i p s e then satisfy_edge e else e)) d).

(** The blocker is computed once per call; no statement in between changes what
    it reads. *)
Fixpoint mark_edges (registry : PlanRegistry) (i p : string) (blocker : option string)
    (succs : list string) (d : Db) : nat * Db :=
  match succs with
  | [] => (0, d)
  | s :: succs =>
      let allowed :=
        if bool_decide (registered_agent_type registry (i, s) = Some SessionAgentType.Reviewer)
        then true
        else bool_decide (blocker = None) in
      if negb allowed then mark_edges registry i p blocker succs d
      else
        let '(n, d1) := mark_edge i p s d in
        let '(m, d2) := mark_edges registry i p blocker succs d1 in
        (n + m, d2)
  end.

Definition unsatisfied_successors (d : Db) (i p : string) : list string :=
  edge_successor <$> filter (λ e, e.(edge_initiative_id) = i ∧ e.(edge_predecessor) = p ∧
                                  e.(edge_satisfied) = false) d.(dag_edges).

Definition mark_successor_edges_satisfied_if_unblocked (registry : PlanRegistry)
    (initiative_id predecessor_task_id : string) {E} : M E nat := λ d,
  let predecessor_completed :=
    match d.(tasks) !! predecessor_task_id with
    | Some r => String.eqb r.(task_initiative_id) initiative_id &&
                String.eqb r.(task_state) "Completed"
    | None => false
    end in
  if negb predecessor_completed then (Ok 0, d)
  else
    let blocker :=
      reviewer_gate_blocker_for_predecessor registry initiative_id predecessor_task_id d in
    let '(changed, d') := mark_edges registry initiative_id predecessor_task_id blocker
                            (unsatisfied_successors d initiative_id predecessor_task_id) d in
    (Ok changed, d').

(** ** Specification *)

(** The plan declares [t] a reviewer; with no filter every successor is one. *)
Definition declared_reviewer (agent_type_filter : option AgentTypeFilter) (t : string) : bool :=
  match agent_type_filter with
  | Some f => bool_decide (session_agent_type <$>
                registry_get f.(filter_registry) (f.(filter_initiative_id), t)
                = Some SessionAgentType.Reviewer)
  | None => true
  end.

(** The rows the aggregator folds: the successors the plan declares reviewers. *)
Definition panel (agent_type_filter : option AgentTypeFilter) (d : Db) (t : string)
    : list (string * TaskRow) :=
  filter (λ sr, declared_reviewer agent_type_filter sr.1 = true) (successor_rows d t).

Definition approved (sr : string * TaskRow) : Prop := sr.2.(task_review_verdict) = Some "Approved".
Definition rejected (sr : string * TaskRow) : Prop := sr.2.(task_review_verdict) = Some "Rejected".
Definition submitted (sr : string * TaskRow) : Prop := approved sr ∨ rejected sr.

Definition aggregate_verdict_spec (rs : list (string * TaskRow)) (v : AggregateReviewVerdict)
    : Prop :=
  match v with
  | NoSuccessors => rs = []
  | AllPassed => rs ≠ [] ∧ Forall approved rs
  | AtLeastOneRejected => Forall submitted rs ∧ Exists rejected rs
  | Pending => ¬ Forall submitted rs
  end.

(** No reviewer of [p] stands in the way of [p]'s dependents. *)
Definition panel_satisfied (registry : PlanRegistry) (d : Db) (i p : string) : Prop :=
  registered_agent_type registry (i, p) ≠ Some SessionAgentType.Executor ∨
  Forall (λ sr, ∃ f, registry_get registry (i, sr.1) = Some f ∧
           (f.(session_agent_type) = SessionAgentType.Reviewer → approved sr))
    (successor_rows d p).

(** What an activation of [t] needs of one predecessor. *)
Definition gate_open (registry : PlanRegistry) (d : Db) (t : string) (succ : TaskRow)
    (p : string) (pred : TaskRow) : Prop :=
  if bool_decide (pred.(task_state) = "Completed") then
    registered_agent_type registry (succ.(task_initiative_id), t) = Some SessionAgentType.Reviewer
    ∨ panel_satisfied registry d pred.(task_initiative_id) p
  else
    succ.(task_is_gate_fixup) = true ∧ succ.(task_parent_gate_failure_task_id) = Some p ∧
    ∃ sha, pred.(task_evaluation_sha) = Some sha ∧ sha ≠ "".

(** The primary key of [task_dag_edges]. *)
Definition edges_keyed (d : Db) : Prop :=
  NoDup ((λ e, (e.(edge_predecessor), e.(edge_successor))) <$> d.(dag_edges)).

(** The edges one call marks. *)
Definition newly_satisfied (registry : PlanRegistry) (d : Db) (i p : string) (e : EdgeRow)
    : Prop :=
  e.(edge_initiative_id) = i ∧ e.(edge_predecessor) = p ∧ e.(edge_satisfied) = false ∧
  (∃ r, d.(tasks) !! p = Some r ∧ r.(task_initiative_id) = i ∧ r.(task_state) = "Completed") ∧
  (registered_agent_type registry (i, e.(edge_successor)) = Some SessionAgentType.Reviewer ∨
   panel_satisfied registry d i p).

(** *** Row verdicts *)

Lemma row_verdict_approved sr : row_verdict sr.2 = Some ReviewVerdict.Approved ↔ approved sr.
Proof.
  unfold row_verdict, approved. destruct (task_review_verdict sr.2) as [s|]; [| done].
  change (Some s ≫= λ s, from_sql_str s) with (from_sql_str (A := ReviewVerdict) s).
  rewrite from_sql_str_iff. split; [by intros -> | by intros [= ->]].
Qed.

Lemma row_verdict_rejected sr : row_verdict sr.2 = Some ReviewVerdict.Rejected ↔ rejected sr.
Proof.
  unfold row_verdict, rejected. destruct (task_review_verdict sr.2) as [s|]; [| done].
  change (Some s ≫= λ s, from_sql_str s) with (from_sql_str (A := ReviewVerdict) s).
  rewrite from_sql_str_iff. split; [by intros -> | by intros [= ->]].
Qed.

Lemma row_verdict_none sr : row_verdict sr.2 = None ↔ ¬ submitted sr.
Proof.
  unfold submitted. rewrite <-row_verdict_approved, <-row_verdict_rejected.
  destruct (row_verdict sr.2) as [[]|]; split; intros H; try done; by (intros [|] || destruct H; auto).
Qed.

#[export] Instance approved_dec sr : Decision (approved sr).
Proof. unfold approved. apply _. Defined.
#[export] Instance rejected_dec sr : Decision (rejected sr).
Proof. unfold rejected. apply _. Defined.
#[export] Instance submitted_dec sr : Decision (submitted sr).
Proof. unfold submitted. apply _. Defined.

Lemma approved_not_rejected sr : approved sr → ¬ rejected sr.
Proof. unfold approved, rejected. congruence. Qed.

(** *** The aggregation fold *)

Definition pends (sr : string * TaskRow) : bool := bool_decide (¬ submitted sr).
Definition rejects (sr : string * TaskRow) : bool := bool_decide (rejected sr).
Definition approves (sr : string * TaskRow) : bool := bool_decide (approved sr).

Lemma existsb_pends l : existsb pends l = true ↔ ¬ Forall submitted l.
Proof.
  induction l as [|sr l IH]; simpl; [split; [done | by intros H; destruct H] |].
  rewrite orb_true_iff, IH, Forall_cons. unfold pends. rewrite bool_decide_eq_true.
  destruct (decide (submitted sr)); tauto.
Qed.
Lemma existsb_rejects l : existsb rejects l = true ↔ Exists rejected l.
Proof.
  rewrite existsb_exists, Exists_exists. setoid_rewrite list_elem_of_In. unfold rejects.
  by setoid_rewrite bool_decide_eq_true.
Qed.
Lemma forallb_approves l : forallb approves l = true ↔ Forall approved l.
Proof.
  rewrite forallb_forall, Forall_forall. setoid_rewrite list_elem_of_In. unfold approves.
  by setoid_rewrite bool_decide_eq_true.
Qed.

(** The three bits a row contributes, from its verdict. *)
Lemma row_bits sr :
  match row_verdict sr.2 with
  | None => pends sr = true ∧ rejects sr = false ∧ approves sr = false
  | Some ReviewVerdict.Approved => pends sr = false ∧ rejects sr = false ∧ approves sr = true
  | Some ReviewVerdict.Rejected => pends sr = false ∧ rejects sr = true ∧ approves sr = false
  end.
Proof.
  unfold pends, rejects, approves. destruct (row_verdict sr.2) as [[]|] eqn:Hv.
  - apply row_verdict_approved in Hv. pose proof (approved_not_rejected _ Hv).
    rewrite (bool_decide_eq_true_2 (approved sr)), !bool_decide_eq_false_2 by (unfold submitted; tauto).
    done.
  - apply row_verdict_rejected in Hv.
    assert (¬ approved sr) by (intros Ha; by apply approved_not_rejected in Ha).
    rewrite (bool_decide_eq_true_2 (rejected sr)), !bool_decide_eq_false_2 by (unfold submitted; tauto).
    done.
  - apply row_verdict_none in Hv. unfold submitted in Hv.
    rewrite (bool_decide_eq_true_2 (¬ submitted sr)), !bool_decide_eq_false_2 by (unfold submitted; tauto).
    done.
Qed.

Lemma fold_rows_spec flt l st :
  let kept := filter (λ sr, counted flt sr = true) l in
  foldl (fold_row flt) st l =
    MkFold (st.(fold_count) + Z.of_nat (length kept)) (st.(any_pending) || existsb pends kept)
      (st.(any_rejected) || existsb rejects kept) (st.(all_approved) && forallb approves kept).
Proof.
  simpl. revert st. induction l as [|sr l IH]; intros [c pd rj aa]; simpl.
  { by rewrite !orb_false_r, andb_true_r, Z.add_0_r. }
  rewrite IH, filter_cons. clear IH. unfold fold_row. simpl.
  destruct (counted flt sr); simpl; [| done].
  pose proof (row_bits sr) as Hb.
  destruct (row_verdict sr.2) as [[]|]; destruct Hb as (-> & -> & ->); simpl;
    f_equal; rewrite ?orb_true_r, ?andb_false_r; try done; lia.
Qed.

Lemma counted_declared flt sr : counted flt sr = declared_reviewer flt sr.1.
Proof.
  destruct flt as [f|]; [| done]. simpl. unfold is_reviewer.
  destruct (registry_get _ _) as [fields|]; simpl; [| done].
  apply bool_decide_ext. split; [by intros -> | by intros [= ->]].
Qed.

Lemma panel_counted flt d t :
  filter (λ sr, counted flt sr = true) (successor_rows d t) = panel flt d t.
Proof. apply list_filter_ext. intros sr _. by rewrite counted_declared. Qed.

Lemma aggregate_run flt d t :
  let rs := panel flt d t in
  ∃ v, compute_aggregate_review_outcome t d flt =
    Some (MkAggregateOutcome v (Z.of_nat (length rs))) ∧ aggregate_verdict_spec rs v.
Proof.
  simpl. unfold compute_aggregate_review_outcome, compute_aggregate_review_outcome_with_conn,
    fold_outcome. rewrite fold_rows_spec, panel_counted. simpl.
  destruct (panel flt d t) as [|sr rs] eqn:Hp; [by exists NoSuccessors |].
  rewrite <-Hp, Z.add_0_l. assert (Hlen : (0 < Z.of_nat (length (panel flt d t)))%Z) by (rewrite Hp; simpl; lia).
  destruct (Z.eqb_spec (Z.of_nat (length (panel flt d t))) 0) as [?|_]; [lia |].
  destruct (existsb pends _) eqn:Hpd; simpl; [exists Pending; split; [done | by apply existsb_pends] |].
  apply not_true_iff_false in Hpd. rewrite existsb_pends in Hpd. apply dec_stable in Hpd.
  destruct (existsb rejects _) eqn:Hrj; simpl.
  { exists AtLeastOneRejected. split; [done |]. split; [done | by apply existsb_rejects]. }
  apply not_true_iff_false in Hrj. rewrite existsb_rejects in Hrj.
  assert (Hall : Forall approved (panel flt d t)).
  { apply Forall_forall. intros x Hx. destruct (proj1 (Forall_forall _ _) Hpd x Hx) as [|Hr]; [done |].
    destruct Hrj. apply Exists_exists. eauto. }
  rewrite (proj2 (forallb_approves _) Hall). exists AllPassed. simpl. split; [done |].
  split; [congruence | done].
Qed.

(** *** The gate fold *)

Definition registered (reg : PlanRegistry) (i : string) (sr : string * TaskRow) : bool :=
  match registry_get reg (i, sr.1) with Some _ => true | None => false end.

Lemma gate_rows_spec reg i w l st :
  let kept := filter (λ sr, counted (Some (MkAgentTypeFilter reg i w)) sr = true) l in
  foldl (gate_row reg i) st l =
    MkGateFold (st.(reviewer_count) + Z.of_nat (length kept)) (st.(gate_pending) || existsb pends kept)
      (st.(gate_rejected) || existsb rejects kept)
      (st.(registry_missing) || negb (forallb (registered reg i) l)).
Proof.
  simpl. revert st. induction l as [|sr l IH]; intros [c pd rj ms]; simpl.
  { by rewrite !orb_false_r, Z.add_0_r. }
  rewrite IH, filter_cons. clear IH. unfold gate_row, registered, is_reviewer. simpl.
  destruct (registry_get reg (i, sr.1)) as [f|]; simpl; [| by rewrite orb_true_r].
  destruct (bool_decide (session_agent_type f = SessionAgentType.Reviewer)); simpl; [| done].
  pose proof (row_bits sr) as Hb.
  destruct (row_verdict sr.2) as [[]|]; destruct Hb as (-> & -> & _); simpl;
    f_equal; rewrite ?orb_true_r; try done; lia.
Qed.

(** The gate as a case analysis on the aggregator's verdict: the two folds of
    the same rows agree as soon as every row is registered. *)
Lemma gate_blocker_run reg i p w d :
  let rs := panel (Some (MkAgentTypeFilter reg i w)) d p in
  reviewer_gate_blocker_for_predecessor reg i p d =
  if negb (bool_decide (registered_agent_type reg (i, p) = Some SessionAgentType.Executor)) then None
  else if negb (forallb (registered reg i) (successor_rows d p))
  then Some "ReviewerGateRegistryMissing"
  else if existsb pends rs then Some (wire_str Pending)
  else if existsb rejects rs then Some (wire_str AtLeastOneRejected)
  else None.
Proof.
  simpl. unfold reviewer_gate_blocker_for_predecessor. destruct (negb _); [done |].
  rewrite (gate_rows_spec reg i w), panel_counted. simpl.
  destruct (negb (forallb _ _)); [done |]. by destruct (panel _ d p).
Qed.

Lemma gate_blocker_none_iff reg i p d :
  reviewer_gate_blocker_for_predecessor reg i p d = None ↔ panel_satisfied reg d i p.
Proof.
  rewrite (gate_blocker_run reg i p ""). unfold panel_satisfied.
  destruct (bool_decide_reflect (registered_agent_type reg (i, p) = Some SessionAgentType.Executor))
    as [Hx|Hx]; simpl; [| by split; [left |]].
  set (rs := panel _ d p).
  assert (Hrs : ∀ sr, sr ∈ rs ↔ sr ∈ successor_rows d p ∧
    ∃ f, registry_get reg (i, sr.1) = Some f ∧ f.(session_agent_type) = SessionAgentType.Reviewer).
  { intros sr. unfold rs, panel. rewrite list_elem_of_filter. simpl.
    rewrite bool_decide_eq_true. destruct (registry_get reg (i, sr.1)) as [f|]; simpl.
    - split; [intros [[= Hf] ?]; eauto | by intros (? & ? & [= <-] & ->)].
    - by split; [intros [? _] | intros (_ & ? & ? & _)]. }
  destruct (forallb (registered reg i) (successor_rows d p)) eqn:Hreg; simpl.
  2: { split; [done |]. intros [|Hall]; [done |]. apply not_true_iff_false in Hreg.
       destruct Hreg. apply forallb_forall. intros sr Hin%list_elem_of_In.
       rewrite Forall_forall in Hall. destruct (Hall sr Hin) as (f & Hf & _).
       unfold registered. by rewrite Hf. }
  rewrite forallb_forall in Hreg.
  assert (Hspec : Forall approved rs ↔ existsb pends rs = false ∧ existsb rejects rs = false).
  { rewrite <-!not_true_iff_false, existsb_pends, existsb_rejects, Forall_forall, Exists_exists. split.
    - intros Ha. split; [intros Hn; apply Hn, Forall_forall; by left; apply Ha |].
      intros (sr & Hin & Hr). by apply (approved_not_rejected sr (Ha sr Hin)).
    - intros [Hs Hr] sr Hin. apply dec_stable in Hs. rewrite Forall_forall in Hs.
      destruct (Hs sr Hin) as [|]; [done |]. destruct Hr. eauto. }
  transitivity (Forall approved rs).
  { rewrite Hspec. destruct (existsb pends rs), (existsb rejects rs); split; intros H; try done;
      by destruct H. }
  rewrite !Forall_forall. split.
  - intros Ha. right. intros sr Hin.
    assert (Hr := Hreg sr (proj1 (list_elem_of_In _ _) Hin)).
    unfold registered in Hr. destruct (registry_get reg (i, sr.1)) as [f|] eqn:Hf; [| done].
    exists f. split; [done |]. intros Hrev. apply Ha, Hrs. eauto.
  - intros [|Ha]; [done |]. intros sr (Hin & f & Hf & Hrev)%Hrs.
    destruct (Ha sr Hin) as (f' & Hf' & H). apply H. congruence.
Qed.

(** *** Activation *)

Lemma elem_of_predecessor_rows d t p pred succ :
  d.(tasks) !! t = Some succ →
  (p, pred) ∈ predecessor_rows d t ↔
  d.(tasks) !! p = Some pred ∧
  ∃ e, e ∈ d.(dag_edges) ∧ e.(edge_successor) = t ∧ e.(edge_predecessor) = p.
Proof.
  intros Ht. unfold predecessor_rows. rewrite list_elem_of_omap. split.
  - intros (e & [Hs He]%list_elem_of_filter & Hr).
    destruct (tasks d !! edge_predecessor e) as [row|] eqn:Hp; [| done].
    rewrite Hs, Ht in Hr. simpl in Hr. simplify_eq. eauto.
  - intros (Hp & e & He & Hs & <-). exists e. rewrite list_elem_of_filter. split; [done |].
    by rewrite Hp, Hs, Ht.
Qed.

Lemma missing_predecessor_none_iff reg d t succ p pred :
  missing_predecessor reg d succ (registered_agent_type reg (succ.(task_initiative_id), t)) (p, pred)
    = None ↔ gate_open reg d t succ p pred.
Proof.
  unfold missing_predecessor, gate_open. change (as_sql_str TaskState.Completed) with "Completed".
  destruct (String.eqb_spec (task_state pred) "Completed") as [Hc|Hc]; simpl.
  - rewrite (bool_decide_eq_true_2 (task_state pred = "Completed")) by done.
    case_bool_decide as Hr; [by split; [left |] |]. rewrite <-gate_blocker_none_iff.
    destruct (reviewer_gate_blocker_for_predecessor _ _ _ _); simpl; split; auto;
      [done | by intros [|]].
  - rewrite (bool_decide_eq_false_2 (task_state pred = "Completed")) by done.
    destruct (task_is_gate_fixup succ); simpl; [| by split; [| intros []]].
    case_bool_decide as Hp; [| by split; [| intros (_ & ? & _)]].
    destruct (task_evaluation_sha pred) as [sha|]; [| by split; [| intros (_ & _ & ? & ? & _)]].
    destruct (String.eqb_spec sha "") as [->|Hne]; split; try done; [| by eauto].
    by intros (_ & _ & ? & [= <-] & ?).
Qed.

Lemma missing_predecessors_nil_iff reg d t succ :
  d.(tasks) !! t = Some succ →
  missing_predecessors_for_activation t reg d = [] ↔
  ∀ p pred, (p, pred) ∈ predecessor_rows d t → gate_open reg d t succ p pred.
Proof.
  intros Ht. unfold missing_predecessors_for_activation. rewrite Ht. split.
  - intros Hnil p pred Hin. apply missing_predecessor_none_iff.
    destruct (missing_predecessor _ _ _ _ _) as [m|] eqn:Hm; [| done].
    assert (m ∈ omap (missing_predecessor reg d succ
      (registered_agent_type reg (task_initiative_id succ, t))) (predecessor_rows d t)) as Hin'
      by (apply list_elem_of_omap; eauto).
    rewrite Hnil in Hin'. by apply elem_of_nil in Hin'.
  - intros Hall. destruct (omap _ _) as [|m ms] eqn:Ho; [done |].
    assert (m ∈ omap (missing_predecessor reg d succ
      (registered_agent_type reg (task_initiative_id succ, t))) (predecessor_rows d t)) as Hin
      by (rewrite Ho; by left).
    apply list_elem_of_omap in Hin as ([p pred] & Hin & Hm).
    apply Hall, missing_predecessor_none_iff in Hin. congruence.
Qed.

(** *** Marking edges *)

Section marking.
Context (reg : PlanRegistry) (i p : string).
Implicit Types (e : EdgeRow) (d : Db).

Definition allowed_successor (blocker : option string) (s : string) : bool :=
  bool_decide (registered_agent_type reg (i, s) = Some SessionAgentType.Reviewer)
  || bool_decide (blocker = None).

(** The edges one pass over [succs] updates. *)
Definition hit (blocker : option string) (succs : list string) e : bool :=
  String.eqb e.(edge_initiative_id) i && String.eqb e.(edge_predecessor) p &&
  allowed_successor blocker e.(edge_successor) && bool_decide (e.(edge_successor) ∈ succs).

Definition mark_where (f : EdgeRow → bool) d : Db :=
  on_dag_edges (fmap (λ e, if f e then satisfy_edge e else e)) d.

Lemma mark_where_none f d : (∀ e, f e = false) → mark_where f d = d.
Proof.
  intros Hf. destruct d. unfold mark_where, on_dag_edges. simpl. f_equal.
  rewrite <-list_fmap_id. apply list_fmap_ext. intros _ e _. by rewrite Hf.
Qed.

Lemma satisfy_edge_if (b c : bool) e :
  (if c then satisfy_edge (if b then satisfy_edge e else e) else if b then satisfy_edge e else e)
  = if b || c then satisfy_edge e else e.
Proof. by destruct b, c. Qed.

Lemma hit_satisfied blocker succs b e :
  hit blocker succs (if b : bool then satisfy_edge e else e) = hit blocker succs e.
Proof. by destruct b. Qed.

Lemma mark_edges_run blocker succs d :
  NoDup succs →
  mark_edges reg i p blocker succs d =
    (length (filter (λ e, hit blocker succs e = true) d.(dag_edges)), mark_where (hit blocker succs) d).
Proof.
  intros Hnd. revert d. induction Hnd as [|s succs Hs Hnd IH]; intros d; simpl.
  { assert (Hf : ∀ e, hit blocker [] e = false).
    { intros e. unfold hit. rewrite (bool_decide_eq_false_2 (_ ∈ [])) by apply not_elem_of_nil.
      apply andb_false_r. }
    rewrite mark_where_none by done. f_equal. induction (dag_edges d) as [|e l IHl]; [done |].
    rewrite filter_cons, Hf. by rewrite decide_False by done. }
  replace (if bool_decide (registered_agent_type reg (i, s) = Some SessionAgentType.Reviewer)
           then true else bool_decide (blocker = None)) with (allowed_successor blocker s)
    by (unfold allowed_successor; by destruct (bool_decide (registered_agent_type _ _ = _))).
  assert (Hcons : ∀ e, hit blocker (s :: succs) e =
    (same_edge i p s e && allowed_successor blocker s) || hit blocker succs e).
  { intros e. unfold hit, same_edge.
    destruct (String.eqb (edge_initiative_id e) i && String.eqb (edge_predecessor e) p); simpl; [| done].
    destruct (String.eqb_spec (edge_successor e) s) as [->|Hne]; simpl.
    - rewrite (bool_decide_eq_true_2 (s ∈ s :: succs)) by by left. rewrite andb_true_r.
      by destruct (allowed_successor blocker s).
    - f_equal. apply bool_decide_ext. rewrite elem_of_cons. naive_solver. }
  destruct (allowed_successor blocker s) eqn:Hal; simpl.
  - rewrite IH. f_equal.
    + unfold on_dag_edges. simpl. clear IH. induction (dag_edges d) as [|e l IHl]; [done |].
      rewrite fmap_cons, !filter_cons, Hcons, andb_true_r, hit_satisfied.
      destruct (same_edge i p s e) eqn:Hse; simpl.
      * assert (hit blocker succs e = false) as ->.
        { unfold hit. unfold same_edge in Hse. rewrite !andb_true_iff, !String.eqb_eq in Hse.
          destruct Hse as [_ ->]. rewrite (bool_decide_eq_false_2 _ Hs). apply andb_false_r. }
        rewrite (decide_False (P := false = true)) by done. simpl. lia.
      * destruct (hit blocker succs e); simpl; lia.
    + unfold mark_where, on_dag_edges. simpl. f_equal. rewrite <-list_fmap_compose.
      apply list_fmap_ext. intros _ e _. simpl. rewrite hit_satisfied, satisfy_edge_if, Hcons.
      by rewrite andb_true_r.
  - rewrite IH. assert (Hext : ∀ e, hit blocker succs e = hit blocker (s :: succs) e).
    { intros e. by rewrite Hcons, andb_false_r. }
    f_equal.
    + f_equal. apply list_filter_iff. intros e. by rewrite Hext.
    + unfold mark_where, on_dag_edges. f_equal. apply list_fmap_ext. intros _ e _. by rewrite Hext.
Qed.

Lemma unsatisfied_successors_NoDup d : edges_keyed d → NoDup (unsatisfied_successors d i p).
Proof.
  unfold edges_keyed, unsatisfied_successors. induction (dag_edges d) as [|e l IH]; simpl.
  { intros _. apply NoDup_nil_2. }
  rewrite NoDup_cons. intros [Hnin Hnd]. rewrite filter_cons. case_decide as He; [| by apply IH].
  rewrite fmap_cons. apply NoDup_cons. split; [| by apply IH].
  intros (e' & Hs & [(_ & Hp & _) Hin]%list_elem_of_filter)%list_elem_of_fmap.
  apply Hnin, list_elem_of_fmap. exists e'. split; [| done]. f_equal; [| done].
  destruct He as (_ & -> & _). by rewrite Hp.
Qed.

(** The edge a key names is unique. *)
Lemma edges_keyed_inj d e e' :
  edges_keyed d → e ∈ d.(dag_edges) → e' ∈ d.(dag_edges) →
  edge_predecessor e = edge_predecessor e' → edge_successor e = edge_successor e' → e = e'.
Proof.
  unfold edges_keyed. intros Hk. induction (dag_edges d) as [|x l IH]; [by intros ?%elem_of_nil |].
  rewrite fmap_cons in Hk. apply NoDup_cons in Hk as [Hx Hnd].
  intros [->|He]%elem_of_cons [->|He']%elem_of_cons Hp Hs; [done | | | by apply IH].
  - destruct Hx. apply list_elem_of_fmap. exists e'. by rewrite Hp, Hs.
  - destruct Hx. apply list_elem_of_fmap. exists e. by rewrite Hp, Hs.
Qed.

Lemma hit_unsatisfied_iff d e blocker :
  edges_keyed d → e ∈ d.(dag_edges) →
  hit blocker (unsatisfied_successors d i p) e = true ↔
  e.(edge_initiative_id) = i ∧ e.(edge_predecessor) = p ∧ e.(edge_satisfied) = false ∧
  allowed_successor blocker e.(edge_successor) = true.
Proof.
  intros Hk He. unfold hit. rewrite !andb_true_iff, !String.eqb_eq, bool_decide_eq_true.
  split; [| intros (Hi & Hp & Hs & Ha); repeat split; try done;
            apply list_elem_of_fmap; exists e; by rewrite list_elem_of_filter].
  intros [[[Hi Hp] Ha] (e' & Hs & [(_ & Hp' & Hu) He']%list_elem_of_filter)%list_elem_of_fmap].
  assert (e = e') as <- by (apply (edges_keyed_inj d); congruence). done.
Qed.
End marking.

Definition completed_in (d : Db) (i p : string) : bool :=
  match d.(tasks) !! p with
  | Some r => String.eqb r.(task_initiative_id) i && String.eqb r.(task_state) "Completed"
  | None => false
  end.

Lemma completed_in_iff d i p :
  completed_in d i p = true ↔
  ∃ r, d.(tasks) !! p = Some r ∧ r.(task_initiative_id) = i ∧ r.(task_state) = "Completed".
Proof.
  unfold completed_in. destruct (tasks d !! p) as [r|].
  - rewrite andb_true_iff, !String.eqb_eq. naive_solver.
  - naive_solver.
Qed.

#[export] Instance newly_satisfied_dec reg d i p e : Decision (newly_satisfied reg d i p e).
Proof.
  refine (cast_if (decide (e.(edge_initiative_id) = i ∧ e.(edge_predecessor) = p ∧
    e.(edge_satisfied) = false ∧ completed_in d i p = true ∧
    allowed_successor reg i (reviewer_gate_blocker_for_predecessor reg i p d) (edge_successor e) = true)));
  abstract (unfold newly_satisfied, allowed_successor in *; rewrite <-completed_in_iff;
    rewrite orb_true_iff, !bool_decide_eq_true, gate_blocker_none_iff in *; tauto).
Defined.

Lemma mark_successor_edges_run reg i p d {E} :
  edges_keyed d →
  @mark_successor_edges_satisfied_if_unblocked reg i p E d =
    (Ok (length (filter (newly_satisfied reg d i p) d.(dag_edges))),
     mark_where (λ e, bool_decide (newly_satisfied reg d i p e)) d).
Proof.
  intros Hk. unfold mark_successor_edges_satisfied_if_unblocked. fold (completed_in d i p).
  destruct (completed_in d i p) eqn:Hc; simpl.
  - rewrite mark_edges_run by by apply unsatisfied_successors_NoDup.
    assert (Hiff : ∀ e, e ∈ dag_edges d →
      hit reg i p (reviewer_gate_blocker_for_predecessor reg i p d) (unsatisfied_successors d i p) e
        = true ↔ newly_satisfied reg d i p e).
    { intros e He. rewrite hit_unsatisfied_iff by done. unfold newly_satisfied, allowed_successor.
      rewrite <-completed_in_iff, orb_true_iff, !bool_decide_eq_true, gate_blocker_none_iff. tauto. }
    f_equal.
    + do 2 f_equal. by apply list_filter_ext.
    + unfold mark_where, on_dag_edges. f_equal. apply list_fmap_ext. intros k e Hl.
      apply list_elem_of_lookup_2 in Hl. apply Hiff in Hl.
      destruct (hit _ _ _ _ _ e); case_bool_decide as Hn; try done; [by destruct Hn; apply Hl |].
      by apply Hl in Hn.
  - assert (Hno : ∀ e, ¬ newly_satisfied reg d i p e).
    { intros e (_ & _ & _ & Hr%completed_in_iff & _). congruence. }
    rewrite mark_where_none by (intros e; by apply bool_decide_eq_false_2).
    do 2 f_equal. induction (dag_edges d) as [|e l IH]; [done |].
    rewrite filter_cons, decide_False by done. exact IH.
Qed.

Lemma successor_rows_mark f d p : successor_rows (mark_where f d) p = successor_rows d p.
Proof.
  unfold successor_rows, mark_where, on_dag_edges, omap. cbn [dag_edges tasks].
  induction (dag_edges d) as [|e l IH]; [done |]. rewrite fmap_cons, !filter_cons.
  assert (Hk : edge_predecessor (if f e then satisfy_edge e else e) = edge_predecessor e ∧
               edge_successor (if f e then satisfy_edge e else e) = edge_successor e)
    by by destruct (f e).
  destruct Hk as [Hp Hs].
  destruct (decide (edge_predecessor (if f e then satisfy_edge e else e) = p)) as [H1|H1],
    (decide (edge_predecessor e = p)) as [H2|H2]; try (exfalso; congruence); [| exact IH].
  cbn [list_omap]. by rewrite Hs, IH.
Qed.

Lemma gate_open_mark reg f d t succ p pred :
  gate_open reg (mark_where f d) t succ p pred ↔ gate_open reg d t succ p pred.
Proof. unfold gate_open, panel_satisfied. by rewrite successor_rows_mark. Qed.

Lemma missing_predecessor_key reg d succ ty pr m :
  missing_predecessor reg d succ ty pr = Some m → m.1 = pr.1.
Proof.
  destruct pr as [p pred]. unfold missing_predecessor.
  destruct (negb _); [destruct (_ && _); [destruct (task_evaluation_sha pred);
    [destruct (String.eqb _ _) |] |]; by intros [= <-] |].
  case_bool_decide; [done |].
  destruct (reviewer_gate_blocker_for_predecessor _ _ _ _); simpl; by intros [= <-].
Qed.

Lemma gate_open_not_missing reg d t succ p pred why :
  d.(tasks) !! t = Some succ → d.(tasks) !! p = Some pred → gate_open reg d t succ p pred →
  (p, why) ∉ missing_predecessors_for_activation t reg d.
Proof.
  intros Ht Hp Hopen. unfold missing_predecessors_for_activation. rewrite Ht.
  intros ([p' pred'] & Hin & Hm)%list_elem_of_omap.
  pose proof (missing_predecessor_key _ _ _ _ _ _ Hm) as Hk. simpl in Hk. subst p'.
  apply (elem_of_predecessor_rows d t p pred' succ Ht) in Hin as [Hp' _].
  rewrite Hp in Hp'. injection Hp' as <-.
  apply missing_predecessor_none_iff in Hopen. congruence.
Qed.

Lemma all_approved_facts rs :
  Forall approved rs → Forall submitted rs ∧ ¬ Exists rejected rs.
Proof.
  rewrite !Forall_forall, Exists_exists. intros Ha. split; [by left; apply Ha |].
  intros (sr & Hin & Hr). by apply (approved_not_rejected sr (Ha sr Hin)).
Qed.

Lemma aggregate_verdict_unique rs v v' :
  aggregate_verdict_spec rs v → aggregate_verdict_spec rs v' → v = v'.
Proof.
  pose proof (all_approved_facts rs) as Hf.
  assert (Hn : rs = [] → Forall submitted rs ∧ ¬ Exists rejected rs)
    by (intros ->; split; [apply Forall_nil_2 | by intros ?%Exists_nil]).
  destruct v, v'; simpl; tauto.
Qed.

(** The two boolean tests of the gate on rows with a known verdict. *)
Lemma fold_verdict rs v :
  aggregate_verdict_spec rs v →
  (if existsb pends rs then Some (wire_str Pending)
   else if existsb rejects rs then Some (wire_str AtLeastOneRejected) else None) =
  match v with Pending | AtLeastOneRejected => Some (wire_str v) | _ => None end.
Proof.
  intros Hv. pose proof (existsb_pends rs) as Hp. pose proof (existsb_rejects rs) as Hr.
  pose proof (all_approved_facts rs) as Hf.
  assert (Hn : rs = [] → Forall submitted rs ∧ ¬ Exists rejected rs)
    by (intros ->; split; [apply Forall_nil_2 | by intros ?%Exists_nil]).
  assert (Hd : Forall submitted rs ∨ ¬ Forall submitted rs) by (destruct (decide (Forall submitted rs)); auto).
  destruct v; simpl in Hv; destruct (existsb pends rs), (existsb rejects rs);
    try done; exfalso; intuition congruence.
Qed.

(** ** Properties *)

(** The verdict shown to the orchestrator is the logical AND over exactly
    the successors the plan declares reviewers, whatever order they voted in:
    passed iff there is one and all approved, rejected iff all voted and one
    rejected, pending iff a vote is missing, and the count is the number of
    reviewers; the code's debug assertion never fires. *)
Theorem aggregate_outcome_spec flt d t :
  ∃ v, compute_aggregate_review_outcome t d flt =
    Some (MkAggregateOutcome v (Z.of_nat (length (panel flt d t)))) ∧
    ∀ v', aggregate_verdict_spec (panel flt d t) v' ↔ v' = v.
Proof.
  destruct (aggregate_run flt d t) as (v & -> & Hv). exists v. split; [done |].
  intros v'. split; [| by intros ->]. intros Hv'. by eapply aggregate_verdict_unique.
Qed.

(** The activation gate and the aggregator fold the same votes separately
    and agree: with every dependent of an executor registered, the gate blocks
    exactly on a pending or rejected aggregate and reports its wire name;
    with one unregistered it always blocks. *)
Theorem gate_agrees_with_aggregate reg i p w d :
  registered_agent_type reg (i, p) = Some SessionAgentType.Executor →
  reviewer_gate_blocker_for_predecessor reg i p d =
  if bool_decide (Forall (λ sr, is_Some (registry_get reg (i, sr.1))) (successor_rows d p)) then
    v ← compute_aggregate_review_verdict p d (Some (MkAgentTypeFilter reg i w));
    match v with Pending | AtLeastOneRejected => Some (wire_str v) | _ => None end
  else Some "ReviewerGateRegistryMissing".
Proof.
  intros Hp. rewrite (gate_blocker_run reg i p w), (bool_decide_eq_true_2 _ Hp). simpl negb.
  destruct (forallb (registered reg i) (successor_rows d p)) eqn:Hreg.
  - rewrite bool_decide_eq_true_2.
    2: { apply Forall_forall. intros sr Hin. rewrite forallb_forall in Hreg.
         specialize (Hreg sr (proj1 (list_elem_of_In _ _) Hin)). unfold registered in Hreg.
         by destruct (registry_get reg (i, sr.1)). }
    unfold compute_aggregate_review_verdict.
    destruct (aggregate_run (Some (MkAgentTypeFilter reg i w)) d p) as (v & -> & Hv). simpl.
    by apply fold_verdict.
  - rewrite bool_decide_eq_false_2; [done |]. intros Hall. apply not_true_iff_false in Hreg.
    destruct Hreg. apply forallb_forall. intros sr Hin%list_elem_of_In.
    rewrite Forall_forall in Hall. unfold registered. by destruct (Hall sr Hin) as [f ->].
Qed.

(** C13: an activation is let through exactly when every predecessor is
    completed and (unless the task is itself a reviewer) its reviewer panel is
    satisfied; the only exception is the edge from the parent of a gate-fixup
    task, which needs a stamped evaluation commit instead. *)
Theorem activation_gate_correct reg d t succ :
  d.(tasks) !! t = Some succ →
  missing_predecessors_for_activation t reg d = [] ↔
  ∀ e pred, e ∈ d.(dag_edges) → e.(edge_successor) = t →
    d.(tasks) !! e.(edge_predecessor) = Some pred →
    gate_open reg d t succ e.(edge_predecessor) pred.
Proof.
  intros Ht. rewrite (missing_predecessors_nil_iff _ _ _ _ Ht). split.
  - intros H e pred He Hs Hp. apply H, (elem_of_predecessor_rows _ _ _ _ _ Ht). eauto.
  - intros H p pred (Hp & e & He & Hs & <-)%(elem_of_predecessor_rows _ _ _ _ _ Ht). by apply H.
Qed.

(** Marking a task's outgoing edges sets exactly the unsatisfied edges of
    that task and initiative whose successor is a reviewer or whose panel is
    satisfied, once the task is completed, reports their number, changes nothing
    else, and never marks an edge that would still hold up the activation of its
    successor. *)
Theorem mark_successor_edges_correct reg i p d {E} :
  edges_keyed d →
  let d' := mark_where (λ e, bool_decide (newly_satisfied reg d i p e)) d in
  @mark_successor_edges_satisfied_if_unblocked reg i p E d =
    (Ok (length (filter (newly_satisfied reg d i p) d.(dag_edges))), d') ∧
  ∀ e succ why, newly_satisfied reg d i p e →
    d.(tasks) !! e.(edge_successor) = Some succ → succ.(task_initiative_id) = i →
    (p, why) ∉ missing_predecessors_for_activation e.(edge_successor) reg d'.
Proof.
  intros Hk d'. split; [by apply mark_successor_edges_run |].
  intros e succ why (_ & _ & _ & (r & Hr & Hri & Hrc) & Hal) Hs Hi.
  apply (gate_open_not_missing reg d' _ succ p r why Hs Hr), gate_open_mark.
  unfold gate_open. rewrite bool_decide_eq_true_2 by done. by rewrite Hri, Hi.
Qed.

(** ** Witnesses *)

Definition demo_plan (ty : SessionAgentType) : TaskPlanFields :=
  MkTaskPlanFields Agent OrchestratorThenOperator [] false [] false CloneStrategy.Blobless ty
    "" "" None [] None None None None [] None None None None None.

(** Executor [x] has a reviewer [r] and a dependent executor [y]. *)
Definition demo_registry : PlanRegistry :=
  registry_insert ("i", "x") (demo_plan SessionAgentType.Executor)
    (registry_insert ("i", "r") (demo_plan SessionAgentType.Reviewer)
      (registry_insert ("i", "y") (demo_plan SessionAgentType.Executor) new_registry)).

Definition demo_row (st : string) (v : option string) : TaskRow :=
  MkTaskRow "i" "lane" st None "kernel" 4 20 20 None None None None None 0 v None false None None 0.

Definition demo_panel (v : option string) : Db :=
  on_dag_edges (λ _, [MkEdgeRow "i" "x" "r" false; MkEdgeRow "i" "x" "y" false])
    (on_tasks (λ _, {[ "x" := demo_row "Completed" None; "r" := demo_row "Admitted" v;
                       "y" := demo_row "Admitted" None ]}) empty_db).

Lemma demo_panel_keyed v : edges_keyed (demo_panel v).
Proof. by apply (bool_decide_unpack _). Qed.

Lemma gate_agrees_with_aggregate_witness :
  reviewer_gate_blocker_for_predecessor demo_registry "i" "x" (demo_panel (Some "Rejected"))
    = Some "AtLeastOneRejected".
Proof.
  rewrite (gate_agrees_with_aggregate demo_registry "i" "x" "r" (demo_panel (Some "Rejected")))
    by by vm_compute.
  by vm_compute.
Defined.

Lemma activation_gate_correct_witness :
  missing_predecessors_for_activation "y" demo_registry (demo_panel None)
    = [("x", "AwaitingReviewerVerdicts")] ∧
  ¬ gate_open demo_registry (demo_panel None) "y" (demo_row "Admitted" None) "x"
      (demo_row "Completed" None).
Proof.
  split; [by vm_compute |]. intros Hopen.
  pose proof (activation_gate_correct demo_registry (demo_panel None) "y" (demo_row "Admitted" None)
    eq_refl) as [_ H].
  assert (missing_predecessors_for_activation "y" demo_registry (demo_panel None) = []) as Hm.
  { apply H. intros e pred He Hs Hp. simpl in He.
    apply elem_of_cons in He as [->|He]; [done |].
    apply list_elem_of_singleton in He as ->. simpl in *. vm_compute in Hp. by injection Hp as <-. }
  by vm_compute in Hm.
Defined.

Lemma mark_successor_edges_correct_witness :
  edge_satisfied <$> dag_edges (@mark_successor_edges_satisfied_if_unblocked demo_registry "i" "x"
    unit (demo_panel (Some "Approved"))).2 = [true; true] ∧
  edge_satisfied <$> dag_edges (@mark_successor_edges_satisfied_if_unblocked demo_registry "i" "x"
    unit (demo_panel None)).2 = [true; false].
Proof.
  destruct (mark_successor_edges_correct demo_registry "i" "x" (demo_panel (Some "Approved"))
    (E := unit) (demo_panel_keyed _)) as [-> _].
  destruct (mark_successor_edges_correct demo_registry "i" "x" (demo_panel None)
    (E := unit) (demo_panel_keyed _)) as [-> _].
  split; by vm_compute.
Defined.
