(* ===== verification/Dispatch.v ===== *)
(** * The intent dispatch matrix

    [kernel/src/authority/dispatch_matrix.rs]: which kind of session may submit
    which kind of intent.  [handle_inner] consults it right after it has loaded
    the session and before anything else.  [None] is a session created before
    agent types existed. *)

From S2P Require Import Prelude Fsm.

Inductive DispatchVerdict : Type := Authorized | Unauthorized.
#[export] Instance DispatchVerdict_eq_dec : EqDecision DispatchVerdict.
Proof. solve_decision. Defined.

Definition is_authorized (v : DispatchVerdict) : bool :=
  match v with Authorized => true | Unauthorized => false end.

Definition evaluate_dispatch (intent_kind : IntentKind)
    (session_agent_type : option SessionAgentType) : DispatchVerdict :=
  match intent_kind, session_agent_type with
  | IntentKind.SingleCommit, None => Authorized
  | IntentKind.IntegrationMerge, None => Authorized
  | IntentKind.CompleteTask, None => Authorized
  | IntentKind.ReportFailure, None => Authorized
  | IntentKind.ActivateSubTask, None => Unauthorized
  | IntentKind.RetrySubTask, None => Unauthorized
  | IntentKind.SubmitReview, None => Unauthorized
  | IntentKind.StructuredOutput, None => Unauthorized
  | IntentKind.BatchActivateSubTasks, None => Unauthorized
  | IntentKind.SingleCommit, Some SessionAgentType.Orchestrator => Unauthorized
  | IntentKind.IntegrationMerge, Some SessionAgentType.Orchestrator => Authorized
  | IntentKind.CompleteTask, Some SessionAgentType.Orchestrator => Authorized
  | IntentKind.ReportFailure, Some SessionAgentType.Orchestrator => Authorized
  | IntentKind.ActivateSubTask, Some SessionAgentType.Orchestrator => Authorized
  | IntentKind.RetrySubTask, Some SessionAgentType.Orchestrator => Authorized
  | IntentKind.SubmitReview, Some SessionAgentType.Orchestrator => Unauthorized
  | IntentKind.StructuredOutput, Some SessionAgentType.Orchestrator => Authorized
  | IntentKind.BatchActivateSubTasks, Some SessionAgentType.Orchestrator => Authorized
  | IntentKind.SingleCommit, Some SessionAgentType.Executor => Authorized
  | IntentKind.IntegrationMerge, Some SessionAgentType.Executor => Unauthorized
  | IntentKind.CompleteTask, Some SessionAgentType.Executor => Authorized
  | IntentKind.ReportFailure, Some SessionAgentType.Executor => Authorized
  | IntentKind.ActivateSubTask, Some SessionAgentType.Executor => Unauthorized
  | IntentKind.RetrySubTask, Some SessionAgentType.Executor => Unauthorized
  | IntentKind.SubmitReview, Some SessionAgentType.Executor => Unauthorized
  | IntentKind.StructuredOutput, Some SessionAgentType.Executor => Authorized
  | IntentKind.BatchActivateSubTasks, Some SessionAgentType.Executor => Unauthorized
  | IntentKind.SingleCommit, Some SessionAgentType.Reviewer => Unauthorized
  | IntentKind.IntegrationMerge, Some SessionAgentType.Reviewer => Unauthorized
  | IntentKind.CompleteTask, Some SessionAgentType.Reviewer => Unauthorized
  | IntentKind.ReportFailure, Some SessionAgentType.Reviewer => Unauthorized
  | IntentKind.ActivateSubTask, Some SessionAgentType.Reviewer => Unauthorized
  | IntentKind.RetrySubTask, Some SessionAgentType.Reviewer => Unauthorized
  | IntentKind.SubmitReview, Some SessionAgentType.Reviewer => Authorized
  | IntentKind.StructuredOutput, Some SessionAgentType.Reviewer => Unauthorized
  | IntentKind.BatchActivateSubTasks, Some SessionAgentType.Reviewer => Unauthorized
  end.

(** Separation of duties: reviewing is the reviewers' only right and theirs
    alone, a typed session that may commit may not merge, and starting or
    retrying sub-tasks belongs to the orchestrator. *)
Theorem dispatch_separates_duties k a :
  evaluate_dispatch k a = Authorized →
  (k = IntentKind.SubmitReview ↔ a = Some SessionAgentType.Reviewer) ∧
  (is_Some a → evaluate_dispatch IntentKind.SingleCommit a = Authorized →
     k ≠ IntentKind.IntegrationMerge) ∧
  (k = IntentKind.ActivateSubTask ∨ k = IntentKind.RetrySubTask ∨ k = IntentKind.BatchActivateSubTasks →
     a = Some SessionAgentType.Orchestrator).
Proof.
  destruct k, a as [[]|]; simpl; intros H; try discriminate H; clear H;
    (split; [split; intros H; congruence |]); (split; [| intuition congruence]);
    intros [? ?]; congruence.
Qed.
