(* ===== verification/Bytes.v ===== *)
(** * Byte strings

    Little-endian integers and the separated fields of the canonical signing
    domains and of the wire frames.  A byte is an [ascii]; a Rust [&str] is the
    byte string of its UTF-8 text. *)

From S2P Require Import Prelude.

Abbreviation byte := Ascii.ascii.

Definition byte_of (z : Z) : byte := Ascii.ascii_of_N (Z.to_N (z mod 256)).
Definition byte_value (b : byte) : Z := Z.of_N (Ascii.N_of_ascii b).

Lemma byte_value_range b : (0 ≤ byte_value b < 256)%Z.
Proof. unfold byte_value. pose proof (Ascii.N_ascii_bounded b). lia. Qed.

Lemma byte_value_of z : byte_value (byte_of z) = (z mod 256)%Z.
Proof.
  unfold byte_value, byte_of. pose proof (Z.mod_pos_bound z 256 ltac:(lia)).
  rewrite Ascii.N_ascii_embedding by lia. lia.
Qed.

Lemma byte_of_value b : byte_of (byte_value b) = b.
Proof.
  unfold byte_of. rewrite Z.mod_small by apply byte_value_range. unfold byte_value.
  by rewrite N2Z.id, Ascii.ascii_N_embedding.
Qed.

(** [z.to_le_bytes()] of an unsigned integer of [n] bytes. *)
Fixpoint le_bytes (n : nat) (z : Z) : list byte :=
  match n with
  | O => []
  | S n' => byte_of z :: le_bytes n' (z / 256)
  end.

(** [uN::from_le_bytes] *)
Definition le_value (l : list byte) : Z := foldr (λ b acc, byte_value b + 256 * acc)%Z 0%Z l.

Lemma le_bytes_length n z : length (le_bytes n z) = n.
Proof. revert z. induction n as [|n IH]; intros z; simpl; [done | by rewrite IH]. Qed.

Lemma le_value_bytes n z : (0 ≤ z < 256 ^ Z.of_nat n)%Z → le_value (le_bytes n z) = z.
Proof.
  revert z. induction n as [|n IH]; intros z Hz; simpl; [simpl in Hz; lia |].
  rewrite Nat2Z.inj_succ, Z.pow_succ_r in Hz by lia.
  rewrite byte_value_of, IH.
  - pose proof (Z.div_mod z 256). lia.
  - split; [apply Z.div_pos; lia | apply Z.div_lt_upper_bound; lia].
Qed.

Lemma le_value_range l : (0 ≤ le_value l < 256 ^ Z.of_nat (length l))%Z.
Proof.
  induction l as [|b l IH]; [simpl; lia |]. cbn [le_value foldr length].
  fold (le_value l). rewrite Nat2Z.inj_succ, Z.pow_succ_r by lia.
  pose proof (byte_value_range b). lia.
Qed.

Lemma le_bytes_value l : le_bytes (length l) (le_value l) = l.
Proof.
  induction l as [|b l IH]; [done |]. cbn [le_value foldr length le_bytes].
  fold (le_value l). pose proof (byte_value_range b) as Hb.
  replace ((byte_value b + 256 * le_value l) / 256)%Z with (le_value l)
    by (rewrite Z.mul_comm, Z.div_add, (Z.div_small (byte_value b)) by lia; lia).
  rewrite IH. f_equal. rewrite <-(byte_of_value b) at 2. unfold byte_of.
  do 2 f_equal. rewrite Z.mul_comm, Z.mod_add by lia. done.
Qed.

Lemma le_bytes_inj n z z' :
  (0 ≤ z < 256 ^ Z.of_nat n)%Z → (0 ≤ z' < 256 ^ Z.of_nat n)%Z →
  le_bytes n z = le_bytes n z' → z = z'.
Proof. intros H H' Heq. by rewrite <-(le_value_bytes n z), <-(le_value_bytes n z'), Heq. Qed.

(** ** Fields ended by a NUL byte *)

Definition NUL : byte := Ascii.zero.
Definition nul_free (s : string) : Prop := NUL ∉ chars s.
#[export] Instance nul_free_dec s : Decision (nul_free s).
Proof. unfold nul_free. apply _. Defined.

Lemma chars_inj a b : chars a = chars b → a = b.
Proof.
  revert b. induction a as [|x a IH]; intros [|y b]; simpl; [done | done | done |].
  intros [= -> H]. f_equal. by apply IH.
Qed.

Lemma chars_length s : length (chars s) = String.length s.
Proof. induction s as [|c s IH]; [done |]. simpl. by f_equal. Qed.

Lemma separator_inj {A} (x : A) u v r r' :
  x ∉ u → x ∉ v → u ++ x :: r = v ++ x :: r' → u = v ∧ r = r'.
Proof.
  revert v. induction u as [|y u IH]; intros [|z v] Hu Hv Heq; simplify_list_eq;
    [done | set_solver.. |].
  destruct (IH v) as [-> ->]; set_solver.
Qed.

Lemma field_inj a b r r' :
  nul_free a → nul_free b → chars a ++ NUL :: r = chars b ++ NUL :: r' → a = b ∧ r = r'.
Proof.
  intros Ha Hb H. destruct (separator_inj NUL _ _ _ _ Ha Hb H) as [H1 ->].
  split; [by apply chars_inj | done].
Qed.

(** A length-prefixed tail: [u32_le(len) ‖ bytes]. *)
Definition sized (l : list byte) : list byte := le_bytes 4 (Z.of_nat (length l) mod 2^32) ++ l.

Lemma sized_inj l l' : sized l = sized l' → l = l'.
Proof.
  unfold sized. intros H. apply app_inj_1 in H; [tauto | by rewrite !le_bytes_length].
Qed.

(** ** Identifiers: the sixteen bytes of a UUID *)

Definition Uuid : Type := list byte.
#[export] Instance Uuid_eq_dec : EqDecision Uuid := _.
#[export] Instance Uuid_countable : Countable Uuid := _.
