(* ===== verification/Crypto.v ===== *)
(** * Hex, signatures and pipe-separated signing inputs

    [crates/crypto/src/verify.rs], with the [hex] and [ed25519_dalek] crates as
    the classes [Hex] and [Ed25519]; and the text format the signing inputs of
    [crates/crypto/src/cert.rs] and [escalation.rs] share: fields joined by a
    separator, of which only the last may contain it. *)

From stdpp Require Export pretty.
From S2P Require Import Prelude Bytes.

(** ** Library crates *)

(** [hex::decode] (with the [Display] of its error) and [hex::encode]. *)
Class Hex := {
  hex_decode : string → result string (list byte);
  hex_encode : list byte → string;
}.

(** [VerifyingKey::from_bytes] followed by [verify], on byte strings of the
    right lengths. *)
Class Ed25519 := {
  dalek_verify : list byte → list byte → list byte → result string unit;
}.

Module CryptoError.
Inductive CryptoError : Type :=
  | SignatureInvalid (reason : string)
  | MalformedPublicKey (reason : string)
  | MalformedSignature (reason : string)
  | HexDecode (reason : string)
  | Rng (reason : string)
  | PlanBundleEncode (reason : string).
#[export] Instance CryptoError_eq_dec : EqDecision CryptoError.
Proof. solve_decision. Defined.
End CryptoError.
Abbreviation CryptoError := CryptoError.CryptoError.
Export (hints) CryptoError.

Definition expected_bytes (n : nat) (l : list byte) : string :=
  "expected " +:+ pretty n +:+ " bytes, got " +:+ pretty (length l).

Definition verify_ed25519 `{Ed25519} (pubkey_bytes message signature_bytes : list byte)
    : result CryptoError unit :=
  if length pubkey_bytes =? 32 then
    if length signature_bytes =? 64 then
      map_err CryptoError.SignatureInvalid (dalek_verify pubkey_bytes message signature_bytes)
    else Err (CryptoError.MalformedSignature (expected_bytes 64 signature_bytes))
  else Err (CryptoError.MalformedPublicKey (expected_bytes 32 pubkey_bytes)).

Definition verify_ed25519_hex `{Hex, Ed25519} (pubkey_hex : string) (message : list byte)
    (signature_hex : string) : result CryptoError unit :=
  pubkey_bytes ← map_err CryptoError.HexDecode (hex_decode pubkey_hex);
  sig_bytes ← map_err CryptoError.HexDecode (hex_decode signature_hex);
  verify_ed25519 pubkey_bytes message sig_bytes.

Lemma verify_ed25519_ok `{Ed25519} pk m s :
  verify_ed25519 pk m s = Ok tt ↔
  length pk = 32 ∧ length s = 64 ∧ dalek_verify pk m s = Ok tt.
Proof.
  unfold verify_ed25519. destruct (Nat.eqb_spec (length pk) 32); [| naive_solver].
  destruct (Nat.eqb_spec (length s) 64); [| naive_solver].
  destruct (dalek_verify pk m s) as [[]|]; naive_solver.
Qed.

(** ** Separated text *)

Definition char_free (c : Ascii.ascii) (s : string) : Prop := c ∉ chars s.
#[export] Instance char_free_dec c s : Decision (char_free c s).
Proof. unfold char_free. apply _. Defined.

Lemma char_free_app c a b : char_free c (a +:+ b) ↔ char_free c a ∧ char_free c b.
Proof. unfold char_free. rewrite chars_app. set_solver. Qed.

(** [format!("{a}|{b}|...")], i.e. the fields joined by [c]: when only the last
    field may contain [c], the text determines the fields. *)
Lemma join_fields_inj c l l' x x' :
  Forall (char_free c) l → Forall (char_free c) l' → length l = length l' →
  join_with c (l ++ [x]) = join_with c (l' ++ [x']) → l = l' ∧ x = x'.
Proof.
  assert (Hcons : ∀ w l x, join_with c ((w :: l) ++ [x]) = w +:+ String c (join_with c (l ++ [x]))).
  { intros w [|w' k] y; done. }
  intros Hl. revert l'. induction Hl as [|w l Hw Hl IH]; intros [|w' l'] Hl' Hlen Heq; try done.
  rewrite !Hcons in Heq. apply Forall_cons in Hl' as [Hw' Hl'].
  apply (f_equal chars) in Heq. rewrite !chars_app in Heq. simpl in Heq.
  destruct (separator_inj _ _ _ _ _ Hw Hw' Heq) as [Hww Htl].
  apply chars_inj in Hww, Htl. destruct (IH l') as [-> ->]; auto. by subst.
Qed.

Lemma split_on_free c w : char_free c w → split_on c w = [w].
Proof.
  unfold char_free. induction w as [|a w IH]; [done |]. simpl. intros H.
  destruct (Ascii.eqb_spec a c) as [->|]; [set_solver |]. rewrite IH; [done | set_solver].
Qed.

Lemma split_join c l : l ≠ [] → Forall (char_free c) l → split_on c (join_with c l) = l.
Proof.
  intros Hne Hl. induction Hl as [|w l Hw Hl IH]; [done |].
  destruct l as [|w' l]; [by apply split_on_free |].
  change (join_with c (w :: w' :: l)) with (w +:+ String c (join_with c (w' :: l))).
  rewrite split_on_app, (split_on_free c w) by done. by rewrite IH.
Qed.

Lemma join_with_free c d l :
  c ≠ d → Forall (char_free c) l → char_free c (join_with d l).
Proof.
  intros Hcd Hl. induction Hl as [|w l Hw Hl IH]; [by apply not_elem_of_nil |].
  destruct l as [|w' l]; [done |].
  change (join_with d (w :: w' :: l)) with (w +:+ String d (join_with d (w' :: l))).
  rewrite char_free_app. split; [done |]. unfold char_free in *. simpl. set_solver.
Qed.

(** ** Decimal integers *)

Definition PIPE : Ascii.ascii := Ascii.Ascii false false true true true true true false.
Definition COMMA : Ascii.ascii := Ascii.Ascii false false true true false true false false.
Abbreviation pipe_free := (char_free PIPE).

Lemma pretty_N_char_pipe x : PIPE ≠ pretty_N_char x.
Proof. unfold pretty_N_char. by repeat case_match. Qed.

Lemma pretty_N_go_pipe_free x s : pipe_free s → pipe_free (pretty_N_go x s).
Proof.
  revert s. induction (N.lt_wf_0 x) as [x _ IH]; intros s Hs.
  assert (x = 0 ∨ 0 < x)%N as [->|?] by lia; [by rewrite pretty_N_go_0 |].
  rewrite pretty_N_go_step by done. apply IH; [by apply N.div_lt |].
  unfold char_free in *. simpl. apply not_elem_of_cons. split; [apply pretty_N_char_pipe | done].
Qed.

Lemma pretty_N_pipe_free (n : N) : pipe_free (pretty n).
Proof.
  unfold pretty, pretty_N. case_decide; [by apply (bool_decide_unpack _) |].
  apply pretty_N_go_pipe_free. by apply not_elem_of_nil.
Qed.

Lemma pretty_Z_pipe_free (z : Z) : pipe_free (pretty z).
Proof.
  destruct z as [|p|p].
  - by apply (bool_decide_unpack _).
  - apply (pretty_N_pipe_free (Npos p)).
  - change (pretty (Zneg p)) with ("-" +:+ pretty (Npos p)). apply char_free_app.
    split; [by apply (bool_decide_unpack _) | apply pretty_N_pipe_free].
Qed.

Create HintDb fields.
#[export] Hint Resolve pretty_N_pipe_free pretty_Z_pipe_free : fields.

(** ** A concrete codec

    Base-16 text as the [hex] crate reads and writes it, to evaluate the model
    on concrete keys. *)

Definition nibble (c : Ascii.ascii) : option Z :=
  let n := Z.of_nat (Ascii.nat_of_ascii c) in
  if bool_decide (48 ≤ n ≤ 57)%Z then Some (n - 48)%Z
  else if bool_decide (97 ≤ n ≤ 102)%Z then Some (n - 87)%Z
  else if bool_decide (65 ≤ n ≤ 70)%Z then Some (n - 55)%Z else None.

Fixpoint hex_bytes (s : string) : result string (list byte) :=
  match s with
  | EmptyString => Ok []
  | String a (String b s') =>
      match nibble a, nibble b with
      | Some h, Some l => rest ← hex_bytes s'; Ok (byte_of (16 * h + l) :: rest)
      | _, _ => Err "Invalid character"
      end
  | String _ EmptyString => Err "Odd number of digits"
  end.

Definition hex_digit (z : Z) : Ascii.ascii :=
  byte_of (if bool_decide (z < 10)%Z then 48 + z else 87 + z).

Definition hex_text (l : list byte) : string :=
  foldr (λ b s, String (hex_digit (byte_value b / 16)) (String (hex_digit (byte_value b mod 16)) s))
    EmptyString l.

Definition hex_codec : Hex := {| hex_decode := hex_bytes; hex_encode := hex_text |}.

(** A signature scheme that accepts the bytes it is told to. *)
Definition trusting (accept : list byte → list byte → list byte → bool) : Ed25519 :=
  {| dalek_verify pk m s := if accept pk m s then Ok tt else Err "Verification equation was not satisfied" |}.
