(* ===== verification/Cert.v ===== *)
(** * Operator certificates

    [crates/types/src/operator_cert.rs], [crates/crypto/src/cert.rs] and the
    in-memory store of [kernel/src/authority/revocations.rs].  The [Display]
    texts of the errors are not modelled; the directory scan of the revocation
    store is given as the list of its files' outcomes. *)

From S2P Require Import Prelude Bytes Crypto.

(** ** Data *)

Inductive CertKind : Type := Standard | EmergencyRecovery.
#[export] Instance CertKind_eq_dec : EqDecision CertKind.
Proof. solve_decision. Defined.

Definition cert_kind_as_str (k : CertKind) : string :=
  match k with Standard => "Standard" | EmergencyRecovery => "EmergencyRecovery" end.
Definition cert_kind_parse (s : string) : option CertKind :=
  sql_parse [("Standard", Standard); ("EmergencyRecovery", EmergencyRecovery)] s.
#[export] Program Instance cert_kind_sql : SqlEnum CertKind := {|
  as_sql_str := cert_kind_as_str; from_sql_str := cert_kind_parse |}.
Next Obligation. sql_enum_round_trip. Qed.
Next Obligation. sql_enum_canonical. Qed.

Inductive RevocationReason : Type := Rotation | Compromise.
#[export] Instance RevocationReason_eq_dec : EqDecision RevocationReason.
Proof. solve_decision. Defined.

Definition revocation_reason_as_str (r : RevocationReason) : string :=
  match r with Rotation => "Rotation" | Compromise => "Compromise" end.
Definition revocation_reason_parse (s : string) : option RevocationReason :=
  sql_parse [("Rotation", Rotation); ("Compromise", Compromise)] s.
#[export] Program Instance revocation_reason_sql : SqlEnum RevocationReason := {|
  as_sql_str := revocation_reason_as_str; from_sql_str := revocation_reason_parse |}.
Next Obligation. sql_enum_round_trip. Qed.
Next Obligation. sql_enum_canonical. Qed.

Record RevocationRecord := MkRevocationRecord {
  subject_pubkey_hex : string;
  subject_fingerprint : string;
  rev_reason : RevocationReason;
  rev_revoked_at : Z;
  reference : string;
  revoked_by_pubkey_hex : string;
  revoked_by_signature_hex : string;
  signing_input_version : string;
}.

Record OperatorCert := MkOperatorCert {
  cert_kind : CertKind;
  cert_display_name : string;
  cert_pubkey_hex : string;
  not_before : Z;
  not_after : Z;
  warn_before_expiry_days : Z;
  grace_period_days : Z;
  cert_permitted_ops : list string;
  contact_info : option string;
  self_sig_hex : string;
}.

Module CertError.
Inductive CertError : Type :=
  | MalformedPubkey (s : string)
  | MalformedSelfSig (s : string)
  | SelfSignatureInvalid (reason : string)
  | InvertedValidityWindow (not_before not_after : Z)
  | WarnWindowExceedsValidity (warn validity_secs : Z)
  | DisplayNameLength (len : nat)
  | StandardCertHasNoPermissions
  | EmergencyHasWrongPermissions (got : list string)
  | EmergencyHasValidityWindow (not_before not_after : Z)
  | HexDecode (reason : string).
#[export] Instance CertError_eq_dec : EqDecision CertError.
Proof. solve_decision. Defined.

(** [impl From<CryptoError>] *)
Definition from_crypto (e : CryptoError) : CertError :=
  match e with
  | CryptoError.SignatureInvalid err => SelfSignatureInvalid err
  | CryptoError.MalformedPublicKey s => MalformedPubkey s
  | CryptoError.MalformedSignature s => MalformedSelfSig s
  | CryptoError.HexDecode e => HexDecode e
  | CryptoError.Rng e => HexDecode e
  | CryptoError.PlanBundleEncode e => HexDecode e
  end.
End CertError.
Abbreviation CertError := CertError.CertError.
Export (hints) CertError.

(** ** The signing input *)

(** [Vec::dedup]: drops an element equal to the one before it. *)
Fixpoint dedup (l : list string) : list string :=
  match l with
  | x :: ((y :: _) as l') => if String.eqb x y then dedup l' else x :: dedup l'
  | _ => l
  end.

Definition canonicalize_ops (ops : list string) : list string := dedup (sort_strings ops).

Definition cert_fields (kind : CertKind) (display_name pubkey_hex : string)
    (nb na warn grace : Z) (ops : list string) : list string :=
  ["raxis-cert/v1"; cert_kind_as_str kind; display_name; pubkey_hex; pretty nb; pretty na;
   pretty warn; pretty grace; join_with COMMA (canonicalize_ops ops)].

Definition cert_canonical_signing_input (kind : CertKind) (display_name pubkey_hex : string)
    (nb na warn grace : Z) (ops : list string) (contact : option string) : list byte :=
  chars (join_with PIPE (cert_fields kind display_name pubkey_hex nb na warn grace ops
                         ++ [default "" contact])).

(** The signing input of a certificate. *)
Definition cert_message (c : OperatorCert) : list byte :=
  cert_canonical_signing_input c.(cert_kind) c.(cert_display_name) c.(cert_pubkey_hex)
    c.(not_before) c.(not_after) c.(warn_before_expiry_days) c.(grace_period_days)
    c.(cert_permitted_ops) c.(contact_info).

Definition verify_cert_self_signature `{Hex, Ed25519} (c : OperatorCert) : result CertError unit :=
  pubkey_bytes ← map_err CertError.HexDecode (hex_decode c.(cert_pubkey_hex));
  sig_bytes ← map_err CertError.HexDecode (hex_decode c.(self_sig_hex));
  map_err CertError.from_crypto (verify_ed25519 pubkey_bytes (cert_message c) sig_bytes).

(** ** Structural validation *)

Definition lowercase_hex_digit (c : Ascii.ascii) : bool :=
  let n := Ascii.nat_of_ascii c in (48 <=? n) && (n <=? 57) || (97 <=? n) && (n <=? 102).

Definition is_valid_lowercase_hex (s : string) (expected_len : nat) : bool :=
  (String.length s =? expected_len) && forallb lowercase_hex_digit (chars s).

Definition DAY : Z := 86400.
Definition days_secs (days : Z) : Z := sat_mul_i64 days DAY.

Definition report_if {A} (b : bool) (e : A) : list A := if b then [e] else [].

Definition standard_violations (c : OperatorCert) : list CertError :=
  let validity_secs := sat_sub_i64 c.(not_after) c.(not_before) in
  let warn_secs := days_secs c.(warn_before_expiry_days) in
  report_if (bool_decide (c.(not_after) < c.(not_before))%Z)
    (CertError.InvertedValidityWindow c.(not_before) c.(not_after))
  ++ report_if (bool_decide (0 < validity_secs)%Z && bool_decide (validity_secs ≤ warn_secs)%Z)
       (CertError.WarnWindowExceedsValidity c.(warn_before_expiry_days) validity_secs)
  ++ report_if (bool_decide (c.(cert_permitted_ops) = [])) CertError.StandardCertHasNoPermissions.

Definition emergency_violations (c : OperatorCert) : list CertError :=
  let canonical := canonicalize_ops c.(cert_permitted_ops) in
  report_if (negb (bool_decide (canonical = ["RotateEpoch"])))
    (CertError.EmergencyHasWrongPermissions canonical)
  ++ report_if (negb (bool_decide (c.(not_before) = 0%Z ∧ c.(not_after) = 0%Z)))
       (CertError.EmergencyHasValidityWindow c.(not_before) c.(not_after)).

Definition validate_cert_structurally (c : OperatorCert) : list CertError :=
  let len := chars_count c.(cert_display_name) in
  report_if (negb (is_valid_lowercase_hex c.(cert_pubkey_hex) 64))
    (CertError.MalformedPubkey c.(cert_pubkey_hex))
  ++ report_if (negb (is_valid_lowercase_hex c.(self_sig_hex) 128))
       (CertError.MalformedSelfSig c.(self_sig_hex))
  ++ report_if ((len =? 0) || (256 <? len)) (CertError.DisplayNameLength len)
  ++ match c.(cert_kind) with
     | Standard => standard_violations c
     | EmergencyRecovery => emergency_violations c
     end.

(** ** Status *)

Inductive CertStatus : Type :=
  | Active
  | Expiring (secs_until_expiry : Z)
  | Grace (secs_until_grace_end : Z)
  | Expired (secs_since_expiry : Z)
  | NotYetValid (secs_until_active : Z)
  | AlwaysActiveEmergency
  | Revoked (reason : RevocationReason) (revoked_at : Z).

Definition allows_new_commitments (s : CertStatus) : bool :=
  match s with Active | Expiring _ | AlwaysActiveEmergency => true | _ => false end.

Definition allows_recovery_ops (s : CertStatus) : bool :=
  match s with Active | Expiring _ | Grace _ | AlwaysActiveEmergency => true | _ => false end.

Definition cert_status_tag (s : CertStatus) : string :=
  match s with
  | Active => "active"
  | Expiring _ => "expiring"
  | Grace _ => "grace"
  | Expired _ => "expired"
  | NotYetValid _ => "not_yet_valid"
  | AlwaysActiveEmergency => "always_active_emergency"
  | Revoked _ _ => "revoked"
  end.

Definition warn_start (c : OperatorCert) : Z :=
  sat_sub_i64 c.(not_after) (days_secs c.(warn_before_expiry_days)).
Definition grace_end (c : OperatorCert) : Z :=
  sat_add_i64 c.(not_after) (days_secs c.(grace_period_days)).

Definition cert_status (c : OperatorCert) (now : Z) : CertStatus :=
  match c.(cert_kind) with
  | EmergencyRecovery => AlwaysActiveEmergency
  | Standard =>
      if bool_decide (now < c.(not_before))%Z then NotYetValid (wrap_sub_i64 c.(not_before) now)
      else if bool_decide (now < warn_start c)%Z then Active
      else if bool_decide (now < c.(not_after))%Z then Expiring (wrap_sub_i64 c.(not_after) now)
      else if bool_decide (now < grace_end c)%Z then Grace (wrap_sub_i64 (grace_end c) now)
      else Expired (wrap_sub_i64 now c.(not_after))
  end.

(** ** Revocation *)

Definition REVOCATION_VERSION : string := "raxis-cert-revocation/v1".

Definition revocation_canonical_signing_input (subject : string) (reason : RevocationReason)
    (revoked_at : Z) (ref : string) : list byte :=
  chars (join_with PIPE ([REVOCATION_VERSION; subject; revocation_reason_as_str reason;
                          pretty revoked_at] ++ [ref])).

Definition verify_revocation_signature `{Hex, Ed25519} (r : RevocationRecord)
    : result CertError unit :=
  if negb (String.eqb r.(signing_input_version) REVOCATION_VERSION)
  then Err (CertError.SelfSignatureInvalid "unknown signing_input_version")
  else if negb (is_valid_lowercase_hex r.(revoked_by_pubkey_hex) 64)
  then Err (CertError.MalformedPubkey r.(revoked_by_pubkey_hex))
  else if negb (is_valid_lowercase_hex r.(revoked_by_signature_hex) 128)
  then Err (CertError.MalformedSelfSig r.(revoked_by_signature_hex))
  else if negb (is_valid_lowercase_hex r.(subject_pubkey_hex) 64)
  then Err (CertError.MalformedPubkey r.(subject_pubkey_hex))
  else
    pubkey ← map_err CertError.HexDecode (hex_decode r.(revoked_by_pubkey_hex));
    sig ← map_err CertError.HexDecode (hex_decode r.(revoked_by_signature_hex));
    map_err CertError.from_crypto
      (verify_ed25519 pubkey
         (revocation_canonical_signing_input r.(subject_pubkey_hex) r.(rev_reason)
            r.(rev_revoked_at) r.(reference)) sig).

Definition cert_status_with_revocation (c : OperatorCert) (now : Z)
    (revocation_lookup : string → option (RevocationReason * Z)) : CertStatus :=
  match revocation_lookup c.(cert_pubkey_hex) with
  | Some (reason, revoked_at) => Revoked reason revoked_at
  | None => cert_status c now
  end.

(** [RevocationStore]: subject key to reason and time. *)
Abbreviation RevocationStore := (gmap string (RevocationReason * Z)).

Record LoadStats := MkLoadStats { loaded : nat; rejected : nat }.

(** [load_record_from] after the file was read and parsed. *)
Definition load_record_from `{Hex, Ed25519} (parsed : result string RevocationRecord)
    : option RevocationRecord :=
  match parsed with
  | Ok r => if is_ok (verify_revocation_signature r) then Some r else None
  | Err _ => None
  end.

(** The loop of [RevocationStore::open] over the [.toml] files, in the order the
    directory lists them. *)
Fixpoint open_from `{Hex, Ed25519} (store : RevocationStore) (stats : LoadStats)
    (files : list (result string RevocationRecord)) : RevocationStore * LoadStats :=
  match files with
  | [] => (store, stats)
  | f :: files' =>
      match load_record_from f with
      | Some r =>
          open_from (<[r.(subject_pubkey_hex) := (r.(rev_reason), r.(rev_revoked_at))]> store)
            (MkLoadStats (S stats.(loaded)) stats.(rejected)) files'
      | None => open_from store (MkLoadStats stats.(loaded) (S stats.(rejected))) files'
      end
  end.

Definition open_store `{Hex, Ed25519} (files : list (result string RevocationRecord))
    : RevocationStore * LoadStats := open_from ∅ (MkLoadStats 0 0) files.

Definition lookup_revocation (store : RevocationStore) (pk : string) : option (RevocationReason * Z) :=
  store !! pk.

(** ** Lemmas *)

(** *** Operation sets *)

Lemma string_compare_lt_trans a b c :
  String.compare a b = Lt → String.compare b c = Lt → String.compare a c = Lt.
Proof.
  revert b c. induction a as [|x a IH]; intros [|y b] [|z c]; simpl; try done.
  unfold Ascii.compare.
  destruct (N.compare_spec (Ascii.N_of_ascii x) (Ascii.N_of_ascii y));
    destruct (N.compare_spec (Ascii.N_of_ascii y) (Ascii.N_of_ascii z));
    destruct (N.compare_spec (Ascii.N_of_ascii x) (Ascii.N_of_ascii z)); try done; try lia.
  apply IH.
Qed.

#[export] Instance str_le_trans : Transitive str_le.
Proof.
  intros a b c. unfold str_le, String.leb.
  destruct (String.compare a b) eqn:Hab; [| | done]; intros _.
  - apply String.compare_eq_iff in Hab as ->. done.
  - destruct (String.compare b c) eqn:Hbc; [| | done]; intros _.
    + apply String.compare_eq_iff in Hbc as ->. by rewrite Hab.
    + by rewrite (string_compare_lt_trans a b c).
Qed.
#[export] Instance str_le_antisymm : AntiSymm (=) str_le.
Proof. intros a b. apply String.leb_antisym. Qed.

Lemma elem_of_dedup x l : x ∈ dedup l ↔ x ∈ l.
Proof.
  induction l as [|y l IH]; [done |]. destruct l as [|z l]; [done |].
  change (dedup (y :: z :: l)) with (if String.eqb y z then dedup (z :: l) else y :: dedup (z :: l)).
  destruct (String.eqb_spec y z) as [->|]; rewrite ?elem_of_cons, ?IH, ?elem_of_cons; tauto.
Qed.

Lemma dedup_sorted l : StronglySorted str_le l → StronglySorted str_le (dedup l) ∧ NoDup (dedup l).
Proof.
  induction 1 as [|y l Hl IH Hy]; [split; constructor |].
  destruct l as [|z l]; [split; repeat constructor; apply not_elem_of_nil |].
  change (dedup (y :: z :: l)) with (if String.eqb y z then dedup (z :: l) else y :: dedup (z :: l)).
  destruct (String.eqb_spec y z) as [->|Hne]; [done |].
  destruct IH as [IHs IHd]. rewrite Forall_forall in Hy. split; constructor; try done.
  - apply Forall_forall. intros x. rewrite elem_of_dedup. apply Hy.
  - rewrite elem_of_dedup. intros Hin. apply Hne, (anti_symm str_le); [apply Hy; by left |].
    apply elem_of_cons in Hin as [->|Hin]; [done |].
    apply StronglySorted_inv in Hl as [_ Hz]. rewrite Forall_forall in Hz. by apply Hz.
Qed.

Lemma canonicalize_ops_sorted ops :
  StronglySorted str_le (canonicalize_ops ops) ∧ NoDup (canonicalize_ops ops).
Proof. apply dedup_sorted, Sorted_StronglySorted; [apply _ | apply sort_strings_sorted]. Qed.

Lemma elem_of_canonicalize_ops x ops : x ∈ canonicalize_ops ops ↔ x ∈ ops.
Proof. unfold canonicalize_ops. by rewrite elem_of_dedup, sort_strings_perm. Qed.

(** The canonical list is the set of its operations. *)
Lemma canonicalize_ops_eq_iff a b :
  canonicalize_ops a = canonicalize_ops b ↔ (∀ x, x ∈ a ↔ x ∈ b).
Proof.
  split.
  - intros H x. by rewrite <-elem_of_canonicalize_ops, H, elem_of_canonicalize_ops.
  - intros H. destruct (canonicalize_ops_sorted a) as [Hsa Hda], (canonicalize_ops_sorted b) as [Hsb Hdb].
    apply (StronglySorted_unique str_le); [done.. |]. apply NoDup_Permutation; [done.. |].
    intros x. by rewrite !elem_of_canonicalize_ops.
Qed.

(** *** The signing input *)

(** A name the comma-separated list can carry. *)
Definition op_name_ok (x : string) : Prop := pipe_free x ∧ char_free COMMA x.
#[export] Instance op_name_ok_dec x : Decision (op_name_ok x).
Proof. unfold op_name_ok. apply _. Defined.

Lemma canonicalize_ops_nil ops : canonicalize_ops ops = [] ↔ ops = [].
Proof.
  split; [| by intros ->]. intros H. destruct ops as [|x ops]; [done |].
  assert (x ∈ []) as []%not_elem_of_nil.
  rewrite <-H, elem_of_canonicalize_ops. by left.
Qed.

Lemma Forall_canonicalize_ops (P : string → Prop) ops :
  Forall P ops → Forall P (canonicalize_ops ops).
Proof. rewrite !Forall_forall. intros H x. rewrite elem_of_canonicalize_ops. apply H. Qed.

Lemma ops_csv_inj a b :
  a ≠ [] → b ≠ [] → Forall op_name_ok a → Forall op_name_ok b →
  join_with COMMA (canonicalize_ops a) = join_with COMMA (canonicalize_ops b) →
  ∀ x, x ∈ a ↔ x ∈ b.
Proof.
  intros Ha Hb Hfa Hfb H. apply canonicalize_ops_eq_iff.
  rewrite <-(split_join COMMA (canonicalize_ops a)), <-(split_join COMMA (canonicalize_ops b)), H;
    [done | ..]; rewrite ?canonicalize_ops_nil; try done;
    apply Forall_canonicalize_ops; eapply Forall_impl; try done; by intros x [].
Qed.

Lemma cert_kind_pipe_free k : pipe_free (cert_kind_as_str k).
Proof. destruct k; by apply (bool_decide_unpack _). Qed.
#[export] Hint Resolve cert_kind_pipe_free : fields.

Lemma cert_fields_pipe_free k n pk nb na w g ops :
  pipe_free n → pipe_free pk → Forall op_name_ok ops →
  Forall (char_free PIPE) (cert_fields k n pk nb na w g ops).
Proof.
  intros Hn Hpk Hops. unfold cert_fields.
  repeat (apply Forall_cons; split); auto with fields; [by apply (bool_decide_unpack _) |].
  apply join_with_free; [done |]. apply Forall_canonicalize_ops.
  eapply Forall_impl; [done |]. by intros x [].
Qed.

(** Two certificates that grant the same thing. *)
Definition same_grant (c c' : OperatorCert) : Prop :=
  c.(cert_kind) = c'.(cert_kind) ∧ c.(cert_display_name) = c'.(cert_display_name) ∧
  c.(cert_pubkey_hex) = c'.(cert_pubkey_hex) ∧ c.(not_before) = c'.(not_before) ∧
  c.(not_after) = c'.(not_after) ∧
  c.(warn_before_expiry_days) = c'.(warn_before_expiry_days) ∧
  c.(grace_period_days) = c'.(grace_period_days) ∧
  (∀ x, x ∈ c.(cert_permitted_ops) ↔ x ∈ c'.(cert_permitted_ops)) ∧
  default "" c.(contact_info) = default "" c'.(contact_info).

(** Fields without the separators. *)
Definition separable (c : OperatorCert) : Prop :=
  pipe_free c.(cert_display_name) ∧ pipe_free c.(cert_pubkey_hex) ∧
  Forall op_name_ok c.(cert_permitted_ops) ∧ c.(cert_permitted_ops) ≠ [].
#[export] Instance separable_dec c : Decision (separable c).
Proof. unfold separable. apply _. Defined.

(** *** Status *)

(** The order in which a certificate passes through its zones. *)
Definition zone (s : CertStatus) : nat :=
  match s with
  | NotYetValid _ => 0
  | Active | AlwaysActiveEmergency => 1
  | Expiring _ => 2
  | Grace _ => 3
  | Expired _ => 4
  | Revoked _ _ => 5
  end.

Lemma days_secs_nonneg d : (0 ≤ d)%Z → (0 ≤ days_secs d)%Z.
Proof. unfold days_secs, DAY. widths. lia. Qed.

Lemma warn_start_le c :
  in_u32 c.(warn_before_expiry_days) → in_i64 c.(not_after) → (warn_start c ≤ c.(not_after))%Z.
Proof.
  intros Hw Hn. pose proof (days_secs_nonneg c.(warn_before_expiry_days)).
  unfold warn_start. widths. lia.
Qed.

Lemma grace_end_ge c :
  in_u32 c.(grace_period_days) → in_i64 c.(not_after) → (c.(not_after) ≤ grace_end c)%Z.
Proof.
  intros Hg Hn. pose proof (days_secs_nonneg c.(grace_period_days)).
  unfold grace_end. widths. lia.
Qed.

Lemma cert_status_not_revoked c now : zone (cert_status c now) ≠ 5.
Proof. unfold cert_status. by repeat case_match. Qed.

(** A certificate's numbers at their widths. *)
Definition cert_in_range (c : OperatorCert) : Prop :=
  in_i64 c.(not_before) ∧ in_i64 c.(not_after) ∧ in_u32 c.(warn_before_expiry_days) ∧
  in_u32 c.(grace_period_days).
#[export] Instance cert_in_range_dec c : Decision (cert_in_range c).
Proof. unfold cert_in_range, in_i64, in_u32. apply _. Defined.

(** *** The revocation store *)

(** A loaded entry and the verified record behind it. *)
Definition backed `{Hex, Ed25519} (files : list (result string RevocationRecord))
    (pk : string) (v : RevocationReason * Z) : Prop :=
  ∃ r, Ok r ∈ files ∧ verify_revocation_signature r = Ok tt ∧
       r.(subject_pubkey_hex) = pk ∧ v = (r.(rev_reason), r.(rev_revoked_at)).

Lemma load_record_from_Some `{Hex, Ed25519} f r :
  load_record_from f = Some r → f = Ok r ∧ verify_revocation_signature r = Ok tt.
Proof.
  unfold load_record_from. destruct f as [r'|]; [| done].
  destruct (verify_revocation_signature r') as [[]|] eqn:Hv; simpl; [| done]. by intros [= <-].
Qed.

Lemma open_from_lookup `{Hex, Ed25519} files store stats pk v :
  (open_from store stats files).1 !! pk = Some v → store !! pk = Some v ∨ backed files pk v.
Proof.
  revert store stats. induction files as [|f files IH]; intros store stats; simpl; [by left |].
  assert (Hmore : backed files pk v → backed (f :: files) pk v).
  { intros (r & Hr & Hx). exists r. split; [by right | done]. }
  destruct (load_record_from f) as [r|] eqn:Hf; intros [Hs|Hb]%IH; auto.
  destruct (load_record_from_Some _ _ Hf) as [-> Hv].
  destruct (decide (subject_pubkey_hex r = pk)) as [<-|Hne].
  - rewrite lookup_insert_eq in Hs. injection Hs as <-. right. exists r. split; [by left | done].
  - rewrite lookup_insert_ne in Hs by done. by left.
Qed.

Lemma open_from_keeps `{Hex, Ed25519} files store stats pk :
  is_Some (store !! pk) → is_Some ((open_from store stats files).1 !! pk).
Proof.
  revert store stats. induction files as [|f files IH]; intros store stats Hs; simpl; [done |].
  destruct (load_record_from f) as [r|]; apply IH; [| done].
  destruct (decide (subject_pubkey_hex r = pk)) as [<-|Hne];
    [by rewrite lookup_insert_eq | by rewrite lookup_insert_ne].
Qed.

Lemma open_from_loads `{Hex, Ed25519} files store stats r :
  Ok r ∈ files → verify_revocation_signature r = Ok tt →
  is_Some ((open_from store stats files).1 !! r.(subject_pubkey_hex)).
Proof.
  revert store stats. induction files as [|f files IH]; intros store stats Hin Hv; simpl;
    [by apply not_elem_of_nil in Hin |].
  apply elem_of_cons in Hin as [<-|Hin].
  - unfold load_record_from. rewrite Hv. simpl. apply open_from_keeps. by rewrite lookup_insert_eq.
  - destruct (load_record_from f) as [r'|]; by apply IH.
Qed.

Lemma verify_revocation_subject `{Hex, Ed25519} r :
  verify_revocation_signature r = Ok tt → is_valid_lowercase_hex r.(subject_pubkey_hex) 64 = true.
Proof.
  unfold verify_revocation_signature. repeat case_match; try done. intros _.
  by destruct (is_valid_lowercase_hex (subject_pubkey_hex r) 64).
Qed.

(** ** Properties *)

(** Certificates whose texts hold no separator are determined by what was
    signed: two of them with the same signing input have the same kind, name,
    key, validity window and set of operations, and contact texts that differ
    at most in being absent or empty. *)
Theorem cert_signing_input_injective (c c' : OperatorCert) :
  separable c → separable c' → cert_message c = cert_message c' → same_grant c c'.
Proof.
  intros (Hn & Hpk & Hops & Hne) (Hn' & Hpk' & Hops' & Hne') H.
  apply chars_inj, join_fields_inj in H as [H Hcontact];
    [| by apply cert_fields_pipe_free | by apply cert_fields_pipe_free | done].
  unfold cert_fields in H.
  injection H as Hk Hname Hkey Hnb Hna Hw Hg Hcsv.
  apply (inj pretty) in Hnb, Hna, Hw, Hg.
  pose proof (ops_csv_inj _ _ Hne Hne' Hops Hops' Hcsv) as Hset.
  assert (Hkind : cert_kind c = cert_kind c').
  { apply as_sql_str_inj. exact Hk. }
  by repeat split; try apply Hset.
Qed.

(** For an operator certificate in range, the zones come in one order as the
    clock advances (so one that expired stays expired); new commitments are
    allowed exactly from [not_before] to [not_after] and recovery operations
    exactly from [not_before] to the end of the grace period.  An emergency
    certificate allows both at any time. *)
Theorem cert_status_timeline c now now' :
  cert_in_range c → (now ≤ now')%Z →
  match c.(cert_kind) with
  | EmergencyRecovery => cert_status c now = AlwaysActiveEmergency
  | Standard =>
      zone (cert_status c now) ≤ zone (cert_status c now') ∧
      (allows_new_commitments (cert_status c now) = true ↔ not_before c ≤ now < not_after c)%Z ∧
      (allows_recovery_ops (cert_status c now) = true ↔ not_before c ≤ now < grace_end c)%Z
  end.
Proof.
  intros (_ & Hna & Hw & Hg) Hle. pose proof (warn_start_le c Hw Hna).
  pose proof (grace_end_ge c Hg Hna). unfold cert_status.
  destruct (cert_kind c); [| done].
  split_and!; repeat case_bool_decide; simpl; try lia; split; try done; lia.
Qed.

(** A key is revoked in the loaded store exactly when some file of the
    directory holds a correctly signed record for it, and the recorded reason and
    time are those of such a record; only 64-digit lowercase keys can be. *)
Theorem open_store_correct `{Hex, Ed25519} files pk :
  let store := (open_store files).1 in
  (is_Some (lookup_revocation store pk) ↔ ∃ v, backed files pk v) ∧
  (∀ v, lookup_revocation store pk = Some v →
     backed files pk v ∧ is_valid_lowercase_hex pk 64 = true).
Proof.
  intros store. unfold store, lookup_revocation, open_store.
  assert (Hb : ∀ v, (open_from ∅ (MkLoadStats 0 0) files).1 !! pk = Some v → backed files pk v).
  { intros v [Hs|Hb]%open_from_lookup; [by rewrite lookup_empty in Hs | done]. }
  split; [split |].
  - intros [v Hv]. eauto.
  - intros (v & r & Hin & Hv & <- & _). by apply open_from_loads.
  - intros v Hv. pose proof (Hb _ Hv) as Hbk. split; [done |].
    destruct Hbk as (r & _ & Hver & <- & _). by apply verify_revocation_subject.
Qed.

(** *** What the structural check lets through *)

Definition demo_key : string := String.concat "" (replicate 32 "a1").
Definition demo_sig : string := String.concat "" (replicate 64 "b2").

(** Signed for aborting tasks during one day. *)
Definition limited_cert : OperatorCert :=
  MkOperatorCert Standard "eve" demo_key 0 86400 0 0 ["AbortTask"]
    (Some (demo_key +:+ "|0|4000000000|30|7|ApprovePlan,CreateInitiative|eve")) demo_sig.

(** The same bytes read as another certificate. *)
Definition widened_cert : OperatorCert :=
  MkOperatorCert Standard ("eve|" +:+ demo_key +:+ "|0|86400|0|0|AbortTask") demo_key 0 4000000000
    30 7 ["ApprovePlan"; "CreateInitiative"] (Some "eve") demo_sig.

(** The structural check does not look for the separator in the display name
    or the contact text: of two certificates that pass it with the same key and
    signature, one may only abort tasks for a day and the other approve plans for
    a century, and the self-signature of either verifies for the other. *)
Theorem structural_check_admits_forgery `{Hex, Ed25519} :
  validate_cert_structurally limited_cert = [] ∧ validate_cert_structurally widened_cert = [] ∧
  verify_cert_self_signature widened_cert = verify_cert_self_signature limited_cert ∧
  limited_cert.(cert_permitted_ops) = ["AbortTask"] ∧
  widened_cert.(cert_permitted_ops) = ["ApprovePlan"; "CreateInitiative"] ∧
  (limited_cert.(not_after) < widened_cert.(not_after))%Z.
Proof.
  split_and!; [by vm_compute | by vm_compute | | done | done | done].
  unfold verify_cert_self_signature.
  assert (cert_message widened_cert = cert_message limited_cert) as -> by (by vm_compute).
  done.
Qed.

(** ** Witnesses *)

Definition demo_cert : OperatorCert :=
  MkOperatorCert Standard "ada" demo_key 1000 (1000 + 90 * 86400) 30 7
    ["ApprovePlan"; "AbortTask"] None demo_sig.
Definition permuted_cert : OperatorCert :=
  MkOperatorCert Standard "ada" demo_key 1000 (1000 + 90 * 86400) 30 7
    ["AbortTask"; "ApprovePlan"; "AbortTask"] (Some "") demo_sig.

Lemma cert_signing_input_injective_witness :
  cert_message demo_cert = cert_message permuted_cert ∧ same_grant demo_cert permuted_cert.
Proof.
  split; [by vm_compute |].
  apply cert_signing_input_injective;
    [apply (bool_decide_unpack _); vm_compute; exact I
    |apply (bool_decide_unpack _); vm_compute; exact I |by vm_compute].
Defined.

Lemma cert_status_timeline_witness :
  cert_status demo_cert 500 = NotYetValid 500 ∧
  cert_status demo_cert (1000 + 60 * 86400) = Expiring (30 * 86400) ∧
  cert_status demo_cert (1000 + 97 * 86400) = Expired (7 * 86400) ∧
  zone (cert_status demo_cert (1000 + 97 * 86400)) ≤ zone (cert_status demo_cert 99999999).
Proof.
  split_and!; [by vm_compute | by vm_compute | by vm_compute |].
  apply (cert_status_timeline demo_cert (1000 + 97 * 86400) 99999999).
  - apply (bool_decide_unpack _); vm_compute; exact I.
  - lia.
Defined.
