(* ===== verification/Policy.v ===== *)
(** * The policy bundle, as far as the scheduler and the gates read it

    [crates/policy/src/bundle.rs]: the lane table, the admission-cost table,
    the provider price table, the claim rules, the gates, the operators and the escalation
    limits, with the accessors the kernel calls.  Parsing,
    signing and validation of [policy.toml] are not modelled; the integer ranges
    TOML imposes are the predicate [policy_in_range]. *)

From S2P Require Import Prelude Cert.

Record LaneEntry := MkLaneEntry {
  lane_id : string;
  max_concurrent_tasks : Z;
  max_cost_per_epoch : Z;
  priority : Z;
}.

Record ProviderPricing := MkProviderPricing {
  input_tokens_per_dollar : Z;
  output_tokens_per_dollar : Z;
  cache_read_tokens_per_dollar : option Z;
  cache_creation_tokens_per_dollar : option Z;
}.

Record ProviderEntry := MkProviderEntry {
  provider_id : string;
  provider_kind : string;
  credentials_file : string;
  inference_timeout_ms : Z;
  data_fetch_timeout_ms : Z;
  max_response_bytes : Z;
  stream_idle_timeout_ms : option Z;
  sidecar_endpoint : option string;
  sidecar_hmac_secret : option string;
  sidecar_health_check_path : option string;
  provider_pricing : option ProviderPricing;
}.

(** [[claim_requirements.rules]]: the claims a path needs. *)
Record ClaimRule := MkClaimRule {
  path_glob : string;
  claim_types : list string;
}.

(** [GateSelectors]: an empty list leaves its dimension unconstrained. *)
Record GateSelectors := MkGateSelectors {
  workspaces : list string;
  lane_ids : list string;
  path_globs : list string;
  task_agent_types : list string;
  environments : list string;
  hooks : list string;
}.

(** The part of a [[gates]] entry the evaluation reads; command, limits and
    hints configure the verifier process. *)
Record GateEntry := MkGateEntry {
  gate_type : string;
  gate_claim_type : option string;
  satisfies : list string;
  selectors : GateSelectors;
}.

(** An operator: [permitted_ops] is overwritten from the certificate when the
    policy is validated. *)
Record OperatorEntry := MkOperatorEntry {
  pubkey_fingerprint : string;
  op_display_name : string;
  op_pubkey_hex : string;
  permitted_ops : list string;
  op_cert : OperatorCert;
  force_misconfig_bypass : bool;
}.

Record PolicyBundle := MkPolicyBundle {
  lanes : list LaneEntry;
  base_cost_per_intent_kind : gmap string Z;
  cost_per_touched_path : Z;
  max_cost_per_task : Z;
  providers : list ProviderEntry;
  claim_rules : list ClaimRule;
  claim_default_action : string;
  gates : list GateEntry;
  epoch : Z;
  operators : list OperatorEntry;
  escalation_timeout : Z;
  escalation_window : Z;
  escalation_max_per_window : Z;
  escalation_quarantine_threshold : Z;
}.

(** A fingerprint is matched whole, or as the 16-digit prefix of a 32-digit one. *)
Definition operator_entry (policy : PolicyBundle) (fingerprint : string) : option OperatorEntry :=
  match List.find (λ op, String.eqb op.(pubkey_fingerprint) fingerprint) policy.(operators) with
  | Some op => Some op
  | None =>
      if String.length fingerprint =? 16 then
        List.find (λ op, (String.length op.(pubkey_fingerprint) =? 32)
                           && starts_with fingerprint op.(pubkey_fingerprint)) policy.(operators)
      else None
  end.

(** [self.lanes.iter().find(|l| l.lane_id == lane_id)] *)
Definition lane_config (policy : PolicyBundle) (id : string) : option LaneEntry :=
  List.find (λ l, String.eqb l.(lane_id) id) policy.(lanes).

Definition base_cost_for_intent_kind (policy : PolicyBundle) (k : string) : option Z :=
  policy.(base_cost_per_intent_kind) !! k.

(** TOML integers are signed 64-bit, so a [u64] field holds at most [i64::MAX]. *)
Definition lane_in_range (l : LaneEntry) : Prop :=
  in_u32 l.(max_concurrent_tasks) ∧ (0 ≤ l.(max_cost_per_epoch) ≤ i64_max)%Z.
Definition policy_in_range (policy : PolicyBundle) : Prop := Forall lane_in_range policy.(lanes).

Lemma lane_config_Some policy id l :
  lane_config policy id = Some l → l ∈ policy.(lanes) ∧ l.(lane_id) = id.
Proof.
  intros [H1 H2]%find_some. apply String.eqb_eq in H2. by rewrite list_elem_of_In.
Qed.

Lemma lane_config_in_range policy id l :
  policy_in_range policy → lane_config policy id = Some l → lane_in_range l.
Proof.
  unfold policy_in_range. rewrite Forall_forall. intros Hp [Hl _]%lane_config_Some. by apply Hp.
Qed.

(** ** Token prices *)

Definition SCALE : Z := 1000000.

Definition quotient (tokens rate : Z) : Z :=
  if bool_decide (rate = 0)%Z then 0 else (tokens * SCALE) / rate.

(** The sum is computed in [u128], where it cannot overflow
    ([cost_total_fits_u128]), and saturated into [u64]. *)
Definition cost_total (p : ProviderPricing) (input output cache_read cache_creation : Z) : Z :=
  (quotient input p.(input_tokens_per_dollar)
   + quotient output p.(output_tokens_per_dollar)
   + quotient cache_read (default p.(input_tokens_per_dollar) p.(cache_read_tokens_per_dollar))
   + quotient cache_creation
       (default p.(input_tokens_per_dollar) p.(cache_creation_tokens_per_dollar)))%Z.

Definition cost_micro_dollars (p : ProviderPricing) (input output cache_read cache_creation : Z)
    : Z :=
  let total := cost_total p input output cache_read cache_creation in
  if bool_decide (total ≤ u64_max)%Z then total else u64_max.

Definition pricing_in_range (p : ProviderPricing) : Prop :=
  in_u64 p.(input_tokens_per_dollar) ∧ in_u64 p.(output_tokens_per_dollar) ∧
  (∀ z, p.(cache_read_tokens_per_dollar) = Some z → in_u64 z) ∧
  (∀ z, p.(cache_creation_tokens_per_dollar) = Some z → in_u64 z).

Lemma quotient_0 r : quotient 0 r = 0%Z.
Proof. unfold quotient. case_bool_decide; [done |]. by rewrite Z.mul_0_l, Z.div_0_l. Qed.

Lemma quotient_bounds t r : in_u64 t → in_u64 r → (0 ≤ quotient t r ≤ t * SCALE)%Z.
Proof.
  widths. unfold quotient, SCALE. intros Ht Hr. case_bool_decide; [lia |].
  split; [apply Z.div_pos; lia |]. apply Z.div_le_upper_bound; nia.
Qed.

Lemma quotient_mono t t' r : in_u64 r → (0 ≤ t ≤ t')%Z → (quotient t r ≤ quotient t' r)%Z.
Proof.
  widths. unfold quotient, SCALE. intros Hr Ht. case_bool_decide; [lia |].
  apply Z.div_le_mono; lia.
Qed.

Lemma default_in_range z o : in_u64 z → (∀ y, o = Some y → in_u64 y) → in_u64 (default z o).
Proof. destruct o; simpl; auto. Qed.

Lemma cost_total_fits_u128 p i o r c :
  pricing_in_range p → in_u64 i → in_u64 o → in_u64 r → in_u64 c →
  (0 ≤ cost_total p i o r c < 2^128)%Z.
Proof.
  intros (Hi & Ho & Hr & Hc) Hi' Ho' Hr' Hc'. unfold cost_total.
  pose proof (quotient_bounds i _ Hi' Hi). pose proof (quotient_bounds o _ Ho' Ho).
  pose proof (quotient_bounds r _ Hr' (default_in_range _ _ Hi Hr)).
  pose proof (quotient_bounds c _ Hc' (default_in_range _ _ Hi Hc)).
  unfold SCALE in *. widths. lia.
Qed.

Lemma cost_total_mono p i o r c i' o' r' c' :
  pricing_in_range p → (0 ≤ i ≤ i')%Z → (0 ≤ o ≤ o')%Z → (0 ≤ r ≤ r')%Z → (0 ≤ c ≤ c')%Z →
  (cost_total p i o r c ≤ cost_total p i' o' r' c')%Z.
Proof.
  intros (Hi & Ho & Hr & Hc) H1 H2 H3 H4. unfold cost_total.
  pose proof (quotient_mono i i' _ Hi H1). pose proof (quotient_mono o o' _ Ho H2).
  pose proof (quotient_mono r r' _ (default_in_range _ _ Hi Hr) H3).
  pose proof (quotient_mono c c' _ (default_in_range _ _ Hi Hc) H4). lia.
Qed.

Lemma cost_micro_dollars_mono p i o r c i' o' r' c' :
  pricing_in_range p → (0 ≤ i ≤ i')%Z → (0 ≤ o ≤ o')%Z → (0 ≤ r ≤ r')%Z → (0 ≤ c ≤ c')%Z →
  (cost_micro_dollars p i o r c ≤ cost_micro_dollars p i' o' r' c')%Z.
Proof.
  intros Hp H1 H2 H3 H4. pose proof (cost_total_mono p i o r c i' o' r' c' Hp H1 H2 H3 H4).
  unfold cost_micro_dollars. repeat case_bool_decide; lia.
Qed.
