(* ===== verification/Operators.v ===== *)
(** * Operators: policy installation, authentication and the certificate gate

    The operator part of [crates/policy/src/bundle.rs] ([validate_operator_certs]),
    [kernel/src/ipc/auth.rs], [kernel/src/authority/cert_check.rs] and the two gates
    that open [dispatch_loop] in [kernel/src/ipc/operator.rs].  SHA-256 is an
    argument; the wire details of a refusal are not modelled. *)

From S2P Require Import Prelude Bytes Crypto Cert Policy.

(** ** Installing the operators of a policy *)

Module PolicyError.
Inductive PolicyError : Type :=
  | HexDecode (reason : string)
  | FingerprintMismatch (fingerprint entry_pubkey_hex computed_fingerprint : string)
  | CertPubkeyMismatch (fingerprint entry_pubkey_hex cert_pubkey_hex : string)
  | CertValidation (fingerprint display_name : string) (errors : list CertError).
#[export] Instance PolicyError_eq_dec : EqDecision PolicyError.
Proof. solve_decision. Defined.
End PolicyError.
Abbreviation PolicyError := PolicyError.PolicyError.
Export (hints) PolicyError.

Record BypassedCertMisconfig := MkBypassedCertMisconfig {
  byp_operator_fingerprint : string;
  byp_display_name : string;
  byp_kind : CertKind;
  byp_violations : list CertError;
}.

Definition ROTATE_EPOCH : string := "RotateEpoch".

(** Emergency certificates may rotate the epoch, whatever they list. *)
Definition pinned_cert (c : OperatorCert) : OperatorCert :=
  match c.(cert_kind) with
  | EmergencyRecovery =>
      MkOperatorCert c.(cert_kind) c.(cert_display_name) c.(cert_pubkey_hex) c.(not_before)
        c.(not_after) c.(warn_before_expiry_days) c.(grace_period_days) [ROTATE_EPOCH]
        c.(contact_info) c.(self_sig_hex)
  | Standard => c
  end.

Definition with_cert (e : OperatorEntry) (c : OperatorCert) : OperatorEntry :=
  MkOperatorEntry e.(pubkey_fingerprint) e.(op_display_name) e.(op_pubkey_hex)
    c.(cert_permitted_ops) c e.(force_misconfig_bypass).

Section Install.
Context `{Hex, Ed25519} (sha256 : list byte → list byte).

Definition computed_fingerprint (raw : list byte) : string := hex_encode (take 16 (sha256 raw)).

(** One turn of the loop of [validate_operator_certs]. *)
Definition validate_operator_cert (e : OperatorEntry)
    : result PolicyError (OperatorEntry * list BypassedCertMisconfig) :=
  raw ← map_err PolicyError.HexDecode (hex_decode e.(op_pubkey_hex));
  let computed_fp := computed_fingerprint raw in
  if negb (String.eqb computed_fp e.(pubkey_fingerprint)) then
    Err (PolicyError.FingerprintMismatch e.(pubkey_fingerprint) e.(op_pubkey_hex) computed_fp)
  else
    let cert := e.(op_cert) in
    if negb (String.eqb cert.(cert_pubkey_hex) e.(op_pubkey_hex)) then
      Err (PolicyError.CertPubkeyMismatch e.(pubkey_fingerprint) e.(op_pubkey_hex)
             cert.(cert_pubkey_hex))
    else
      match verify_cert_self_signature cert with
      | Err sig_err =>
          Err (PolicyError.CertValidation e.(pubkey_fingerprint) e.(op_display_name) [sig_err])
      | Ok _ =>
          match validate_cert_structurally cert with
          | [] => Ok (with_cert e (pinned_cert cert), [])
          | violations =>
              if e.(force_misconfig_bypass) then
                Ok (with_cert e (pinned_cert cert),
                    [MkBypassedCertMisconfig e.(pubkey_fingerprint) e.(op_display_name)
                       cert.(cert_kind) violations])
              else Err (PolicyError.CertValidation e.(pubkey_fingerprint) e.(op_display_name)
                          violations)
          end
      end.

Fixpoint validate_operator_certs (entries : list OperatorEntry)
    : result PolicyError (list OperatorEntry * list BypassedCertMisconfig) :=
  match entries with
  | [] => Ok ([], [])
  | e :: entries' =>
      p ← validate_operator_cert e;
      q ← validate_operator_certs entries';
      Ok (p.1 :: q.1, p.2 ++ q.2)
  end.
End Install.

(** ** Authentication *)

Record AuthenticatedOperator := MkAuthenticatedOperator {
  auth_fingerprint : string;
  auth_permitted_ops : list string;
}.

Inductive ChallengeResult : Type :=
  | ChallengeOk (op : AuthenticatedOperator)
  | Unauthorized (reason : string).

(** [ChallengeEnvelope::decoded_bytes] *)
Definition decoded_bytes `{Hex} (challenge_hex : string) : option (list byte) :=
  match hex_decode challenge_hex with
  | Ok v => if length v =? 32 then Some v else None
  | Err _ => None
  end.

Definition verify_response `{Hex, Ed25519} (challenge_hex fingerprint signed_challenge_hex : string)
    (policy : PolicyBundle) : ChallengeResult :=
  match operator_entry policy fingerprint with
  | None => Unauthorized "fingerprint not found in policy"
  | Some e =>
      match hex_decode e.(op_pubkey_hex) with
      | Err _ => Unauthorized "operator pubkey_hex decode failed"
      | Ok pubkey_bytes =>
          match decoded_bytes challenge_hex with
          | None => Unauthorized "challenge_hex is not 64 lowercase hex chars"
          | Some challenge_bytes =>
              match hex_decode signed_challenge_hex with
              | Err _ => Unauthorized "signed_challenge_hex decode failed"
              | Ok sig_bytes =>
                  match verify_ed25519 pubkey_bytes challenge_bytes sig_bytes with
                  | Ok _ => ChallengeOk (MkAuthenticatedOperator fingerprint e.(permitted_ops))
                  | Err _ => Unauthorized "signature invalid"
                  end
              end
          end
      end
  end.

Definition is_permitted (op : AuthenticatedOperator) (op_name : string) : bool :=
  existsb (λ p, String.eqb p op_name) op.(auth_permitted_ops).

(** ** The certificate gate *)

Inductive CertGuard : Type :=
  | Allow
  | Deny (wire_code : string).
#[export] Instance CertGuard_eq_dec : EqDecision CertGuard.
Proof. solve_decision. Defined.

(** The audit events of [AuditEventKind] the gate emits. *)
Inductive CertEvent : Type :=
  | OperatorCertExpiringSoon (fingerprint : string) (epoch_id : Z) (op : string)
      (na days_remaining : Z)
  | OperatorCertInGracePeriod (fingerprint : string) (epoch_id : Z) (op : string)
      (na grace_ends_at : Z)
  | OperatorCertExpiredOpDenied (fingerprint : string) (epoch_id : Z) (op : string)
      (na expired_at : Z)
  | EmergencyOperatorUsed (fingerprint : string) (epoch_id : Z) (op : string)
  | OperatorCertRevokedOpDenied (fingerprint : string) (epoch_id : Z) (op reason : string)
      (revoked_at : Z).

Record CertEnforcer := MkCertEnforcer {
  warned : gset (string * Z);
  revocations : option RevocationStore;
}.

Definition new_enforcer (revocations : option RevocationStore) : CertEnforcer :=
  MkCertEnforcer ∅ revocations.

Definition enforcer_lookup (en : CertEnforcer) (pk : string) : option (RevocationReason * Z) :=
  s ← en.(revocations); lookup_revocation s pk.

(** [maybe_emit_warn]: test and insert under the lock, then emit. *)
Definition maybe_emit_warn (en : CertEnforcer) (fp : string) (epoch_id : Z) (ev : CertEvent)
    : list CertEvent * CertEnforcer :=
  if bool_decide ((fp, epoch_id) ∈ en.(warned)) then ([], en)
  else ([ev], MkCertEnforcer ({[(fp, epoch_id)]} ∪ en.(warned)) en.(revocations)).

Definition enforce (en : CertEnforcer) (fp op_name : string) (bundle : PolicyBundle) (now : Z)
    : CertGuard * list CertEvent * CertEnforcer :=
  let epoch_id := bundle.(epoch) in
  match operator_entry bundle fp with
  | None => (Deny "FAIL_OPERATOR_NOT_IN_POLICY", [], en)
  | Some e =>
      let cert := e.(op_cert) in
      match cert_status_with_revocation cert now (enforcer_lookup en) with
      | Active => (Allow, [], en)
      | Expiring secs =>
          let r := maybe_emit_warn en fp epoch_id
                     (OperatorCertExpiringSoon fp epoch_id op_name cert.(not_after) (Z.quot secs DAY)) in
          (Allow, r.1, r.2)
      | Grace secs =>
          let r := maybe_emit_warn en fp epoch_id
                     (OperatorCertInGracePeriod fp epoch_id op_name cert.(not_after)
                        (wrap_add_i64 now secs)) in
          (Allow, r.1, r.2)
      | Expired secs =>
          (Deny "FAIL_CERT_EXPIRED",
           [OperatorCertExpiredOpDenied fp epoch_id op_name cert.(not_after)
              (wrap_add_i64 cert.(not_after) (Z.quot secs DAY * DAY))], en)
      | NotYetValid _ =>
          (Deny "FAIL_CERT_NOT_YET_VALID",
           [OperatorCertExpiredOpDenied fp epoch_id op_name cert.(not_after) cert.(not_before)], en)
      | AlwaysActiveEmergency => (Allow, [EmergencyOperatorUsed fp epoch_id op_name], en)
      | Revoked reason revoked_at =>
          (Deny "FAIL_CERT_REVOKED",
           [OperatorCertRevokedOpDenied fp epoch_id op_name (revocation_reason_as_str reason)
              revoked_at], en)
      end
  end.

(** The gates of [dispatch_loop] for one decoded request: the wire code of a
    refusal, or none when the handler is reached. *)
Definition dispatch_gate (en : CertEnforcer) (op : AuthenticatedOperator) (op_name : string)
    (bundle : PolicyBundle) (now : Z) : option string * list CertEvent * CertEnforcer :=
  if negb (is_permitted op op_name) then (Some "UNAUTHORIZED", [], en)
  else
    match enforce en op.(auth_fingerprint) op_name bundle now with
    | (Allow, evs, en') => (None, evs, en')
    | (Deny code, evs, en') => (Some code, evs, en')
    end.

(** ** Lemmas *)

(** *** Installation *)
Section InstallFacts.
Context `{Hex, Ed25519} (sha256 : list byte → list byte).

(** What an entry needs to be installed. *)
Definition installable (e : OperatorEntry) : Prop :=
  (∃ raw, hex_decode e.(op_pubkey_hex) = Ok raw ∧
     computed_fingerprint sha256 raw = e.(pubkey_fingerprint)) ∧
  e.(op_cert).(cert_pubkey_hex) = e.(op_pubkey_hex) ∧
  verify_cert_self_signature e.(op_cert) = Ok tt ∧
  (validate_cert_structurally e.(op_cert) = [] ∨ e.(force_misconfig_bypass) = true).

(** What becomes of it, and what is recorded for the boot audit. *)
Definition install (e : OperatorEntry) : OperatorEntry := with_cert e (pinned_cert e.(op_cert)).
Definition bypass_of (e : OperatorEntry) : list BypassedCertMisconfig :=
  match validate_cert_structurally e.(op_cert) with
  | [] => []
  | violations =>
      [MkBypassedCertMisconfig e.(pubkey_fingerprint) e.(op_display_name)
         e.(op_cert).(cert_kind) violations]
  end.

Lemma validate_operator_cert_iff e p :
  validate_operator_cert sha256 e = Ok p ↔ installable e ∧ p = (install e, bypass_of e).
Proof.
  unfold validate_operator_cert, installable, install, bypass_of, mbind, result_bind.
  destruct (hex_decode (op_pubkey_hex e)) as [raw|] eqn:Hraw; simpl; [| naive_solver].
  destruct (String.eqb_spec (computed_fingerprint sha256 raw) (pubkey_fingerprint e)); simpl;
    [| naive_solver].
  destruct (String.eqb_spec (cert_pubkey_hex (op_cert e)) (op_pubkey_hex e)); simpl;
    [| naive_solver].
  destruct (verify_cert_self_signature (op_cert e)) as [[]|]; [| naive_solver].
  destruct (validate_cert_structurally (op_cert e)); [naive_solver |].
  destruct (force_misconfig_bypass e); naive_solver.
Qed.
Lemma validate_operator_certs_spec entries es byp :
  validate_operator_certs sha256 entries = Ok (es, byp) ↔
  Forall installable entries ∧ es = install <$> entries ∧ byp = entries ≫= bypass_of.
Proof.
  revert es byp. induction entries as [|e entries IH]; intros es byp.
  { split; [intros [= <- <-]; by repeat constructor | by intros (_ & -> & ->)]. }
  cbn [validate_operator_certs]. rewrite Forall_cons, fmap_cons, bind_cons.
  unfold mbind, result_bind.
  destruct (validate_operator_cert sha256 e) as [p|] eqn:Hp.
  - apply validate_operator_cert_iff in Hp as [Hi ->].
    destruct (validate_operator_certs sha256 entries) as [[es' byp']|] eqn:Hq.
    + destruct (proj1 (IH es' byp') eq_refl) as (Hall & -> & ->).
      split; [by intros [= <- <-] | by intros (_ & -> & ->)].
    + split; [done |]. intros ([_ Hall] & _).
      by specialize (proj2 (IH _ _) (conj Hall (conj eq_refl eq_refl))).
  - split; [done |]. intros ([Hi _] & _).
    by rewrite (proj2 (validate_operator_cert_iff e _) (conj Hi eq_refl)) in Hp.
Qed.
End InstallFacts.

Lemma pinned_permitted c :
  (pinned_cert c).(cert_kind) = EmergencyRecovery →
  (pinned_cert c).(cert_permitted_ops) = [ROTATE_EPOCH].
Proof. unfold pinned_cert. destruct c as [[]]; simpl; [done | by intros _]. Qed.

Lemma operator_entry_in policy fp e : operator_entry policy fp = Some e → e ∈ policy.(operators).
Proof.
  unfold operator_entry. destruct (List.find _ _) as [e'|] eqn:Hf.
  - intros [= <-]. apply find_some in Hf as [Hf _]. by apply list_elem_of_In.
  - destruct (String.length fp =? 16); [| done]. intros [Hf' _]%find_some. by apply list_elem_of_In.
Qed.

Lemma verify_response_ok `{Hex, Ed25519} ch fp s policy op :
  verify_response ch fp s policy = ChallengeOk op →
  ∃ e, operator_entry policy fp = Some e ∧
       op = MkAuthenticatedOperator fp e.(permitted_ops).
Proof.
  unfold verify_response. repeat case_match; try done. intros [= <-]. eauto.
Qed.

Lemma is_permitted_iff op o : is_permitted op o = true ↔ o ∈ op.(auth_permitted_ops).
Proof.
  unfold is_permitted. rewrite existsb_exists. setoid_rewrite list_elem_of_In.
  split; [intros (x & Hx & ->%String.eqb_eq); done | intros Hx; exists o; by rewrite String.eqb_refl].
Qed.

(** *** The gate *)

Lemma enforce_allow en fp o b now :
  (enforce en fp o b now).1.1 = Allow ↔
  ∃ e, operator_entry b fp = Some e ∧ enforcer_lookup en e.(op_cert).(cert_pubkey_hex) = None ∧
       allows_recovery_ops (cert_status e.(op_cert) now) = true.
Proof.
  unfold enforce, cert_status_with_revocation.
  destruct (operator_entry b fp) as [e|]; [| by split; [| intros (? & ? & _)]].
  destruct (enforcer_lookup en _) as [[r at_]|] eqn:Hl.
  { split; [done |]. intros (e' & [= <-] & Hn & _). congruence. }
  destruct (cert_status (op_cert e) now) eqn:Hs; simpl; split; try done; intros Hx;
    first [exists e; by rewrite Hl, Hs | destruct Hx as (e' & [= <-] & _ & Hx); by rewrite Hs in Hx].
Qed.

(** A request as the dispatcher sees it. *)
Record GateRequest := MkGateRequest {
  rq_operator : AuthenticatedOperator;
  rq_op_name : string;
  rq_bundle : PolicyBundle;
  rq_now : Z;
}.

Definition run_gate_request (st : list CertEvent * CertEnforcer) (q : GateRequest)
    : list CertEvent * CertEnforcer :=
  let r := dispatch_gate st.2 q.(rq_operator) q.(rq_op_name) q.(rq_bundle) q.(rq_now) in
  (st.1 ++ r.1.2, r.2).
Definition run_gate (en : CertEnforcer) (qs : list GateRequest) : list CertEvent * CertEnforcer :=
  foldl run_gate_request ([], en) qs.

(** The key of an expiry warning. *)
Definition warn_key (ev : CertEvent) : option (string * Z) :=
  match ev with
  | OperatorCertExpiringSoon fp ep _ _ _ | OperatorCertInGracePeriod fp ep _ _ _ => Some (fp, ep)
  | _ => None
  end.
Definition warnings (k : string * Z) (evs : list CertEvent) : nat :=
  length (List.filter (λ ev, bool_decide (warn_key ev = Some k)) evs).

(** The request is permitted, and its certificate is about to expire or in grace. *)
Definition request_warns (revs : option RevocationStore) (k : string * Z) (q : GateRequest) : bool :=
  bool_decide ((q.(rq_operator).(auth_fingerprint), q.(rq_bundle).(epoch)) = k)
  && is_permitted q.(rq_operator) q.(rq_op_name)
  && match operator_entry q.(rq_bundle) q.(rq_operator).(auth_fingerprint) with
     | Some e =>
         match cert_status_with_revocation e.(op_cert) q.(rq_now)
                 (enforcer_lookup (new_enforcer revs)) with
         | Expiring _ | Grace _ => true
         | _ => false
         end
     | None => false
     end.

Lemma warnings_app k l l' : warnings k (l ++ l') = warnings k l + warnings k l'.
Proof. unfold warnings. by rewrite List.filter_app, length_app. Qed.

Lemma run_gate_app evs en qs :
  foldl run_gate_request (evs, en) qs = (evs ++ (run_gate en qs).1, (run_gate en qs).2).
Proof.
  unfold run_gate. revert evs en. induction qs as [|q qs IH]; intros evs en; simpl.
  { by rewrite app_nil_r. }
  unfold run_gate_request at 2 4 6; simpl.
  rewrite IH, (IH (dispatch_gate en _ _ _ _).1.2). simpl. by rewrite app_assoc.
Qed.

Lemma run_gate_cons en q qs :
  let r := dispatch_gate en q.(rq_operator) q.(rq_op_name) q.(rq_bundle) q.(rq_now) in
  run_gate en (q :: qs) = (r.1.2 ++ (run_gate r.2 qs).1, (run_gate r.2 qs).2).
Proof.
  intros r. change (run_gate en (q :: qs)) with (foldl run_gate_request ([] ++ r.1.2, r.2) qs).
  by rewrite run_gate_app.
Qed.

(** What one request adds: a warning for [k] exactly when it warns and [k] was
    not warned before. *)
Definition warns_first (en : CertEnforcer) (k : string * Z) (q : GateRequest) : bool :=
  request_warns en.(revocations) k q && negb (bool_decide (k ∈ en.(warned))).

Lemma maybe_emit_warn_step en fp ep ev k :
  warn_key ev = Some (fp, ep) →
  let r := maybe_emit_warn en fp ep ev in
  warnings k r.1 = (if bool_decide ((fp, ep) = k) && negb (bool_decide (k ∈ en.(warned))) then 1 else 0) ∧
  r.2.(revocations) = en.(revocations) ∧
  (k ∈ r.2.(warned) ↔ k ∈ en.(warned) ∨ (fp, ep) = k).
Proof.
  intros Hk. unfold maybe_emit_warn, warnings. destruct (decide ((fp, ep) = k)) as [<-|Hne].
  - rewrite (bool_decide_eq_true_2 ((fp, ep) = (fp, ep))) by done.
    case_bool_decide; simpl; [naive_solver |]. rewrite bool_decide_eq_true_2 by done. set_solver.
  - rewrite (bool_decide_eq_false_2 ((fp, ep) = k)) by done.
    case_bool_decide; simpl; [naive_solver |].
    rewrite bool_decide_eq_false_2 by congruence. split_and!; [done | done | set_solver].
Qed.

Lemma dispatch_gate_step en q k :
  let r := dispatch_gate en q.(rq_operator) q.(rq_op_name) q.(rq_bundle) q.(rq_now) in
  warnings k r.1.2 = (if warns_first en k q then 1 else 0) ∧
  r.2.(revocations) = en.(revocations) ∧
  (k ∈ r.2.(warned) ↔ k ∈ en.(warned) ∨ request_warns en.(revocations) k q = true).
Proof.
  assert (Hl : enforcer_lookup (new_enforcer (revocations en)) = enforcer_lookup en) by done.
  unfold dispatch_gate, warns_first, request_warns. rewrite Hl.
  destruct (is_permitted _ _); simpl; [| rewrite andb_false_r; naive_solver].
  rewrite andb_true_r. unfold enforce.
  destruct (operator_entry _ _) as [e|]; simpl; [| rewrite andb_false_r; naive_solver].
  destruct (cert_status_with_revocation _ _ _) as [|s|s|s|s| |rr s]; simpl;
    rewrite ?andb_false_r, ?andb_true_r; try naive_solver.
  - destruct (maybe_emit_warn_step en (auth_fingerprint (rq_operator q)) (epoch (rq_bundle q))
      (OperatorCertExpiringSoon (auth_fingerprint (rq_operator q)) (epoch (rq_bundle q))
         (rq_op_name q) (not_after (op_cert e)) (Z.quot s DAY)) k eq_refl) as (H1 & H2 & H3).
    split_and!; [exact H1 | exact H2 |]. rewrite bool_decide_eq_true. exact H3.
  - destruct (maybe_emit_warn_step en (auth_fingerprint (rq_operator q)) (epoch (rq_bundle q))
      (OperatorCertInGracePeriod (auth_fingerprint (rq_operator q)) (epoch (rq_bundle q))
         (rq_op_name q) (not_after (op_cert e)) (wrap_add_i64 (rq_now q) s)) k eq_refl)
      as (H1 & H2 & H3).
    split_and!; [exact H1 | exact H2 |]. rewrite bool_decide_eq_true. exact H3.
Qed.

Lemma run_gate_warnings en qs k :
  warnings k (run_gate en qs).1 =
  if existsb (request_warns en.(revocations) k) qs && negb (bool_decide (k ∈ en.(warned))) then 1 else 0.
Proof.
  revert en. induction qs as [|q qs IH]; intros en; [done |].
  rewrite run_gate_cons. simpl. destruct (dispatch_gate_step en q k) as (H1 & H2 & H3).
  rewrite warnings_app, IH, H1, H2. unfold warns_first.
  assert (H3' : bool_decide (k ∈ warned (dispatch_gate en (rq_operator q) (rq_op_name q)
     (rq_bundle q) (rq_now q)).2) = bool_decide (k ∈ warned en) || request_warns (revocations en) k q).
  { destruct (request_warns (revocations en) k q);
      rewrite ?orb_true_r, ?orb_false_r; [apply bool_decide_eq_true_2; tauto |].
    apply bool_decide_ext. naive_solver. }
  rewrite H3'. destruct (request_warns (revocations en) k q), (bool_decide (k ∈ warned en)),
    (existsb _ qs); done.
Qed.

(** ** Properties *)

(** A policy's operators are installed exactly when every entry's fingerprint
    is that of its key, its certificate is for that key and signed by it, and the
    structural check finds nothing or is bypassed; then each entry takes its
    operations from its certificate, emergency certificates may only rotate the
    epoch even when bypassed, and every bypassed violation is recorded. *)
Theorem validate_operator_certs_iff `{Hex, Ed25519} sha256 entries es byp :
  validate_operator_certs sha256 entries = Ok (es, byp) ↔
  Forall (installable sha256) entries ∧ es = install <$> entries ∧ byp = entries ≫= bypass_of.
Proof. apply validate_operator_certs_spec. Qed.

(** C22: Whoever authenticates as the holder of an emergency certificate against an
    installed policy gets past the dispatch gates only to rotate the epoch,
    whatever the certificate lists, whatever was bypassed at installation, and
    whatever policy is live by then. *)
Theorem emergency_operator_only_rotates `{Hex, Ed25519} sha256 entries byp challenge fp signed
    policy policy' op en op_name now e :
  validate_operator_certs sha256 entries = Ok (policy.(operators), byp) →
  verify_response challenge fp signed policy = ChallengeOk op →
  operator_entry policy fp = Some e → e.(op_cert).(cert_kind) = EmergencyRecovery →
  (dispatch_gate en op op_name policy' now).1.1 = None → op_name = ROTATE_EPOCH.
Proof.
  intros Hv Hr He Hk Hg.
  destruct (verify_response_ok _ _ _ _ _ Hr) as (e' & He' & ->). simplify_eq.
  assert (Hops : e.(permitted_ops) = [ROTATE_EPOCH]).
  { pose proof (operator_entry_in _ _ _ He) as Hin.
    apply validate_operator_certs_spec in Hv as (_ & Hes & _).
    rewrite Hes in Hin. apply list_elem_of_fmap in Hin as (x & -> & _). by apply pinned_permitted. }
  unfold dispatch_gate in Hg. destruct (is_permitted _ _) eqn:Hp; [| done].
  apply is_permitted_iff in Hp. simpl in Hp. rewrite Hops in Hp. set_solver.
Qed.

(** A request reaches its handler exactly when the operator was granted the
    operation at authentication and the live policy has an unrevoked certificate
    for it that is an emergency certificate or inside its validity or grace
    period: in grace every granted operation passes, not the recovery ones only. *)
Theorem dispatch_gate_iff en op op_name bundle now :
  (∀ e, e ∈ bundle.(operators) → cert_in_range e.(op_cert)) →
  (dispatch_gate en op op_name bundle now).1.1 = None ↔
  op_name ∈ op.(auth_permitted_ops) ∧
  ∃ e, operator_entry bundle op.(auth_fingerprint) = Some e ∧
    enforcer_lookup en e.(op_cert).(cert_pubkey_hex) = None ∧
    (e.(op_cert).(cert_kind) = EmergencyRecovery ∨
     not_before e.(op_cert) ≤ now < grace_end e.(op_cert))%Z.
Proof.
  intros Hrange. unfold dispatch_gate. rewrite <-is_permitted_iff.
  destruct (is_permitted op op_name); simpl; [| naive_solver].
  pose proof (enforce_allow en (auth_fingerprint op) op_name bundle now) as Ha.
  assert (Hiff : (let '(g, evs, en') := enforce en (auth_fingerprint op) op_name bundle now in
                  match g with Allow => (None, evs, en') | Deny code => (Some code, evs, en') end).1.1
                 = None ↔ (enforce en (auth_fingerprint op) op_name bundle now).1.1 = Allow).
  { by destruct (enforce _ _ _ _ _) as [[[|c] evs] en']. }
  assert (Hstatus : ∀ e, operator_entry bundle (auth_fingerprint op) = Some e →
    allows_recovery_ops (cert_status (op_cert e) now) = true ↔
    (cert_kind (op_cert e) = EmergencyRecovery ∨
     not_before (op_cert e) ≤ now < grace_end (op_cert e))%Z).
  { intros e He. destruct (Hrange e (operator_entry_in _ _ _ He)) as (_ & Hna & Hw & Hg).
    pose proof (warn_start_le _ Hw Hna). pose proof (grace_end_ge _ Hg Hna).
    unfold cert_status. destruct (cert_kind (op_cert e)); [| naive_solver].
    repeat case_bool_decide; simpl; (split; [try done; intros _; right; lia | intros [?|?]; try done; lia]). }
  rewrite Hiff, Ha. split; intros Hx; [split; [done |] | destruct Hx as [_ Hx]];
    destruct Hx as (e & He & Hl & Hs); exists e; by rewrite (Hstatus e He) in *.
Qed.

(** From boot on, the number of expiry and grace warnings audited for an
    operator in a policy epoch is one if any of its permitted requests fell in
    the warning window or the grace period, and none otherwise, whatever the
    sequence of requests, operators and policies. *)
Theorem expiry_warnings_deduplicated revs qs k :
  warnings k (run_gate (new_enforcer revs) qs).1 = if existsb (request_warns revs k) qs then 1 else 0.
Proof. rewrite run_gate_warnings. simpl. by rewrite andb_true_r. Qed.

(** A certificate whose key text is not 64 lowercase digits (which the
    structural bypass lets be installed) cannot be revoked: whatever records the
    revocation directory holds, the gate never refuses it as revoked. *)
Theorem uppercase_key_is_irrevocable `{Hex, Ed25519} files w fp op_name bundle now e :
  operator_entry bundle fp = Some e →
  is_valid_lowercase_hex e.(op_cert).(cert_pubkey_hex) 64 = false →
  (enforce (MkCertEnforcer w (Some (open_store files).1)) fp op_name bundle now).1.1
  ≠ Deny "FAIL_CERT_REVOKED".
Proof.
  intros He Hhex. unfold enforce. rewrite He. unfold cert_status_with_revocation.
  assert (enforcer_lookup (MkCertEnforcer w (Some (open_store files).1))
            (cert_pubkey_hex (op_cert e)) = None) as ->.
  { unfold enforcer_lookup. simpl. destruct (lookup_revocation _ _) as [v|] eqn:Hl; [| done].
    unfold lookup_revocation, open_store in Hl. apply open_from_lookup in Hl as [Hl|Hl];
      [by rewrite lookup_empty in Hl |].
    destruct Hl as (r & _ & Hver & Heq & _). apply verify_revocation_subject in Hver. congruence. }
  pose proof (cert_status_not_revoked (op_cert e) now) as Hn.
  by destruct (cert_status _ _).
Qed.

(** ** Witnesses *)

Definition zero_sha (l : list byte) : list byte := replicate 32 NUL.
Definition zero_fp : string := String.concat "" (replicate 16 "00").
Definition accept_all : Ed25519 := trusting (λ _ _ _, true).

Definition operator_with (pk : string) (c : OperatorCert) (bypass : bool) : OperatorEntry :=
  MkOperatorEntry zero_fp "root" pk [] c bypass.
Definition policy_with (ep : Z) (es : list OperatorEntry) : PolicyBundle :=
  MkPolicyBundle [] ∅ 0 0 [] [] "permit" [] ep es 3600 300 5 3.

(** An emergency certificate that lists every operation, with the bypass. *)
Definition greedy_cert : OperatorCert :=
  MkOperatorCert EmergencyRecovery "glass" demo_key 0 0 0 0 ["ApprovePlan"; "RotateEpoch"] None demo_sig.
Definition greedy_entry : OperatorEntry := operator_with demo_key greedy_cert true.

Lemma emergency_operator_only_rotates_witness :
  let policy := policy_with 7 [install greedy_entry] in
  let op := MkAuthenticatedOperator zero_fp [ROTATE_EPOCH] in
  (dispatch_gate (new_enforcer None) op "ApprovePlan" policy 50).1.1 = Some "UNAUTHORIZED" ∧
  "RotateEpoch" = ROTATE_EPOCH.
Proof.
  split; [by vm_compute |].
  apply (@emergency_operator_only_rotates hex_codec accept_all zero_sha [greedy_entry]
           (@bypass_of greedy_entry) demo_key zero_fp demo_sig
           (policy_with 7 [install greedy_entry]) (policy_with 8 [install greedy_entry])
           (MkAuthenticatedOperator zero_fp [ROTATE_EPOCH]) (new_enforcer None) "RotateEpoch" 50
           (install greedy_entry)); by vm_compute.
Defined.

Definition grace_policy : PolicyBundle :=
  policy_with 7 [install (operator_with demo_key demo_cert false)].

Lemma dispatch_gate_iff_witness :
  cert_status demo_cert (1000 + 91 * 86400) = Grace (6 * 86400) ∧
  (dispatch_gate (new_enforcer None) (MkAuthenticatedOperator zero_fp ["ApprovePlan"]) "ApprovePlan"
     grace_policy (1000 + 91 * 86400)).1.1 = None.
Proof.
  split; [by vm_compute |].
  apply (dispatch_gate_iff (new_enforcer None) (MkAuthenticatedOperator zero_fp ["ApprovePlan"])
           "ApprovePlan" grace_policy (1000 + 91 * 86400)).
  - intros e [->|H]%elem_of_cons; [| by apply elem_of_nil in H].
    apply (bool_decide_unpack _); vm_compute; exact I.
  - split; [by left |]. exists (install (operator_with demo_key demo_cert false)).
    split_and!; [by vm_compute | done |]. right. vm_compute. split; congruence.
Defined.

Definition upper_key : string := String.concat "" (replicate 32 "A1").
Definition upper_cert : OperatorCert :=
  MkOperatorCert Standard "eve" upper_key 0 4000000000 30 7 ["ApprovePlan"] None demo_sig.
Definition upper_entry : OperatorEntry := operator_with upper_key upper_cert true.
(** A signed revocation of the same key bytes. *)
Definition upper_revocation : RevocationRecord :=
  MkRevocationRecord demo_key zero_fp Compromise 100 "INC-1" demo_key demo_sig REVOCATION_VERSION.

Lemma uppercase_key_is_irrevocable_witness :
  let e := install upper_entry in
  @validate_operator_certs hex_codec accept_all zero_sha [upper_entry]
    = Ok ([e], @bypass_of upper_entry) ∧
  @hex_decode hex_codec (op_pubkey_hex e) = @hex_decode hex_codec (subject_pubkey_hex upper_revocation) ∧
  @verify_revocation_signature hex_codec accept_all upper_revocation = Ok tt ∧
  (enforce (MkCertEnforcer ∅ (Some (@open_store hex_codec accept_all [Ok upper_revocation]).1)) zero_fp
     "ApprovePlan" (policy_with 7 [e]) 500).1.1 ≠ Deny "FAIL_CERT_REVOKED".
Proof.
  split_and!; [by vm_compute | by vm_compute | by vm_compute |].
  apply (@uppercase_key_is_irrevocable hex_codec accept_all [Ok upper_revocation] ∅ zero_fp
           "ApprovePlan" (policy_with 7 [install upper_entry]) 500 (install upper_entry));
    by vm_compute.
Defined.
