(* ===== verification/Budget.v ===== *)
(** * Lane budgets

    [kernel/src/scheduler/lane.rs] and the lane half of
    [kernel/src/scheduler/budget.rs]: live lane status, the reserve/release/prune
    operations on [lane_budget_reservations], and the admission cost. *)

From stdpp Require Import pretty.
From S2P Require Import Prelude Fsm Store TaskTransitions Dag Policy.

(** ** Lane status *)

Record LaneConfig := MkLaneConfig {
  lc_lane_id : string;
  lc_max_concurrent_tasks : Z;
  lc_max_cost_per_epoch : Z;
  lc_priority : Z;
}.

Record LaneStatus := MkLaneStatus {
  active_tasks : Z;
  reserved_cost : Z;
}.

Definition lane_config_for_row (id : string) (policy : PolicyBundle)
    : result SchedulerError LaneConfig :=
  ok_or ((λ lc, MkLaneConfig id lc.(max_concurrent_tasks) lc.(max_cost_per_epoch) lc.(priority))
           <$> lane_config policy id)
    SchedulerError.NoLaneAssigned.

(** The [NOT IN] list of the status queries: [Failed] counts as finished here. *)
Definition lane_terminal_texts : list string :=
  as_sql_str <$> [TaskState.Completed; TaskState.Failed; TaskState.Aborted; TaskState.Cancelled].

Definition lane_live (r : TaskRow) : bool := bool_decide (r.(task_state) ∉ lane_terminal_texts).

(** [SELECT COUNT( * ) FROM tasks WHERE lane_id = ? AND state NOT IN (..)] *)
Definition count_active (d : Db) (id : string) : Z :=
  Z.of_nat (size (filter (λ kr, kr.2.(task_lane_id) = id ∧ lane_live kr.2 = true) d.(tasks))).

(** The rows of the reservation-task join the sum runs over. *)
Definition live_reservation (d : Db) (id : string) (kr : (string * string) * ReservationRow) : Prop :=
  kr.1.1 = id ∧
  match d.(tasks) !! kr.1.2 with Some t => lane_live t = true | None => False end.
#[export] Instance live_reservation_dec d id kr : Decision (live_reservation d id kr).
Proof. unfold live_reservation. case_match; apply _. Defined.

Definition live_costs (d : Db) (id : string) : list Z :=
  (λ kr, kr.2.(resv_cost)) <$> map_to_list (filter (live_reservation d id) d.(reservations)).

Definition get_lane_status_in_tx (id : string) : M SchedulerError LaneStatus := λ d,
  (map_err SchedulerError.Sql
     (active ← read_u32 (count_active d id);
      sum ← ok_or (sql_sum (live_costs d id)) SqlIntegerOverflow;
      reserved ← read_u64 sum;
      mret (MkLaneStatus active reserved)), d).

Definition get_lane_status (id : string) : M SchedulerError LaneStatus := get_lane_status_in_tx id.
Definition current_budget (id : string) : M SchedulerError LaneStatus := get_lane_status id.

(** ** Checking and reserving *)

Definition concurrency_limit (active max : Z) : SchedulerError :=
  SchedulerError.BudgetExceeded
    ("ConcurrencyLimit (active=" +:+ pretty active +:+ ", max=" +:+ pretty max +:+ ")").
Definition cost_limit (reserved estimated max : Z) : SchedulerError :=
  SchedulerError.BudgetExceeded
    ("CostLimit (reserved=" +:+ pretty reserved +:+ ", estimated=" +:+ pretty estimated
     +:+ ", max=" +:+ pretty max +:+ ")").

(** The two comparisons [check_budget] and [reserve_budget_in_tx] share. *)
Definition admits (status : LaneStatus) (cfg : LaneConfig) (estimated : Z)
    : result SchedulerError unit :=
  if bool_decide (cfg.(lc_max_concurrent_tasks) ≤ status.(active_tasks))%Z
  then Err (concurrency_limit status.(active_tasks) cfg.(lc_max_concurrent_tasks))
  else if bool_decide (cfg.(lc_max_cost_per_epoch) < sat_add_u64 status.(reserved_cost) estimated)%Z
  then Err (cost_limit status.(reserved_cost) estimated cfg.(lc_max_cost_per_epoch))
  else Ok tt.

Definition check_budget (id : string) (estimated_cost : Z) (policy : PolicyBundle)
    : M SchedulerError unit :=
  status ← get_lane_status id;
  lane_cfg ← lift_result (lane_config_for_row id policy);
  lift_result (admits status lane_cfg estimated_cost).

(** [INSERT OR IGNORE INTO lane_budget_reservations] *)
Definition consume_budget_in_tx (id task_id : string) (cost now : Z) : M SchedulerError unit := λ d,
  match d.(reservations) !! (id, task_id) with
  | Some _ => (Ok tt, d)
  | None =>
      if fk_ok d (has_task d task_id)
      then (Ok tt, on_reservations <[(id, task_id) := MkReservationRow (as_i64 cost) now]> d)
      else (Err (SchedulerError.Sql SqlConstraintForeignKey), d)
  end.

(** [DELETE .. WHERE lane_id = ? AND task_id IN (SELECT .. WHERE state IN (..))] *)
Definition stale_reservation (d : Db) (id : string) (kr : (string * string) * ReservationRow) : Prop :=
  kr.1.1 = id ∧
  match d.(tasks) !! kr.1.2 with Some t => lane_live t = false | None => False end.
#[export] Instance stale_reservation_dec d id kr : Decision (stale_reservation d id kr).
Proof. unfold stale_reservation. case_match; apply _. Defined.

Definition prune_terminal_reservations_in_tx (id : string) : M SchedulerError nat := λ d,
  (Ok (size (filter (stale_reservation d id) d.(reservations))),
   on_reservations (filter (λ kr, ¬ stale_reservation d id kr)) d).

Definition reserve_budget_in_tx (id task_id : string) (estimated_cost : Z) (policy : PolicyBundle)
    (now : Z) : M SchedulerError unit :=
  lane_cfg ← lift_result (lane_config_for_row id policy);
  _ ← prune_terminal_reservations_in_tx id;
  status ← get_lane_status_in_tx id;
  _ ← lift_result (admits status lane_cfg estimated_cost);
  consume_budget_in_tx id task_id estimated_cost now.

(** ** Releasing *)

Definition release_budget_in_tx (id task_id : string) : M SchedulerError unit := λ d,
  let rows := match d.(reservations) !! (id, task_id) with Some _ => 1 | None => 0 end in
  let d' := on_reservations (delete (id, task_id)) d in
  match rows with
  | 0 => (Ok tt, d')
  | 1 => (Ok tt, d')
  | _ => (Err (SchedulerError.CorruptReservationState task_id), d')
  end.

Definition release_budget (id task_id : string) : M SchedulerError unit :=
  release_budget_in_tx id task_id.

(** ** Admission cost *)

Module BudgetError.
Inductive BudgetError : Type :=
  | UnknownIntentKindCost (intent_kind : string)
  | Scheduler (e : SchedulerError).
End BudgetError.
Abbreviation BudgetError := BudgetError.BudgetError.

Definition intent_kind_to_str (k : IntentKind) : string := IntentKind.intent_kind_as_str k.

(** Only the number of touched paths is read. *)
Definition compute_admission_cost (touched_paths : list string) (intent_kind : IntentKind)
    (policy : PolicyBundle) : result BudgetError Z :=
  if bool_decide (intent_kind = IntentKind.IntegrationMerge) then Ok 0%Z
  else
    let kind_str := intent_kind_to_str intent_kind in
    base_cost ← ok_or (base_cost_for_intent_kind policy kind_str)
                  (BudgetError.UnknownIntentKindCost kind_str);
    let path_cost :=
      sat_mul_u64 (Z.of_nat (length touched_paths)) policy.(cost_per_touched_path) in
    let raw := sat_add_u64 base_cost path_cost in
    mret (Z.min raw policy.(max_cost_per_task)).

(** ** Sums over the reservation table *)

Section cost_of.
Context (P : (string * string) * ReservationRow → Prop) `{!∀ kr, Decision (P kr)}.
Implicit Types m : gmap (string * string) ReservationRow.

Definition cost_of m : Z := Zsum ((λ kr, kr.2.(resv_cost)) <$> map_to_list (filter P m)).
Definition costs_nonneg m : Prop := map_Forall (λ _ r, 0 ≤ r.(resv_cost))%Z m.

Lemma costs_nonneg_list m : costs_nonneg m →
  Forall (λ z, 0 ≤ z)%Z ((λ kr, kr.2.(resv_cost)) <$> map_to_list (filter P m)).
Proof.
  intros Hm. apply Forall_fmap, Forall_forall. intros [k r] Hin.
  apply elem_of_map_to_list, map_lookup_filter_Some in Hin as [Hk _]. exact (Hm _ _ Hk).
Qed.

Lemma cost_of_nonneg m : costs_nonneg m → (0 ≤ cost_of m)%Z.
Proof. intros Hm. apply Zsum_nonneg. by apply costs_nonneg_list. Qed.

Lemma cost_of_insert m k r : m !! k = None →
  cost_of (<[k := r]> m) = ((if decide (P (k, r)) then r.(resv_cost) else 0) + cost_of m)%Z.
Proof.
  intros Hk. unfold cost_of. case_decide as HP.
  - rewrite map_filter_insert_True by done.
    rewrite map_to_list_insert; [done |]. apply map_lookup_filter_None. by left.
  - rewrite map_filter_insert_not'; [done | done |]. intros y. by rewrite Hk.
Qed.

Lemma cost_of_mono m1 m2 : m1 ⊆ m2 → costs_nonneg m2 → (cost_of m1 ≤ cost_of m2)%Z.
Proof.
  revert m2. induction m1 as [|k r m1 Hk IH] using map_ind; intros m2 Hsub Hpos.
  { by apply cost_of_nonneg. }
  assert (Hk2 : m2 !! k = Some r).
  { eapply lookup_weaken; [apply lookup_insert_eq | done]. }
  rewrite <-(insert_delete_id m2 k r) by done.
  rewrite !cost_of_insert by (done || apply lookup_delete_eq).
  assert (cost_of m1 ≤ cost_of (delete k m2))%Z; [| lia].
  apply IH.
  - apply map_subseteq_spec. intros j x Hj.
    assert (j ≠ k) by congruence. rewrite lookup_delete_ne by done.
    eapply lookup_weaken; [| done]. by rewrite lookup_insert_ne.
  - by apply map_Forall_delete.
Qed.
End cost_of.

Lemma cost_of_ext P Q `{!∀ kr, Decision (P kr)} `{!∀ kr, Decision (Q kr)} m :
  (∀ k r, m !! k = Some r → P (k, r) ↔ Q (k, r)) → cost_of P m = cost_of Q m.
Proof. intros HPQ. unfold cost_of. by rewrite (proj1 (map_filter_ext P Q m) HPQ). Qed.

Definition in_lane (id : string) (kr : (string * string) * ReservationRow) : Prop := kr.1.1 = id.
#[export] Instance in_lane_dec id kr : Decision (in_lane id kr).
Proof. unfold in_lane. apply _. Defined.

(** Everything a lane has reserved, whatever the state of the tasks. *)
Definition lane_total (d : Db) (id : string) : Z := cost_of (in_lane id) d.(reservations).

(** The bookkeeping invariant of the reservation table: every row belongs to a
    task, no row is negative, and no configured lane is over its cap. *)
Record lanes_ok (policy : PolicyBundle) (d : Db) : Prop := {
  lanes_fk : map_Forall (λ k _, is_Some (d.(tasks) !! k.2)) d.(reservations);
  lanes_nonneg : costs_nonneg d.(reservations);
  lanes_cap id l : lane_config policy id = Some l → (lane_total d id ≤ l.(max_cost_per_epoch))%Z;
}.

Lemma lanes_ok_shrink policy d d' :
  d'.(tasks) = d.(tasks) → d'.(reservations) ⊆ d.(reservations) →
  lanes_ok policy d → lanes_ok policy d'.
Proof.
  intros Ht Hsub [Hfk Hpos Hcap]. split.
  - rewrite Ht. eapply map_Forall_mono; eauto.
  - eapply map_Forall_mono; eauto.
  - intros id l Hl. etransitivity; [| by apply Hcap]. by apply cost_of_mono.
Qed.

Definition pruned (id : string) (d : Db) : Db :=
  on_reservations (filter (λ kr, ¬ stale_reservation d id kr)) d.

Lemma pruned_lanes_ok policy id d : lanes_ok policy d → lanes_ok policy (pruned id d).
Proof. apply lanes_ok_shrink; [done | apply map_filter_subseteq]. Qed.

(** After pruning, the status query sees the whole lane. *)
Lemma pruned_live_total policy id d :
  lanes_ok policy d → Zsum (live_costs (pruned id d) id) = lane_total (pruned id d) id.
Proof.
  intros [Hfk _ _]. apply cost_of_ext. intros [l t] r Hk.
  apply map_lookup_filter_Some in Hk as [Hk Hns].
  unfold live_reservation, in_lane, stale_reservation in *; simpl in *.
  destruct (Hfk _ _ Hk) as [tr Htr]; simpl in Htr. rewrite Htr in *.
  destruct (lane_live tr) eqn:?; naive_solver.
Qed.

Lemma get_lane_status_ok_inv id d st d' :
  get_lane_status_in_tx id d = (Ok st, d') →
  d' = d ∧ st.(active_tasks) = count_active d id ∧
  st.(reserved_cost) = Zsum (live_costs d id) ∧ (0 ≤ st.(reserved_cost))%Z.
Proof.
  unfold get_lane_status_in_tx, mbind, result_bind, read_u32, read_u64.
  repeat case_bool_decide; simpl; try done.
  destruct (sql_sum _) as [z|] eqn:Hsum; simpl; [| done].
  case_bool_decide; simpl; [| done]. intros [= <- <-].
  apply sql_sum_exact in Hsum. by subst.
Qed.

Lemma reserve_budget_ok_inv id t cost policy now d d' :
  reserve_budget_in_tx id t cost policy now d = (Ok tt, d') →
  ∃ l, lane_config policy id = Some l ∧
    (count_active (pruned id d) id < l.(max_concurrent_tasks))%Z ∧
    (sat_add_u64 (Zsum (live_costs (pruned id d) id)) cost ≤ l.(max_cost_per_epoch))%Z ∧
    (0 ≤ Zsum (live_costs (pruned id d) id))%Z ∧
    consume_budget_in_tx id t cost now (pruned id d) = (Ok tt, d').
Proof.
  intros H. se_step H. unfold lift_result, lane_config_for_row in H0.
  destruct (lane_config policy id) as [l|]; [| done]. injection H0 as <- <-.
  se_step H. injection H0 as _ <-. fold (pruned id d) in H.
  se_step H. apply get_lane_status_ok_inv in H0 as (-> & Ha & Hr & Hpos).
  se_step H. unfold lift_result, admits in H0. simpl in H0.
  repeat case_bool_decide; try done. injection H0 as <- <-. exists l. rewrite <-Ha, <-Hr.
  split_and!; [done | lia | lia | done | done].
Qed.

Lemma consume_budget_ok_inv id t cost now d d' :
  consume_budget_in_tx id t cost now d = (Ok tt, d') → d.(fk_deferred) = false →
  (d' = d ∧ is_Some (d.(reservations) !! (id, t))) ∨
  (d.(reservations) !! (id, t) = None ∧ is_Some (d.(tasks) !! t) ∧
   d' = on_reservations <[(id, t) := MkReservationRow (as_i64 cost) now]> d).
Proof.
  unfold consume_budget_in_tx, fk_ok, has_task. destruct (reservations d !! (id, t)) eqn:Hr.
  - intros [= <-] _. left. eauto.
  - intros H Hdef. rewrite Hdef in H. simpl in H. case_bool_decide; [| done].
    injection H as <-. by right.
Qed.

Lemma consume_lanes_ok policy id l t cost now d d' :
  policy_in_range policy → in_u64 cost → d.(fk_deferred) = false →
  lane_config policy id = Some l →
  lanes_ok policy d → (lane_total d id + cost ≤ l.(max_cost_per_epoch))%Z →
  consume_budget_in_tx id t cost now d = (Ok tt, d') → lanes_ok policy d'.
Proof.
  intros Hpol Hc Hdef Hl Hok Hle Hrun.
  destruct (consume_budget_ok_inv _ _ _ _ _ _ Hrun Hdef) as [[-> _]|(Hnone & Ht & ->)]; [done |].
  destruct (lane_config_in_range _ _ _ Hpol Hl) as [_ Hcap].
  pose proof Hok as [Hfk Hpos Hlanes].
  assert (Htot : (0 ≤ lane_total d id)%Z) by by apply cost_of_nonneg.
  assert (Hid : as_i64 cost = cost) by (apply as_i64_id; widths; lia).
  split; simpl.
  - by apply map_Forall_insert_2.
  - apply map_Forall_insert_2; [simpl; widths; lia | done].
  - intros id' l' Hl'. unfold lane_total; simpl. rewrite cost_of_insert by done; simpl.
    rewrite Hid. specialize (Hlanes id' l' Hl'). unfold lane_total in *.
    case_decide as Hin; unfold in_lane in Hin; simpl in Hin; [| lia].
    subst id'. simplify_eq. lia.
Qed.

Lemma reserve_lanes_ok policy id t cost now d d' :
  policy_in_range policy → in_u64 cost → d.(fk_deferred) = false → lanes_ok policy d →
  reserve_budget_in_tx id t cost policy now d = (Ok tt, d') → lanes_ok policy d'.
Proof.
  intros Hpol Hc Hdef Hok (l & Hl & _ & Hcost & Hpos & Hrun)%reserve_budget_ok_inv.
  pose proof (pruned_live_total _ id _ Hok) as Htot. rewrite Htot in *.
  destruct (lane_config_in_range _ _ _ Hpol Hl) as [_ Hcap].
  apply (consume_lanes_ok policy id l t cost now (pruned id d));
    try done; [by apply pruned_lanes_ok | widths; lia].
Qed.

(** ** Sequences of budget and task operations *)

(** One operation against the store: a reservation or a release in its own
    transaction, or a task transition. *)
Inductive LaneOp : Type :=
  | OpReserve (id task_id : string) (cost now : Z)
  | OpRelease (id task_id : string)
  | OpTransition (q : TransitionReq).

Definition run_lane_op (policy : PolicyBundle) (d : Db) (op : LaneOp) : Db :=
  match op with
  | OpReserve id t cost now => (with_tx (reserve_budget_in_tx id t cost policy now) d).2
  | OpRelease id t => (release_budget id t d).2
  | OpTransition q => run_req d q
  end.

Definition cost_in_range (op : LaneOp) : Prop :=
  match op with OpReserve _ _ cost _ => in_u64 cost | _ => True end.

Record lane_store_ok (policy : PolicyBundle) (d : Db) : Prop := {
  lso_immediate : d.(fk_deferred) = false;
  lso_activations : activations_ok d;
  lso_lanes : lanes_ok policy d;
}.

Lemma consume_budget_frame id t cost now d :
  let d' := (consume_budget_in_tx id t cost now d).2 in
  d'.(activations) = d.(activations) ∧ d'.(fk_deferred) = d.(fk_deferred) ∧
  d'.(tasks) = d.(tasks).
Proof. unfold consume_budget_in_tx. repeat case_match; done. Qed.

Lemma run_req_frame d q :
  activations_ok d →
  (run_req d q).(reservations) = d.(reservations) ∧
  (run_req d q).(fk_deferred) = d.(fk_deferred) ∧
  (∀ t, is_Some (d.(tasks) !! t) → is_Some ((run_req d q).(tasks) !! t)).
Proof.
  intros Hok. unfold run_req. rewrite transition_task_run, transition_task_in_tx_run by done.
  repeat case_match; simpl; split_and!; try done.
  intros t' Ht'. by apply lookup_insert_is_Some'; auto.
Qed.

Lemma run_lane_op_ok policy d op :
  policy_in_range policy → cost_in_range op → lane_store_ok policy d →
  lane_store_ok policy (run_lane_op policy d op).
Proof.
  intros Hpol Hc [Himm Hact Hok]. destruct op as [id t cost now|id t|q]; simpl in *.
  - unfold with_tx. destruct (reserve_budget_in_tx _ _ _ _ _ _) as [[[]|e] d'] eqn:Hrun; [| done].
    pose proof (reserve_lanes_ok _ _ _ _ _ _ _ Hpol Hc Himm Hok Hrun) as Hok'.
    apply reserve_budget_ok_inv in Hrun as (l & _ & _ & _ & _ & Hcon).
    pose proof (consume_budget_frame id t cost now (pruned id d)) as Hframe.
    rewrite Hcon in Hframe. simpl in Hframe. destruct Hframe as (Ha & Hf & _).
    simpl. split; [by rewrite Hf | unfold activations_ok; by rewrite Ha | done].
  - unfold release_budget, release_budget_in_tx.
    assert (lanes_ok policy (on_reservations (delete (id, t)) d)).
    { eapply lanes_ok_shrink; [| | exact Hok]; [done | apply delete_subseteq]. }
    destruct (reservations d !! (id, t)); by split.
  - destruct (run_req_frame d q Hact) as (Hr & Hf & Ht). destruct Hok as [Hfk Hpos Hcap].
    split; [by rewrite Hf | by apply transition_task_preserves_activations_ok |].
    split; unfold lane_total in *; rewrite ?Hr; [| done | done].
    intros k r Hk. apply Ht. exact (Hfk k r Hk).
Qed.

(** When the status query can be answered and what [reserve_budget_in_tx] then
    needs. *)
Lemma get_lane_status_pruned policy id l d :
  policy_in_range policy → lanes_ok policy d → lane_config policy id = Some l →
  (count_active d id ≤ u32_max)%Z →
  get_lane_status_in_tx id (pruned id d) =
    (Ok (MkLaneStatus (count_active d id) (lane_total (pruned id d) id)), pruned id d).
Proof.
  intros Hpol Hok Hl Hcnt. unfold get_lane_status_in_tx, read_u32, read_u64.
  pose proof (pruned_lanes_ok policy id d Hok) as [_ Hpos Hcap].
  destruct (lane_config_in_range _ _ _ Hpol Hl) as [_ Hrange].
  change (count_active (pruned id d) id) with (count_active d id).
  pose proof (pruned_live_total policy id d Hok) as Htot.
  assert (0 ≤ lane_total (pruned id d) id)%Z by by apply cost_of_nonneg.
  rewrite bool_decide_eq_true_2 by (split; [unfold count_active |]; lia).
  rewrite sql_sum_total, Htot.
  - unfold mbind, result_bind; simpl. by rewrite bool_decide_eq_true_2 by done.
  - by apply costs_nonneg_list.
  - rewrite Htot. specialize (Hcap id l Hl). lia.
Qed.

Lemma count_active_pos d id t r :
  d.(tasks) !! t = Some r → r.(task_lane_id) = id → lane_live r = true →
  (1 ≤ count_active d id)%Z.
Proof.
  intros Ht Hl Hlive. unfold count_active.
  set (m := filter _ _). assert (Hin : m !! t = Some r) by by apply map_lookup_filter_Some.
  destruct (size m) eqn:Hsz; [| lia]. apply map_size_empty_inv in Hsz. by rewrite Hsz in Hin.
Qed.

(** ** Properties *)

(** C3: whatever sequence of reservations, releases and task transitions runs,
    no configured lane ever has more reserved than its [max_cost_per_epoch], no
    reservation is negative and every reservation belongs to a task. *)
Theorem lanes_never_overcommitted policy ops d :
  policy_in_range policy → Forall cost_in_range ops → lane_store_ok policy d →
  lanes_ok policy (foldl (run_lane_op policy) d ops).
Proof.
  intros Hpol Hops. revert d. induction Hops as [|op ops Hop _ IH]; intros d Hok; simpl.
  - apply Hok.
  - apply IH. by apply run_lane_op_ok.
Qed.

(** In a store whose lanes are in order, a reservation succeeds exactly when
    the lane is configured, fewer tasks than its limit are unfinished in it, the
    task exists, and what the lane holds after dropping finished tasks' rows
    plus the new cost fits the cap. *)
Theorem reserve_budget_ok_iff policy id t cost now d :
  policy_in_range policy → in_u64 cost → d.(fk_deferred) = false → lanes_ok policy d →
  (count_active d id ≤ u32_max)%Z →
  (∃ d', reserve_budget_in_tx id t cost policy now d = (Ok tt, d')) ↔
  ∃ l, lane_config policy id = Some l ∧ (count_active d id < l.(max_concurrent_tasks))%Z ∧
    is_Some (d.(tasks) !! t) ∧
    (lane_total (pruned id d) id + cost ≤ l.(max_cost_per_epoch))%Z.
Proof.
  intros Hpol Hc Hdef Hok Hcnt. split.
  - intros [d' (l & Hl & Hcon & Hcost & Hpos & Hrun)%reserve_budget_ok_inv].
    rewrite (pruned_live_total _ id _ Hok) in *.
    destruct (lane_config_in_range _ _ _ Hpol Hl) as [_ Hrange].
    exists l. split_and!; [done | done | | widths; lia].
    destruct (consume_budget_ok_inv _ _ _ _ _ _ Hrun Hdef) as [[_ [r Hr]]|(_ & Ht & _)]; [| done].
    exact (lanes_fk _ _ (pruned_lanes_ok policy id d Hok) _ _ Hr).
  - intros (l & Hl & Hcon & Ht & Hcost).
    destruct (lane_config_in_range _ _ _ Hpol Hl) as [_ Hrange].
    unfold reserve_budget_in_tx, lane_config_for_row. rewrite Hl.
    erewrite se_bind_ok by reflexivity. erewrite se_bind_ok by reflexivity. fold (pruned id d).
    erewrite se_bind_ok by (by apply (get_lane_status_pruned policy id l)).
    erewrite se_bind_ok; [| unfold lift_result, admits; simpl;
      by rewrite !bool_decide_eq_false_2 by (widths; lia)].
    unfold consume_budget_in_tx, fk_ok, has_task. simpl. rewrite Hdef. simpl.
    case_match; [by eauto |]. rewrite bool_decide_eq_true_2 by done. eauto.
Qed.

(** A task is charged once.  After a successful reservation the lane holds a
    row for the task: the one it had, when the task is unfinished, or a new one
    with the estimated cost; every other row of the table survives, except those
    of finished tasks of this lane, and no other row appears. *)
Theorem reserve_charges_once policy id t cost now d d' :
  in_u64 cost → (cost ≤ i64_max)%Z → d.(fk_deferred) = false →
  reserve_budget_in_tx id t cost policy now d = (Ok tt, d') →
  d'.(reservations) !! (id, t) =
    Some (default (MkReservationRow cost now) ((pruned id d).(reservations) !! (id, t))) ∧
  ∀ k, k ≠ (id, t) → d'.(reservations) !! k = (pruned id d).(reservations) !! k.
Proof.
  intros Hc Hc' Hdef (l & _ & _ & _ & _ & Hrun)%reserve_budget_ok_inv.
  destruct (consume_budget_ok_inv _ _ _ _ _ _ Hrun Hdef) as [[-> [r ->]]|(Hnone & _ & ->)].
  - done.
  - rewrite Hnone. simpl. rewrite as_i64_id by (widths; lia).
    split; [by rewrite lookup_insert_eq | intros k Hk; by rewrite lookup_insert_ne].
Qed.

(** A lane with a concurrency limit of one never grants a reservation to a
    task that is in it: the unfinished-task count the limit is compared with
    includes the requesting task. *)
Theorem single_slot_lane_never_reserves policy id l t r cost now d e d' :
  lane_config policy id = Some l → (l.(max_concurrent_tasks) ≤ 1)%Z →
  d.(tasks) !! t = Some r → r.(task_lane_id) = id → lane_live r = true →
  reserve_budget_in_tx id t cost policy now d ≠ (Ok e, d').
Proof.
  intros Hl Hmax Ht Hlane Hlive. destruct e.
  intros (l' & Hl' & Hcon & _)%reserve_budget_ok_inv. rewrite Hl in Hl'. simplify_eq.
  pose proof (count_active_pos (pruned (task_lane_id r) d) _ t r Ht eq_refl Hlive). lia.
Qed.

(** Releasing always succeeds, is idempotent, removes exactly the task's row
    of that lane, and never raises the lane's total. *)
Theorem release_budget_spec policy id t d :
  lanes_ok policy d →
  release_budget id t d = (Ok tt, on_reservations (delete (id, t)) d) ∧
  release_budget id t (release_budget id t d).2 = release_budget id t d ∧
  ∀ id', (lane_total (release_budget id t d).2 id' ≤ lane_total d id')%Z.
Proof.
  intros [_ Hpos _].
  assert (Hrun : ∀ d, release_budget id t d = (Ok tt, on_reservations (delete (id, t)) d)).
  { intros d0. unfold release_budget, release_budget_in_tx. by destruct (_ !! _). }
  split; [done |]. split.
  - rewrite !Hrun. simpl. unfold on_reservations. simpl. by rewrite delete_delete_eq.
  - intros id'. rewrite Hrun. apply cost_of_mono; [apply delete_subseteq | done].
Qed.

(** The admission cost of an intent is free for an integration merge, an
    error exactly for an unpriced intent kind, and otherwise the base cost plus
    the path cost, saturated, capped by the policy and monotone in the number of
    touched paths. *)
Theorem compute_admission_cost_spec paths kind policy :
  (0 ≤ policy.(cost_per_touched_path))%Z →
  match compute_admission_cost paths kind policy with
  | Ok c => (c ≤ Z.max 0 policy.(max_cost_per_task))%Z ∧
      (kind = IntentKind.IntegrationMerge → c = 0%Z) ∧
      (kind ≠ IntentKind.IntegrationMerge →
       ∃ base, base_cost_for_intent_kind policy (intent_kind_to_str kind) = Some base ∧
         c = Z.min (Z.min (base + Z.min (Z.of_nat (length paths) * policy.(cost_per_touched_path))
                                    u64_max) u64_max) policy.(max_cost_per_task) ∧
         ∀ paths' c', length paths ≤ length paths' →
           compute_admission_cost paths' kind policy = Ok c' → (c ≤ c')%Z)
  | Err e => e = BudgetError.UnknownIntentKindCost (intent_kind_to_str kind) ∧
      kind ≠ IntentKind.IntegrationMerge ∧
      base_cost_for_intent_kind policy (intent_kind_to_str kind) = None
  end.
Proof.
  intros Hcost. unfold compute_admission_cost. case_bool_decide as Hk.
  { split_and!; [lia | done | done]. }
  destruct (base_cost_for_intent_kind _ _) as [base|] eqn:Hb; simpl; [| done].
  split_and!; [unfold sat_add_u64; lia | done |]. intros _. exists base.
  split_and!; [done | done |]. intros paths' c' Hlen [= <-].
  unfold sat_add_u64, sat_mul_u64.
  assert (Z.of_nat (length paths) * cost_per_touched_path policy ≤
          Z.of_nat (length paths') * cost_per_touched_path policy)%Z by nia. lia.
Qed.

(** ** Witnesses *)

Definition demo_policy : PolicyBundle :=
  MkPolicyBundle [MkLaneEntry "lane" 4 100 100; MkLaneEntry "solo" 1 100 100]
    {[ "SingleCommit" := 10%Z ]} 2 50 [] [] "permit" [] 1 [] 0 0 0 0.

Lemma demo_policy_in_range : policy_in_range demo_policy.
Proof. repeat constructor; simpl; widths; lia. Qed.

Lemma demo_lane_store_ok : lane_store_ok demo_policy demo_db.
Proof.
  split; [done | by apply (bool_decide_unpack _) |].
  split; [apply map_Forall_empty.. |]. intros id l [Hl _]%lane_config_Some.
  repeat (apply elem_of_cons in Hl as [->|Hl]; [done |]). by apply elem_of_nil in Hl.
Qed.

Lemma lanes_never_overcommitted_witness :
  lanes_ok demo_policy (foldl (run_lane_op demo_policy) demo_db
    [OpReserve "lane" "t" 60 1; OpReserve "lane" "u" 60 2; OpRelease "lane" "t";
     OpTransition (MkTransitionReq 3 "t" TaskState.Failed None Kernel)]).
Proof.
  apply lanes_never_overcommitted;
    [apply demo_policy_in_range | repeat constructor; simpl; widths; lia | apply demo_lane_store_ok].
Defined.

Lemma reserve_budget_ok_iff_witness :
  ∃ d', reserve_budget_in_tx "lane" "t" 60 demo_policy 1 demo_db = (Ok tt, d').
Proof.
  apply (reserve_budget_ok_iff demo_policy "lane" "t" 60 1 demo_db);
    [apply demo_policy_in_range | widths; lia | done | apply demo_lane_store_ok |
     by vm_compute |].
  exists (MkLaneEntry "lane" 4 100 100).
  split; [reflexivity |]. split; [by vm_compute |]. split; [vm_compute; eauto | by vm_compute].
Defined.

Lemma reserve_charges_once_witness :
  match reserve_budget_in_tx "lane" "t" 60 demo_policy 1 demo_db with
  | (Ok _, d') => d'.(reservations) !! ("lane", "t") = Some (MkReservationRow 60 1)
  | (Err _, _) => False
  end.
Proof.
  destruct (reserve_budget_in_tx _ _ _ _ _ _) as [[[]|e] d'] eqn:E; [| by vm_compute in E].
  apply reserve_charges_once in E as [-> _]; [reflexivity | widths; lia | widths; lia | done].
Defined.

Lemma single_slot_lane_never_reserves_witness :
  (reserve_budget_in_tx "solo" "t" 1 demo_policy 1
    (on_tasks (λ _, {[ "t" := MkTaskRow "i" "solo" "Admitted" None "kernel" 4 20 20 None None None
                               None None 0 None None false None None 0 ]}) demo_db)).1 ≠ Ok tt.
Proof.
  destruct (reserve_budget_in_tx _ _ _ _ _ _) as [res d'] eqn:E. simpl. intros ->. revert E.
  eapply (single_slot_lane_never_reserves demo_policy "solo" _ "t");
    [reflexivity | simpl; lia | reflexivity | reflexivity | by vm_compute].
Defined.

Lemma release_budget_spec_witness :
  release_budget "lane" "t" demo_db = (Ok tt, on_reservations (delete ("lane", "t")) demo_db).
Proof. apply (release_budget_spec demo_policy), demo_lane_store_ok. Defined.

Lemma compute_admission_cost_spec_witness :
  compute_admission_cost ["a"; "b"] IntentKind.SingleCommit demo_policy = Ok 14%Z ∧ (14 ≤ 50)%Z.
Proof.
  assert (H : (0 ≤ cost_per_touched_path demo_policy)%Z) by (simpl; lia).
  apply (compute_admission_cost_spec ["a"; "b"] IntentKind.SingleCommit) in H.
  split; [reflexivity | exact (proj1 H)].
Defined.
