(* ===== verification/Pricing.v ===== *)
(** * Token pricing and the per-task token budget

    The token half of [kernel/src/scheduler/budget.rs]: how a planner's usage
    report is priced, and the admission verdict against the policy's per-task
    ceiling. *)

From S2P Require Import Prelude Policy.

Record TokensReport := MkTokensReport {
  input_tokens : Z;
  output_tokens : Z;
  cache_read_tokens : Z;
  cache_creation_tokens : Z;
  model_id : string;
  report_provider_id : string;
}.

Inductive TokenPricingSource : Type :=
  | OperatorPolicyOverride (provider_id : string)
  | RuntimeProviderApi (provider_id registry_version : string)
  | BundledEstimate (provider_id registry_version : string)
  | Unpriced.

Record PricedTokenCost := MkPricedTokenCost {
  micros : Z;
  source : TokenPricingSource;
}.

Definition MICROS_PER_CENT : Z := 10000.
Definition BUNDLED_PRICING_REGISTRY_VERSION : string := "bundled-2026-06-11".

Definition report_cost (p : ProviderPricing) (r : TokensReport) : Z :=
  cost_micro_dollars p r.(input_tokens) r.(output_tokens) r.(cache_read_tokens)
    r.(cache_creation_tokens).

Definition provider_kind_id (kind : string) : option string :=
  sql_parse [("Anthropic", "anthropic"); ("anthropic", "anthropic");
             ("OpenAI", "openai"); ("openai", "openai");
             ("Gemini", "gemini"); ("gemini", "gemini");
             ("Bedrock", "bedrock"); ("bedrock", "bedrock");
             ("http_sidecar", "sidecar"); ("sidecar", "sidecar")] kind.

Definition provider_from_model_id (model_id : string) : option string :=
  if String.eqb model_id "" then None
  else if starts_with "claude-" model_id then Some "anthropic"
  else if starts_with "gemini-" model_id then Some "gemini"
  else if starts_with "gpt-" model_id || starts_with "o1" model_id || starts_with "o3" model_id
  then Some "openai"
  else if starts_with "anthropic." model_id then Some "bedrock"
  else None.

Definition provider_id_from_report (r : TokensReport) : option string :=
  match provider_kind_id (str_trim r.(report_provider_id)) with
  | Some kind => Some kind
  | None => provider_from_model_id (str_trim r.(model_id))
  end.

(** [Iterator::max_by_key]: the last of the maximal elements. *)
Fixpoint max_by_key {A} (key : A → Z) (l : list A) : option A :=
  match l with
  | [] => None
  | x :: l' =>
      match max_by_key key l' with
      | Some y => if bool_decide (key x ≤ key y)%Z then Some y else Some x
      | None => Some x
      end
  end.

Definition priced (p : ProviderEntry) : bool :=
  match p.(provider_pricing) with Some _ => true | None => false end.

Definition override_cost (r : TokensReport) (p : ProviderEntry) : Z :=
  match p.(provider_pricing) with Some pr => report_cost pr r | None => 0 end.

Definition is_kind (kind : string) (p : ProviderEntry) : bool :=
  match provider_kind_id p.(provider_kind) with Some k => String.eqb k kind | None => false end.

Definition policy_pricing_for_report (r : TokensReport) (policy : PolicyBundle)
    : option ProviderEntry :=
  let id := str_trim r.(report_provider_id) in
  let by_kind :=
    match provider_id_from_report r with
    | Some kind =>
        max_by_key (override_cost r)
          (List.filter (λ p, priced p && is_kind kind p) policy.(providers))
    | None => max_by_key (override_cost r) (List.filter priced policy.(providers))
    end in
  if String.eqb id "" then by_kind
  else
    match List.find (λ p, String.eqb p.(provider_id) id && priced p) policy.(providers) with
    | Some exact => Some exact
    | None => match provider_kind_id id with Some _ => None | None => by_kind end
    end.

Definition runtime_provider_pricing_for_report (_ : TokensReport) : option PricedTokenCost := None.

Definition bundled_estimate_pricing_for_report (r : TokensReport)
    : option (string * ProviderPricing) :=
  provider ← provider_id_from_report r;
  pricing ← sql_parse
    [("anthropic", MkProviderPricing 333333 66666 (Some 3333333%Z) (Some 266666%Z));
     ("openai", MkProviderPricing 1000000 250000 (Some 10000000%Z) None);
     ("gemini", MkProviderPricing 1000000 250000 (Some 10000000%Z) None);
     ("bedrock", MkProviderPricing 333333 66666 (Some 3333333%Z) (Some 266666%Z))] provider;
  Some (provider, pricing).

Definition no_tokens (r : TokensReport) : bool :=
  bool_decide (r.(input_tokens) = 0 ∧ r.(output_tokens) = 0 ∧ r.(cache_read_tokens) = 0 ∧
               r.(cache_creation_tokens) = 0)%Z.

Definition price_tokens_for_report (r : TokensReport) (policy : PolicyBundle) : PricedTokenCost :=
  if no_tokens r then MkPricedTokenCost 0 Unpriced
  else
    match policy_pricing_for_report r policy with
    | Some p =>
        MkPricedTokenCost (override_cost r p) (OperatorPolicyOverride p.(provider_id))
    | None =>
        match runtime_provider_pricing_for_report r with
        | Some runtime => runtime
        | None =>
            match bundled_estimate_pricing_for_report r with
            | Some (provider, pricing) =>
                MkPricedTokenCost (report_cost pricing r)
                  (BundledEstimate provider BUNDLED_PRICING_REGISTRY_VERSION)
            | None => MkPricedTokenCost 0 Unpriced
            end
        end
    end.

Definition cost_micros_for_tokens (r : TokensReport) (policy : PolicyBundle) : Z :=
  (price_tokens_for_report r policy).(micros).

Definition token_cost_ceiling_micros (policy : PolicyBundle) : Z :=
  sat_mul_u64 policy.(max_cost_per_task) MICROS_PER_CENT.

Inductive TokenBudgetVerdict : Type :=
  | Allow (cumulative_token_cost_micros : Z)
  | Reject (cumulative_token_cost_micros ceiling_micros : Z).

Definition evaluate_token_budget (report : option TokensReport) (previous_cost_micros : Z)
    (policy : PolicyBundle) : TokenBudgetVerdict :=
  match report with
  | None => Allow previous_cost_micros
  | Some r =>
      let new_micros := cost_micros_for_tokens r policy in
      let ceiling := token_cost_ceiling_micros policy in
      if bool_decide (ceiling = 0)%Z then Allow (Z.max new_micros previous_cost_micros)
      else if bool_decide (ceiling < new_micros)%Z then Reject new_micros ceiling
      else Allow (Z.max new_micros previous_cost_micros)
  end.

(** ** Lemmas *)

Lemma max_by_key_Some {A} (key : A → Z) l x :
  max_by_key key l = Some x → x ∈ l ∧ ∀ y, y ∈ l → (key y ≤ key x)%Z.
Proof.
  revert x. induction l as [|a l IH]; intros x; simpl; [done |].
  destruct (max_by_key key l) as [b|] eqn:Hb.
  - destruct (IH _ eq_refl) as [Hin Hmax].
    case_bool_decide; intros [= <-]; (split; [set_solver |]);
      intros y [->|Hy]%elem_of_cons; try lia; specialize (Hmax y Hy); lia.
  - intros [= <-]. split; [set_solver |]. intros y [->|Hy]%elem_of_cons; [lia |].
    destruct l as [|c l]; [set_solver |]. simpl in Hb. repeat case_match; done.
Qed.

Lemma max_by_key_None {A} (key key' : A → Z) l :
  max_by_key key l = None → max_by_key key' l = None.
Proof. destruct l; simpl; [done |]. repeat case_match; done. Qed.

Lemma max_by_key_mono {A} (key key' : A → Z) l x x' :
  (∀ y, y ∈ l → key y ≤ key' y)%Z →
  max_by_key key l = Some x → max_by_key key' l = Some x' → (key x ≤ key' x')%Z.
Proof.
  intros Hle [Hx _]%max_by_key_Some [_ Hmax]%max_by_key_Some.
  etransitivity; [by apply Hle | by apply Hmax].
Qed.

(** Usage reports of the same model and provider, the second at least as large. *)
Record report_le (r r' : TokensReport) : Prop := {
  rle_model : r.(model_id) = r'.(model_id);
  rle_provider : r.(report_provider_id) = r'.(report_provider_id);
  rle_input : (0 ≤ r.(input_tokens) ≤ r'.(input_tokens))%Z;
  rle_output : (0 ≤ r.(output_tokens) ≤ r'.(output_tokens))%Z;
  rle_read : (0 ≤ r.(cache_read_tokens) ≤ r'.(cache_read_tokens))%Z;
  rle_creation : (0 ≤ r.(cache_creation_tokens) ≤ r'.(cache_creation_tokens))%Z;
}.

Definition providers_in_range (policy : PolicyBundle) : Prop :=
  Forall (λ p, ∀ pr, p.(provider_pricing) = Some pr → pricing_in_range pr) policy.(providers).

Lemma report_cost_mono p r r' :
  pricing_in_range p → report_le r r' → (report_cost p r ≤ report_cost p r')%Z.
Proof. intros Hp []. by apply cost_micro_dollars_mono. Qed.

Lemma override_cost_mono policy r r' p :
  providers_in_range policy → report_le r r' → p ∈ policy.(providers) →
  (override_cost r p ≤ override_cost r' p)%Z.
Proof.
  unfold providers_in_range. rewrite Forall_forall. intros Hpol Hle Hp.
  unfold override_cost. destruct (provider_pricing p) eqn:Hpr; [| done].
  eapply report_cost_mono; eauto.
Qed.

Lemma provider_id_from_report_le r r' :
  report_le r r' → provider_id_from_report r = provider_id_from_report r'.
Proof. intros [Hm Hp]. unfold provider_id_from_report. by rewrite Hm, Hp. Qed.

(** The candidates [max_by_key] chooses from when no provider id matches. *)
Definition candidates (r : TokensReport) (policy : PolicyBundle) : list ProviderEntry :=
  match provider_id_from_report r with
  | Some kind => List.filter (λ p, priced p && is_kind kind p) policy.(providers)
  | None => List.filter priced policy.(providers)
  end.

Lemma candidates_in r policy p : p ∈ candidates r policy → p ∈ policy.(providers) ∧ priced p = true.
Proof.
  unfold candidates. case_match; rewrite !list_elem_of_In, filter_In; [| done].
  intros [? H1%andb_true_iff]. naive_solver.
Qed.

(** The two ways an override is found: by exact id, or the dearest candidate. *)
Lemma policy_pricing_cases r policy :
  policy_pricing_for_report r policy =
    List.find (λ p, String.eqb p.(provider_id) (str_trim r.(report_provider_id)) && priced p)
      policy.(providers) ∧ str_trim r.(report_provider_id) ≠ "" ∨
  policy_pricing_for_report r policy = max_by_key (override_cost r) (candidates r policy).
Proof.
  unfold policy_pricing_for_report, candidates.
  destruct (String.eqb_spec (str_trim (report_provider_id r)) "") as [He|He].
  - right. by destruct (provider_id_from_report r).
  - destruct (List.find _ _) eqn:Hf; [by left |].
    destruct (provider_kind_id _); [by left |]. right. by destruct (provider_id_from_report r).
Qed.

Lemma find_in {A} (f : A → bool) l x : List.find f l = Some x → x ∈ l.
Proof. intros [H _]%find_some. by apply list_elem_of_In. Qed.

Lemma policy_pricing_mono r r' policy :
  providers_in_range policy → report_le r r' →
  match policy_pricing_for_report r policy, policy_pricing_for_report r' policy with
  | Some p, Some p' => (override_cost r p ≤ override_cost r' p')%Z
  | None, None => True
  | _, _ => False
  end.
Proof.
  intros Hpol Hle. pose proof (rle_provider _ _ Hle) as Hprov.
  pose proof (provider_id_from_report_le _ _ Hle) as Hkind.
  assert (Hdear : match max_by_key (override_cost r) (candidates r policy),
                        max_by_key (override_cost r') (candidates r policy) with
                  | Some p, Some p' => (override_cost r p ≤ override_cost r' p')%Z
                  | None, None => True | _, _ => False end).
  { destruct (max_by_key (override_cost r) _) as [p|] eqn:Hp,
      (max_by_key (override_cost r') _) as [p'|] eqn:Hp'; try done.
    - eapply max_by_key_mono; [| exact Hp | exact Hp']. intros y [Hy _]%candidates_in.
      by eapply override_cost_mono.
    - by rewrite (max_by_key_None _ (override_cost r) _ Hp') in Hp.
    - by rewrite (max_by_key_None _ (override_cost r') _ Hp) in Hp'. }
  unfold candidates in Hdear. unfold policy_pricing_for_report. rewrite <-Hprov, <-Hkind.
  destruct (String.eqb _ ""); [by destruct (provider_id_from_report r) |].
  destruct (List.find _ _) as [p|] eqn:Hf.
  - eapply override_cost_mono; eauto using find_in.
  - destruct (provider_kind_id _); [done |]. by destruct (provider_id_from_report r).
Qed.

Lemma bundled_in_range r provider p :
  bundled_estimate_pricing_for_report r = Some (provider, p) → pricing_in_range p.
Proof.
  unfold bundled_estimate_pricing_for_report.
  destruct (provider_id_from_report r) as [k|]; [| done]. cbn [mbind option_bind].
  destruct (sql_parse _ k) as [q|] eqn:Hq; [| done]. intros [= <- <-].
  apply sql_parse_Some in Hq. unfold pricing_in_range.
  repeat (apply elem_of_cons in Hq as [[= _ ->]|Hq];
    [split_and!; simpl; try (intros z [= <-]); widths; lia |]).
  by apply elem_of_nil in Hq.
Qed.

Lemma override_cost_nonneg policy r p :
  providers_in_range policy → report_le r r → p ∈ policy.(providers) → (0 ≤ override_cost r p)%Z.
Proof.
  intros Hpol Hle Hp. transitivity (override_cost (MkTokensReport 0 0 0 0 r.(model_id) r.(report_provider_id)) p).
  - unfold override_cost. case_match; [| done]. unfold report_cost, cost_micro_dollars.
    unfold cost_total; simpl. rewrite !quotient_0. by case_bool_decide.
  - eapply override_cost_mono; eauto. destruct Hle. by split; simpl; try lia.
Qed.

Lemma cost_micros_nonneg r policy :
  providers_in_range policy → report_le r r → (0 ≤ cost_micros_for_tokens r policy)%Z.
Proof.
  intros Hpol Hle. unfold cost_micros_for_tokens, price_tokens_for_report; simpl.
  case_match; [done |].
  destruct (policy_pricing_for_report r policy) as [p|] eqn:Hp; simpl.
  { eapply override_cost_nonneg; eauto.
    destruct (policy_pricing_cases r policy) as [[Heq _]|Heq]; rewrite Heq in Hp;
      [by eapply find_in |]. apply max_by_key_Some in Hp as [Hp _]. by apply candidates_in in Hp as [? _]. }
  destruct (bundled_estimate_pricing_for_report r) as [[k q]|] eqn:Hq; [| done]. simpl.
  transitivity (report_cost q (MkTokensReport 0 0 0 0 r.(model_id) r.(report_provider_id))).
  - unfold report_cost, cost_micro_dollars, cost_total; simpl. rewrite !quotient_0. by case_bool_decide.
  - apply report_cost_mono; [by eapply bundled_in_range |]. destruct Hle. by split; simpl; try lia.
Qed.

Lemma bundled_le r r' :
  report_le r r' →
  bundled_estimate_pricing_for_report r' = bundled_estimate_pricing_for_report r.
Proof.
  intros Hle. unfold bundled_estimate_pricing_for_report.
  by rewrite (provider_id_from_report_le _ _ Hle).
Qed.

Lemma cost_micros_mono r r' policy :
  providers_in_range policy → report_le r r' →
  (cost_micros_for_tokens r policy ≤ cost_micros_for_tokens r' policy)%Z.
Proof.
  intros Hpol Hle.
  assert (Hle' : report_le r' r') by (destruct Hle; split; try done; lia).
  pose proof (cost_micros_nonneg r' policy Hpol Hle') as Hnn.
  pose proof (policy_pricing_mono r r' policy Hpol Hle) as Hpp.
  unfold cost_micros_for_tokens, price_tokens_for_report in *; simpl in *.
  destruct (no_tokens r) eqn:H0; [exact Hnn |].
  assert (no_tokens r' = false) as ->.
  { apply bool_decide_eq_false in H0. apply bool_decide_eq_false. destruct Hle; lia. }
  destruct (policy_pricing_for_report r policy), (policy_pricing_for_report r' policy); try done.
  rewrite (bundled_le _ _ Hle) in *.
  destruct (bundled_estimate_pricing_for_report r) as [[k q]|] eqn:Hq; [| done]. simpl.
  apply report_cost_mono; [by eapply bundled_in_range | done].
Qed.

(** ** Properties *)

(** The verdict is a rejection exactly when a report came in, the policy sets
    a ceiling and the reported cost is above it; an allowed intent's recorded
    cost never goes below what was recorded before, nor below the report. *)
Theorem token_verdict_spec report prev policy :
  match evaluate_token_budget report prev policy with
  | Reject cost ceiling =>
      ∃ r, report = Some r ∧ cost = cost_micros_for_tokens r policy ∧
        ceiling = token_cost_ceiling_micros policy ∧ (ceiling < cost)%Z ∧ ceiling ≠ 0%Z
  | Allow cost =>
      (prev ≤ cost)%Z ∧
      match report with
      | None => cost = prev
      | Some r => cost = Z.max (cost_micros_for_tokens r policy) prev ∧
          (token_cost_ceiling_micros policy = 0%Z ∨
           (cost_micros_for_tokens r policy ≤ token_cost_ceiling_micros policy)%Z)
      end
  end.
Proof.
  unfold evaluate_token_budget. destruct report as [r|]; [| lia].
  repeat case_bool_decide; [| eauto 10 |]; (split; [lia |]); (split; [done |]); lia.
Qed.

(** The gate is monotone: a report of the same model and provider with at
    least as many tokens of every kind is never priced lower, so once a usage is
    rejected every larger one is. *)
Theorem token_rejection_monotone r r' prev prev' policy c z :
  providers_in_range policy → report_le r r' →
  evaluate_token_budget (Some r) prev policy = Reject c z →
  ∃ c', evaluate_token_budget (Some r') prev' policy = Reject c' z ∧ (c ≤ c')%Z.
Proof.
  intros Hpol Hle. pose proof (cost_micros_mono r r' policy Hpol Hle).
  unfold evaluate_token_budget. repeat case_bool_decide; intros [= <- <-]; try lia. eauto.
Qed.

(** Pricing is conservative about who is billed: unless an operator override
    names the reported provider exactly, an override that is applied is the
    dearest of the priced entries that could be meant. *)
Theorem ambiguous_pricing_is_dearest r policy p q :
  policy_pricing_for_report r policy = Some p →
  p.(provider_id) ≠ str_trim r.(report_provider_id) →
  q ∈ candidates r policy →
  p ∈ candidates r policy ∧ (override_cost r q ≤ override_cost r p)%Z.
Proof.
  intros Hp Hne Hq. destruct (policy_pricing_cases r policy) as [[Heq _]|Heq]; rewrite Heq in Hp.
  - apply find_some in Hp as [_ H%andb_true_iff]. by destruct H as [?%String.eqb_eq _].
  - apply max_by_key_Some in Hp as [Hin Hmax]. auto.
Qed.

(** Prices fit their type: the [u128] sum never overflows, the [u64] result
    is exact below saturation and never above [u64::MAX]. *)
Theorem cost_micro_dollars_bounds p i o r c :
  pricing_in_range p → in_u64 i → in_u64 o → in_u64 r → in_u64 c →
  (0 ≤ cost_total p i o r c < 2^128)%Z ∧ in_u64 (cost_micro_dollars p i o r c) ∧
  cost_micro_dollars p i o r c = Z.min (cost_total p i o r c) u64_max.
Proof.
  intros Hp Hi Ho Hr Hc. pose proof (cost_total_fits_u128 p i o r c Hp Hi Ho Hr Hc).
  unfold cost_micro_dollars. case_bool_decide; widths; lia.
Qed.

(** ** Witnesses *)

Definition demo_providers : PolicyBundle :=
  MkPolicyBundle [] ∅ 0 1
    [MkProviderEntry "cheap" "Anthropic" "cheap.toml" 30000 10000 16777216 None None None None (Some (MkProviderPricing 1000000 1000000 None None));
     MkProviderEntry "dear" "Anthropic" "dear.toml" 30000 10000 16777216 None None None None (Some (MkProviderPricing 1000 1000 None None))] [] "permit" [] 1 [] 0 0 0 0.
Definition demo_report (n : Z) : TokensReport := MkTokensReport n 0 0 0 "claude-x" "unknown ".

Lemma demo_providers_in_range : providers_in_range demo_providers.
Proof.
  apply Forall_forall. intros p Hp.
  repeat (apply elem_of_cons in Hp as [->|Hp];
    [intros pr [= <-]; split_and!; simpl; try done; widths; lia |]).
  by apply elem_of_nil in Hp.
Qed.

Lemma token_rejection_monotone_witness :
  ∃ c, evaluate_token_budget (Some (demo_report 20)) 0 demo_providers = Reject c 10000.
Proof.
  destruct (token_rejection_monotone (demo_report 11) (demo_report 20) 0 0 demo_providers 11000 10000)
    as (c & Hc & _); [apply demo_providers_in_range | by split; simpl; try lia | by vm_compute |].
  by exists c.
Defined.

Lemma ambiguous_pricing_is_dearest_witness :
  (override_cost (demo_report 5)
     (MkProviderEntry "cheap" "Anthropic" "cheap.toml" 30000 10000 16777216 None None None None (Some (MkProviderPricing 1000000 1000000 None None))) ≤
   override_cost (demo_report 5)
     (MkProviderEntry "dear" "Anthropic" "dear.toml" 30000 10000 16777216 None None None None (Some (MkProviderPricing 1000 1000 None None))))%Z.
Proof.
  apply (ambiguous_pricing_is_dearest (demo_report 5) demo_providers);
    [by vm_compute | by vm_compute | vm_compute; by left].
Defined.

Lemma cost_micro_dollars_bounds_witness :
  in_u64 (cost_micro_dollars (MkProviderPricing 3 7 None (Some 2%Z)) 10 20 30 40).
Proof.
  apply (cost_micro_dollars_bounds (MkProviderPricing 3 7 None (Some 2%Z)) 10 20 30 40);
    try (widths; lia). split_and!; simpl; try (intros z [= <-]); widths; lia.
Defined.
