(* ===== verification/Session.v ===== *)
(** * Sessions and envelope replay protection

    [kernel/src/authority/session.rs], with the error type of
    [kernel/src/authority/keys.rs].  The session id ([uuid]), the token (CSPRNG)
    and the clock are arguments; the SQL constraints of [sessions] and
    [nonce_cache] are part of the model, because the replay check relies on
    them. *)

From S2P Require Import Prelude Fsm Store.

(** ** Errors *)
Module AuthorityError.
Inductive AuthorityError : Type :=
  | SessionNotFound
  | SessionRevoked (revoked_at : Z)
  | SessionExpired
  | SessionInvalid (reason : string)
  | HmacMismatch
  | SequenceMismatch
  | DelegationNotGranted
  | DelegationAlreadyActive (existing_delegation_id : string)
  | DelegationTtlOutOfRange (requested max : Z)
  | CapabilityAboveCeiling (role_id capability_class : string)
  | DelegationSignatureInvalid
  | DelegationNotStale
  | TokenNotFound
  | TokenMismatch
  | TokenExpired
  | TokenConsumed
  | SignatureInvalid
  | ApprovalRevoked
  | InvalidWorktree
  | StoreError (e : SqlError)
  | Json
  | Crypto.
#[export] Instance AuthorityError_eq_dec : EqDecision AuthorityError.
Proof. solve_decision. Defined.
End AuthorityError.
Abbreviation AuthorityError := AuthorityError.AuthorityError.
Export (hints) AuthorityError.

Inductive Role : Type := Planner | Gateway | Verifier.

Definition role_as_str (r : Role) : string :=
  match r with Planner => "Planner" | Gateway => "Gateway" | Verifier => "Verifier" end.

(** The [SessionRow] struct the lookups return. *)
Record SessionRecord := MkSessionRecord {
  sr_session_id : string;
  sr_role : string;
  sr_session_token : string;
  sr_sequence_number : Z;
  sr_worktree_root : option string;
  sr_base_sha : option string;
  sr_base_tracking_ref : option string;
  sr_lineage_id : string;
  sr_revoked_at : option Z;
  sr_expires_at : Z;
  sr_session_agent_type : option SessionAgentType;
  sr_can_delegate : bool;
  sr_initiative_id : option string;
}.

Record SessionConfig := MkSessionConfig { default_ttl_secs : Z; fetch_quota : Z }.
Definition session_config_default : SessionConfig := MkSessionConfig 86400 1000.

(** ** Creation *)

(** The table's two CHECK constraints. *)
Definition session_check (r : SessionRow) : bool :=
  let some {A} (o : option A) := match o with Some _ => true | None => false end in
  Bool.eqb (some r.(sess_base_sha)) (some r.(sess_base_tracking_ref)) &&
  (negb (some r.(sess_base_sha)) || some r.(sess_worktree_root)).

(** [INSERT INTO sessions]: CHECK, primary key, unique token. *)
Definition insert_session (id : string) (r : SessionRow) : M SqlError unit := λ d,
  if session_check r then
    if bool_decide (is_Some (d.(sessions) !! id)) then (Err SqlConstraintPrimaryKey, d)
    else if bool_decide (map_Forall (λ _ r', r'.(sess_token) ≠ r.(sess_token)) d.(sessions))
    then (Ok tt, on_sessions <[id := r]> d)
    else (Err SqlConstraintUnique, d)
  else (Err SqlConstraintCheck, d).

Definition role_worktree_error (role : Role) (worktree_root : option string)
    : option AuthorityError :=
  match role, worktree_root with
  | Planner, None =>
      Some (AuthorityError.SessionInvalid "Planner session requires worktree_root")
  | (Gateway | Verifier), Some _ =>
      Some (AuthorityError.SessionInvalid "Gateway/Verifier session must not have worktree_root")
  | _, _ => None
  end.

Definition new_session_row (role : Role) (worktree_root base_sha base_tracking_ref : option string)
    (lineage_id : string) (config : SessionConfig) (token : string) (now : Z) : SessionRow :=
  MkSessionRow (role_as_str role) token lineage_id worktree_root base_sha base_tracking_ref
    config.(fetch_quota) 0 now (wrap_add_i64 now (as_i64 config.(default_ttl_secs))) false None
    None false None.

Definition create_session (new_id : string) (generated : result unit string) (now : Z) (role : Role)
    (worktree_root base_sha base_tracking_ref : option string) (lineage_id : string)
    (config : SessionConfig) : M AuthorityError (string * string) :=
  _ ← lift_result (match role_worktree_error role worktree_root with
                   | Some e => Err e | None => Ok tt end);
  session_token ← lift_result (map_err (λ _, AuthorityError.Crypto) generated);
  _ ← se_map_err AuthorityError.StoreError
        (insert_session new_id (new_session_row role worktree_root base_sha base_tracking_ref
           lineage_id config session_token now));
  mret (new_id, session_token).

(** ** Lookup *)

(** [CASE WHEN revoked = 1 AND revoked_at IS NULL THEN 0 ELSE revoked_at END] *)
Definition projected_revoked_at (r : SessionRow) : option Z :=
  if r.(sess_revoked) then Some (default 0%Z r.(sess_revoked_at)) else r.(sess_revoked_at).

Definition session_record (id : string) (r : SessionRow) : SessionRecord :=
  MkSessionRecord id r.(sess_role_id) r.(sess_token) r.(sess_sequence_number)
    r.(sess_worktree_root) r.(sess_base_sha) r.(sess_base_tracking_ref) r.(sess_lineage_id)
    (projected_revoked_at r) r.(sess_expires_at)
    (a ← r.(sess_agent_type); from_sql_str (A:=SessionAgentType) a)
    r.(sess_can_delegate) r.(sess_initiative_id).

Definition get_session_raw (id : string) : M AuthorityError SessionRecord := λ d,
  (ok_or (session_record id <$> d.(sessions) !! id) AuthorityError.SessionNotFound, d).

(** [WHERE session_token = ?]: the token column is unique. *)
Definition get_session_by_token (token : string) : M AuthorityError SessionRecord := λ d,
  (ok_or ((λ kr, session_record kr.1 kr.2) <$>
            List.find (λ kr, String.eqb kr.2.(sess_token) token) (map_to_list d.(sessions)))
     AuthorityError.SessionNotFound, d).

Definition require_active_session_row (now : Z) (row : SessionRecord)
    : result AuthorityError SessionRecord :=
  match row.(sr_revoked_at) with
  | Some at_ => Err (AuthorityError.SessionRevoked at_)
  | None =>
      if bool_decide (row.(sr_expires_at) ≤ now)%Z then Err AuthorityError.SessionExpired
      else Ok row
  end.

Definition get_session (now : Z) (id : string) : M AuthorityError SessionRecord :=
  row ← get_session_raw id; lift_result (require_active_session_row now row).

Definition get_active_session_by_token (now : Z) (token : string)
    : M AuthorityError SessionRecord :=
  row ← get_session_by_token token; lift_result (require_active_session_row now row).

(** ** Revocation and sequence numbers *)

Definition set_revoked (now : Z) (r : SessionRow) : SessionRow :=
  MkSessionRow r.(sess_role_id) r.(sess_token) r.(sess_lineage_id) r.(sess_worktree_root)
    r.(sess_base_sha) r.(sess_base_tracking_ref) r.(sess_fetch_quota) r.(sess_sequence_number)
    r.(sess_created_at) r.(sess_expires_at) true (Some now) r.(sess_agent_type)
    r.(sess_can_delegate) r.(sess_initiative_id).

(** [UPDATE .. WHERE session_id = ? AND revoked = 0]; no row is an error. *)
Definition revoke_session (now : Z) (id : string) : M AuthorityError unit := λ d,
  match d.(sessions) !! id with
  | Some r =>
      if r.(sess_revoked) then (Err (AuthorityError.SessionRevoked now), d)
      else (Ok tt, on_sessions <[id := set_revoked now r]> d)
  | None => (Err (AuthorityError.SessionRevoked now), d)
  end.

(** [UPDATE sessions SET sequence_number = new WHERE .. AND sequence_number = cur],
    with the number of rows. *)
Definition cas_sequence (id : string) (cur new : Z) (d : Db) : nat * Db :=
  match d.(sessions) !! id with
  | Some r =>
      if bool_decide (r.(sess_sequence_number) = cur)
      then (1, on_sessions <[id := upd_sess_sequence_number (λ _, new) r]> d) else (0, d)
  | None => (0, d)
  end.

Definition update_sequence_number (id : string) (expected_current : Z) : M AuthorityError unit := λ d,
  match cas_sequence id expected_current (wrap_add_i64 expected_current 1) d with
  | (0, d') => (Err AuthorityError.SequenceMismatch, d')
  | (_, d') => (Ok tt, d')
  end.

Module EnvelopeReplayReason.
Inductive EnvelopeReplayReason : Type :=
  | DuplicateNonce
  | SequenceAlreadyAccepted
  | SequenceGap (expected presented : Z).
#[export] Instance EnvelopeReplayReason_eq_dec : EqDecision EnvelopeReplayReason.
Proof. solve_decision. Defined.
End EnvelopeReplayReason.
Abbreviation EnvelopeReplayReason := EnvelopeReplayReason.EnvelopeReplayReason.
Export (hints) EnvelopeReplayReason.

Definition is_ascii_hexdigit (c : Ascii.ascii) : bool :=
  let n := Ascii.nat_of_ascii c in
  (48 <=? n) && (n <=? 57) || (65 <=? n) && (n <=? 70) || (97 <=? n) && (n <=? 102).

Definition nonce_well_formed (nonce : string) : bool :=
  (String.length nonce =? 32) && forallb is_ascii_hexdigit (String.list_ascii_of_string nonce).

(** [INSERT INTO nonce_cache]: primary key [(session_id, sequence_num)], unique
    [(session_id, envelope_nonce)], foreign key to [sessions]. *)
Definition insert_nonce (id : string) (seq : Z) (nonce : string) (now : Z) : M SqlError unit := λ d,
  if bool_decide (is_Some (d.(nonce_cache) !! (id, seq))) then (Err SqlConstraintPrimaryKey, d)
  else if bool_decide (map_Forall (λ k r, ¬ (k.1 = id ∧ r.(nonce_envelope) = nonce)) d.(nonce_cache))
  then
    if fk_ok d (bool_decide (is_Some (d.(sessions) !! id)))
    then (Ok tt, on_nonce_cache <[(id, seq) := MkNonceRow nonce now]> d)
    else (Err SqlConstraintForeignKey, d)
  else (Err SqlConstraintUnique, d).

Definition nonce_error (e : SqlError) : EnvelopeReplayReason :=
  match e with
  | SqlConstraintUnique => EnvelopeReplayReason.DuplicateNonce
  | SqlConstraintPrimaryKey => EnvelopeReplayReason.SequenceAlreadyAccepted
  | _ => EnvelopeReplayReason.DuplicateNonce
  end.

(** The compare-and-swap that closes the transaction. *)
Definition advance_sequence (id : string) (current presented : Z)
    : M EnvelopeReplayReason unit := λ d,
  match cas_sequence id current presented d with
  | (0, d') => (Err EnvelopeReplayReason.SequenceAlreadyAccepted, d')
  | (_, d') => (Ok tt, d')
  end.

Definition read_sequence (id : string) : M EnvelopeReplayReason Z := λ d,
  (ok_or (sess_sequence_number <$> d.(sessions) !! id) EnvelopeReplayReason.DuplicateNonce, d).

Definition accept_envelope_and_advance_sequence (now : Z) (id : string) (presented_seq : Z)
    (envelope_nonce : string) : M EnvelopeReplayReason unit :=
  _ ← guard_or (nonce_well_formed envelope_nonce) EnvelopeReplayReason.DuplicateNonce;
  with_tx (
    current_seq ← read_sequence id;
    let expected := wrap_add_i64 current_seq 1 in
    _ ← guard_or (bool_decide (presented_seq = expected))
          (EnvelopeReplayReason.SequenceGap expected presented_seq);
    _ ← se_map_err nonce_error (insert_nonce id presented_seq envelope_nonce now);
    advance_sequence id current_seq presented_seq).

(** ** Lemmas *)

(** What an accepted envelope does to the store. *)
Definition envelope_accepted (now : Z) (id : string) (seq : Z) (nonce : string) (r : SessionRow)
    (d : Db) : Db :=
  on_sessions <[id := upd_sess_sequence_number (λ _, seq) r]>
    (on_nonce_cache <[(id, seq) := MkNonceRow nonce now]> d).

Definition nonce_unused (d : Db) (id nonce : string) : Prop :=
  map_Forall (λ k r, ¬ (k.1 = id ∧ r.(nonce_envelope) = nonce)) d.(nonce_cache).

Lemma accept_envelope_run d now id seq nonce :
  accept_envelope_and_advance_sequence now id seq nonce d =
  if nonce_well_formed nonce then
    match d.(sessions) !! id with
    | None => (Err EnvelopeReplayReason.DuplicateNonce, d)
    | Some r =>
        let expected := wrap_add_i64 r.(sess_sequence_number) 1 in
        if bool_decide (seq = expected) then
          if bool_decide (is_Some (d.(nonce_cache) !! (id, seq)))
          then (Err EnvelopeReplayReason.SequenceAlreadyAccepted, d)
          else if bool_decide (nonce_unused d id nonce)
          then (Ok tt, envelope_accepted now id seq nonce r d)
          else (Err EnvelopeReplayReason.DuplicateNonce, d)
        else (Err (EnvelopeReplayReason.SequenceGap expected seq), d)
    end
  else (Err EnvelopeReplayReason.DuplicateNonce, d).
Proof.
  unfold accept_envelope_and_advance_sequence, with_tx, read_sequence, insert_nonce,
    advance_sequence, cas_sequence, nonce_unused, envelope_accepted.
  se_unfold. destruct (nonce_well_formed nonce); [| done].
  destruct (sessions d !! id) as [r|] eqn:Hr; simpl; [| done].
  destruct (bool_decide (seq = _)); [| done].
  destruct (bool_decide (is_Some (nonce_cache d !! (id, seq)))); [done |].
  destruct (bool_decide (map_Forall _ _)); [| done].
  replace (fk_ok d true) with true by (unfold fk_ok; by rewrite orb_true_r).
  simpl. rewrite Hr. by rewrite bool_decide_eq_true_2.
Qed.

(** The replay ledger in order: no cached sequence number is ahead of its
    session's counter. *)
Definition ledger_ok (d : Db) : Prop :=
  map_Forall (λ k _, ∃ r, d.(sessions) !! k.1 = Some r ∧ (k.2 ≤ r.(sess_sequence_number))%Z)
    d.(nonce_cache).

Lemma accept_envelope_ok_inv d now id seq nonce d' :
  accept_envelope_and_advance_sequence now id seq nonce d = (Ok tt, d') →
  ∃ r, nonce_well_formed nonce = true ∧ d.(sessions) !! id = Some r ∧
    seq = wrap_add_i64 r.(sess_sequence_number) 1 ∧ nonce_unused d id nonce ∧
    d.(nonce_cache) !! (id, seq) = None ∧ d' = envelope_accepted now id seq nonce r d.
Proof.
  rewrite accept_envelope_run. destruct (nonce_well_formed nonce); [| done].
  destruct (sessions d !! id) as [r|]; [| done]. simpl.
  repeat case_bool_decide; intros [= <-]. exists r. split_and!; try done. by apply eq_None_not_Some.
Qed.

Lemma accept_envelope_err_inv d now id seq nonce e d' :
  accept_envelope_and_advance_sequence now id seq nonce d = (Err e, d') → d' = d.
Proof.
  rewrite accept_envelope_run. destruct (nonce_well_formed nonce); [| congruence].
  destruct (sessions d !! id) as [r|]; [| congruence]. cbv zeta.
  repeat case_bool_decide; congruence.
Qed.

Lemma envelope_accepted_ledger_ok now id seq nonce r d :
  ledger_ok d → d.(sessions) !! id = Some r → (r.(sess_sequence_number) ≤ seq)%Z →
  ledger_ok (envelope_accepted now id seq nonce r d).
Proof.
  intros Hl Hr Hle k nr. unfold envelope_accepted; simpl. rewrite lookup_insert_Some.
  intros [[<- _]|[_ Hk]].
  - simpl. exists (upd_sess_sequence_number (λ _, seq) r). rewrite lookup_insert_eq. split; [done | simpl; lia].
  - destruct (Hl _ _ Hk) as (r' & Hr' & Hle').
    destruct (decide (k.1 = id)) as [Heq|Hne].
    + rewrite Heq, lookup_insert_eq. eexists. split; [done |]. simpl.
      rewrite Heq, Hr in Hr'. simplify_eq. lia.
    + rewrite lookup_insert_ne by done. eauto.
Qed.

(** *** Runs of session operations *)

Inductive SessionOp : Type :=
  | OpEnvelope (now : Z) (id : string) (seq : Z) (nonce : string)
  | OpRevoke (now : Z) (id : string)
  | OpCreate (new_id : string) (generated : result unit string) (now : Z) (role : Role)
      (worktree_root base_sha base_tracking_ref : option string) (lineage_id : string)
      (config : SessionConfig).

(** One operation: the envelope it accepted, if any, and the store after. *)
Definition run_session_op (op : SessionOp) (d : Db) : option (string * Z * string) * Db :=
  match op with
  | OpEnvelope now id seq nonce =>
      match accept_envelope_and_advance_sequence now id seq nonce d with
      | (Ok _, d') => (Some (id, seq, nonce), d')
      | (Err _, d') => (None, d')
      end
  | OpRevoke now id => (None, (revoke_session now id d).2)
  | OpCreate new_id gen now role wt bs btr lin cfg =>
      (None, (create_session new_id gen now role wt bs btr lin cfg d).2)
  end.

Fixpoint run_session_ops (ops : list SessionOp) (d : Db) : list (string * Z * string) * Db :=
  match ops with
  | [] => ([], d)
  | op :: ops =>
      let '(a, d1) := run_session_op op d in
      let '(log, d2) := run_session_ops ops d1 in
      (option_list a ++ log, d2)
  end.

Definition seq_of (d : Db) (id : string) : Z :=
  match d.(sessions) !! id with Some r => r.(sess_sequence_number) | None => 0 end.

Definition nonce_used (d : Db) (p : string * string) : Prop :=
  ∃ k r, d.(nonce_cache) !! k = Some r ∧ k.1 = p.1 ∧ r.(nonce_envelope) = p.2.

Lemma create_session_inv new_id gen now role wt bs btr lin cfg d r d' :
  create_session new_id gen now role wt bs btr lin cfg d = (r, d') →
  match r with
  | Ok (id, token) => id = new_id ∧ gen = Ok token ∧ role_worktree_error role wt = None ∧
      let row := new_session_row role wt bs btr lin cfg token now in
      session_check row = true ∧ d.(sessions) !! new_id = None ∧
      map_Forall (λ _ r', r'.(sess_token) ≠ token) d.(sessions) ∧
      d' = on_sessions <[new_id := row]> d
  | Err _ => d' = d
  end.
Proof.
  unfold create_session, insert_session. se_unfold.
  destruct (role_worktree_error role wt) as [e|]; [by intros [= <- <-] |].
  destruct gen as [token|]; [simpl | by intros [= <- <-]].
  destruct (session_check _) eqn:Hc; [| by intros [= <- <-]].
  case_bool_decide; [by intros [= <- <-] |].
  case_bool_decide; [| by intros [= <- <-]].
  intros [= <- <-]. split_and!; try done. by apply eq_None_not_Some.
Qed.

Lemma seq_of_insert d id r id' :
  seq_of (on_sessions <[id := r]> d) id' =
    if decide (id' = id) then r.(sess_sequence_number) else seq_of d id'.
Proof.
  unfold seq_of; simpl. case_decide; [subst; by rewrite lookup_insert_eq |].
  by rewrite lookup_insert_ne.
Qed.

Lemma run_session_op_inv op d a d' :
  run_session_op op d = (a, d') →
  match a with
  | None => (∀ id, seq_of d' id = seq_of d id) ∧ d'.(nonce_cache) = d.(nonce_cache)
  | Some (id, seq, nonce) =>
      seq = wrap_add_i64 (seq_of d id) 1 ∧ nonce_well_formed nonce = true ∧
      (∀ id', seq_of d' id' = if decide (id' = id) then seq else seq_of d id') ∧
      ¬ nonce_used d (id, nonce) ∧
      (∀ p, nonce_used d' p ↔ nonce_used d p ∨ p = (id, nonce))
  end.
Proof.
  destruct op as [now id seq nonce|now id|new_id gen now role wt bs btr lin cfg]; simpl.
  - destruct (accept_envelope_and_advance_sequence now id seq nonce d) as [[[]|e] d1] eqn:Hacc.
    + apply accept_envelope_ok_inv in Hacc as (r & Hwf & Hr & Hseq & Hun & Hpk & ->).
      intros [= <- <-]. unfold seq_of at 1. rewrite Hr. split_and!; [done | done | | |].
      * intros id'. unfold envelope_accepted. by rewrite seq_of_insert.
      * intros (k & nr & Hk & Hid & Hn). by apply (Hun _ _ Hk).
      * intros p. unfold nonce_used, envelope_accepted; simpl. split.
        -- intros (k & nr & [[<- <-]|[_ Hk]]%lookup_insert_Some & Hid & Hn); [| left; by eauto 6].
           right. destruct p; simpl in *; congruence.
        -- intros [(k & nr & Hk & Hid & Hn)| ->].
           ++ exists k, nr. split; [| done]. rewrite lookup_insert_ne; [done |]. congruence.
           ++ eexists _, _. by rewrite lookup_insert_eq.
    + apply accept_envelope_err_inv in Hacc as ->. by intros [= <- <-].
  - intros [= <- <-]. unfold revoke_session. destruct (sessions d !! id) as [r|] eqn:Hr; [| done].
    destruct (sess_revoked r); [done |]. simpl. split; [| done].
    intros id'. rewrite seq_of_insert. case_decide; [subst; simpl; unfold seq_of; by rewrite Hr | done].
  - intros [= <- <-].
    destruct (create_session _ _ _ _ _ _ _ _ _ _) as [r d1] eqn:Hc.
    apply create_session_inv in Hc. destruct r as [[i t]|e]; [| by subst].
    destruct Hc as (_ & _ & _ & _ & Hnone & _ & ->). simpl. split; [| done].
    intros id'. rewrite seq_of_insert. case_decide; [| done]. subst. unfold seq_of. by rewrite Hnone.
Qed.

Definition accepted_seqs (id : string) (log : list (string * Z * string)) : list Z :=
  (λ e, e.1.2) <$> filter (λ e, e.1.1 = id) log.

Lemma run_session_ops_log ops d log d' :
  run_session_ops ops d = (log, d') →
  (∀ p, p ∈ ((λ e, (e.1.1, e.2)) <$> log) → ¬ nonce_used d p) ∧
  NoDup ((λ e, (e.1.1, e.2)) <$> log) ∧
  ∀ id, (i64_min ≤ seq_of d id)%Z → (seq_of d id + Z.of_nat (length ops) ≤ i64_max)%Z →
    accepted_seqs id log = seqZ (seq_of d id + 1) (Z.of_nat (length (accepted_seqs id log))).
Proof.
  revert d log. induction ops as [|op ops IH]; intros d log; simpl.
  { intros [= <- <-]. split_and!; [set_solver | constructor | done]. }
  destruct (run_session_op op d) as [a d1] eqn:Hop.
  destruct (run_session_ops ops d1) as [log1 d2] eqn:Hops. intros [= <- <-].
  apply run_session_op_inv in Hop. destruct (IH _ _ Hops) as (Hfresh & Hnd & Hseqs).
  destruct a as [[[id0 seq] nonce]|]; simpl.
  - destruct Hop as (Hseq & _ & Hstep & Hunused & Hused). split_and!.
    + intros p [->|Hp]%elem_of_cons; [done |]. intros Hu. apply (Hfresh p Hp), Hused. by left.
    + constructor; [| done]. intros Hin. apply (Hfresh _ Hin), Hused. by right.
    + intros id Hlo Hhi. unfold accepted_seqs in *.
      specialize (Hseqs id). rewrite Hstep in Hseqs.
      destruct (decide (id = id0)) as [->|Hne].
      * assert (Hs : seq = (seq_of d id0 + 1)%Z).
        { rewrite Hseq. unfold wrap_add_i64. apply as_i64_id. widths. lia. }
        rewrite filter_cons_True, fmap_cons by done. simpl. rewrite Hseqs by lia.
        rewrite length_seqZ, Hs, (seqZ_cons _ (Z.of_nat (S _))) by lia. f_equal. f_equal; lia.
      * rewrite filter_cons_False by (simpl; congruence). apply Hseqs; lia.
  - destruct Hop as [Hstep Hcache]. split_and!; [| done |].
    + intros p Hp (k & nr & Hk & H). apply (Hfresh p Hp). exists k, nr. by rewrite Hcache.
    + intros id Hlo Hhi. specialize (Hseqs id). rewrite Hstep in Hseqs. apply Hseqs; lia.
Qed.

Lemma run_session_op_revoked op d id r :
  d.(sessions) !! id = Some r → r.(sess_revoked) = true →
  ∃ r', (run_session_op op d).2.(sessions) !! id = Some r' ∧ r'.(sess_revoked) = true ∧
    r'.(sess_revoked_at) = r.(sess_revoked_at) ∧ r'.(sess_token) = r.(sess_token).
Proof.
  intros Hr Hrev.
  destruct op as [now i seq nonce|now i|new_id gen now role wt bs btr lin cfg]; simpl.
  - destruct (accept_envelope_and_advance_sequence now i seq nonce d) as [[[]|e] d1] eqn:Hacc; simpl.
    + apply accept_envelope_ok_inv in Hacc as (r0 & _ & Hr0 & _ & _ & _ & ->). simpl.
      destruct (decide (i = id)) as [->|Hne].
      * rewrite lookup_insert_eq. simplify_eq. eexists. split; [done |]. done.
      * rewrite lookup_insert_ne by done. eauto.
    + apply accept_envelope_err_inv in Hacc as ->. eauto.
  - unfold revoke_session. destruct (sessions d !! i) as [r0|] eqn:Hr0; simpl; [| by eauto].
    destruct (sess_revoked r0) eqn:Hrev0; simpl; [by eauto |].
    rewrite lookup_insert_ne by congruence. eauto.
  - destruct (create_session _ _ _ _ _ _ _ _ _ _) as [c d1] eqn:Hc.
    apply create_session_inv in Hc. destruct c as [[j t]|e]; simpl; [| by subst; eauto].
    destruct Hc as (_ & _ & _ & _ & Hnone & _ & ->). simpl.
    rewrite lookup_insert_ne by congruence. eauto.
Qed.

Lemma run_session_ops_revoked ops d id r :
  d.(sessions) !! id = Some r → r.(sess_revoked) = true →
  ∃ r', (run_session_ops ops d).2.(sessions) !! id = Some r' ∧ r'.(sess_revoked) = true ∧
    r'.(sess_revoked_at) = r.(sess_revoked_at).
Proof.
  revert d r. induction ops as [|op ops IH]; intros d r Hr Hrev; simpl; [by eauto |].
  destruct (run_session_op_revoked op d id r Hr Hrev) as (r1 & Hr1 & Hrev1 & Hat1 & _).
  destruct (run_session_op op d) as [a d1]; simpl in *.
  destruct (IH d1 r1 Hr1 Hrev1) as (r2 & Hr2 & Hrev2 & Hat2).
  destruct (run_session_ops ops d1); simpl in *. exists r2. split_and!; congruence.
Qed.

Lemma get_session_by_token_unique d id r token :
  d.(sessions) !! id = Some r → r.(sess_token) = token →
  (∀ id' r', d.(sessions) !! id' = Some r' → r'.(sess_token) = token → id' = id) →
  get_session_by_token token d = (Ok (session_record id r), d).
Proof.
  intros Hr Htok Huniq. unfold get_session_by_token.
  destruct (List.find _ _) as [[id' r']|] eqn:Hf.
  - apply find_some in Hf as [Hin%list_elem_of_In Heq%String.eqb_eq].
    apply elem_of_map_to_list in Hin. simpl in Heq.
    assert (id' = id) as -> by eauto. by simplify_eq.
  - exfalso. eapply find_none in Hf; [| apply list_elem_of_In, elem_of_map_to_list, Hr].
    simpl in Hf. by rewrite Htok, String.eqb_refl in Hf.
Qed.

(** ** Properties *)

(** C1: replay protection.  Over any run of envelopes, revocations and session
    creations, in any order, the sequence numbers accepted for a session are
    exactly the consecutive ones after its counter, no nonce is accepted twice
    for a session, and none that was in the nonce cache is accepted at all. *)
Theorem replay_protection ops d log d' :
  run_session_ops ops d = (log, d') →
  NoDup ((λ e, (e.1.1, e.2)) <$> log) ∧
  (∀ id seq nonce, (id, seq, nonce) ∈ log → ¬ nonce_used d (id, nonce)) ∧
  ∀ id, (i64_min ≤ seq_of d id)%Z → (seq_of d id + Z.of_nat (length ops) ≤ i64_max)%Z →
    accepted_seqs id log = seqZ (seq_of d id + 1) (Z.of_nat (length (accepted_seqs id log))).
Proof.
  intros (Hfresh & Hnd & Hseqs)%run_session_ops_log. split_and!; [done | | done].
  intros id seq nonce Hin. apply Hfresh, list_elem_of_fmap. by exists (id, seq, nonce).
Qed.

(** 32 hexadecimal digits. *)
Definition nonce_hex32 (nonce : string) : Prop :=
  String.length nonce = 32 ∧ Forall (λ c, c ∈ chars "0123456789abcdefABCDEF") (chars nonce).

Lemma is_ascii_hexdigit_iff c : is_ascii_hexdigit c = bool_decide (c ∈ chars "0123456789abcdefABCDEF").
Proof. destruct c as [[] [] [] [] [] [] [] []]; vm_compute; reflexivity. Qed.

Lemma nonce_well_formed_iff nonce : nonce_well_formed nonce = true ↔ nonce_hex32 nonce.
Proof.
  unfold nonce_well_formed, nonce_hex32. rewrite andb_true_iff, Nat.eqb_eq, forallb_forall, Forall_forall.
  fold (chars nonce). f_equiv. setoid_rewrite is_ascii_hexdigit_iff.
  by setoid_rewrite <-list_elem_of_In; setoid_rewrite bool_decide_eq_true.
Qed.

(** An envelope is accepted exactly when its nonce is 32 hex characters, the
    session exists, it carries the next sequence number and the nonce is new for
    the session; the counter and the cache then advance together and the cache
    stays behind the counters.  Otherwise nothing changes, and the reason is the
    first check that failed. *)
Theorem accept_envelope_iff d now id seq nonce :
  ledger_ok d → (∀ r, d.(sessions) !! id = Some r → i64_min ≤ r.(sess_sequence_number) < i64_max)%Z →
  match accept_envelope_and_advance_sequence now id seq nonce d with
  | (Ok _, d') => ledger_ok d' ∧ ∃ r, d.(sessions) !! id = Some r ∧
      nonce_hex32 nonce ∧ seq = (r.(sess_sequence_number) + 1)%Z ∧
      nonce_unused d id nonce ∧ d' = envelope_accepted now id seq nonce r d
  | (Err e, d') => d' = d ∧
      match e with
      | EnvelopeReplayReason.DuplicateNonce =>
          ¬ nonce_hex32 nonce ∨ d.(sessions) !! id = None ∨ ¬ nonce_unused d id nonce
      | EnvelopeReplayReason.SequenceGap expected presented => presented = seq ∧ seq ≠ expected ∧
          ∃ r, d.(sessions) !! id = Some r ∧ expected = (r.(sess_sequence_number) + 1)%Z
      | EnvelopeReplayReason.SequenceAlreadyAccepted => False
      end
  end.
Proof.
  intros Hl Hrange. rewrite accept_envelope_run.
  destruct (nonce_well_formed nonce) eqn:Hwf.
  2: { split; [done |]. left. rewrite <-nonce_well_formed_iff. congruence. }
  apply nonce_well_formed_iff in Hwf.
  destruct (sessions d !! id) as [r|] eqn:Hr; [| by auto]. cbv zeta.
  specialize (Hrange _ eq_refl).
  assert (wrap_add_i64 (sess_sequence_number r) 1 = sess_sequence_number r + 1)%Z as ->.
  { apply as_i64_id. widths. lia. }
  case_bool_decide as Hseq; [| by eauto 10].
  case_bool_decide as Hpk.
  { destruct Hpk as [nr Hk]. destruct (Hl _ _ Hk) as (r' & Hr' & Hle). simpl in *.
    rewrite Hr in Hr'. simplify_eq. lia. }
  case_bool_decide; [| by auto]. split; [| by eauto 10].
  apply envelope_accepted_ledger_ok; [done | done | lia].
Qed.

(** Revocation is final.  Once a session is revoked, whatever envelopes,
    revocations and creations follow, every lookup that guards a request answers
    that it was revoked, with the time of that first revocation. *)
Theorem revoked_session_stays_revoked d now id d1 ops now' :
  revoke_session now id d = (Ok tt, d1) →
  let d2 := (run_session_ops ops d1).2 in
  get_session now' id d2 = (Err (AuthorityError.SessionRevoked now), d2).
Proof.
  unfold revoke_session. destruct (sessions d !! id) as [r|] eqn:Hr; [| done].
  destruct (sess_revoked r); [done |]. intros [= <-]. cbv zeta.
  set (d2 := (run_session_ops ops _).2).
  destruct (run_session_ops_revoked ops (on_sessions <[id:=set_revoked now r]> d) id (set_revoked now r))
    as (r2 & Hr2 & Hrev2 & Hat2); [by simpl; rewrite lookup_insert_eq | done |].
  fold d2 in Hr2. unfold get_session, get_session_raw. se_unfold. rewrite Hr2.
  unfold require_active_session_row, session_record, projected_revoked_at; simpl.
  by rewrite Hrev2, Hat2.
Qed.

(** Creating a session and then presenting the issued token, before expiry,
    finds exactly that session: same id, role and worktree, sequence zero, not
    revoked and no agent type; planners have a worktree and the other roles do
    not; no other session row changes. *)
Theorem create_session_round_trip new_id gen now role wt bs btr lin cfg d id token d' now' :
  create_session new_id gen now role wt bs btr lin cfg d = (Ok (id, token), d') →
  (now' < wrap_add_i64 now (as_i64 cfg.(default_ttl_secs)))%Z →
  get_active_session_by_token now' token d' =
    (Ok (MkSessionRecord new_id (role_as_str role) token 0 wt bs btr lin None
           (wrap_add_i64 now (as_i64 cfg.(default_ttl_secs))) None false None), d') ∧
  (role = Planner ↔ is_Some wt) ∧
  ∀ k, k ≠ new_id → d'.(sessions) !! k = d.(sessions) !! k.
Proof.
  intros (-> & -> & Hrole & _ & Hnone & Huniq & ->)%create_session_inv Hexp. split_and!.
  - unfold get_active_session_by_token. erewrite se_bind_ok.
    2: { apply (get_session_by_token_unique _ new_id
           (new_session_row role wt bs btr lin cfg token now)); [simpl; by rewrite lookup_insert_eq | done |].
         simpl. intros id' r'. rewrite lookup_insert_Some. intros [[<- _]|[_ Hr']]; [done |].
         intros Htok. by specialize (Huniq _ _ Hr' Htok). }
    unfold lift_result, require_active_session_row; simpl.
    by rewrite bool_decide_eq_false_2 by lia.
  - destruct role, wt; simpl in Hrole; try done; split; intros H; try done; by destruct H.
  - intros k Hk. simpl. by rewrite lookup_insert_ne.
Qed.

(** ** Witnesses *)

Definition demo_nonce (c : string) : string := "0123456789abcdef0123456789abcde" +:+ c.
Definition demo_session : SessionRow :=
  new_session_row Planner (Some "/w") None None "lineage" session_config_default "tok" 100.
Definition demo_sessions : Db := on_sessions (λ _, {[ "s" := demo_session ]}) empty_db.

Lemma replay_protection_witness :
  let '(log, _) := run_session_ops
    [OpEnvelope 1 "s" 1 (demo_nonce "0"); OpEnvelope 2 "s" 1 (demo_nonce "0");
     OpEnvelope 3 "s" 2 (demo_nonce "0"); OpEnvelope 4 "s" 2 (demo_nonce "1")] demo_sessions in
  accepted_seqs "s" log = [1; 2]%Z ∧ NoDup ((λ e, (e.1.1, e.2)) <$> log).
Proof.
  destruct (run_session_ops _ demo_sessions) as [log d'] eqn:E.
  pose proof (replay_protection _ _ _ _ E) as (Hnd & _ & Hseq).
  specialize (Hseq "s"). vm_compute in E. simplify_eq. split; [| exact Hnd].
  rewrite Hseq; [reflexivity | vm_compute; done | vm_compute; done].
Defined.

Lemma accept_envelope_iff_witness :
  (accept_envelope_and_advance_sequence 1 "s" 1 (demo_nonce "0") demo_sessions).1 = Ok tt ∧
  ledger_ok (accept_envelope_and_advance_sequence 1 "s" 1 (demo_nonce "0") demo_sessions).2.
Proof.
  assert (Hl : ledger_ok demo_sessions) by apply map_Forall_empty.
  pose proof (accept_envelope_iff demo_sessions 1 "s" 1 (demo_nonce "0") Hl) as H.
  destruct (accept_envelope_and_advance_sequence _ _ _ _ _) as [[[]|e] d'] eqn:E; [| by vm_compute in E].
  split; [done |]. apply H. intros r Hr.
  change (Some demo_session = Some r) in Hr. injection Hr as <-. by vm_compute.
Defined.

Lemma revoked_session_stays_revoked_witness :
  let d1 := (revoke_session 7 "s" demo_sessions).2 in
  let d2 := (run_session_ops [OpEnvelope 1 "s" 1 (demo_nonce "0"); OpRevoke 9 "s"] d1).2 in
  get_session 8 "s" d2 = (Err (AuthorityError.SessionRevoked 7), d2).
Proof. by apply (revoked_session_stays_revoked demo_sessions). Defined.

Lemma create_session_round_trip_witness :
  match create_session "n" (Ok "fresh") 100 Gateway None None None "lin" session_config_default
          demo_sessions with
  | (Ok (_, token), d') => is_ok (get_active_session_by_token 200 token d').1 = true
  | (Err _, _) => False
  end.
Proof.
  destruct (create_session _ _ _ _ _ _ _ _ _ _) as [[[id token]|e] d'] eqn:E; [| by vm_compute in E].
  apply (create_session_round_trip _ _ _ _ _ _ _ _ _ _ _ _ _ 200) in E as [-> _];
    [reflexivity | by vm_compute].
Defined.
