(* ===== verification/Escalation.v ===== *)
(** * Escalations: submission, review and merge attribution

    The planner side [kernel/src/handlers/escalation.rs], the operator side
    [kernel/src/authority/escalation.rs] with the signing input of
    [crates/crypto/src/escalation.rs], the wire types of
    [crates/types/src/escalation.rs], and Check 6b of
    [kernel/src/handlers/integration_merge_attribution.rs].  Clocks, fresh ids
    and random bytes are arguments; UUID parsing, JSON rendering and SHA-256 are
    parameters. *)

From S2P Require Import Prelude Fsm Store Bytes Crypto Cert Policy Session.

(** ** Wire types *)
Module EscalationClass.
Inductive EscalationClass : Type :=
  | CapabilityUpgrade
  | DelegationRenewal
  | BudgetException
  | QualityGateException
  | MergeConflict
  | LogicalDeadlock.
#[export] Instance EscalationClass_eq_dec : EqDecision EscalationClass.
Proof. solve_decision. Defined.

Definition escalation_class_as_sql_str (c : EscalationClass) : string :=
  match c with
  | CapabilityUpgrade => "CapabilityUpgrade"
  | DelegationRenewal => "DelegationRenewal"
  | BudgetException => "BudgetException"
  | QualityGateException => "QualityGateException"
  | MergeConflict => "MergeConflict"
  | LogicalDeadlock => "LogicalDeadlock"
  end.
Definition escalation_class_from_sql_str : string → option EscalationClass :=
  sql_parse [("CapabilityUpgrade", CapabilityUpgrade); ("DelegationRenewal", DelegationRenewal);
             ("BudgetException", BudgetException); ("QualityGateException", QualityGateException);
             ("MergeConflict", MergeConflict); ("LogicalDeadlock", LogicalDeadlock)].
#[export] Program Instance escalation_class_sql : SqlEnum EscalationClass := {|
  as_sql_str := escalation_class_as_sql_str; from_sql_str := escalation_class_from_sql_str |}.
Next Obligation. sql_enum_round_trip. Qed.
Next Obligation. sql_enum_canonical. Qed.
End EscalationClass.
Abbreviation EscalationClass := EscalationClass.EscalationClass.
Export (hints) EscalationClass.

Module RequestedEscalationScope.
Inductive RequestedEscalationScope : Type :=
  | CapabilityUpgrade (capability : CapabilityClass)
  | DelegationRenewal (delegation_id : string)
  | BudgetException (additional_units : Z)
  | QualityGateException (gate_type task_id : string)
  | MergeConflict (conflicts : list string)
  | LogicalDeadlock (initiative_id : string) (attempts window_secs : Z)
      (last_intent_kind last_rejection_reason : string).

(** The class discriminant. *)
Definition scope_class (s : RequestedEscalationScope) : EscalationClass :=
  match s with
  | CapabilityUpgrade _ => EscalationClass.CapabilityUpgrade
  | DelegationRenewal _ => EscalationClass.DelegationRenewal
  | BudgetException _ => EscalationClass.BudgetException
  | QualityGateException _ _ => EscalationClass.QualityGateException
  | MergeConflict _ => EscalationClass.MergeConflict
  | LogicalDeadlock _ _ _ _ _ => EscalationClass.LogicalDeadlock
  end.
End RequestedEscalationScope.
Abbreviation RequestedEscalationScope := RequestedEscalationScope.RequestedEscalationScope.
Abbreviation scope_class := RequestedEscalationScope.scope_class.

(** [idempotency_key] is the hyphenated text of the UUID. *)
Record EscalationRequest := MkEscalationRequest {
  req_session_token : string;
  req_task_id : string;
  req_class : EscalationClass;
  req_requested_scope : RequestedEscalationScope;
  req_justification : string;
  req_idempotency_key : string;
}.

Inductive EscalationRejectionReason : Type := RateLimitExceeded | LineageQuarantined.
#[export] Instance EscalationRejectionReason_eq_dec : EqDecision EscalationRejectionReason.
Proof. solve_decision. Defined.

Inductive EscalationResponse : Type :=
  | Submitted (escalation_id : string) (timeout_at : Z)
  | AlreadyPending (escalation_id : string)
  | Rejected (reason : EscalationRejectionReason).
#[export] Instance EscalationResponse_eq_dec : EqDecision EscalationResponse.
Proof. solve_decision. Defined.

(** An audit event with its session and initiative. *)
Inductive EscalationEvent : Type :=
  | EvLineageQuarantined (lineage_id : string) (trigger_count : Z)
  | EvEscalationRateLimitExceeded (lineage_id : string) (attempted_count window_start : Z)
  | EvEscalationSubmitted (escalation_id task_id class lineage_id : string).
Record AuditAfter := MkAuditAfter {
  aa_kind : EscalationEvent; aa_session : string; aa_initiative : string }.

(** [Uuid::parse_str] re-hyphenated ([EscalationId::parse], [InitiativeId::parse])
    and [serde_json::to_string] of a requested scope. *)
Class EscalationLib := {
  uuid_parse : string → option string;
  scope_to_json : RequestedEscalationScope → string;
}.
Definition NIL_UUID : string := "00000000-0000-0000-0000-000000000000".

(** ** Statements on [escalations] and [lineage_rate_limits] *)

Definition PLANNER : string := "Planner".
Definition KERNEL : string := "Kernel".
Definition pending : string := as_sql_str EscalationStatus.Pending.

Definition escalation_check (r : EscalationRow) : bool :=
  check_in EscalationStatus.escalation_status_all r.(esc_status)
  && bool_decide (r.(esc_initiator) ∈ [PLANNER; KERNEL]).

Definition same_key (session key : string) (r : EscalationRow) : bool :=
  String.eqb r.(esc_session_id) session && String.eqb r.(esc_idempotency_key) key.

(** [SELECT escalation_id .. WHERE session_id = ? AND idempotency_key = ?]: the
    pair is unique. *)
Definition find_escalation (session key : string) (d : Db) : option (string * EscalationRow) :=
  List.find (λ kr, same_key session key kr.2) (map_to_list d.(escalations)).

Definition escalation_fk (r : EscalationRow) (d : Db) : bool :=
  fk_ok d (bool_decide (is_Some (d.(sessions) !! r.(esc_session_id)))
           && has_task d r.(esc_task_id) && has_initiative d r.(esc_initiative_id)).

Definition insert_escalation (id : string) (r : EscalationRow) : M SqlError unit := λ d,
  if escalation_check r then
    if bool_decide (is_Some (d.(escalations) !! id)) then (Err SqlConstraintPrimaryKey, d)
    else match find_escalation r.(esc_session_id) r.(esc_idempotency_key) d with
         | Some _ => (Err SqlConstraintUnique, d)
         | None =>
             if escalation_fk r d then (Ok tt, on_escalations <[id := r]> d)
             else (Err SqlConstraintForeignKey, d)
         end
  else (Err SqlConstraintCheck, d).

(** [INSERT .. ON CONFLICT(lineage_id) DO UPDATE], which keeps the first
    [quarantined_at]. *)
Definition upsert_lineage_rate_limits (lineage_id : string)
    (window_start escalation_count quarantined trigger_count : Z) (quarantined_at : option Z)
    : M EscalationRejectionReason unit := λ d,
  if bool_decide (quarantined ∈ [0; 1]%Z) then
    let at_ := match d.(lineage_rate_limits) !! lineage_id with
               | Some old => match old.(rl_quarantined_at) with
                             | Some a => Some a
                             | None => quarantined_at
                             end
               | None => quarantined_at
               end in
    (Ok tt, on_lineage_rate_limits
              <[lineage_id := MkRateLimitRow window_start escalation_count quarantined
                                trigger_count at_]> d)
  else (Err RateLimitExceeded, d).

(** ** Submission *)
Section Submission.
Context `{EscalationLib}.

Definition new_escalation (session lineage initiative : string) (req : EscalationRequest)
    (now timeout_at : Z) : EscalationRow :=
  MkEscalationRow session req.(req_task_id) lineage initiative (as_sql_str req.(req_class))
    (scope_to_json req.(req_requested_scope)) req.(req_justification) req.(req_idempotency_key)
    pending now timeout_at None None PLANNER.

(** The lineage of the session the task is assigned to ([LEFT JOIN sessions]). *)
Definition task_lineage (t : TaskRow) (d : Db) : option string :=
  sid ← t.(task_session_id); sess_lineage_id <$> d.(sessions) !! sid.

(** The window the attempt counts in: start and count after a roll-over. *)
Definition rolled_window (now window_secs window_start count : Z) : Z * Z :=
  if bool_decide (0 < window_secs)%Z && bool_decide (sat_add_i64 window_start window_secs ≤ now)%Z
  then (now, 0%Z) else (window_start, count).

(** The attempt that finds its window full: it advances the trigger counter, which
    may quarantine the lineage.  The transaction commits. *)
Definition over_limit (policy : PolicyBundle) (now : Z) (session lineage initiative : string)
    (ws count attempted trigger : Z)
    : M EscalationRejectionReason (EscalationResponse * list AuditAfter) :=
  let trigger' := sat_add_i64 trigger 1 in
  let now_quarantined := bool_decide (policy.(escalation_quarantine_threshold) ≤ trigger')%Z in
  _ ← upsert_lineage_rate_limits lineage ws count (if now_quarantined then 1 else 0) trigger'
        (if now_quarantined then Some now else None);
  mret (if now_quarantined then
          (Rejected LineageQuarantined,
           [MkAuditAfter (EvLineageQuarantined lineage (trigger' mod 2^64)) session initiative])
        else
          (Rejected RateLimitExceeded,
           [MkAuditAfter (EvEscalationRateLimitExceeded lineage (attempted mod 2^64) ws) session
              initiative])).

(** The attempt that is recorded.  The id is parsed after the commit. *)
Definition record_escalation (policy : PolicyBundle) (now : Z) (new_id session lineage initiative : string)
    (req : EscalationRequest) (ws attempted quarantined trigger : Z)
    : M EscalationRejectionReason (EscalationResponse * list AuditAfter) :=
  let timeout_at := sat_add_i64 now (as_i64 policy.(escalation_timeout)) in
  _ ← with_tx (
        _ ← se_map_err (λ _, RateLimitExceeded)
              (insert_escalation new_id (new_escalation session lineage initiative req now timeout_at));
        upsert_lineage_rate_limits lineage ws attempted quarantined trigger None);
  id ← lift_result (ok_or (uuid_parse new_id) RateLimitExceeded);
  mret (Submitted id timeout_at,
        [MkAuditAfter (EvEscalationSubmitted new_id req.(req_task_id) (as_sql_str req.(req_class)) lineage)
           session initiative]).

(** Step 5 onwards: the rate limit and the insertion. *)
Definition limited_submission (policy : PolicyBundle) (now : Z)
    (new_id session lineage initiative : string) (req : EscalationRequest)
    : M EscalationRejectionReason (EscalationResponse * list AuditAfter) := λ d,
  let row := default (MkRateLimitRow now 0 0 0 None) (d.(lineage_rate_limits) !! lineage) in
  if bool_decide (row.(rl_quarantined) = 1)%Z then (Ok (Rejected LineageQuarantined, []), d)
  else
    let '(ws, count) := rolled_window now (as_i64 policy.(escalation_window)) row.(rl_window_start)
                          row.(rl_escalation_count) in
    let attempted := wrap_add_i64 count 1 in
    if bool_decide (policy.(escalation_max_per_window) < attempted)%Z then
      over_limit policy now session lineage initiative ws count attempted
        row.(rl_quarantine_trigger_count) d
    else
      record_escalation policy now new_id session lineage initiative req ws attempted
        row.(rl_quarantined) row.(rl_quarantine_trigger_count) d.

Definition submit_escalation_blocking (policy : PolicyBundle) (now : Z)
    (new_id session lineage : string) (req : EscalationRequest)
    : M EscalationRejectionReason (EscalationResponse * list AuditAfter) := λ d,
  match d.(tasks) !! req.(req_task_id) with
  | None => (Err RateLimitExceeded, d)
  | Some t =>
      if match task_lineage t d with
         | Some l => negb (String.eqb l lineage)
         | None => false
         end
      then (Err RateLimitExceeded, d)
      else
        match find_escalation session req.(req_idempotency_key) d with
        | Some (eid, _) =>
            (match uuid_parse eid with
             | Some id => Ok (AlreadyPending id, [])
             | None => Err RateLimitExceeded
             end, d)
        | None =>
            limited_submission policy now new_id session lineage t.(task_initiative_id) req d
        end
  end.

Definition JUSTIFICATION_MAX_BYTES : nat := 4096.

(** Step 2. *)
Definition payload_ok (req : EscalationRequest) : bool :=
  negb (String.eqb (str_trim req.(req_justification)) "")
  && (String.length req.(req_justification) <=? JUSTIFICATION_MAX_BYTES)
  && bool_decide (scope_class req.(req_requested_scope) = req.(req_class))
  && negb (String.eqb req.(req_idempotency_key) NIL_UUID).

(** [handle]: the clock is read for the session check and again for the
    submission; every failure becomes a rejection; the events are emitted after
    the commit. *)
Definition handle (policy : PolicyBundle) (now_auth now : Z) (new_id : string)
    (req : EscalationRequest) (d : Db) : EscalationResponse * list AuditAfter * Db :=
  match get_active_session_by_token now_auth req.(req_session_token) d with
  | (Err _, d1) => (Rejected RateLimitExceeded, [], d1)
  | (Ok session, d1) =>
      if payload_ok req then
        match submit_escalation_blocking policy now new_id session.(sr_session_id)
                session.(sr_lineage_id) req d1 with
        | (Ok (resp, evs), d2) => (resp, evs, d2)
        | (Err rej, d2) => (Rejected rej, [], d2)
        end
      else (Rejected RateLimitExceeded, [], d1)
  end.
End Submission.

(** ** Operator review *)

Record ApprovalScopeWire := MkApprovalScopeWire {
  capability_class : string;
  max_uses : Z;
  valid_for_seconds : Z;
}.

Module EscalationError.
Inductive EscalationError : Type :=
  | NotFound (escalation_id : string)
  | NotPending (escalation_id current_status : string)
  | InvalidScope (reason : string)
  | OperatorUnknown (fingerprint : string)
  | OperatorPubkeyMalformed (fingerprint reason : string)
  | SignatureInvalid
  | Authority (e : AuthorityError)
  | Store
  | Sql (e : SqlError)
  | Crypto (e : CryptoError).
#[export] Instance EscalationError_eq_dec : EqDecision EscalationError.
Proof. solve_decision. Defined.

Definition error_code (e : EscalationError) : string :=
  match e with
  | NotFound _ => "FAIL_ESCALATION_NOT_FOUND"
  | NotPending _ _ => "FAIL_ESCALATION_NOT_PENDING"
  | InvalidScope _ => "FAIL_APPROVAL_SCOPE_INVALID"
  | OperatorUnknown _ => "FAIL_OPERATOR_UNKNOWN"
  | OperatorPubkeyMalformed _ _ => "FAIL_POLICY_OPERATOR_PUBKEY_INVALID"
  | SignatureInvalid => "FAIL_OPERATOR_SIGNATURE_INVALID"
  | Authority _ => "FAIL_APPROVE_ESCALATION"
  | Store | Sql _ => "FAIL_STORE"
  | Crypto _ => "FAIL_CRYPTO"
  end.
End EscalationError.
Abbreviation EscalationError := EscalationError.EscalationError.
Export (hints) EscalationError.

Record ApproveResult := MkApproveResult {
  ar_approval_token_id : string;
  ar_approval_token_raw : string;
  ar_expires_at : Z;
}.

(** [crates/crypto/src/escalation.rs] *)
Definition approval_scope_signing_input (escalation_id capability : string) (uses secs : Z)
    : list byte :=
  chars (join_with PIPE (["approval"; escalation_id; capability; pretty uses] ++ [pretty secs])).

Definition scope_signing_input (escalation_id : string) (scope : ApprovalScopeWire) : list byte :=
  approval_scope_signing_input escalation_id scope.(capability_class) scope.(max_uses)
    scope.(valid_for_seconds).

Definition validate_scope (scope : ApprovalScopeWire) : result EscalationError unit :=
  if String.eqb (str_trim scope.(capability_class)) "" then
    Err (EscalationError.InvalidScope "capability_class must be non-empty")
  else if bool_decide (scope.(max_uses) ≤ 0)%Z then
    Err (EscalationError.InvalidScope
           ("max_uses must be > 0 (got " +:+ pretty scope.(max_uses) +:+ ")"))
  else if bool_decide (scope.(valid_for_seconds) = 0)%Z then
    Err (EscalationError.InvalidScope "valid_for_seconds must be > 0")
  else Ok tt.

Definition lookup_operator_pubkey `{Hex} (policy : PolicyBundle) (fingerprint : string)
    : result EscalationError (list byte) :=
  match operator_entry policy fingerprint with
  | None => Err (EscalationError.OperatorUnknown fingerprint)
  | Some e => map_err (EscalationError.OperatorPubkeyMalformed fingerprint)
                (hex_decode e.(op_pubkey_hex))
  end.

(** [INSERT INTO approval_tokens]: primary key, one token per escalation, unique
    nonce, foreign key. *)
Definition insert_approval_token (id : string) (r : ApprovalTokenRow) : M SqlError unit := λ d,
  if bool_decide (is_Some (d.(approval_tokens) !! id)) then (Err SqlConstraintPrimaryKey, d)
  else if bool_decide (map_Forall (λ _ r', r'.(apt_escalation_id) ≠ r.(apt_escalation_id)
                                          ∧ r'.(apt_nonce) ≠ r.(apt_nonce)) d.(approval_tokens))
  then
    if fk_ok d (bool_decide (is_Some (d.(escalations) !! r.(apt_escalation_id))))
    then (Ok tt, on_approval_tokens <[id := r]> d)
    else (Err SqlConstraintForeignKey, d)
  else (Err SqlConstraintUnique, d).

(** [SET status = st, resolved_at = now, resolution_notes = ..] *)
Definition resolve_escalation (st : string) (now : Z) (notes : option string → option string)
    (r : EscalationRow) : EscalationRow :=
  MkEscalationRow r.(esc_session_id) r.(esc_task_id) r.(esc_lineage_id) r.(esc_initiative_id)
    r.(esc_class) r.(esc_requested_scope_json) r.(esc_justification) r.(esc_idempotency_key) st
    r.(esc_created_at) r.(esc_timeout_at) (Some now) (notes r.(esc_resolution_notes)) r.(esc_initiator).

(** [UPDATE .. WHERE escalation_id = ? AND status = 'Pending'], with the number
    of rows. *)
Definition update_pending (id st : string) (now : Z) (notes : option string → option string)
    (d : Db) : nat * Db :=
  match d.(escalations) !! id with
  | Some r =>
      if String.eqb r.(esc_status) pending
      then (1, on_escalations <[id := resolve_escalation st now notes r]> d) else (0, d)
  | None => (0, d)
  end.

(** The UPDATE when anything but one changed row is an error. *)
Definition update_pending_or (id st : string) (now : Z) (notes : option string → option string)
    (err : EscalationError) : M EscalationError unit := λ d,
  match update_pending id st now notes d with
  | (1, d') => (Ok tt, d')
  | (_, d') => (Err err, d')
  end.

(** [SELECT status] and the check that it is [Pending]. *)
Definition require_pending (id : string) : M EscalationError unit := λ d,
  match d.(escalations) !! id with
  | None => (Err (EscalationError.NotFound id), d)
  | Some r => if String.eqb r.(esc_status) pending then (Ok tt, d)
              else (Err (EscalationError.NotPending id r.(esc_status)), d)
  end.

Section Review.
Context `{Hex, Ed25519} (sha256 : list byte → list byte) (scope_json : ApprovalScopeWire → string).

Definition new_approval_token (escalation_id : string) (scope : ApprovalScopeWire) (fp : string)
    (policy_epoch now expires_at : Z) (nonce : string) (raw : list byte) : ApprovalTokenRow :=
  MkApprovalTokenRow escalation_id (scope_json scope) fp (as_i64 policy_epoch)
    (hex_encode (sha256 raw)) nonce now expires_at false.

(** The transaction of [approve_escalation]. *)
Definition approve_tx (id token_id : string) (row : ApprovalTokenRow) (now : Z)
    : M EscalationError unit :=
  with_tx (
    _ ← require_pending id;
    _ ← se_map_err EscalationError.Sql (insert_approval_token token_id row);
    update_pending_or id (as_sql_str EscalationStatus.Approved) now (λ n, n)
      (EscalationError.Sql SqlNoRows)).

(** [gen_nonce] and [gen_raw] are the outcomes of the random generator. *)
Definition approve_escalation (token_id : string) (gen_nonce : result CryptoError string)
    (gen_raw : result CryptoError (list byte)) (now : Z) (escalation_id : string)
    (scope : ApprovalScopeWire) (operator_sig : list byte) (operator_fp : string)
    (policy_epoch : Z) (policy : PolicyBundle) : M EscalationError ApproveResult :=
  _ ← lift_result (validate_scope scope);
  pubkey_bytes ← lift_result (lookup_operator_pubkey policy operator_fp);
  _ ← lift_result (map_err (λ _, EscalationError.SignatureInvalid)
        (verify_ed25519 pubkey_bytes (scope_signing_input escalation_id scope) operator_sig));
  nonce ← lift_result (map_err EscalationError.Crypto gen_nonce);
  raw ← lift_result (map_err EscalationError.Crypto gen_raw);
  let expires_at := sat_add_i64 now (as_i64 scope.(valid_for_seconds)) in
  _ ← approve_tx escalation_id token_id
        (new_approval_token escalation_id scope operator_fp policy_epoch now expires_at nonce raw) now;
  mret (MkApproveResult token_id (hex_encode raw) expires_at).
End Review.

(** No transaction: one SELECT and one guarded UPDATE under the store lock. *)
Definition deny_escalation (now : Z) (escalation_id : string) (reason : option string)
    : M EscalationError Z :=
  _ ← require_pending escalation_id;
  _ ← update_pending_or escalation_id (as_sql_str EscalationStatus.Denied) now (λ _, reason)
        (EscalationError.NotPending escalation_id (pending +:+ " (race)"));
  mret now.

(** ** Check 6b: merge attribution *)
Module EscalationVerificationError.
Inductive EscalationVerificationError : Type :=
  | NotFound (escalation_id : string)
  | NotConsumed (escalation_id actual : string)
  | ClassMismatch (escalation_id actual : string)
  | SessionMismatch (escalation_id owning_session submitting_session : string)
  | Sqlite.

Definition diagnostic_code (e : EscalationVerificationError) : string :=
  match e with
  | NotFound _ => "FAIL_ESCALATION_NOT_FOUND"
  | NotConsumed _ _ => "FAIL_ESCALATION_NOT_CONSUMED"
  | ClassMismatch _ _ => "FAIL_ESCALATION_CLASS_MISMATCH"
  | SessionMismatch _ _ _ => "FAIL_ESCALATION_SESSION_MISMATCH"
  | Sqlite => "FAIL_STORE"
  end.
End EscalationVerificationError.
Abbreviation EscalationVerificationError := EscalationVerificationError.EscalationVerificationError.

Definition verify_merge_conflict_resolution (escalation_id submitting_session : string) (d : Db)
    : result EscalationVerificationError unit :=
  match d.(escalations) !! escalation_id with
  | None => Err (EscalationVerificationError.NotFound escalation_id)
  | Some r =>
      if negb (String.eqb r.(esc_class) (as_sql_str EscalationClass.MergeConflict)) then
        Err (EscalationVerificationError.ClassMismatch escalation_id r.(esc_class))
      else if negb (String.eqb r.(esc_status) (as_sql_str EscalationStatus.Consumed)) then
        Err (EscalationVerificationError.NotConsumed escalation_id r.(esc_status))
      else if negb (String.eqb r.(esc_session_id) submitting_session) then
        Err (EscalationVerificationError.SessionMismatch escalation_id r.(esc_session_id)
               submitting_session)
      else Ok tt
  end.

(** The escalation UPDATE of a completed workspace merge
    ([complete_workspace_merge_attempt_for_operator]). *)
Definition consumable (key : string) (r : EscalationRow) : bool :=
  String.eqb r.(esc_idempotency_key) key
  && bool_decide (r.(esc_status) ∈ [pending; as_sql_str EscalationStatus.Approved]).
Definition consume_merge_escalations (now : Z) (notes key : string) : M SqlError unit :=
  modify (on_escalations (fmap (λ r,
    if consumable key r
    then resolve_escalation (as_sql_str EscalationStatus.Consumed) now (λ _, Some notes) r else r))).

(** ** Lemmas *)

(** *** The escalation table *)

(** What a row keeps for ever: all but status and resolution. *)
Definition origin (r : EscalationRow) : EscalationRow :=
  MkEscalationRow r.(esc_session_id) r.(esc_task_id) r.(esc_lineage_id) r.(esc_initiative_id)
    r.(esc_class) r.(esc_requested_scope_json) r.(esc_justification) r.(esc_idempotency_key) ""
    r.(esc_created_at) r.(esc_timeout_at) None None r.(esc_initiator).
Definition origins (d : Db) : gmap string EscalationRow := origin <$> d.(escalations).

Lemma origin_resolve st now notes r : origin (resolve_escalation st now notes r) = origin r.
Proof. done. Qed.

Lemma find_escalation_Some s k d kr :
  find_escalation s k d = Some kr → d.(escalations) !! kr.1 = Some kr.2 ∧ same_key s k kr.2 = true.
Proof.
  intros [H1 H2]%find_some. split; [| done].
  apply list_elem_of_In in H1. destruct kr. by apply elem_of_map_to_list in H1.
Qed.

Lemma find_escalation_None s k d :
  find_escalation s k d = None ↔ map_Forall (λ _ r, same_key s k r = false) d.(escalations).
Proof.
  unfold find_escalation. split.
  - intros H id r Hr. apply (find_none _ _ H (id, r)).
    apply list_elem_of_In, elem_of_map_to_list. done.
  - intros H. destruct (List.find _ _) as [kr|] eqn:Hf; [| done].
    destruct (find_escalation_Some s k d kr Hf) as [Hr Hk]. by rewrite (H _ _ Hr) in Hk.
Qed.

Lemma find_escalation_None_origins s k d d' :
  origins d' = origins d → find_escalation s k d = None → find_escalation s k d' = None.
Proof.
  intros Ho. rewrite !find_escalation_None. intros H id r Hr.
  assert (Hx : origins d !! id = Some (origin r)) by (rewrite <-Ho; unfold origins; by rewrite lookup_fmap, Hr).
  unfold origins in Hx. apply lookup_fmap_Some in Hx as (r0 & Heq & Hr0).
  specialize (H _ _ Hr0). revert H. unfold same_key.
  by rewrite (f_equal esc_session_id Heq : esc_session_id r0 = esc_session_id r),
    (f_equal esc_idempotency_key Heq : esc_idempotency_key r0 = esc_idempotency_key r).
Qed.

Definition keys_unique (d : Db) : Prop :=
  ∀ id id' r r', d.(escalations) !! id = Some r → d.(escalations) !! id' = Some r' →
    same_key r.(esc_session_id) r.(esc_idempotency_key) r' = true → id = id'.

Lemma insert_escalation_ok id r d d' :
  insert_escalation id r d = (Ok tt, d') ↔
  escalation_check r = true ∧ d.(escalations) !! id = None ∧
  find_escalation r.(esc_session_id) r.(esc_idempotency_key) d = None ∧
  escalation_fk r d = true ∧ d' = on_escalations <[id := r]> d.
Proof.
  unfold insert_escalation. destruct (escalation_check r); [| naive_solver].
  case_bool_decide as Hid.
  { split; [done |]. intros (_ & Hn & _). rewrite Hn in Hid. by destruct Hid. }
  apply eq_None_not_Some in Hid.
  destruct (find_escalation _ _ d); [naive_solver |].
  destruct (escalation_fk r d); naive_solver.
Qed.

Lemma insert_escalation_err id r d e d' : insert_escalation id r d = (Err e, d') → d' = d.
Proof. unfold insert_escalation. repeat case_match; congruence. Qed.

(** *** Submission, by cases *)
Section SubmissionFacts.
Context `{EscalationLib}.
Implicit Types policy : PolicyBundle.

(** The store after an attempt over the limit, and after a recorded one. *)
Definition first_at (old : option RateLimitRow) (new_at : option Z) : option Z :=
  match old with
  | Some o => match o.(rl_quarantined_at) with Some a => Some a | None => new_at end
  | None => new_at
  end.
Definition set_limits (lineage : string) (ws count quarantined trigger : Z) (at_ : option Z) (d : Db) : Db :=
  on_lineage_rate_limits
    <[lineage := MkRateLimitRow ws count quarantined trigger
                   (first_at (d.(lineage_rate_limits) !! lineage) at_)]> d.

Lemma upsert_run l ws c q t at_ d :
  upsert_lineage_rate_limits l ws c q t at_ d =
  if bool_decide (q ∈ [0; 1]%Z) then (Ok tt, set_limits l ws c q t at_ d) else (Err RateLimitExceeded, d).
Proof. unfold upsert_lineage_rate_limits, set_limits, first_at. by repeat case_match. Qed.

(** The limits row an attempt reads, and its window. *)
Definition limits_row (now : Z) (lineage : string) (d : Db) : RateLimitRow :=
  default (MkRateLimitRow now 0 0 0 None) (d.(lineage_rate_limits) !! lineage).
Definition attempt_window policy (now : Z) (row : RateLimitRow) : Z * Z :=
  rolled_window now (as_i64 policy.(escalation_window)) row.(rl_window_start) row.(rl_escalation_count).
Definition attempt_number policy (now : Z) (row : RateLimitRow) : Z :=
  wrap_add_i64 (attempt_window policy now row).2 1.
Definition submission_timeout policy (now : Z) : Z := sat_add_i64 now (as_i64 policy.(escalation_timeout)).

(** What became of an attempt that passed the checks before the rate limit. *)
Inductive attempt policy (now : Z) (new_id session lineage initiative : string)
    (req : EscalationRequest) (d : Db) : EscalationResponse * list AuditAfter * Db → Prop :=
  | attempt_quarantined :
      (limits_row now lineage d).(rl_quarantined) = 1%Z →
      attempt policy now new_id session lineage initiative req d (Rejected LineageQuarantined, [], d)
  | attempt_over row ws count q evs :
      row = limits_row now lineage d → row.(rl_quarantined) ≠ 1%Z →
      (ws, count) = attempt_window policy now row →
      (policy.(escalation_max_per_window) < attempt_number policy now row)%Z →
      q = bool_decide (policy.(escalation_quarantine_threshold)
                       ≤ sat_add_i64 row.(rl_quarantine_trigger_count) 1)%Z →
      length evs = 1 →
      attempt policy now new_id session lineage initiative req d
        (Rejected (if q then LineageQuarantined else RateLimitExceeded), evs,
         set_limits lineage ws count (if q then 1 else 0)
           (sat_add_i64 row.(rl_quarantine_trigger_count) 1) (if q then Some now else None) d)
  | attempt_recorded row ws count resp evs :
      row = limits_row now lineage d → row.(rl_quarantined) = 0%Z →
      (ws, count) = attempt_window policy now row →
      (attempt_number policy now row ≤ policy.(escalation_max_per_window))%Z →
      insert_escalation new_id
        (new_escalation session lineage initiative req now (submission_timeout policy now)) d
      = (Ok tt, on_escalations
           <[new_id := new_escalation session lineage initiative req now (submission_timeout policy now)]> d) →
      (resp, length evs) = match uuid_parse new_id with
                           | Some id => (Submitted id (submission_timeout policy now), 1)
                           | None => (Rejected RateLimitExceeded, 0)
                           end →
      attempt policy now new_id session lineage initiative req d
        (resp, evs,
         set_limits lineage ws (attempt_number policy now row) 0 row.(rl_quarantine_trigger_count) None
           (on_escalations
              <[new_id := new_escalation session lineage initiative req now (submission_timeout policy now)]> d))
  | attempt_failed row ws count :
      row = limits_row now lineage d → row.(rl_quarantined) ≠ 1%Z →
      (ws, count) = attempt_window policy now row →
      (attempt_number policy now row ≤ policy.(escalation_max_per_window))%Z →
      (row.(rl_quarantined) = 0%Z →
       is_ok (insert_escalation new_id
                (new_escalation session lineage initiative req now (submission_timeout policy now)) d).1 = false) →
      attempt policy now new_id session lineage initiative req d (Rejected RateLimitExceeded, [], d).

Lemma new_escalation_check s l i req now t :
  escalation_check (new_escalation s l i req now t) = true.
Proof. by apply (bool_decide_unpack _). Qed.

(** The response of [handle] to what the submission returned. *)
Definition respond (r : result EscalationRejectionReason (EscalationResponse * list AuditAfter) * Db)
    : EscalationResponse * list AuditAfter * Db :=
  match r with
  | (Ok (resp, evs), d) => (resp, evs, d)
  | (Err rej, d) => (Rejected rej, [], d)
  end.

Lemma record_escalation_run policy now id s l i req ws n q t d :
  let row := new_escalation s l i req now (submission_timeout policy now) in
  let recorded := on_escalations <[id := row]> d in
  respond (record_escalation policy now id s l i req ws n q t d) =
  match insert_escalation id row d with
  | (Ok _, _) =>
      if bool_decide (q ∈ [0; 1]%Z) then
        match uuid_parse id with
        | Some id' => (Submitted id' (submission_timeout policy now),
                       [MkAuditAfter (EvEscalationSubmitted id req.(req_task_id)
                          (as_sql_str req.(req_class)) l) s i], set_limits l ws n q t None recorded)
        | None => (Rejected RateLimitExceeded, [], set_limits l ws n q t None recorded)
        end
      else (Rejected RateLimitExceeded, [], d)
  | (Err _, _) => (Rejected RateLimitExceeded, [], d)
  end.
Proof.
  intros row recorded. unfold record_escalation, with_tx. se_unfold.
  fold (submission_timeout policy now). fold row.
  destruct (insert_escalation id row d) as [[[]|e] d1] eqn:Hi; simpl; [| done].
  apply insert_escalation_ok in Hi as (_ & _ & _ & _ & ->). fold recorded.
  rewrite upsert_run. case_bool_decide; [| done]. by destruct (uuid_parse id).
Qed.

Lemma limited_submission_attempt policy now id s l i req d :
  attempt policy now id s l i req d (respond (limited_submission policy now id s l i req d)).
Proof.
  unfold limited_submission. fold (limits_row now l d). set (row := limits_row now l d).
  case_bool_decide as Hq; [by apply attempt_quarantined |].
  fold (attempt_window policy now row). destruct (attempt_window policy now row) as [ws count] eqn:Hw.
  assert (Hn : wrap_add_i64 count 1 = attempt_number policy now row) by (unfold attempt_number; by rewrite Hw).
  rewrite Hn. case_bool_decide as Hmax.
  - unfold over_limit. se_unfold. rewrite upsert_run.
    set (q := bool_decide (_ ≤ sat_add_i64 _ 1)%Z).
    rewrite bool_decide_eq_true_2 by (destruct q; set_solver).
    cbn [respond]. assert (Ha := attempt_over policy now id s l i req d row ws count q).
    destruct q eqn:Hqq; apply Ha; try done; by rewrite ?Hw.
  - rewrite record_escalation_run.
    destruct (insert_escalation id _ d) as [[[]|e] d1] eqn:Hi.
    + pose proof Hi as Hi'. apply insert_escalation_ok in Hi' as (_ & _ & _ & _ & ->).
      case_bool_decide as Hq01.
      * assert (Hq0 : rl_quarantined row = 0%Z) by set_solver. rewrite Hq0.
        destruct (uuid_parse id) eqn:Hu; (eapply (attempt_recorded policy now id s l i req d row ws count); [done | done | by rewrite Hw | lia | done |]);
          by rewrite Hu.
      * eapply (attempt_failed policy now id s l i req d row ws count); [done | done | by rewrite Hw | lia |].
        intros Hq0. rewrite Hq0 in Hq01. set_solver.
    + eapply (attempt_failed policy now id s l i req d row ws count); [done | done | by rewrite Hw | lia |]. intros _. by rewrite Hi.
Qed.
End SubmissionFacts.

(** *** The handler, by cases *)
Section HandlerFacts.
Context `{EscalationLib}.

(** The checks before the idempotency probe: the session, the payload, the task
    and its lineage. *)
Definition ready (now_auth : Z) (req : EscalationRequest) (d : Db)
    (session lineage initiative : string) : Prop :=
  ∃ s t, get_active_session_by_token now_auth req.(req_session_token) d = (Ok s, d) ∧
    s.(sr_session_id) = session ∧ s.(sr_lineage_id) = lineage ∧ payload_ok req = true ∧
    d.(tasks) !! req.(req_task_id) = Some t ∧ t.(task_initiative_id) = initiative ∧
    (∀ l, task_lineage t d = Some l → l = lineage).

Lemma get_active_session_pure now tok d :
  (get_active_session_by_token now tok d).2 = d.
Proof.
  unfold get_active_session_by_token, get_session_by_token. se_unfold.
  destruct (List.find _ _); done.
Qed.

Inductive handled (policy : PolicyBundle) (now_auth now : Z) (new_id : string)
    (req : EscalationRequest) (d : Db) : EscalationResponse * list AuditAfter * Db → Prop :=
  | handled_refused :
      (∀ s l i, ¬ ready now_auth req d s l i) →
      handled policy now_auth now new_id req d (Rejected RateLimitExceeded, [], d)
  | handled_known s l i eid r :
      ready now_auth req d s l i → find_escalation s req.(req_idempotency_key) d = Some (eid, r) →
      handled policy now_auth now new_id req d
        (match uuid_parse eid with Some id => AlreadyPending id | None => Rejected RateLimitExceeded end,
         [], d)
  | handled_new s l i res :
      ready now_auth req d s l i → find_escalation s req.(req_idempotency_key) d = None →
      attempt policy now new_id s l i req d res → handled policy now_auth now new_id req d res.

Lemma handle_handled policy now_auth now id req d :
  handled policy now_auth now id req d (handle policy now_auth now id req d).
Proof.
  unfold handle. pose proof (get_active_session_pure now_auth req.(req_session_token) d) as Hp.
  destruct (get_active_session_by_token now_auth req.(req_session_token) d) as [[s|e] d1] eqn:Hs;
    simpl in Hp; subst d1.
  2: { apply handled_refused. intros ? ? ? (s & t & Hx & _). rewrite Hs in Hx. congruence. }
  destruct (payload_ok req) eqn:Hpay.
  2: { apply handled_refused. intros ? ? ? (s' & t & _ & _ & _ & Hx & _). congruence. }
  fold (respond (submit_escalation_blocking policy now id s.(sr_session_id) s.(sr_lineage_id) req d)).
  unfold submit_escalation_blocking.
  destruct (tasks d !! req_task_id req) as [t|] eqn:Ht.
  2: { apply handled_refused. intros ? ? ? (s' & t & _ & _ & _ & _ & Hx & _). congruence. }
  destruct (match task_lineage t d with
            | Some l => negb (String.eqb l (sr_lineage_id s)) | None => false end) eqn:Hl.
  { apply handled_refused. intros ss ll ii (s' & t' & Hx & _ & <- & _ & Ht' & _ & Hlin).
    rewrite Hs in Hx. rewrite Ht in Ht'. simplify_eq.
    destruct (task_lineage t' d) as [l|]; [| done]. rewrite (Hlin l eq_refl), String.eqb_refl in Hl. done. }
  assert (Hready : ready now_auth req d (sr_session_id s) (sr_lineage_id s) (task_initiative_id t)).
  { exists s, t. split_and!; try done. intros l Hlin. rewrite Hlin in Hl.
    apply negb_false_iff, String.eqb_eq in Hl. done. }
  destruct (find_escalation _ _ d) as [[eid r]|] eqn:Hf.
  - pose proof (handled_known policy now_auth now id req d _ _ _ eid r Hready Hf) as Hk.
    by destruct (uuid_parse eid).
  - eapply handled_new; [done | done |]. apply limited_submission_attempt.
Qed.

Lemma ready_unique now_auth req d s l i s' l' i' :
  ready now_auth req d s l i → ready now_auth req d s' l' i' → s = s' ∧ l = l' ∧ i = i'.
Proof.
  intros (sr & t & Hs & <- & <- & _ & Ht & <- & _) (sr' & t' & Hs' & <- & <- & _ & Ht' & <- & _).
  rewrite Hs in Hs'. rewrite Ht in Ht'. by simplify_eq.
Qed.

(** What [handle] does when it is ready. *)
Lemma handle_ready policy now_auth now id req d s l i :
  ready now_auth req d s l i →
  handle policy now_auth now id req d =
  match find_escalation s req.(req_idempotency_key) d with
  | Some (eid, _) =>
      (match uuid_parse eid with Some id => AlreadyPending id | None => Rejected RateLimitExceeded end,
       [], d)
  | None => respond (limited_submission policy now id s l i req d)
  end.
Proof.
  intros (sr & t & Hs & <- & <- & Hpay & Ht & <- & Hlin).
  unfold handle. rewrite Hs, Hpay. unfold submit_escalation_blocking. rewrite Ht.
  assert ((match task_lineage t d with
           | Some l => negb (String.eqb l (sr_lineage_id sr)) | None => false end) = false) as ->.
  { destruct (task_lineage t d) as [l|]; [| done]. by rewrite (Hlin l eq_refl), String.eqb_refl. }
  destruct (find_escalation _ _ d) as [[eid r]|]; [by destruct (uuid_parse eid) | done].
Qed.

Lemma quarantined_submission policy now_auth now id req d s l i row :
  ready now_auth req d s l i → find_escalation s req.(req_idempotency_key) d = None →
  d.(lineage_rate_limits) !! l = Some row → row.(rl_quarantined) = 1%Z →
  handle policy now_auth now id req d = (Rejected LineageQuarantined, [], d).
Proof.
  intros Hr Hf Hl Hq. rewrite (handle_ready policy now_auth now id req d s l i Hr), Hf.
  unfold limited_submission. rewrite Hl. simpl. by rewrite bool_decide_eq_true_2.
Qed.

(** Sessions are found by their id. *)
Lemma ready_session now_auth req d s l i :
  ready now_auth req d s l i → is_Some (d.(sessions) !! s).
Proof.
  intros (sr & t & Hg & <- & _). revert Hg.
  unfold get_active_session_by_token, get_session_by_token. se_unfold.
  destruct (List.find _ _) as [[k r]|] eqn:Hf; simpl; [| done].
  apply find_some in Hf as [Hf _]. apply list_elem_of_In, elem_of_map_to_list in Hf.
  unfold require_active_session_row. repeat case_match; intros [= <-]; simpl; eauto.
Qed.

(** A submission that was answered with an escalation recorded it. *)
Lemma submitted_inv policy now_auth now id req d s l i eid timeout evs d' :
  ready now_auth req d s l i →
  handle policy now_auth now id req d = (Submitted eid timeout, evs, d') →
  find_escalation s req.(req_idempotency_key) d = None ∧
  attempt policy now id s l i req d (Submitted eid timeout, evs, d') ∧ uuid_parse id = Some eid ∧
  d'.(escalations) !! id
    = Some (new_escalation s l i req now (submission_timeout policy now)).
Proof.
  intros Hr. rewrite (handle_ready policy now_auth now id req d s l i Hr).
  destruct (find_escalation _ _ d) as [[k r]|]; [by destruct (uuid_parse k) |].
  intros Heq. pose proof (limited_submission_attempt policy now id s l i req d) as Ha.
  rewrite Heq in Ha. split; [done |]. split; [done |].
  inversion Ha as [| |row ws count resp evs' Hrow Hq Hw Hn Hins Hresp|]; subst.
  destruct (uuid_parse id) as [id'|]; [| done]. injection Hresp as -> _.
  split; [done |]. simpl. by rewrite lookup_insert_eq.
Qed.
End HandlerFacts.

(** *** Check 6b *)

Lemma attribution_ok id session d :
  verify_merge_conflict_resolution id session d = Ok tt ↔
  ∃ r, d.(escalations) !! id = Some r ∧ r.(esc_class) = as_sql_str EscalationClass.MergeConflict ∧
    r.(esc_status) = as_sql_str EscalationStatus.Consumed ∧ r.(esc_session_id) = session.
Proof.
  unfold verify_merge_conflict_resolution. destruct (escalations d !! id) as [r|]; [| naive_solver].
  repeat match goal with |- context [String.eqb ?a ?b] => destruct (String.eqb_spec a b) end;
    simpl; split; try done; try (intros (r' & ? & ? & ? & ?); simplify_eq; congruence). by exists r.
Qed.

(** *** Approval *)

Lemma separator_inj_r {A} (c : A) l1 l1' l2 l2' :
  c ∉ l2 → c ∉ l2' → l1 ++ c :: l2 = l1' ++ c :: l2' → l1 = l1' ∧ l2 = l2'.
Proof.
  intros H2 H2' Heq. apply (f_equal reverse) in Heq.
  rewrite !reverse_app, !reverse_cons, <-!app_assoc in Heq. simpl in Heq.
  apply separator_inj in Heq as [E2 E1]; [| by rewrite elem_of_reverse | by rewrite elem_of_reverse].
  by apply (inj reverse) in E1, E2.
Qed.

(** The capability is free text between fields that are not. *)
Lemma approval_input_inj id cap uses secs id' cap' uses' secs' :
  pipe_free id → pipe_free id' →
  approval_scope_signing_input id cap uses secs = approval_scope_signing_input id' cap' uses' secs' →
  id = id' ∧ cap = cap' ∧ uses = uses' ∧ secs = secs'.
Proof.
  intros Hid Hid' Heq. apply chars_inj in Heq.
  change (join_with PIPE (["approval"; id] ++ [cap +:+ String PIPE (pretty uses +:+ String PIPE (pretty secs))])
        = join_with PIPE (["approval"; id'] ++ [cap' +:+ String PIPE (pretty uses' +:+ String PIPE (pretty secs'))]))
    in Heq.
  assert (Ha : pipe_free "approval") by (by apply (bool_decide_unpack _)).
  apply join_fields_inj in Heq as [Hl Hx]; [| by repeat constructor | by repeat constructor | done].
  injection Hl as ->. apply (f_equal chars) in Hx. rewrite !chars_app in Hx. simpl in Hx.
  rewrite !chars_app in Hx. simpl in Hx.
  rewrite !app_comm_cons, !app_assoc in Hx.
  apply separator_inj_r in Hx as [Hx Hs]; [| apply pretty_Z_pipe_free | apply pretty_Z_pipe_free].
  apply separator_inj_r in Hx as [Hc Hu]; [| apply pretty_Z_pipe_free | apply pretty_Z_pipe_free].
  apply chars_inj in Hs, Hc, Hu. by apply (inj pretty) in Hs, Hu.
Qed.

(** ** Properties *)

Section SubmissionProperty.
Context `{EscalationLib}.

Lemma limited_submission_within policy now id s l i req d :
  let row := limits_row now l d in
  row.(rl_quarantined) = 0%Z → (attempt_number policy now row ≤ policy.(escalation_max_per_window))%Z →
  limited_submission policy now id s l i req d =
  record_escalation policy now id s l i req (attempt_window policy now row).1
    (attempt_number policy now row) 0 row.(rl_quarantine_trigger_count) d.
Proof.
  intros row Hq Hn. unfold limited_submission. fold (limits_row now l d). fold row. rewrite Hq.
  simpl. fold (attempt_window policy now row).
  destruct (attempt_window policy now row) as [ws count] eqn:Hw.
  assert (attempt_number policy now row = wrap_add_i64 count 1) as E
    by (unfold attempt_number; by rewrite Hw).
  rewrite E in Hn. rewrite bool_decide_eq_false_2 by lia. by rewrite E.
Qed.

Lemma attempt_submitted policy now id s l i req d eid timeout evs d' :
  attempt policy now id s l i req d (Submitted eid timeout, evs, d') →
  (limits_row now l d).(rl_quarantined) = 0%Z ∧
  (attempt_number policy now (limits_row now l d) ≤ policy.(escalation_max_per_window))%Z ∧
  let r := new_escalation s l i req now (submission_timeout policy now) in
  insert_escalation id r d = (Ok tt, on_escalations <[id := r]> d).
Proof. intros Ha. inversion Ha; by subst. Qed.

(** When a submission becomes an escalation: exactly when the session is
    active, the payload passes, the task exists and its session, if any, is of the
    same lineage, the key is new for the session, the lineage is not quarantined
    and has room in its window, and the fresh id and the foreign keys hold.  Then
    the pending row with the policy's deadline, the advanced counter and one audit
    event are the whole effect. *)
Theorem submission_recorded_iff policy now_auth now id req d eid timeout evs d' :
  handle policy now_auth now id req d = (Submitted eid timeout, evs, d') ↔
  ∃ s l i, ready now_auth req d s l i ∧
    find_escalation s req.(req_idempotency_key) d = None ∧
    let row := limits_row now l d in
    let r := new_escalation s l i req now (submission_timeout policy now) in
    row.(rl_quarantined) = 0%Z ∧
    (attempt_number policy now row ≤ policy.(escalation_max_per_window))%Z ∧
    d.(escalations) !! id = None ∧ escalation_fk r d = true ∧ uuid_parse id = Some eid ∧
    timeout = submission_timeout policy now ∧
    evs = [MkAuditAfter (EvEscalationSubmitted id req.(req_task_id) (as_sql_str req.(req_class)) l) s i] ∧
    d' = set_limits l (attempt_window policy now row).1 (attempt_number policy now row) 0
           row.(rl_quarantine_trigger_count) None (on_escalations <[id := r]> d).
Proof.
  split.
  - intros Hh. pose proof (handle_handled policy now_auth now id req d) as Hd. rewrite Hh in Hd.
    inversion Hd as [Hn|s l i k r Hr Hf Heq|s l i res Hr Hf Ha]; subst.
    { by destruct (uuid_parse k). }
    clear Hd Ha. exists s, l, i. split_and!; try done.
    destruct (submitted_inv policy now_auth now id req d s l i eid timeout evs d' Hr Hh)
      as (_ & Ha & Hu & _).
    apply attempt_submitted in Ha as (Hq & Hn & Hins).
    pose proof Hins as Hins'. apply insert_escalation_ok in Hins' as (_ & Hid & _ & Hfk & _).
    rewrite (handle_ready policy now_auth now id req d s l i Hr), Hf in Hh.
    rewrite limited_submission_within, record_escalation_run, Hins, Hu in Hh by done.
    simpl in Hh. injection Hh as <- <- <-. split_and!; done.
  - intros (s & l & i & Hr & Hf & Hq & Hn & Hid & Hfk & Hu & -> & -> & ->).
    rewrite (handle_ready policy now_auth now id req d s l i Hr), Hf.
    rewrite limited_submission_within, record_escalation_run by done.
    rewrite (proj2 (insert_escalation_ok id _ d _)
               (conj (new_escalation_check s l i req now _) (conj Hid (conj Hf (conj Hfk eq_refl))))).
    by rewrite Hu.
Qed.
End SubmissionProperty.


Section ApprovalProperty.
Context `{Hex, Ed25519} (sha256 : list byte → list byte) (scope_json : ApprovalScopeWire → string).

Definition approved (id token_id : string) (t : ApprovalTokenRow) (now : Z) (r : EscalationRow)
    (d : Db) : Db :=
  on_escalations <[id := resolve_escalation (as_sql_str EscalationStatus.Approved) now (λ n, n) r]>
    (on_approval_tokens <[token_id := t]> d).

Lemma approve_tx_ok id token_id t now d d' :
  t.(apt_escalation_id) = id →
  approve_tx id token_id t now d = (Ok tt, d') →
  ∃ r, d.(escalations) !! id = Some r ∧ r.(esc_status) = pending ∧
    d.(approval_tokens) !! token_id = None ∧
    map_Forall (λ _ t', t'.(apt_escalation_id) ≠ id ∧ t'.(apt_nonce) ≠ t.(apt_nonce)) d.(approval_tokens) ∧
    d' = approved id token_id t now r d.
Proof.
  intros Ht. unfold approve_tx, with_tx, require_pending, update_pending_or. se_unfold.
  destruct (escalations d !! id) as [r|] eqn:Hr; [| done].
  destruct (String.eqb_spec (esc_status r) pending) as [Hs|]; [| done].
  unfold insert_approval_token. case_bool_decide as Hid; [done |]. apply eq_None_not_Some in Hid.
  rewrite Ht. case_bool_decide as Hall; [| done]. destruct (fk_ok _ _); [| done]. simpl.
  unfold update_pending. simpl. rewrite Hr, Hs, String.eqb_refl. intros [= <-].
  exists r. by split_and!.
Qed.

(** An approval is all or nothing, and signed.  A successful approval means a
    valid scope, a signature by the operator's listed key over exactly this
    escalation and scope, a pending row and no token for it; the effect is the
    approved row and one token whose stored hash is that of the returned secret.
    Any failure leaves the store unchanged. *)
Theorem approve_escalation_spec token_id gen_nonce gen_raw now id scope sig fp ep policy d :
  let '(res, d') := approve_escalation sha256 scope_json token_id gen_nonce gen_raw now id scope sig
                      fp ep policy d in
  match res with
  | Err _ => d' = d
  | Ok res =>
      ∃ e pk nonce raw r, operator_entry policy fp = Some e ∧ hex_decode e.(op_pubkey_hex) = Ok pk ∧
        verify_ed25519 pk (scope_signing_input id scope) sig = Ok tt ∧
        str_trim scope.(capability_class) ≠ "" ∧ (0 < scope.(max_uses))%Z ∧ scope.(valid_for_seconds) ≠ 0%Z ∧
        gen_nonce = Ok nonce ∧ gen_raw = Ok raw ∧
        d.(escalations) !! id = Some r ∧ r.(esc_status) = pending ∧
        map_Forall (λ _ t, t.(apt_escalation_id) ≠ id ∧ t.(apt_nonce) ≠ nonce) d.(approval_tokens) ∧
        let expires_at := sat_add_i64 now (as_i64 scope.(valid_for_seconds)) in
        res = MkApproveResult token_id (hex_encode raw) expires_at ∧
        d' = approved id token_id
               (MkApprovalTokenRow id (scope_json scope) fp (as_i64 ep) (hex_encode (sha256 raw)) nonce now
                  expires_at false) now r d
  end.
Proof.
  unfold approve_escalation, lookup_operator_pubkey, validate_scope. se_unfold.
  destruct (String.eqb_spec (str_trim (capability_class scope)) ""); [done |].
  case_bool_decide; [done |]. case_bool_decide; [done |]. simpl.
  destruct (operator_entry policy fp) as [e|]; simpl; [| done].
  destruct (hex_decode _) as [pk|] eqn:Hpk; simpl; [| done].
  destruct (verify_ed25519 pk _ sig) as [[]|] eqn:Hv; simpl; [| done].
  destruct gen_nonce as [nonce|]; simpl; [| done]. destruct gen_raw as [raw|]; simpl; [| done].
  set (t := new_approval_token _ _ _ _ _ _ _ _ _ _).
  destruct (approve_tx id token_id t now d) as [[[]|err] d'] eqn:Htx.
  - destruct (approve_tx_ok id token_id t now d d' eq_refl Htx) as (r & Hr & Hs & _ & Hall & ->).
    exists e, pk, nonce, raw, r. split_and!; try done. lia.
  - unfold approve_tx in Htx. by apply with_tx_err_rollback in Htx.
Qed.
End ApprovalProperty.

(** An approval signature binds the escalation and the scope.  For ids
    without the separator (the kernel's are UUIDs) the signed bytes determine id,
    capability, uses and duration, although the capability is free text that may
    contain the separator. *)
Theorem approval_signature_binds id scope id' scope' :
  pipe_free id → pipe_free id' →
  scope_signing_input id scope = scope_signing_input id' scope' → id = id' ∧ scope = scope'.
Proof.
  intros Hid Hid' Heq. destruct scope, scope'.
  destruct (approval_input_inj _ _ _ _ _ _ _ _ Hid Hid' Heq) as (-> & Hc & Hu & Hs). simpl in *.
  by subst.
Qed.

Lemma approval_signature_binds_witness :
  let scope := MkApprovalScopeWire "x|9|9" 1 60 in
  scope_signing_input "e1" scope = scope_signing_input "e1" (MkApprovalScopeWire ("x|9" +:+ "|9") 1 60) ∧
  scope = MkApprovalScopeWire ("x|9" +:+ "|9") 1 60.
Proof.
  split; [by vm_compute |].
  apply (approval_signature_binds "e1" (MkApprovalScopeWire "x|9|9" 1 60) "e1"
           (MkApprovalScopeWire ("x|9" +:+ "|9") 1 60));
    [apply (bool_decide_unpack _); vm_compute; exact I
    | apply (bool_decide_unpack _); vm_compute; exact I | by vm_compute].
Defined.
