(* ===== verification/KernelEscalation.v ===== *)
(** * Kernel-initiated escalations and the operator's answer

    The [LogicalDeadlock] half of [kernel/src/orch_respawn_ceiling.rs], the
    permanent-failure helper [kernel/src/initiative_escalation.rs], the ceiling
    transaction of [respawn_orchestrator_for_initiative] in
    [kernel/src/session_spawn_orchestrator.rs], and the escalation handlers of
    [kernel/src/ipc/operator.rs].  Log lines, the respawn itself and lost audit
    emissions are not modelled; [short_hash] is a parameter. *)

From S2P Require Import Prelude Fsm Store TaskTransitions Bytes Crypto Cert Policy Session Escalation.

(** ** Inserting the escalation *)

Definition MAX_LOGICAL_DEADLOCK_REASON_LEN : nat := 1024.
Definition truncate_for_scope (s : string) : string :=
  truncate_str MAX_LOGICAL_DEADLOCK_REASON_LEN s.

Definition STATE_RECOVERY : string := as_sql_str InitiativeState.RecoveryRequired.
Definition STATE_FAILED : string := as_sql_str InitiativeState.Failed.
Definition STATE_EXECUTING : string := as_sql_str InitiativeState.Executing.

(** [INSERT INTO escalations .. ON CONFLICT(session_id, idempotency_key) DO
    NOTHING], with the number of rows: SQLite tests the conflict target first. *)
Definition insert_or_ignore (id : string) (r : EscalationRow) : M SqlError nat := λ d,
  if escalation_check r then
    match find_escalation r.(esc_session_id) r.(esc_idempotency_key) d with
    | Some _ => (Ok 0, d)
    | None =>
        if bool_decide (is_Some (d.(escalations) !! id)) then (Err SqlConstraintPrimaryKey, d)
        else if escalation_fk r d then (Ok 1, on_escalations <[id := r]> d)
        else (Err SqlConstraintForeignKey, d)
    end
  else (Err SqlConstraintCheck, d).

(** The foreign-key anchor: task, session, lineage, and the sort key. *)
Record Anchor := MkAnchor {
  an_task : string; an_session : string; an_lineage : string; an_key : Z }.

(** Tier 1: tasks of the initiative joined with their sessions. *)
Definition worker_anchors (i : string) (d : Db) : list Anchor :=
  omap (λ kr : string * TaskRow,
    if String.eqb kr.2.(task_initiative_id) i then
      sid ← kr.2.(task_session_id);
      s ← d.(sessions) !! sid;
      Some (MkAnchor kr.1 sid s.(sess_lineage_id) kr.2.(task_transitioned_at))
    else None) (map_to_list d.(tasks)).

(** Tier 2: any task, and the initiative's orchestrator sessions. *)
Definition any_tasks (i : string) (d : Db) : list (string * Z) :=
  omap (λ kr : string * TaskRow,
    if String.eqb kr.2.(task_initiative_id) i then Some (kr.1, kr.2.(task_transitioned_at)) else None)
    (map_to_list d.(tasks)).
Definition orchestrator_sessions (i : string) (d : Db) : list (string * string * Z) :=
  omap (λ kr : string * SessionRow,
    if bool_decide (kr.2.(sess_initiative_id) = Some i)
       && bool_decide (kr.2.(sess_agent_type) = Some "Orchestrator")
    then Some (kr.1, kr.2.(sess_lineage_id), kr.2.(sess_created_at)) else None)
    (map_to_list d.(sessions)).

(** The three [ORDER BY .. DESC LIMIT 1] choices. *)
Class AnchorPicks := {
  pick_anchor : list Anchor → option Anchor;
  pick_task : list (string * Z) → option (string * Z);
  pick_session : list (string * string * Z) → option (string * string * Z);
  pick_anchor_latest : Latest an_key pick_anchor;
  pick_task_latest : Latest snd pick_task;
  pick_session_latest : Latest snd pick_session;
}.

Section Insertion.
Context `{EscalationLib, AnchorPicks}.

Definition resolve_anchor (i : string) (d : Db) : option (string * string * string) :=
  match pick_anchor (worker_anchors i d) with
  | Some a => Some (a.(an_task), a.(an_session), a.(an_lineage))
  | None =>
      match pick_task (any_tasks i d), pick_session (orchestrator_sessions i d) with
      | Some (t, _), Some (s, l, _) => Some (t, s, l)
      | _, _ => None
      end
  end.

Definition kernel_row (task session lineage i scope_json justification key : string)
    (now timeout_at : Z) : EscalationRow :=
  MkEscalationRow session task lineage i (as_sql_str EscalationClass.LogicalDeadlock) scope_json
    justification key pending now timeout_at None None KERNEL.

(** What both insert functions do with the anchor, the scope and the key. *)
Definition insert_kernel_escalation (new_id i key justification : string)
    (scope : string → RequestedEscalationScope) (timeout_at now : Z)
    : M SqlError (option string) := λ d,
  match resolve_anchor i d with
  | None => (Ok None, d)
  | Some (task, session, lineage) =>
      match uuid_parse i with
      | None => (Ok None, d)
      | Some uuid =>
          match insert_or_ignore new_id
                  (kernel_row task session lineage i (scope_to_json (scope uuid)) justification key
                     now timeout_at) d with
          | (Ok 0, d') => (Ok None, d')
          | (Ok _, d') => (Ok (Some new_id), d')
          | (Err e, d') => (Err e, d')
          end
      end
  end.

Definition deadlock_key (i : string) (attempts : Z) : string :=
  "kernel-orch-respawn-ceiling:" +:+ i +:+ ":" +:+ pretty attempts.

Definition deadlock_justification (attempts window_secs : Z) (kind reason : string) : string :=
  "Orchestrator respawn-no-progress ceiling exceeded (" +:+ pretty attempts
  +:+ " respawns within " +:+ pretty window_secs
  +:+ "s with zero subtask FSM transitions). Last orchestrator intent: " +:+ kind
  +:+ " rejected as " +:+ reason
  +:+ ". Operator approval required to reset the respawn counter and retry, or deny to close the initiative as Failed.".

Definition insert_logical_deadlock_escalation_in_tx (new_id i : string) (attempts window_secs : Z)
    (last_intent_kind last_rejection_reason : string) (timeout_at now : Z)
    : M SqlError (option string) :=
  let kind := truncate_for_scope last_intent_kind in
  let reason := truncate_for_scope last_rejection_reason in
  insert_kernel_escalation new_id i (deadlock_key i attempts)
    (deadlock_justification attempts window_secs kind reason)
    (λ uuid, RequestedEscalationScope.LogicalDeadlock uuid attempts window_secs kind reason)
    timeout_at now.

Definition permanent_failure_justification (cause_kind cause_summary : string) : string :=
  "Initiative permanent-failure escalation triggered by audit event " +:+ cause_kind +:+ ": "
  +:+ cause_summary
  +:+ ". Operator approval resets the orchestrator no-progress respawn counter and transitions the initiative back to `Executing`; deny to preserve the `Failed` terminal state. See INV-INITIATIVE-PERMANENT-FAILURE-ESCALATION-COVERAGE-01 for per-cause recovery semantics.".

Definition insert_permanent_failure_escalation_in_tx (new_id i cause_kind cause_summary key : string)
    (timeout_at now : Z) : M SqlError (option string) :=
  insert_kernel_escalation new_id i key (permanent_failure_justification cause_kind cause_summary)
    (λ uuid, RequestedEscalationScope.LogicalDeadlock uuid 1 0 cause_kind cause_summary)
    timeout_at now.
End Insertion.

(** ** The respawn ceiling *)

Definition set_initiative_state (st : string) (completed_at : option Z) (r : InitiativeRow)
    : InitiativeRow :=
  MkInitiativeRow st r.(ini_terminal_criteria_json) r.(ini_plan_artifact_sha256) r.(ini_created_at)
    r.(ini_approved_at) completed_at r.(ini_orchestrator_no_progress_respawn_count)
    r.(ini_plan_bundle_sha256).

Definition update_initiative (i : string) (f : InitiativeRow → InitiativeRow) : M SqlError unit :=
  modify (on_initiatives (alter f i)).

(** [state IN ('Admitted','Running','GatesPending','BlockedRecoveryPending')] *)
Definition in_flight_state (st : string) : bool :=
  bool_decide (st ∈ ["Admitted"; "Running"; "GatesPending"; "BlockedRecoveryPending"]).
Definition in_flight (i : string) (r : TaskRow) : bool :=
  String.eqb r.(task_initiative_id) i && in_flight_state r.(task_state).
Definition in_flight_task (i : string) (d : Db) (t : string) : bool :=
  match d.(tasks) !! t with Some r => in_flight i r | None => false end.

Definition cascade_reason : string :=
  "parent initiative requires recovery: orchestrator no-progress respawn ceiling exceeded (INV-ORCH-RESPAWN-NO-PROGRESS-CEILING-01)".

Definition fail_activation (now : Z) (r : ActivationRow) : ActivationRow :=
  MkActivationRow r.(act_task_id) r.(act_initiative_id) "Failed" r.(act_session_id)
    r.(act_evaluation_sha) r.(act_crash_retry_count) r.(act_review_reject_count)
    r.(act_created_at) (Some (default now r.(act_activated_at))) (Some now).

Definition open_activation (i : string) (d : Db) (r : ActivationRow) : bool :=
  String.eqb r.(act_initiative_id) i && bool_decide (r.(act_state) ∈ ["PendingActivation"; "Active"])
  && in_flight_task i d r.(act_task_id).

Definition delete_reservations (i : string) : M SqlError unit :=
  modify (λ d, on_reservations (filter (λ kr, in_flight_task i d kr.1.2 = false)) d).
Definition close_open_activations (i : string) (now : Z) : M SqlError unit := λ d,
  update_activations (open_activation i d) (fail_activation now) d.
Definition fail_tasks (i : string) (now : Z) : M SqlError unit :=
  modify (on_tasks (fmap (λ r,
    if in_flight i r then write_task_state "Failed" now (Some cascade_reason) "kernel" r else r))).

(** [COALESCE(strftime('%s','now') - created_at, 0)], read as [i64] and cut at 0. *)
Definition window_since_creation (i : string) (sql_now : Z) (d : Db) : Z :=
  match d.(initiatives) !! i with
  | Some r => Z.max 0 (sql_now - r.(ini_created_at))
  | None => 0
  end.

Section Ceiling.
Context `{EscalationLib, AnchorPicks}.

(** The transaction of the ceiling check; [timeout_secs] is the policy's
    escalation timeout. *)
Definition ceiling_tx (new_id i : string) (max_attempts timeout_secs sql_now now : Z)
    : M SqlError (CeilingOutcome * option string) :=
  with_tx (
    outcome ← increment_no_progress_count_with_ceiling_in_tx i max_attempts;
    match outcome with
    | Permitted _ => mret (outcome, None)
    | Exceeded count _ =>
        window_secs ← gets (window_since_creation i sql_now);
        eid ← insert_logical_deadlock_escalation_in_tx new_id i count window_secs "RetrySubTask"
                "RetrySubTaskRejectedNotRetryable" (sat_add_i64 now (as_i64 timeout_secs)) now;
        _ ← update_initiative i (set_initiative_state STATE_RECOVERY None);
        _ ← delete_reservations i;
        _ ← close_open_activations i now;
        _ ← fail_tasks i now;
        mret (outcome, eid)
    end).
End Ceiling.

(** ** Permanent failures *)

Module PermanentFailureCause.
Inductive PermanentFailureCause : Type :=
  | SessionVmFailedFinal (final_reason : string) (total_attempts : Z)
  | PlanRejected (reason : string)
  | EscalationTimedOut (original_escalation_id : string)
  | EscalationRateLimitExceeded (lineage_id : string)
  | SessionEgressStallDetected (session_id reason : string)
  | MergeFastForwardFailed (target_ref category : string)
  | PushFailed (remote refspec reason : string)
  | InitiativeStateChangedToFailed (from_state : string).

Definition as_kind_str (c : PermanentFailureCause) : string :=
  match c with
  | SessionVmFailedFinal _ _ => "SessionVmFailedFinal"
  | PlanRejected _ => "PlanRejected"
  | EscalationTimedOut _ => "EscalationTimedOut"
  | EscalationRateLimitExceeded _ => "EscalationRateLimitExceeded"
  | SessionEgressStallDetected _ _ => "SessionEgressStallDetected"
  | MergeFastForwardFailed _ _ => "MergeFastForwardFailed"
  | PushFailed _ _ _ => "PushFailed"
  | InitiativeStateChangedToFailed _ => "InitiativeStateChanged"
  end.

Definition cause_seq (short_hash : string → string) (c : PermanentFailureCause) : string :=
  match c with
  | SessionVmFailedFinal _ total_attempts => "attempts=" +:+ pretty total_attempts
  | PlanRejected reason => "reason_sha=" +:+ short_hash reason
  | EscalationTimedOut orig => "orig=" +:+ orig
  | EscalationRateLimitExceeded lineage_id => "lineage=" +:+ lineage_id
  | SessionEgressStallDetected session_id _ => "session=" +:+ session_id
  | MergeFastForwardFailed target_ref category => "ref=" +:+ target_ref +:+ ";cat=" +:+ category
  | PushFailed remote refspec _ => "remote=" +:+ remote +:+ ";ref=" +:+ refspec
  | InitiativeStateChangedToFailed from_state => "from=" +:+ from_state
  end.

Definition cause_summary (c : PermanentFailureCause) : string :=
  truncate_str 1024
    (match c with
     | SessionVmFailedFinal final_reason total_attempts =>
         "VM spawn permanent failure after " +:+ pretty total_attempts +:+ " attempts: " +:+ final_reason
     | PlanRejected reason => "plan admission rejected: " +:+ reason
     | EscalationTimedOut orig => "escalation " +:+ orig +:+ " timed out before operator response"
     | EscalationRateLimitExceeded lineage_id =>
         "escalation rate limit exceeded on lineage " +:+ lineage_id
         +:+ "; underlying escalations are muted"
     | SessionEgressStallDetected session_id reason =>
         "session " +:+ session_id +:+ " egress stalled on critical path: " +:+ reason
     | MergeFastForwardFailed target_ref category =>
         "merge fast-forward to " +:+ target_ref +:+ " failed: " +:+ category
     | PushFailed remote refspec reason =>
         "push to " +:+ remote +:+ " " +:+ refspec +:+ " failed: " +:+ reason
     | InitiativeStateChangedToFailed from_state =>
         "initiative transitioned " +:+ from_state +:+ " → Failed via non-operator-driven cause"
     end).

Definition recoverable_via_approve (c : PermanentFailureCause) : bool :=
  match c with
  | PlanRejected _ | EscalationRateLimitExceeded _ => false
  | _ => true
  end.
End PermanentFailureCause.
Abbreviation PermanentFailureCause := PermanentFailureCause.PermanentFailureCause.

Inductive TxOutcome : Type :=
  | Committed (escalation_id_opt : option string)
  | AlreadyTerminal
  | InitiativeMissing.

Inductive EscalateOutcome : Type :=
  | Escalated (escalation_id : string)
  | AlreadyEscalated
  | InitiativeAlreadyTerminal
  | AnchorlessEscalation
  | EscalateFailed (reason : string).

Definition TERMINAL_STATES : list string := ["Completed"; "Failed"; "Cancelled"; "Aborted"].

Section PermanentFailure.
Context `{EscalationLib, AnchorPicks} (short_hash : string → string).

Definition failure_key (i : string) (c : PermanentFailureCause) : string :=
  "kernel-initiative-permanent-failure:" +:+ i +:+ ":" +:+ PermanentFailureCause.as_kind_str c
  +:+ ":" +:+ PermanentFailureCause.cause_seq short_hash c.

Definition permanent_failure_tx (new_id i : string) (c : PermanentFailureCause)
    (timeout_secs sql_now now : Z) : M SqlError TxOutcome := with_tx (λ d,
  match d.(initiatives) !! i with
  | None => (Ok InitiativeMissing, d)
  | Some r =>
      if bool_decide (r.(ini_state) ∈ TERMINAL_STATES) then (Ok AlreadyTerminal, d)
      else
        (eid ← insert_permanent_failure_escalation_in_tx new_id i
                 (PermanentFailureCause.as_kind_str c) (PermanentFailureCause.cause_summary c)
                 (failure_key i c) (sat_add_i64 now (as_i64 timeout_secs)) now;
         let recoverable := PermanentFailureCause.recoverable_via_approve c in
         _ ← update_initiative i
               (set_initiative_state (if recoverable then STATE_RECOVERY else STATE_FAILED)
                  (if recoverable then None else Some sql_now));
         mret (Committed eid)) d
  end).

(** The second read that tells a duplicate from a missing anchor, and the outcome
    with whether the chain anchor is audited. *)
Definition escalate_initiative_on_permanent_failure (new_id i : string) (c : PermanentFailureCause)
    (timeout_secs sql_now now : Z) (d : Db) : EscalateOutcome * bool * Db :=
  match permanent_failure_tx new_id i c timeout_secs sql_now now d with
  | (Err _, d') => (EscalateFailed "sql", false, d')
  | (Ok AlreadyTerminal, d') => (InitiativeAlreadyTerminal, false, d')
  | (Ok InitiativeMissing, d') => (EscalateFailed "initiative_row_missing", false, d')
  | (Ok (Committed (Some id)), d') => (Escalated id, true, d')
  | (Ok (Committed None), d') =>
      if bool_decide (map_Exists (λ _ r, r.(esc_idempotency_key) = failure_key i c
                                         ∧ r.(esc_initiative_id) = i) d'.(escalations))
      then (AlreadyEscalated, false, d') else (AnchorlessEscalation, true, d')
  end.
End PermanentFailure.

(** ** The operator's answer *)

Record ApproveLogicalDeadlockOutcome := MkApproveOutcome {
  app_initiative_id : string;
  transitioned_from_recovery_required : bool;
}.
Record DenyLogicalDeadlockOutcome := MkDenyOutcome {
  den_initiative_id : string;
  transitioned_to_failed : bool;
}.

(** [SELECT .. FROM escalations e JOIN initiatives i]. *)
Definition deadlock_row (id : string) (d : Db) : option (EscalationRow * InitiativeRow) :=
  e ← d.(escalations) !! id;
  i ← d.(initiatives) !! e.(esc_initiative_id);
  Some (e, i).

Definition is_pending_deadlock (e : EscalationRow) : bool :=
  String.eqb e.(esc_class) (as_sql_str EscalationClass.LogicalDeadlock)
  && String.eqb e.(esc_initiator) KERNEL && String.eqb e.(esc_status) pending.

Definition clear_respawn_count (r : InitiativeRow) : InitiativeRow :=
  upd_ini_orchestrator_no_progress_respawn_count (λ _, 0%Z) r.

(** [UPDATE initiatives SET state, completed_at WHERE initiative_id = ? AND state =
    'RecoveryRequired'], with the number of rows. *)
Definition leave_recovery (i st : string) (completed_at : option Z) (d : Db) : nat * Db :=
  match d.(initiatives) !! i with
  | Some r =>
      if String.eqb r.(ini_state) STATE_RECOVERY
      then (1, on_initiatives <[i := set_initiative_state st completed_at r]> d) else (0, d)
  | None => (0, d)
  end.

Definition approve_logical_deadlock_escalation_in_tx (now : Z) (id : string)
    : M SqlError (option ApproveLogicalDeadlockOutcome) := λ d,
  match deadlock_row id d with
  | None => (Ok None, d)
  | Some (e, ini) =>
      if negb (is_pending_deadlock e) then (Ok None, d)
      else if negb (String.eqb ini.(ini_state) STATE_RECOVERY)
              && negb (String.eqb ini.(ini_state) STATE_FAILED) then (Ok None, d)
      else
        match update_pending id (as_sql_str EscalationStatus.Approved) now (λ n, n) d with
        | (1, d1) =>
            let d2 := on_initiatives (alter clear_respawn_count e.(esc_initiative_id)) d1 in
            let '(rows, d3) := leave_recovery e.(esc_initiative_id) STATE_EXECUTING None d2 in
            (Ok (Some (MkApproveOutcome e.(esc_initiative_id) (rows =? 1))), d3)
        | (_, d1) => (Ok None, d1)
        end
  end.

(** [resolution_notes = COALESCE(?3, resolution_notes)] *)
Definition coalesce_notes (note old : option string) : option string :=
  match note with Some n => Some n | None => old end.

Definition deny_logical_deadlock_escalation_in_tx (now : Z) (id : string) (note : option string)
    : M SqlError (option DenyLogicalDeadlockOutcome) := λ d,
  match deadlock_row id d with
  | None => (Ok None, d)
  | Some (e, ini) =>
      if negb (is_pending_deadlock e) || negb (String.eqb ini.(ini_state) STATE_RECOVERY)
      then (Ok None, d)
      else
        match update_pending id (as_sql_str EscalationStatus.Denied) now (coalesce_notes note) d with
        | (1, d1) =>
            let '(rows, d2) :=
              if String.eqb ini.(ini_state) STATE_RECOVERY
              then leave_recovery e.(esc_initiative_id) STATE_FAILED (Some now) d1 else (0, d1) in
            (Ok (Some (MkDenyOutcome e.(esc_initiative_id) (rows =? 1))), d2)
        | (_, d1) => (Ok None, d1)
        end
  end.

(** ** The operator handlers *)

Inductive OperatorResponse : Type :=
  | EscalationApproved (escalation_id approval_token_id approval_token_raw : string) (expires_at : Z)
  | EscalationDenied (escalation_id : string) (denied_at : Z)
  | OperatorError (code : string).

(** The audit events, and the respawn an approved deadlock schedules. *)
Inductive OperatorEvent : Type :=
  | OperatorApprovedRespawnEscalation (initiative_id escalation_id operator_id : string)
  | OperatorDeniedRespawnEscalation (initiative_id escalation_id operator_id : string)
  | InitiativeStateChanged (initiative_id from_state to_state : string)
  | AuditEscalationApproved (escalation_id approved_by : string) (display_name : option string)
  | AuditEscalationDenied (escalation_id denied_by : string) (reason display_name : option string)
  | RespawnScheduled (initiative_id : string).

Definition operator_display_name (policy : PolicyBundle) (fp : string) : option string :=
  op_display_name <$> operator_entry policy fp.

(** [lookup_escalation_class_initiator] *)
Definition is_kernel_deadlock (id : string) (d : Db) : bool :=
  match d.(escalations) !! id with
  | Some e => String.eqb e.(esc_class) "LogicalDeadlock" && String.eqb e.(esc_initiator) "Kernel"
  | None => false
  end.

Definition handle_approve_logical_deadlock (now : Z) (id fp : string) (d : Db)
    : OperatorResponse * list OperatorEvent * Db :=
  match with_tx (approve_logical_deadlock_escalation_in_tx now id) d with
  | (Ok (Some o), d') =>
      (EscalationApproved id "" "" 0,
       OperatorApprovedRespawnEscalation o.(app_initiative_id) id fp ::
       (if o.(transitioned_from_recovery_required)
        then [InitiativeStateChanged o.(app_initiative_id) "RecoveryRequired" "Executing"] else [])
       ++ [RespawnScheduled o.(app_initiative_id)], d')
  | (_, d') => (OperatorError "FAIL_APPROVE_ESCALATION", [], d')
  end.

(** [reason.chars().count() > 512] *)
Definition reason_too_long (reason : option string) : bool :=
  match reason with Some r => 512 <? chars_count r | None => false end.

Definition handle_deny_logical_deadlock (now now_response : Z) (id : string) (reason : option string)
    (fp : string) (d : Db) : OperatorResponse * list OperatorEvent * Db :=
  if reason_too_long reason then (OperatorError "FAIL_DENY_ESCALATION", [], d)
  else
    match with_tx (deny_logical_deadlock_escalation_in_tx now id reason) d with
    | (Ok (Some o), d') =>
        (EscalationDenied id now_response,
         OperatorDeniedRespawnEscalation o.(den_initiative_id) id fp ::
         (if o.(transitioned_to_failed)
          then [InitiativeStateChanged o.(den_initiative_id) "RecoveryRequired" "Failed"] else []), d')
    | (_, d') => (OperatorError "FAIL_DENY_ESCALATION", [], d')
    end.

Section Handlers.
Context `{Hex, Ed25519} (sha256 : list byte → list byte) (scope_json : ApprovalScopeWire → string).

Definition handle_approve_escalation (token_id : string) (gen_nonce : result CryptoError string)
    (gen_raw : result CryptoError (list byte)) (now : Z) (policy : PolicyBundle) (id : string)
    (scope : ApprovalScopeWire) (operator_sig_hex fp : string) (d : Db)
    : OperatorResponse * list OperatorEvent * Db :=
  if is_kernel_deadlock id d then handle_approve_logical_deadlock now id fp d
  else
    match hex_decode operator_sig_hex with
    | Err _ => (OperatorError "FAIL_APPROVE_ESCALATION", [], d)
    | Ok signature =>
        match approve_escalation sha256 scope_json token_id gen_nonce gen_raw now id scope signature fp
                policy.(epoch) policy d with
        | (Ok r, d') =>
            (EscalationApproved id r.(ar_approval_token_id) r.(ar_approval_token_raw) r.(ar_expires_at),
             [AuditEscalationApproved id fp (operator_display_name policy fp)], d')
        | (Err e, d') => (OperatorError (EscalationError.error_code e), [], d')
        end
    end.
End Handlers.

Definition handle_deny_escalation (now now_response : Z) (policy : PolicyBundle) (id : string)
    (reason : option string) (fp : string) (d : Db) : OperatorResponse * list OperatorEvent * Db :=
  if is_kernel_deadlock id d then handle_deny_logical_deadlock now now_response id reason fp d
  else if reason_too_long reason then (OperatorError "FAIL_DENY_ESCALATION", [], d)
  else
    match deny_escalation now id reason d with
    | (Ok denied_at, d') =>
        (EscalationDenied id denied_at,
         [AuditEscalationDenied id fp reason (operator_display_name policy fp)], d')
    | (Err e, d') => (OperatorError (EscalationError.error_code e), [], d')
    end.

(** ** Lemmas *)
Section Facts.
Context `{EscalationLib, AnchorPicks}.

Lemma insert_or_ignore_ok id r d n d' :
  insert_or_ignore id r d = (Ok n, d') →
  (n = 0 ∧ d' = d ∧ is_Some (find_escalation r.(esc_session_id) r.(esc_idempotency_key) d)) ∨
  (n = 1 ∧ d.(escalations) !! id = None ∧
   find_escalation r.(esc_session_id) r.(esc_idempotency_key) d = None ∧
   d' = on_escalations <[id := r]> d).
Proof.
  unfold insert_or_ignore. destruct (escalation_check r); [| done].
  destruct (find_escalation _ _ d) as [kr|] eqn:Hf; [intros [= <- <-]; left; by eauto |].
  case_bool_decide as Hid; [done |]. apply eq_None_not_Some in Hid.
  destruct (escalation_fk r d); [| done]. intros [= <- <-]. by right.
Qed.

(** One pending row at the anchor, or nothing: without an anchor, without a UUID,
    or when the anchor's session has the key. *)
Lemma insert_kernel_ok new_id i key just scope timeout now d eid d' :
  insert_kernel_escalation new_id i key just scope timeout now d = (Ok eid, d') →
  match eid with
  | None => d' = d ∧ (resolve_anchor i d = None ∨ uuid_parse i = None ∨
      ∃ t s l, resolve_anchor i d = Some (t, s, l) ∧ is_Some (find_escalation s key d))
  | Some id => id = new_id ∧ ∃ t s l u, resolve_anchor i d = Some (t, s, l) ∧ uuid_parse i = Some u ∧
      d.(escalations) !! id = None ∧ find_escalation s key d = None ∧
      d' = on_escalations <[id := kernel_row t s l i (scope_to_json (scope u)) just key now timeout]> d
  end.
Proof.
  unfold insert_kernel_escalation.
  destruct (resolve_anchor i d) as [[[t s] l]|]; [| intros [= <- <-]; by auto].
  destruct (uuid_parse i) as [u|]; [| intros [= <- <-]; by auto].
  set (r := kernel_row _ _ _ _ _ _ _ _ _).
  destruct (insert_or_ignore new_id r d) as [[n|e] d1] eqn:Hi; [| done].
  destruct (insert_or_ignore_ok _ _ _ _ _ Hi) as [(-> & -> & Hf)|(-> & Hn & Hf & ->)];
    intros [= <- <-]; [split; by eauto 10 | by eauto 15].
Qed.

Lemma insert_kernel_known new_id i key just scope timeout now d t s l :
  resolve_anchor i d = Some (t, s, l) → is_Some (find_escalation s key d) →
  insert_kernel_escalation new_id i key just scope timeout now d = (Ok None, d).
Proof.
  intros Ha [kr Hf]. unfold insert_kernel_escalation. rewrite Ha.
  destruct (uuid_parse i); [| done]. unfold insert_or_ignore. simpl. by rewrite Hf.
Qed.
End Facts.

(** *** What a trip changes *)

Definition failed_task (now : Z) (r : TaskRow) : TaskRow :=
  write_task_state "Failed" now (Some cascade_reason) "kernel" r.

(** After a trip: the initiative waits for its operator, and nothing of it is in
    flight. *)
Record tripped (i : string) (c now : Z) (d d' : Db) : Prop := {
  tripped_initiative : ∃ r, d.(initiatives) !! i = Some r ∧
    d'.(initiatives) = <[i := set_initiative_state STATE_RECOVERY None
      (upd_ini_orchestrator_no_progress_respawn_count (λ _, c) r)]> d.(initiatives);
  tripped_tasks : ∀ t, d'.(tasks) !! t =
    (λ r, if in_flight i r then failed_task now r else r) <$> d.(tasks) !! t;
  tripped_reservations : ∀ k, d'.(reservations) !! k =
    if in_flight_task i d k.2 then None else d.(reservations) !! k;
  tripped_activations : ∀ a, d'.(activations) !! a =
    (λ r, if open_activation i d r then fail_activation now r else r) <$> d.(activations) !! a;
  tripped_sessions : d'.(sessions) = d.(sessions);
}.

Definition clamp_u32 (c : Z) : Z := if bool_decide (0 ≤ c ≤ u32_max)%Z then c else u32_max.

Lemma increment_inv i max d o d' :
  increment_no_progress_count_with_ceiling_in_tx i max d = (Ok o, d') →
  (d.(initiatives) !! i = None ∧ o = Permitted 0 ∧ d' = d) ∨
  ∃ r, let c := (r.(ini_orchestrator_no_progress_respawn_count) + 1)%Z in
    d.(initiatives) !! i = Some r ∧ (c ≤ i64_max)%Z ∧
    d' = on_initiatives <[i := upd_ini_orchestrator_no_progress_respawn_count (λ _, c) r]> d ∧
    o = if bool_decide (max < clamp_u32 c)%Z then Exceeded (clamp_u32 c) max else Permitted (clamp_u32 c).
Proof.
  unfold increment_no_progress_count_with_ceiling_in_tx, clamp_u32.
  destruct (initiatives d !! i) as [r|]; [| intros [= <- <-]; by left].
  case_bool_decide as Hc; [| done]. intros [= <- <-]. right. exists r. by split_and!.
Qed.

Lemma close_open_run i now d :
  close_open_activations i now d =
  (Ok tt, on_activations (fmap (λ r, if open_activation i d r then fail_activation now r else r)) d).
Proof.
  unfold close_open_activations, update_activations. rewrite bool_decide_eq_true_2; [done |].
  intros a r _ _. reflexivity.
Qed.

Section Trip.
Context `{EscalationLib, AnchorPicks}.

(** Raising the counter to [c]. *)
Definition counted (i : string) (c : Z) (r : InitiativeRow) (d : Db) : Db :=
  on_initiatives <[i := upd_ini_orchestrator_no_progress_respawn_count (λ _, c) r]> d.

Definition trip_escalation (new_id i : string) (count timeout_secs sql_now now : Z)
    : M SqlError (option string) := λ d,
  insert_logical_deadlock_escalation_in_tx new_id i count (window_since_creation i sql_now d)
    "RetrySubTask" "RetrySubTaskRejectedNotRetryable" (sat_add_i64 now (as_i64 timeout_secs)) now d.

Lemma trip_escalation_ok new_id i count timeout sql_now now d eid d' :
  trip_escalation new_id i count timeout sql_now now d = (Ok eid, d') →
  match eid with
  | None => d' = d ∧ (resolve_anchor i d = None ∨ uuid_parse i = None ∨
      ∃ t s l, resolve_anchor i d = Some (t, s, l) ∧ is_Some (find_escalation s (deadlock_key i count) d))
  | Some id => id = new_id ∧ ∃ t s l json j, resolve_anchor i d = Some (t, s, l) ∧
      d.(escalations) !! id = None ∧ find_escalation s (deadlock_key i count) d = None ∧
      d' = on_escalations <[id := kernel_row t s l i json j (deadlock_key i count) now
                                    (sat_add_i64 now (as_i64 timeout))]> d
  end.
Proof.
  unfold trip_escalation, insert_logical_deadlock_escalation_in_tx. intros Hi%insert_kernel_ok.
  destruct eid as [id|]; [| done]. destruct Hi as (-> & t & s & l & u & Ha & _ & Hn & Hf & ->). split; [done |].
  exists t, s, l. eexists _, _. by split_and!.
Qed.

Lemma ceiling_tx_exceeded new_id i max timeout sql_now now d c m eid d' :
  ceiling_tx new_id i max timeout sql_now now d = (Ok (Exceeded c m, eid), d') →
  ∃ r d2, let c' := (r.(ini_orchestrator_no_progress_respawn_count) + 1)%Z in
    d.(initiatives) !! i = Some r ∧ c = clamp_u32 c' ∧ m = max ∧ (max < c)%Z ∧
    trip_escalation new_id i c timeout sql_now now (counted i c' r d) = (Ok eid, d2) ∧
    tripped i c' now d d' ∧ d'.(escalations) = d2.(escalations).
Proof.
  unfold ceiling_tx. intros Ht%with_tx_ok_inv. revert Ht. unfold mbind, se_bind.
  destruct (increment_no_progress_count_with_ceiling_in_tx i max d) as [[o|e] d1] eqn:Hinc; [| done].
  destruct (increment_inv _ _ _ _ _ Hinc) as [(_ & -> & _)|(r & Hr & Hle & -> & ->)]; [done |].
  case_bool_decide as Hmax; [| done]. unfold gets.
  fold (counted i (ini_orchestrator_no_progress_respawn_count r + 1) r d).
  set (c' := (ini_orchestrator_no_progress_respawn_count r + 1)%Z) in *.
  set (d1 := counted i c' r d).
  change (insert_logical_deadlock_escalation_in_tx new_id i (clamp_u32 c')
            (window_since_creation i sql_now d1) "RetrySubTask" "RetrySubTaskRejectedNotRetryable"
            (sat_add_i64 now (as_i64 timeout)) now d1)
    with (trip_escalation new_id i (clamp_u32 c') timeout sql_now now d1).
  destruct (trip_escalation _ _ _ _ _ _ d1) as [[eid'|e] d2] eqn:Htrip; [| done].
  unfold update_initiative, delete_reservations, fail_tasks, modify, mret, se_ret.
  rewrite close_open_run. intros [= <- <- <- <-].
  assert (Hd2 : d2 = on_escalations (λ _, escalations d2) d1).
  { pose proof (trip_escalation_ok _ _ _ _ _ _ _ _ _ Htrip) as Hok.
    destruct eid' as [id|]; [destruct Hok as (-> & ? & ? & ? & ? & ? & _ & _ & _ & ->) |
                             destruct Hok as [-> _]]; by destruct d. }
  exists r, d2. split_and!; try done.
  rewrite Hd2. unfold d1. split; simpl; intros *.
  - exists r. split; [done |]. rewrite alter_insert_eq. done.
  - by rewrite lookup_fmap.
  - rewrite map_lookup_filter. destruct (reservations d !! k) as [v|]; simpl; [| by case_match].
    destruct (in_flight_task i d k.2) eqn:E; unfold in_flight_task in *; simpl; case_guard; simpl; congruence.
  - by rewrite lookup_fmap.
  - done.
Qed.
End Trip.

(** *** The operator's answer *)

Lemma kernel_row_is_deadlock t s l i json j key now timeout :
  let e := kernel_row t s l i json j key now timeout in
  is_pending_deadlock e = true ∧ e.(esc_initiative_id) = i.
Proof. split; reflexivity. Qed.

Lemma is_kernel_deadlock_row id d e :
  d.(escalations) !! id = Some e → is_pending_deadlock e = true → is_kernel_deadlock id d = true.
Proof.
  unfold is_kernel_deadlock, is_pending_deadlock. intros -> [[Hc Hi]%andb_true_iff _]%andb_true_iff.
  by apply andb_true_iff.
Qed.

(** Approval puts a recovering initiative back to work and leaves a failed one
    failed. *)
Definition approved_initiative (r : InitiativeRow) : InitiativeRow :=
  let r' := clear_respawn_count r in
  if String.eqb r.(ini_state) STATE_RECOVERY then set_initiative_state STATE_EXECUTING None r' else r'.

Lemma approve_deadlock_run now id fp d e r :
  d.(escalations) !! id = Some e → is_pending_deadlock e = true →
  d.(initiatives) !! e.(esc_initiative_id) = Some r → r.(ini_state) ∈ [STATE_RECOVERY; STATE_FAILED] →
  let i := e.(esc_initiative_id) in
  handle_approve_logical_deadlock now id fp d =
  (EscalationApproved id "" "" 0,
   OperatorApprovedRespawnEscalation i id fp ::
   (if String.eqb r.(ini_state) STATE_RECOVERY
    then [InitiativeStateChanged i "RecoveryRequired" "Executing"] else []) ++ [RespawnScheduled i],
   on_initiatives <[i := approved_initiative r]>
     (on_escalations <[id := resolve_escalation (as_sql_str EscalationStatus.Approved) now (λ n, n) e]> d)).
Proof.
  intros He Hp Hr Hst i. unfold handle_approve_logical_deadlock, with_tx.
  unfold approve_logical_deadlock_escalation_in_tx, deadlock_row. rewrite He. simpl. rewrite Hr. simpl.
  rewrite Hp. simpl.
  assert (negb (String.eqb (ini_state r) STATE_RECOVERY) && negb (String.eqb (ini_state r) STATE_FAILED)
          = false) as ->.
  { assert (ini_state r = STATE_RECOVERY ∨ ini_state r = STATE_FAILED) as [->| ->] by set_solver; done. }
  unfold is_pending_deadlock in Hp. apply andb_true_iff in Hp as [_ Hs].
  unfold update_pending. rewrite He, Hs. unfold leave_recovery. simpl. rewrite lookup_alter_eq, Hr. simpl.
  unfold approved_initiative. destruct (String.eqb (ini_state r) STATE_RECOVERY); simpl.
  - f_equal. unfold on_initiatives, on_escalations. simpl. f_equal. by rewrite insert_alter_eq.
  - f_equal. unfold on_initiatives, on_escalations. simpl. f_equal.
    apply map_eq. intros k. destruct (decide (k = i)) as [->|Hk].
    + by rewrite lookup_alter_eq, lookup_insert_eq, Hr.
    + by rewrite lookup_alter_ne, lookup_insert_ne.
Qed.

Lemma deny_deadlock_run now now' id reason fp d e r :
  d.(escalations) !! id = Some e → is_pending_deadlock e = true → reason_too_long reason = false →
  d.(initiatives) !! e.(esc_initiative_id) = Some r →
  let i := e.(esc_initiative_id) in
  handle_deny_logical_deadlock now now' id reason fp d =
  if String.eqb r.(ini_state) STATE_RECOVERY then
    (EscalationDenied id now',
     [OperatorDeniedRespawnEscalation i id fp; InitiativeStateChanged i "RecoveryRequired" "Failed"],
     on_initiatives <[i := set_initiative_state STATE_FAILED (Some now) r]>
       (on_escalations
          <[id := resolve_escalation (as_sql_str EscalationStatus.Denied) now (coalesce_notes reason) e]> d))
  else (OperatorError "FAIL_DENY_ESCALATION", [], d).
Proof.
  intros He Hp Hlen Hr i. unfold handle_deny_logical_deadlock, with_tx. rewrite Hlen.
  unfold deny_logical_deadlock_escalation_in_tx, deadlock_row. rewrite He. simpl. rewrite Hr. simpl.
  rewrite Hp. simpl. destruct (String.eqb (ini_state r) STATE_RECOVERY) eqn:Hrec; simpl; [| done].
  unfold is_pending_deadlock in Hp. apply andb_true_iff in Hp as [_ Hs].
  unfold update_pending. rewrite He, Hs. unfold leave_recovery. simpl. rewrite Hr, Hrec. done.
Qed.

Lemma handle_deny_kernel now now' policy id reason fp d e :
  d.(escalations) !! id = Some e → is_pending_deadlock e = true →
  handle_deny_escalation now now' policy id reason fp d =
  handle_deny_logical_deadlock now now' id reason fp d.
Proof. intros He Hp. unfold handle_deny_escalation. by rewrite (is_kernel_deadlock_row id d e). Qed.

Lemma handle_approve_kernel `{Hex, Ed25519} sha256 sj tid gn gr now policy id scope sig fp d e :
  d.(escalations) !! id = Some e → is_pending_deadlock e = true →
  handle_approve_escalation sha256 sj tid gn gr now policy id scope sig fp d =
  handle_approve_logical_deadlock now id fp d.
Proof. intros He Hp. unfold handle_approve_escalation. by rewrite (is_kernel_deadlock_row id d e). Qed.

(** ** Properties *)
Section Properties.
Context `{EscalationLib, AnchorPicks}.

(** A trip stops the initiative.  When the counter passes the ceiling the
    initiative waits for its operator, every task of it that was in flight has
    failed and holds no budget, no activation of those tasks is open, no task of
    the initiative is in flight any more, and no other task, reservation or
    activation changed; if an escalation was inserted it is a pending kernel
    escalation of the initiative with the policy's deadline.  A permitted respawn
    changes the counter only, and an error changes nothing. *)
Theorem ceiling_stops_initiative new_id i max timeout sql_now now d :
  match ceiling_tx new_id i max timeout sql_now now d with
  | (Err _, d') => d' = d
  | (Ok (Permitted c, eid), d') => eid = None ∧
      ∃ c', d' = on_initiatives (alter (upd_ini_orchestrator_no_progress_respawn_count (λ _, c')) i) d
  | (Ok (Exceeded c _, eid), d') => (max < c)%Z ∧ (∃ c', tripped i c' now d d') ∧
      (∀ t r, d'.(tasks) !! t = Some r → in_flight i r = false) ∧
      match eid with
      | None => d'.(escalations) = d.(escalations)
      | Some id => ∃ e, d'.(escalations) = <[id := e]> d.(escalations) ∧ is_pending_deadlock e = true ∧
          e.(esc_initiative_id) = i ∧ e.(esc_timeout_at) = sat_add_i64 now (as_i64 timeout) ∧
          e.(esc_idempotency_key) = deadlock_key i c
      end
  end.
Proof.
  destruct (ceiling_tx new_id i max timeout sql_now now d) as [[[[c|c m] eid]|e] d'] eqn:Ht.
  - unfold ceiling_tx in Ht. apply with_tx_ok_inv in Ht. revert Ht. unfold mbind, se_bind.
    destruct (increment_no_progress_count_with_ceiling_in_tx i max d) as [[o|e] d1] eqn:Hinc; [| done].
    destruct o as [c0|]; [| by intros Ht; destruct (gets _ d1) as [[] ?] eqn:?; repeat (case_match; try done)].
    intros [= <- <- <-]. split; [done |].
    destruct (increment_inv _ _ _ _ _ Hinc) as [(Hn & _ & ->)|(r & Hr & _ & -> & _)].
    + exists 0%Z. destruct d. unfold on_initiatives. simpl in *. rewrite alter_id; [done |]. intros x Hx. congruence.
    + exists (ini_orchestrator_no_progress_respawn_count r + 1)%Z. unfold on_initiatives. simpl. by rewrite (alter_Some_insert _ _ _ r).
  - destruct (ceiling_tx_exceeded _ _ _ _ _ _ _ _ _ _ _ Ht) as (r & d2 & Hr & Hc & _ & Hmax & Htrip & Htr & He).
    split; [done |]. split; [by eexists |]. split.
    { intros t r' Hr'. rewrite (tripped_tasks _ _ _ _ _ Htr) in Hr'.
      apply fmap_Some in Hr' as (r0 & _ & ->). destruct (in_flight i r0) eqn:Hf; [| done].
      unfold in_flight. simpl. by rewrite andb_false_r. }
    apply trip_escalation_ok in Htrip. destruct eid as [id|]; [| destruct Htrip as [-> _]; by rewrite He].
    destruct Htrip as (_ & t & s & l & json & j & _ & _ & _ & ->). rewrite He. simpl.
    eexists. split; [done |]. by split_and!.
  - by apply with_tx_err_rollback in Ht.
Qed.

(** The operator answers a trip.  Approving its escalation puts the initiative
    back to executing with the respawn counter cleared and schedules the respawn;
    denying it fails the initiative; either resolves the escalation and leaves the
    tasks, reservations and activations as the trip left them. *)
Theorem operator_answers_trip new_id i max timeout sql_now now d c m id d1
    now1 now2 policy fp reason :
  ceiling_tx new_id i max timeout sql_now now d = (Ok (Exceeded c m, Some id), d1) →
  reason_too_long reason = false →
  ∃ e r, d1.(escalations) !! id = Some e ∧ d1.(initiatives) !! i = Some r ∧
    handle_approve_logical_deadlock now1 id fp d1 =
      (EscalationApproved id "" "" 0,
       [OperatorApprovedRespawnEscalation i id fp;
        InitiativeStateChanged i "RecoveryRequired" "Executing"; RespawnScheduled i],
       on_initiatives <[i := set_initiative_state STATE_EXECUTING None (clear_respawn_count r)]>
         (on_escalations
            <[id := resolve_escalation (as_sql_str EscalationStatus.Approved) now1 (λ n, n) e]> d1)) ∧
    handle_deny_escalation now1 now2 policy id reason fp d1 =
      (EscalationDenied id now2,
       [OperatorDeniedRespawnEscalation i id fp; InitiativeStateChanged i "RecoveryRequired" "Failed"],
       on_initiatives <[i := set_initiative_state STATE_FAILED (Some now1) r]>
         (on_escalations
            <[id := resolve_escalation (as_sql_str EscalationStatus.Denied) now1 (coalesce_notes reason) e]>
            d1)).
Proof.
  intros Ht Hlen.
  destruct (ceiling_tx_exceeded _ _ _ _ _ _ _ _ _ _ _ Ht) as (r & d2 & Hr & _ & _ & _ & Htrip & Htr & He).
  apply trip_escalation_ok in Htrip as (_ & t & s & l & json & j & _ & _ & _ & ->).
  destruct Htr as [(r0 & _ & Hini) _ _ _ _].
  set (e := kernel_row t s l i json j (deadlock_key i c) now (sat_add_i64 now (as_i64 timeout))) in *.
  assert (He1 : escalations d1 !! id = Some e) by (rewrite He; simpl; by rewrite lookup_insert_eq).
  eexists e, _. split; [done |]. split; [by rewrite Hini, lookup_insert_eq |]. split.
  - rewrite (approve_deadlock_run now1 id fp d1 e _ He1 eq_refl
               ltac:(simpl; by rewrite Hini, lookup_insert_eq)); [done | simpl; set_solver].
  - rewrite (handle_deny_kernel _ _ _ _ _ _ _ e He1 eq_refl).
    by rewrite (deny_deadlock_run now1 now2 id reason fp d1 e _ He1 eq_refl Hlen
                  ltac:(simpl; by rewrite Hini, lookup_insert_eq)).
Qed.

Lemma permanent_failure_escalated short_hash new_id i c timeout sql_now now d id audited d' :
  escalate_initiative_on_permanent_failure short_hash new_id i c timeout sql_now now d
    = (Escalated id, audited, d') →
  ∃ e r, d.(initiatives) !! i = Some r ∧ r.(ini_state) ∉ TERMINAL_STATES ∧
    is_pending_deadlock e = true ∧ e.(esc_initiative_id) = i ∧
    d' = on_initiatives
           <[i := (if PermanentFailureCause.recoverable_via_approve c
                   then set_initiative_state STATE_RECOVERY None r
                   else set_initiative_state STATE_FAILED (Some sql_now) r)]>
           (on_escalations <[id := e]> d).
Proof.
  unfold escalate_initiative_on_permanent_failure.
  destruct (permanent_failure_tx _ _ _ _ _ _ _ d) as [[[[x|]| |]|e] d1] eqn:Ht; try done;
    [| by case_bool_decide]. intros [= -> <- <-].
  unfold permanent_failure_tx in Ht. apply with_tx_ok_inv in Ht. revert Ht.
  destruct (initiatives d !! i) as [r|] eqn:Hr; [| done]. case_bool_decide as Hst; [done |].
  unfold mbind, se_bind, insert_permanent_failure_escalation_in_tx.
  destruct (insert_kernel_escalation _ _ _ _ _ _ _ d) as [[eid|e] d2] eqn:Hi; [| done].
  intros [= -> <-]. apply insert_kernel_ok in Hi as (_ & t & s & l & u & _ & _ & _ & _ & ->).
  match goal with |- context [on_initiatives _ (on_escalations <[id := ?x]> d)] => exists x, r end.
  split; [done |]. split; [done |]. split; [reflexivity |]. split; [reflexivity |].
  unfold on_initiatives. simpl. rewrite (alter_Some_insert _ _ _ r) by done.
  by destruct (PermanentFailureCause.recoverable_via_approve c).
Qed.

(** The escalation of a failed initiative cannot be denied.  For a cause that
    approval cannot repair, the helper fails the initiative and inserts the
    escalation; denying it is then always refused and changes nothing, while
    approving it is accepted: the escalation becomes approved and a respawn is
    scheduled for an initiative that stays failed. *)
Theorem failed_initiative_escalation short_hash new_id i c timeout sql_now now d id audited d1
    now1 now2 policy reason fp :
  escalate_initiative_on_permanent_failure short_hash new_id i c timeout sql_now now d
    = (Escalated id, audited, d1) →
  PermanentFailureCause.recoverable_via_approve c = false →
  handle_deny_escalation now1 now2 policy id reason fp d1
    = (OperatorError "FAIL_DENY_ESCALATION", [], d1) ∧
  let '(resp, evs, d2) := handle_approve_logical_deadlock now1 id fp d1 in
  resp = EscalationApproved id "" "" 0 ∧
  evs = [OperatorApprovedRespawnEscalation i id fp; RespawnScheduled i] ∧
  (esc_status <$> d2.(escalations) !! id) = Some (as_sql_str EscalationStatus.Approved) ∧
  (ini_state <$> d2.(initiatives) !! i) = Some STATE_FAILED.
Proof.
  intros Ht Hc. apply permanent_failure_escalated in Ht as (e & r & Hr & Hst & Hp & <- & ->).
  rewrite Hc. set (d1 := on_initiatives _ _).
  assert (He : escalations d1 !! id = Some e) by (simpl; by rewrite lookup_insert_eq).
  assert (Hi : initiatives d1 !! e.(esc_initiative_id) = Some (set_initiative_state STATE_FAILED (Some sql_now) r))
    by (simpl; by rewrite lookup_insert_eq).
  split.
  - rewrite (handle_deny_kernel _ _ _ _ _ _ _ e He Hp).
    destruct (reason_too_long reason) eqn:Hlen.
    { unfold handle_deny_logical_deadlock. by rewrite Hlen. }
    by rewrite (deny_deadlock_run now1 now2 id reason fp d1 e _ He Hp Hlen Hi).
  - rewrite (approve_deadlock_run now1 id fp d1 e _ He Hp Hi) by (simpl; set_solver).
    split; [done |]. split; [done |]. simpl. by rewrite !lookup_insert_eq.
Qed.
End Properties.

(** ** Witnesses: one initiative, one planner session with a running task *)

Definition demo_lib : EscalationLib := {| uuid_parse := Some; scope_to_json _ := "{}" |}.
Definition demo_picks : AnchorPicks := {|
  pick_anchor := latest_by an_key; pick_task := latest_by snd; pick_session := latest_by snd;
  pick_anchor_latest := latest_by_latest _; pick_task_latest := latest_by_latest _;
  pick_session_latest := latest_by_latest _ |}.
Definition esc_db : Db :=
  on_tasks <["t" := MkTaskRow "i" "lane" "Running" None "kernel" 4 20 20 (Some "s") None None None None
                      0 None (Some "build") false None None 0]>
    (on_initiatives <["i" := demo_initiative]> (on_sessions <["s" := demo_session]> empty_db)).
#[local] Existing Instances demo_lib demo_picks.

(** The first trip, with a ceiling of three respawns. *)
Definition trip (new_id : string) (now : Z) (d : Db) :=
  ceiling_tx new_id "i" 3 3600 now now d.

Lemma operator_answers_trip_witness :
  let d1 := (trip "e1" 500 esc_db).2 in
  (handle_approve_logical_deadlock 600 "e1" "fp" d1).1.1 = EscalationApproved "e1" "" "" 0 ∧
  (handle_deny_escalation 600 601 (MkPolicyBundle [] ∅ 0 0 [] [] "permit" [] 1 [] 0 0 0 0) "e1" None
     "fp" d1).1.1 = EscalationDenied "e1" 601.
Proof.
  destruct (trip "e1" 500 esc_db) as [res d1] eqn:Ht.
  assert (res = Ok (Exceeded 4 3, Some "e1")) as -> by (vm_compute in Ht; by injection Ht as <- _).
  destruct (operator_answers_trip "e1" "i" 3 3600 500 500 esc_db 4 3 "e1" d1 600 601
              (MkPolicyBundle [] ∅ 0 0 [] [] "permit" [] 1 [] 0 0 0 0) "fp" None Ht eq_refl)
    as (e & r & _ & _ & Ha & Hd).
  simpl. rewrite Ha, Hd. done.
Defined.

Lemma failed_initiative_escalation_witness :
  let '(out, _, d1) := escalate_initiative_on_permanent_failure (λ s, s) "e1" "i"
    (PermanentFailureCause.PlanRejected "cycle") 3600 500 500 esc_db in
  out = Escalated "e1" ∧
  (handle_deny_escalation 600 601 (MkPolicyBundle [] ∅ 0 0 [] [] "permit" [] 1 [] 0 0 0 0) "e1" None
     "fp" d1).1.1 = OperatorError "FAIL_DENY_ESCALATION".
Proof.
  destruct (escalate_initiative_on_permanent_failure _ _ _ _ _ _ _ esc_db) as [[out a] d1] eqn:Ht.
  assert (out = Escalated "e1") as -> by (vm_compute in Ht; by injection Ht as <- _ _).
  split; [done |].
  destruct (failed_initiative_escalation (λ s, s) "e1" "i" (PermanentFailureCause.PlanRejected "cycle")
    3600 500 500 esc_db "e1" a d1 600 601 (MkPolicyBundle [] ∅ 0 0 [] [] "permit" [] 1 [] 0 0 0 0) None "fp"
    Ht eq_refl) as [Hd _].
  simpl. by rewrite Hd.
Defined.
