(* ===== verification/EscalationRuns.v ===== *)
(** * Runs of escalation operations

    Submissions, operator approvals and denials, ceiling trips, permanent
    failures and merge consumptions in any order: what each may do to the
    escalation tables, and the invariants that follow for every run. *)

From S2P Require Import Prelude Fsm Store TaskTransitions Bytes Crypto Cert Policy Session Escalation KernelEscalation.

Definition APPROVED : string := as_sql_str EscalationStatus.Approved.
Definition DENIED : string := as_sql_str EscalationStatus.Denied.
Definition CONSUMED : string := as_sql_str EscalationStatus.Consumed.

(** ** The operations *)
Section Runs.
Context `{Hex, Ed25519, EscalationLib, AnchorPicks}.
Context (sha256 : list byte → list byte) (scope_json : ApprovalScopeWire → string)
  (short_hash : string → string).

Inductive EscalationOp : Type :=
  | OpSubmit (policy : PolicyBundle) (now_auth now : Z) (new_id : string) (req : EscalationRequest)
  | OpApprove (token_id : string) (gen_nonce : result CryptoError string)
      (gen_raw : result CryptoError (list byte)) (now : Z) (policy : PolicyBundle) (id : string)
      (scope : ApprovalScopeWire) (sig_hex fp : string)
  | OpDeny (now now_response : Z) (policy : PolicyBundle) (id : string) (reason : option string)
      (fp : string)
  | OpCeiling (new_id i : string) (max_attempts timeout_secs sql_now now : Z)
  | OpPermanentFailure (new_id i : string) (c : PermanentFailureCause) (timeout_secs sql_now now : Z)
  | OpConsume (now : Z) (notes key : string).

Definition run_op (d : Db) (op : EscalationOp) : Db :=
  match op with
  | OpSubmit policy now_auth now new_id req => (handle policy now_auth now new_id req d).2
  | OpApprove token_id gen_nonce gen_raw now policy id scope sig_hex fp =>
      (handle_approve_escalation sha256 scope_json token_id gen_nonce gen_raw now policy id scope
         sig_hex fp d).2
  | OpDeny now now_response policy id reason fp =>
      (handle_deny_escalation now now_response policy id reason fp d).2
  | OpCeiling new_id i max_attempts timeout_secs sql_now now =>
      (ceiling_tx new_id i max_attempts timeout_secs sql_now now d).2
  | OpPermanentFailure new_id i c timeout_secs sql_now now =>
      (escalate_initiative_on_permanent_failure short_hash new_id i c timeout_secs sql_now now d).2
  | OpConsume now notes key => (consume_merge_escalations now notes key d).2
  end.
Definition run_ops (ops : list EscalationOp) (d : Db) : Db := foldl run_op d ops.
End Runs.

(** ** Effects *)

(** Two stores agree on the escalation tables. *)
Definition same_escalations (d d' : Db) : Prop :=
  d'.(escalations) = d.(escalations) ∧ d'.(approval_tokens) = d.(approval_tokens) ∧
  d'.(lineage_rate_limits) = d.(lineage_rate_limits).

#[export] Instance same_escalations_equiv : Equivalence same_escalations.
Proof.
  split; unfold same_escalations.
  - done.
  - intros d d' (? & ? & ?). done.
  - intros d d' d'' (? & ? & ?) (? & ? & ?). split_and!; congruence.
Qed.

(** A row of the kernel as it is inserted. *)
Definition new_kernel_row (r : EscalationRow) : Prop :=
  r.(esc_class) = as_sql_str EscalationClass.LogicalDeadlock ∧ r.(esc_status) = pending ∧
  r.(esc_resolved_at) = None.

(** What one operation may do to them; [Q] holds of the
    submissions and the consumptions. *)
Inductive effect `{EscalationLib} (Q : EscalationOp → Prop) (d d' : Db) : Prop :=
  | effect_none : same_escalations d d' → effect Q d d'
  | effect_resolve id r st now notes :
      d.(escalations) !! id = Some r → r.(esc_status) = pending → st ∈ [APPROVED; DENIED] →
      same_escalations (on_escalations <[id := resolve_escalation st now notes r]> d) d' → effect Q d d'
  | effect_approve id r k t now :
      d.(escalations) !! id = Some r → r.(esc_status) = pending → t.(apt_escalation_id) = id →
      insert_approval_token k t d = (Ok tt, on_approval_tokens <[k := t]> d) →
      same_escalations (on_escalations <[id := resolve_escalation APPROVED now (λ n, n) r]>
                          (on_approval_tokens <[k := t]> d)) d' → effect Q d d'
  | effect_consume now notes key :
      Q (OpConsume now notes key) →
      d' = (consume_merge_escalations now notes key d).2 → effect Q d d'
  | effect_kernel id r :
      d.(escalations) !! id = None → r.(esc_initiator) = KERNEL → new_kernel_row r →
      find_escalation r.(esc_session_id) r.(esc_idempotency_key) d = None →
      same_escalations (on_escalations <[id := r]> d) d' → effect Q d d'
  | effect_submit policy now_auth now id s l i req resp evs :
      Q (OpSubmit policy now_auth now id req) →
      find_escalation s req.(req_idempotency_key) d = None →
      attempt policy now id s l i req d (resp, evs, d') → effect Q d d'.

Lemma find_escalation_same s k d d' :
  d'.(escalations) = d.(escalations) → find_escalation s k d' = None → find_escalation s k d = None.
Proof. unfold find_escalation. by intros ->. Qed.

Lemma update_pending_inv id st now notes d n d' :
  update_pending id st now notes d = (n, d') →
  (n = 0 ∧ d' = d) ∨
  (n = 1 ∧ ∃ r, d.(escalations) !! id = Some r ∧ r.(esc_status) = pending ∧
     d' = on_escalations <[id := resolve_escalation st now notes r]> d).
Proof.
  unfold update_pending. destruct (escalations d !! id) as [r|] eqn:Hr; [| intros [= <- <-]; by left].
  destruct (String.eqb_spec (esc_status r) pending) as [Hs|]; intros [= <- <-]; [right | by left]. eauto.
Qed.

Section Effects.
Context `{EscalationLib} (Q : EscalationOp → Prop).

(** *** Operator review *)

Lemma deny_escalation_effect now id reason d : effect Q d (deny_escalation now id reason d).2.
Proof.
  unfold deny_escalation, require_pending, update_pending_or. se_unfold.
  destruct (escalations d !! id) as [r|] eqn:Hr; [| by apply effect_none].
  destruct (String.eqb (esc_status r) pending); [| by apply effect_none].
  destruct (update_pending id _ now _ d) as [n d'] eqn:Hu.
  destruct (update_pending_inv _ _ _ _ _ _ _ Hu) as [[-> ->]|(-> & r' & Hr' & Hs & ->)];
    [by apply effect_none |]. eapply effect_resolve; try done. set_solver.
Qed.

Lemma insert_approval_token_inv k t d r d' :
  insert_approval_token k t d = (r, d') →
  (d' = d ∧ r ≠ Ok tt) ∨ (r = Ok tt ∧ d' = on_approval_tokens <[k := t]> d).
Proof. unfold insert_approval_token. repeat case_match; intros [= <- <-]; auto. Qed.

Lemma approve_tx_effect k id t now d :
  t.(apt_escalation_id) = id → effect Q d (approve_tx id k t now d).2.
Proof.
  intros Ht. unfold approve_tx, with_tx, require_pending, update_pending_or. se_unfold.
  destruct (escalations d !! id) as [r|] eqn:Hr; [| by apply effect_none].
  destruct (String.eqb (esc_status r) pending); [| by apply effect_none].
  destruct (insert_approval_token k t d) as [x d1] eqn:Hi.
  destruct (insert_approval_token_inv _ _ _ _ _ Hi) as [[-> Hne]|[-> ->]].
  { destruct x as [[]|]; [done | by apply effect_none]. }
  simpl. destruct (update_pending id _ now _ _) as [n d2] eqn:Hu.
  destruct (update_pending_inv _ _ _ _ _ _ _ Hu) as [[-> ->]|(-> & r' & Hr' & Hs & ->)];
    [by apply effect_none |]. by eapply effect_approve.
Qed.

Lemma approve_escalation_effect `{Hex, Ed25519} sha256 sj k gn gr now id scope sig fp ep policy d :
  effect Q d (approve_escalation sha256 sj k gn gr now id scope sig fp ep policy d).2.
Proof.
  unfold approve_escalation. se_unfold.
  destruct (validate_scope scope) as [[]|]; simpl; [| by apply effect_none].
  destruct (lookup_operator_pubkey policy fp) as [pk|]; simpl; [| by apply effect_none].
  destruct (verify_ed25519 _ _ _) as [[]|]; simpl; [| by apply effect_none].
  destruct gn as [nonce|]; simpl; [| by apply effect_none].
  destruct gr as [raw|]; simpl; [| by apply effect_none].
  set (t := new_approval_token _ _ _ _ _ _ _ _ _ _).
  assert (He := approve_tx_effect k id t now d eq_refl).
  destruct (approve_tx id k t now d) as [[[]|] d']; exact He.
Qed.

Lemma leave_recovery_same i st at_ d : same_escalations d (leave_recovery i st at_ d).2.
Proof. unfold leave_recovery. by repeat case_match. Qed.

Lemma approve_deadlock_effect now id d :
  effect Q d (approve_logical_deadlock_escalation_in_tx now id d).2.
Proof.
  unfold approve_logical_deadlock_escalation_in_tx.
  destruct (deadlock_row id d) as [[e ini]|]; [| by apply effect_none].
  case_match; [by apply effect_none |]. case_match; [by apply effect_none |].
  destruct (update_pending id _ now _ d) as [n d1] eqn:Hu.
  destruct (update_pending_inv _ _ _ _ _ _ _ Hu) as [[-> ->]|(-> & r & Hr & Hs & ->)];
    [by apply effect_none |].
  set (d2 := on_initiatives _ _).
  pose proof (leave_recovery_same (esc_initiative_id e) STATE_EXECUTING None d2) as Hsame.
  destruct (leave_recovery _ _ _ d2) as [rows d3]. eapply effect_resolve; [done | done | | exact Hsame].
  set_solver.
Qed.

Lemma deny_deadlock_effect now id note d :
  effect Q d (deny_logical_deadlock_escalation_in_tx now id note d).2.
Proof.
  unfold deny_logical_deadlock_escalation_in_tx.
  destruct (deadlock_row id d) as [[e ini]|]; [| by apply effect_none].
  case_match; [by apply effect_none |].
  destruct (update_pending id _ now _ d) as [n d1] eqn:Hu.
  destruct (update_pending_inv _ _ _ _ _ _ _ Hu) as [[-> ->]|(-> & r & Hr & Hs & ->)];
    [by apply effect_none |].
  set (d1 := on_escalations _ _).
  set (step := if String.eqb (ini_state ini) STATE_RECOVERY
               then leave_recovery (esc_initiative_id e) STATE_FAILED (Some now) d1 else (0, d1)).
  assert (Hsame : same_escalations d1 step.2).
  { unfold step. case_match; [apply leave_recovery_same | done]. }
  destruct step as [rows d2]. eapply effect_resolve; [done | done | | exact Hsame]. set_solver.
Qed.

Lemma effect_with_tx {A} (m : M SqlError A) d : effect Q d (m d).2 → effect Q d (with_tx m d).2.
Proof. unfold with_tx. destruct (m d) as [[a|e] d']; [done |]. intros _. by apply effect_none. Qed.

(** *** Kernel escalations *)

(** At most one kernel row is inserted; other tables may change. *)
Definition kernel_effect (d d' : Db) : Prop :=
  same_escalations d d' ∨
  ∃ id r, d.(escalations) !! id = None ∧ r.(esc_initiator) = KERNEL ∧ new_kernel_row r ∧
    find_escalation r.(esc_session_id) r.(esc_idempotency_key) d = None ∧
    same_escalations (on_escalations <[id := r]> d) d'.

Lemma kernel_effect_effect d d' : kernel_effect d d' → effect Q d d'.
Proof.
  intros [Hs|(id & r & Hn & Hk & Hp & Hf & Hs)]; [by apply effect_none | by eapply effect_kernel].
Qed.

Lemma kernel_effect_right d d1 d2 : kernel_effect d d1 → same_escalations d1 d2 → kernel_effect d d2.
Proof.
  intros [Hs|(id & r & Hn & Hk & Hp & Hf & Hs)] Hs2; [left; by etrans | right].
  exists id, r. split_and!; try done. by etrans.
Qed.

Lemma kernel_effect_left d d1 d2 : same_escalations d d1 → kernel_effect d1 d2 → kernel_effect d d2.
Proof.
  intros Hsd [Hs|(id & r & Hn & Hk & Hp & Hf & (H1 & H2 & H3))]; [left; by etrans | right].
  destruct Hsd as (He & Ht & Hl).
  exists id, r. split_and!; [by rewrite <-He | done | done | by apply (find_escalation_same _ _ d d1) |].
  unfold same_escalations. simpl in *. split_and!; congruence.
Qed.

Lemma insert_or_ignore_effect id r d :
  r.(esc_initiator) = KERNEL → new_kernel_row r → kernel_effect d (insert_or_ignore id r d).2.
Proof.
  intros Hk Hs. unfold insert_or_ignore.
  destruct (escalation_check r); [| by left].
  destruct (find_escalation _ _ _) eqn:Hf; [by left |].
  case_bool_decide as Hid; [by left |]. apply eq_None_not_Some in Hid.
  destruct (escalation_fk r d); [right; by exists id, r | by left].
Qed.

Lemma insert_kernel_effect `{!AnchorPicks} id i key j scope timeout now d :
  kernel_effect d (insert_kernel_escalation id i key j scope timeout now d).2.
Proof.
  unfold insert_kernel_escalation.
  destruct (resolve_anchor i d) as [[[t s] l]|]; [| by left].
  destruct (uuid_parse i) as [u|]; [| by left].
  set (row := kernel_row _ _ _ _ _ _ _ _ _).
  assert (He := insert_or_ignore_effect id row d eq_refl (conj eq_refl (conj eq_refl eq_refl))).
  destruct (insert_or_ignore id row d) as [[[|n]|e] d']; exact He.
Qed.

Lemma increment_same i max d :
  same_escalations d (increment_no_progress_count_with_ceiling_in_tx i max d).2.
Proof. unfold increment_no_progress_count_with_ceiling_in_tx. by repeat case_match. Qed.

Lemma close_open_same i now d : same_escalations d (close_open_activations i now d).2.
Proof. unfold close_open_activations, update_activations. by case_match. Qed.

Lemma kernel_effect_with_tx {A} (m : M SqlError A) d :
  kernel_effect d (m d).2 → kernel_effect d (with_tx m d).2.
Proof. unfold with_tx. destruct (m d) as [[a|e] d']; [done |]. by left. Qed.

Lemma ceiling_tx_effect `{!AnchorPicks} id i max timeout sql_now now d :
  kernel_effect d (ceiling_tx id i max timeout sql_now now d).2.
Proof.
  apply kernel_effect_with_tx. unfold mbind, se_bind.
  pose proof (increment_same i max d) as Hinc.
  destruct (increment_no_progress_count_with_ceiling_in_tx i max d) as [[[c|c mx]|e] d1];
    [by left | | by left]. simpl in Hinc. eapply kernel_effect_left; [done |].
  unfold gets. unfold insert_logical_deadlock_escalation_in_tx.
  match goal with |- context [insert_kernel_escalation id i ?k ?j ?sc ?t now d1] =>
    pose proof (insert_kernel_effect id i k j sc t now d1) as Hk;
    destruct (insert_kernel_escalation id i k j sc t now d1) as [[eid|e] d2] end; [| exact Hk].
  unfold update_initiative, delete_reservations, fail_tasks, modify, mret, se_ret.
  match goal with |- context [close_open_activations i now ?x] =>
    pose proof (close_open_same i now x) as Hc;
    destruct (close_open_activations i now x) as [[[]|e] d3] end;
    (eapply kernel_effect_right; [exact Hk |]; etrans; [| exact Hc]; done).
Qed.

Lemma permanent_failure_tx_effect `{!AnchorPicks} short_hash id i c timeout sql_now now d :
  kernel_effect d (permanent_failure_tx short_hash id i c timeout sql_now now d).2.
Proof.
  apply kernel_effect_with_tx. destruct (initiatives d !! i) as [r|]; [| by left].
  case_bool_decide; [by left |]. unfold mbind, se_bind, insert_permanent_failure_escalation_in_tx.
  match goal with |- context [insert_kernel_escalation id i ?k ?j ?sc ?t now d] =>
    pose proof (insert_kernel_effect id i k j sc t now d) as Hk;
    destruct (insert_kernel_escalation id i k j sc t now d) as [[eid|e] d2] end; [| exact Hk].
  eapply kernel_effect_right; [exact Hk | done].
Qed.

Lemma permanent_failure_effect `{!AnchorPicks} short_hash id i c timeout sql_now now d :
  kernel_effect d (escalate_initiative_on_permanent_failure short_hash id i c timeout sql_now now d).2.
Proof.
  unfold escalate_initiative_on_permanent_failure.
  pose proof (permanent_failure_tx_effect short_hash id i c timeout sql_now now d) as Hk.
  destruct (permanent_failure_tx _ _ _ _ _ _ _ d) as [[[[x|]| |]|e] d']; try exact Hk.
  by case_bool_decide.
Qed.

(** *** Every operation *)

Lemma handle_effect policy now_auth now id req d :
  Q (OpSubmit policy now_auth now id req) → effect Q d (handle policy now_auth now id req d).2.
Proof.
  intros HQ. destruct (handle_handled policy now_auth now id req d) as [Hn|s l i eid r Hr Hf|s l i [[resp evs] d'] Hr Hf Ha];
    [by apply effect_none | by apply effect_none | by eapply effect_submit].
Qed.

Lemma handle_approve_effect `{Hex, Ed25519} sha256 sj k gn gr now policy id scope sig fp d :
  effect Q d (handle_approve_escalation sha256 sj k gn gr now policy id scope sig fp d).2.
Proof.
  unfold handle_approve_escalation. destruct (is_kernel_deadlock id d).
  - unfold handle_approve_logical_deadlock.
    pose proof (effect_with_tx _ d (approve_deadlock_effect now id d)) as He.
    by destruct (with_tx _ d) as [[[o|]|e] d'].
  - destruct (hex_decode sig) as [b|]; [| by apply effect_none].
    pose proof (approve_escalation_effect sha256 sj k gn gr now id scope b fp policy.(epoch) policy d) as He.
    by destruct (approve_escalation _ _ _ _ _ _ _ _ _ _ _ _ d) as [[o|e] d'].
Qed.

Lemma handle_deny_effect now now' policy id reason fp d :
  effect Q d (handle_deny_escalation now now' policy id reason fp d).2.
Proof.
  unfold handle_deny_escalation. destruct (is_kernel_deadlock id d).
  - unfold handle_deny_logical_deadlock. destruct (reason_too_long reason); [by apply effect_none |].
    pose proof (effect_with_tx _ d (deny_deadlock_effect now id reason d)) as He.
    by destruct (with_tx _ d) as [[[o|]|e] d'].
  - destruct (reason_too_long reason); [by apply effect_none |].
    pose proof (deny_escalation_effect now id reason d) as He.
    by destruct (deny_escalation now id reason d) as [[o|e] d'].
Qed.

Lemma run_op_effect `{Hex, Ed25519, !AnchorPicks} sha256 sj short_hash op d :
  Q op →
  effect Q d (run_op sha256 sj short_hash d op).
Proof.
  destruct op; simpl; intros HQ.
  - by apply handle_effect.
  - apply handle_approve_effect.
  - apply handle_deny_effect.
  - apply kernel_effect_effect, ceiling_tx_effect.
  - apply kernel_effect_effect, permanent_failure_effect.
  - by eapply effect_consume.
Qed.
End Effects.

Lemma pending_unresolved : pending ∉ [APPROVED; DENIED; CONSUMED].
Proof. by apply (bool_decide_unpack _). Qed.

Lemma consumed_not_answered : CONSUMED ∉ [APPROVED; DENIED].
Proof. by apply (bool_decide_unpack _). Qed.

(** ** Column types *)

(** The texts of a row are of their enums, and it carries a resolution time
    exactly when it is not pending. *)
Definition row_typed (r : EscalationRow) : Prop :=
  (∃ c : EscalationClass, r.(esc_class) = as_sql_str c) ∧
  (∃ s : EscalationStatus, r.(esc_status) = as_sql_str s) ∧
  r.(esc_initiator) ∈ [PLANNER; KERNEL] ∧
  (r.(esc_resolved_at) = None ↔ r.(esc_status) = pending).
Definition rows_typed (d : Db) : Prop := map_Forall (λ _ r, row_typed r) d.(escalations).

Lemma resolve_typed st now notes r :
  st ∈ [APPROVED; DENIED; CONSUMED] → row_typed r → row_typed (resolve_escalation st now notes r).
Proof.
  intros Hs (Hc & _ & Hi & _).
  assert (Hne : st ≠ pending) by (intros ->; by apply pending_unresolved).
  split; [done |]. split; [| by split].
  assert (st = APPROVED ∨ st = DENIED ∨ st = CONSUMED) as [-> | [-> | ->]] by set_solver.
  - by exists EscalationStatus.Approved.
  - by exists EscalationStatus.Denied.
  - by exists EscalationStatus.Consumed.
Qed.

Lemma new_row_typed r :
  (∃ c : EscalationClass, r.(esc_class) = as_sql_str c) → r.(esc_status) = pending →
  r.(esc_initiator) ∈ [PLANNER; KERNEL] → r.(esc_resolved_at) = None → row_typed r.
Proof.
  intros Hc Hs Hi Hr. split; [done |]. split; [by exists EscalationStatus.Pending |].
  split; [done | by split].
Qed.

(** ** What every operation preserves *)

(** The moves a row may make: one resolution, and consumption after approval. *)
Definition resolves (r r' : EscalationRow) : Prop :=
  origin r' = origin r ∧
  (r' = r ∨ (r.(esc_status) = pending ∧ r'.(esc_status) ∈ [APPROVED; DENIED; CONSUMED]) ∨
   (r.(esc_status) = APPROVED ∧ r'.(esc_status) = CONSUMED)).

#[export] Instance resolves_preorder : PreOrder resolves.
Proof.
  split; [intros r; split; auto |].
  intros r r' r'' [Ho [->|[[Hp Hr']|[Ha Hc]]]] [Ho' Hs']; (split; [congruence |]).
  - tauto.
  - destruct Hs' as [->|[[Hp' _]|[_ Hc']]]; [by auto | | ].
    + exfalso. rewrite Hp' in Hr'. by apply pending_unresolved.
    + right; left. split; [done |]. rewrite Hc'. set_solver.
  - destruct Hs' as [->|[[Hp' _]|[Ha' _]]]; [by auto | by rewrite Hc in Hp' | by rewrite Hc in Ha'].
Qed.

(** No row disappears, and each only resolves. *)
Definition table_le (d d' : Db) : Prop :=
  ∀ id r, d.(escalations) !! id = Some r →
    ∃ r', d'.(escalations) !! id = Some r' ∧ resolves r r'.

#[export] Instance table_le_preorder : PreOrder table_le.
Proof.
  split; [intros d id r Hr; by exists r |].
  intros d1 d2 d3 H1 H2 id r Hr. destruct (H1 _ _ Hr) as (r2 & Hr2 & Hres).
  destruct (H2 _ _ Hr2) as (r3 & Hr3 & Hres'). exists r3. split; [done | by etrans].
Qed.

(** Tokens belong to approved escalations, one at most to each. *)
Definition tokens_ok (d : Db) : Prop :=
  (∀ k t, d.(approval_tokens) !! k = Some t →
     ∃ r, d.(escalations) !! t.(apt_escalation_id) = Some r ∧ r.(esc_status) ∈ [APPROVED; CONSUMED]) ∧
  (∀ k k' t t', d.(approval_tokens) !! k = Some t → d.(approval_tokens) !! k' = Some t' →
     t.(apt_escalation_id) = t'.(apt_escalation_id) → k = k').

Lemma table_le_insert d d' id r :
  d.(escalations) !! id = None → d'.(escalations) = <[id := r]> d.(escalations) → table_le d d'.
Proof.
  intros Hn He k r0 Hr0. exists r0. split; [| done]. rewrite He, lookup_insert_ne; [done |].
  intros ->. congruence.
Qed.

Lemma table_le_resolve d d' id r st now notes :
  d.(escalations) !! id = Some r → r.(esc_status) = pending → st ∈ [APPROVED; DENIED] →
  d'.(escalations) = <[id := resolve_escalation st now notes r]> d.(escalations) → table_le d d'.
Proof.
  intros Hr Hp Hst He k r0 Hr0. rewrite He. destruct (decide (k = id)) as [->|Hne].
  - rewrite lookup_insert_eq. eexists. split; [done |]. simplify_eq. split; [apply origin_resolve |].
    right; left. split; [done |]. simpl. set_solver.
  - rewrite lookup_insert_ne by done. by exists r0.
Qed.

Lemma table_le_consume now notes key d : table_le d (consume_merge_escalations now notes key d).2.
Proof.
  intros id r Hr. simpl. rewrite lookup_fmap, Hr. simpl. eexists. split; [done |].
  case_match eqn:Hc; [| done]. split; [apply origin_resolve |]. right.
  unfold consumable in Hc. apply andb_true_iff in Hc as [_ Hs%bool_decide_eq_true].
  assert (esc_status r = pending ∨ esc_status r = APPROVED) as [Hs'|Hs'] by set_solver.
  - left. split; [done |]. simpl. set_solver.
  - by right.
Qed.

Lemma same_escalations_table_le d d' : same_escalations d d' → table_le d d'.
Proof. intros (He & _) id r Hr. exists r. by rewrite He. Qed.

(** Without new tokens, rows that only resolve keep the token invariant. *)
Lemma tokens_ok_le d d' :
  table_le d d' → d'.(approval_tokens) = d.(approval_tokens) → tokens_ok d → tokens_ok d'.
Proof.
  intros Hle Ht [H1 H2]. split; rewrite Ht; [| done]. intros k t Hk.
  destruct (H1 _ _ Hk) as (r & Hr & Hs). destruct (Hle _ _ Hr) as (r' & Hr' & _ & Hres).
  exists r'. split; [done |]. destruct Hres as [->|[[Hp _]|[_ ->]]]; [done | | set_solver].
  exfalso. rewrite Hp in Hs. apply pending_unresolved. set_solver.
Qed.

Lemma tokens_ok_approve d d' id r k t now :
  d.(escalations) !! id = Some r → r.(esc_status) = pending → t.(apt_escalation_id) = id →
  insert_approval_token k t d = (Ok tt, on_approval_tokens <[k := t]> d) →
  same_escalations (on_escalations <[id := resolve_escalation APPROVED now (λ n, n) r]>
                      (on_approval_tokens <[k := t]> d)) d' →
  tokens_ok d → tokens_ok d'.
Proof.
  intros Hr Hp Hid Hins (He & Ht & _) [H1 H2]. simpl in He, Ht.
  assert (Hfresh : ∀ k' t', approval_tokens d !! k' = Some t' → apt_escalation_id t' ≠ id).
  { revert Hins. unfold insert_approval_token. case_bool_decide; [done |].
    case_bool_decide as Hall; [| done]. intros _ k' t' Hk'. rewrite <-Hid. by destruct (Hall _ _ Hk'). }
  assert (Hle : table_le d d').
  { eapply (table_le_resolve d d' id r APPROVED now (λ n, n)); try done. set_solver. }
  split; rewrite Ht.
  - intros k0 t0. rewrite lookup_insert_Some. intros [[<- <-]|[_ Hk0]].
    + rewrite He, Hid, lookup_insert_eq. eexists. split; [done |]. simpl. set_solver.
    + destruct (H1 _ _ Hk0) as (r0 & Hr0 & Hs). rewrite He, lookup_insert_ne; [eauto |].
      intros Heq. by eapply Hfresh.
  - intros k1 k2 t1 t2. rewrite !lookup_insert_Some.
    intros [[<- <-]|[_ Hk1]] [[<- <-]|[_ Hk2]] Heq; [done | | | by eauto].
    + exfalso. eapply (Hfresh k2 t2); [done |]. congruence.
    + exfalso. eapply (Hfresh k1 t1); [done |]. congruence.
Qed.

Section Preserved.
Context `{EscalationLib} (Q : EscalationOp → Prop).

Lemma attempt_tables policy now id s l i req d resp evs d' :
  attempt policy now id s l i req d (resp, evs, d') →
  d'.(approval_tokens) = d.(approval_tokens) ∧
  (d'.(escalations) = d.(escalations) ∨
   d.(escalations) !! id = None ∧
   d'.(escalations) = <[id := new_escalation s l i req now (submission_timeout policy now)]> d.(escalations)).
Proof.
  intros Ha. inversion Ha; subst; simpl; auto. split; [done | right].
  by match goal with Hi : insert_escalation _ _ _ = _ |- _ =>
    apply insert_escalation_ok in Hi as (_ & Hid & _) end.
Qed.

Lemma effect_table_le d d' : effect Q d d' → table_le d d'.
Proof.
  intros [Hs|id r st now notes Hr Hp Hst (He & _)|id r k t now Hr Hp Ht Hins (He & _)|now notes key HQ ->
         |id r Hn _ _ _ (He & _)|policy now_auth now id s l i req resp evs _ _ Ha].
  - by apply same_escalations_table_le.
  - by apply (table_le_resolve d d' id r st now notes).
  - eapply (table_le_resolve d d' id r APPROVED now (λ n, n)); try done. set_solver.
  - apply table_le_consume.
  - by apply (table_le_insert d d' id r).
  - destruct (attempt_tables _ _ _ _ _ _ _ _ _ _ _ Ha) as (_ & [He|[Hn He]]); [| by eapply table_le_insert].
    intros k r Hr. exists r. by rewrite He.
Qed.

Lemma effect_tokens_ok d d' : effect Q d d' → tokens_ok d → tokens_ok d'.
Proof.
  intros He. pose proof (effect_table_le d d' He) as Hle.
  destruct He as [(_ & Ht & _)|id r st now notes Hr Hp Hst (_ & Ht & _)|id r k t now Hr Hp Hid Hins Hs
                 |now notes key HQ ->|id r Hn _ _ _ (_ & Ht & _)|policy now_auth now id s l i req resp evs _ _ Ha].
  - by apply tokens_ok_le.
  - by apply tokens_ok_le.
  - by apply (tokens_ok_approve d d' id r k t now).
  - by apply tokens_ok_le.
  - by apply tokens_ok_le.
  - apply tokens_ok_le; [done |]. by apply attempt_tables in Ha as [Ht _].
Qed.

(** Only a merge with its key consumes a row. *)
Lemma unconsumed_effect d d' id r key :
  (∀ now notes k, Q (OpConsume now notes k) → k ≠ key) → key = r.(esc_idempotency_key) →
  effect Q d d' → d.(escalations) !! id = Some r → r.(esc_status) ≠ CONSUMED →
  ∃ r', d'.(escalations) !! id = Some r' ∧ origin r' = origin r ∧ r'.(esc_status) ≠ CONSUMED.
Proof.
  intros HQ -> He Hr Hs. pose proof (effect_table_le d d' He id r Hr) as (r' & Hr' & Ho & _).
  exists r'. split_and!; [done | done |]. revert Hr'.
  assert (Hput : ∀ d0 k r0 st now notes, escalations d0 = escalations d → d0.(escalations) !! k = Some r0 →
            st ∈ [APPROVED; DENIED] →
            <[k := resolve_escalation st now notes r0]> (escalations d) !! id = Some r' →
            esc_status r' ≠ CONSUMED).
  { intros d0 k r0 st now notes _ _ Hst. rewrite lookup_insert_Some. intros [[_ <-]|[_ Hx]].
    - simpl. intros ->. by apply consumed_not_answered.
    - by simplify_eq. }
  destruct He as [(He & _)|k r0 st now notes Hk Hp Hst (He & _)|k r0 kt t now Hk Hp Ht Hins (He & _)
                 |now notes key HQc ->|k r0 Hn Hk _ Hf (He & _)|policy now_auth now k s l i req resp evs HQs Hf Ha].
  - rewrite He. intros ?. by simplify_eq.
  - rewrite He. by apply (Hput d).
  - rewrite He. apply (Hput d); try done. set_solver.
  - simpl. rewrite lookup_fmap, Hr. simpl. intros [= <-]. unfold consumable.
    destruct (String.eqb_spec (esc_idempotency_key r) key) as [Hk|]; [| done].
    by destruct (HQ _ _ _ HQc).
  - rewrite He. simpl. rewrite lookup_insert_ne by congruence. intros ?. by simplify_eq.
  - destruct (attempt_tables _ _ _ _ _ _ _ _ _ _ _ Ha) as (_ & [He|[Hn He]]); rewrite He.
    + intros ?. by simplify_eq.
    + rewrite lookup_insert_ne by congruence. intros ?. by simplify_eq.
Qed.

Lemma new_escalation_typed s l i req now t : row_typed (new_escalation s l i req now t).
Proof. apply new_row_typed; [by eexists | done | simpl; set_solver | done]. Qed.

Lemma effect_rows_typed d d' : effect Q d d' → rows_typed d → rows_typed d'.
Proof.
  intros [(He & _)|id r st now notes Hr Hp Hst (He & _)|id r k t now Hr Hp Ht Hins (He & _)|now notes key HQ ->
         |id r Hn Hk (Hc & Hs & Hres) _ (He & _)|policy now_auth now id s l i req resp evs _ _ Ha] Hd;
    unfold rows_typed.
  - by rewrite He.
  - rewrite He. apply map_Forall_insert_2; [| done]. apply resolve_typed; [set_solver | by eapply Hd].
  - rewrite He. apply map_Forall_insert_2; [| done]. apply resolve_typed; [set_solver | by eapply Hd].
  - intros id r. simpl. rewrite lookup_fmap. intros (r0 & Hr0 & ->)%fmap_Some.
    specialize (Hd _ _ Hr0). simpl in Hd. case_match; [| done].
    apply resolve_typed; [set_solver | done].
  - rewrite He. apply map_Forall_insert_2; [| done].
    apply new_row_typed; [by eexists | done | rewrite Hk; set_solver | done].
  - destruct (attempt_tables _ _ _ _ _ _ _ _ _ _ _ Ha) as (_ & [He|[Hn He]]); rewrite He; [done |].
    apply map_Forall_insert_2; [apply new_escalation_typed | done].
Qed.

(** The unique index on session and key. *)
Lemma find_escalation_unique s k d id r :
  keys_unique d → d.(escalations) !! id = Some r → same_key s k r = true →
  find_escalation s k d = Some (id, r).
Proof.
  intros Hu Hr Hk. destruct (find_escalation s k d) as [[id' r']|] eqn:Hf.
  - apply find_escalation_Some in Hf as [Hr' Hk']. simpl in *.
    assert (id' = id) as ->.
    { apply (Hu _ _ r' r); [done | done |]. revert Hk Hk'. unfold same_key.
      rewrite !andb_true_iff, !String.eqb_eq. intros [] []. split; congruence. }
    by simplify_eq.
  - rewrite find_escalation_None in Hf. specialize (Hf _ _ Hr). simpl in Hf. congruence.
Qed.

Lemma keys_unique_insert d d' id r :
  find_escalation r.(esc_session_id) r.(esc_idempotency_key) d = None →
  d'.(escalations) = <[id := r]> d.(escalations) → keys_unique d → keys_unique d'.
Proof.
  intros Hf He Hu k k' r1 r2. apply find_escalation_None in Hf.
  rewrite He, !lookup_insert_Some. intros [[<- <-]|[_ H1]] [[<- <-]|[_ H2]] Hk; [done | | |].
  - exfalso. specialize (Hf _ _ H2). simpl in Hf. congruence.
  - exfalso. specialize (Hf _ _ H1). simpl in Hf. revert Hk Hf. unfold same_key.
    rewrite andb_true_iff, !String.eqb_eq. intros [-> ->]. by rewrite !String.eqb_refl.
  - eauto.
Qed.

Lemma keys_unique_origins d d' : origins d' = origins d → keys_unique d → keys_unique d'.
Proof.
  intros Ho Hu.
  assert (Hback : ∀ k r, escalations d' !! k = Some r →
            ∃ r0, escalations d !! k = Some r0 ∧ origin r = origin r0).
  { intros k r Hr. assert (Hx : origins d !! k = Some (origin r))
      by (rewrite <-Ho; unfold origins; by rewrite lookup_fmap, Hr).
    unfold origins in Hx. apply lookup_fmap_Some in Hx as (r0 & Heq & Hr0). eauto. }
  intros k k' r r' Hr Hr' Hk.
  destruct (Hback _ _ Hr) as (r0 & Hr0 & E0). destruct (Hback _ _ Hr') as (r1 & Hr1 & E1).
  apply (Hu _ _ _ _ Hr0 Hr1). revert Hk. unfold same_key.
  by rewrite (f_equal esc_session_id E0 : esc_session_id r = _),
    (f_equal esc_idempotency_key E0 : esc_idempotency_key r = _),
    (f_equal esc_session_id E1 : esc_session_id r' = _),
    (f_equal esc_idempotency_key E1 : esc_idempotency_key r' = _).
Qed.

Lemma origins_resolve d d' id r st now notes :
  d.(escalations) !! id = Some r →
  d'.(escalations) = <[id := resolve_escalation st now notes r]> d.(escalations) → origins d' = origins d.
Proof.
  intros Hr He. unfold origins. rewrite He, fmap_insert, origin_resolve.
  apply insert_id. by rewrite lookup_fmap, Hr.
Qed.

Lemma origins_consume now notes key d : origins (consume_merge_escalations now notes key d).2 = origins d.
Proof.
  unfold origins. simpl. rewrite <-map_fmap_compose. apply map_fmap_ext. intros k r _. simpl.
  by case_match.
Qed.

(** An operation keeps the origins, or adds one row of a fresh key: the kernel's,
    or a recorded submission. *)
Inductive growth (d d' : Db) : Prop :=
  | growth_none :
      origins d' = origins d → d'.(lineage_rate_limits) = d.(lineage_rate_limits) → growth d d'
  | growth_kernel id r :
      d.(escalations) !! id = None → r.(esc_initiator) = KERNEL →
      find_escalation r.(esc_session_id) r.(esc_idempotency_key) d = None →
      d'.(escalations) = <[id := r]> d.(escalations) →
      d'.(lineage_rate_limits) = d.(lineage_rate_limits) → growth d d'
  | growth_submit policy now_auth now id s l i req resp evs :
      Q (OpSubmit policy now_auth now id req) →
      find_escalation s req.(req_idempotency_key) d = None →
      attempt policy now id s l i req d (resp, evs, d') → growth d d'.

Lemma effect_growth d d' : effect Q d d' → growth d d'.
Proof.
  intros [(He & _ & Hl)|id r st now notes Hr Hp Hst (He & _ & Hl)|id r k t now Hr Hp Ht Hins (He & _ & Hl)
         |now notes key HQ ->|id r Hn Hk _ Hf (He & _ & Hl)|policy now_auth now id s l i req resp evs HQ Hf Ha].
  - apply growth_none; [unfold origins; by rewrite He | done].
  - apply growth_none; [by apply (origins_resolve d d' id r st now notes) | done].
  - apply growth_none; [by apply (origins_resolve d d' id r APPROVED now (λ n, n)) | done].
  - apply growth_none; [apply origins_consume | done].
  - by apply (growth_kernel d d' id r).
  - by eapply growth_submit.
Qed.

Lemma growth_keys_unique d d' : growth d d' → keys_unique d → keys_unique d'.
Proof.
  intros [Ho _|id r _ _ Hf He _|policy now_auth now id s l i req resp evs HQ Hf Ha].
  - by apply keys_unique_origins.
  - by apply (keys_unique_insert d d' id r).
  - destruct (attempt_tables _ _ _ _ _ _ _ _ _ _ _ Ha) as (_ & [He|[Hn He]]).
    + apply keys_unique_origins. unfold origins. by rewrite He.
    + by apply (keys_unique_insert d d' id (new_escalation s l i req now (submission_timeout policy now))).
Qed.
End Preserved.

(** ** Windows and quarantine *)

(** When the planners of a lineage created their escalations. *)
Definition planner_time (l : string) (r : EscalationRow) : option Z :=
  if String.eqb r.(esc_initiator) PLANNER && String.eqb r.(esc_lineage_id) l
  then Some r.(esc_created_at) else None.
Definition planner_times (l : string) (d : Db) : gmap string Z :=
  omap (planner_time l) d.(escalations).

(** How many since an instant. *)
Definition since (ws : Z) (times : gmap string Z) : nat := size (filter (λ kt, (ws ≤ kt.2)%Z) times).

Lemma since_insert ws k t times : times !! k = None → since ws (<[k := t]> times) <= S (since ws times).
Proof.
  intros Hk. unfold since. rewrite map_filter_insert, delete_id by done. case_decide; [| lia].
  rewrite map_size_insert_None; [done |]. rewrite map_lookup_filter_None. by left.
Qed.

Lemma planner_times_origins l d d' : origins d' = origins d → planner_times l d' = planner_times l d.
Proof.
  intros Ho. apply map_eq. intros k. unfold planner_times. rewrite !lookup_omap.
  assert (Hk : origin <$> escalations d' !! k = origin <$> escalations d !! k).
  { rewrite <-!lookup_fmap. change (origins d' !! k = origins d !! k). by rewrite Ho. }
  destruct (escalations d' !! k) as [r'|], (escalations d !! k) as [r|]; try done.
  change (planner_time l (origin r') = planner_time l (origin r)).
  change (Some (origin r') = Some (origin r)) in Hk. congruence.
Qed.

Lemma planner_times_insert l d d' id r :
  d.(escalations) !! id = None → d'.(escalations) = <[id := r]> d.(escalations) →
  planner_times l d' =
  match planner_time l r with Some t => <[id := t]> (planner_times l d) | None => planner_times l d end.
Proof.
  intros Hn He. unfold planner_times. rewrite He, omap_insert.
  destruct (planner_time l r); [done |]. apply delete_id. by rewrite lookup_omap, Hn.
Qed.

Section Rates.
Context `{EscalationLib}.
Implicit Types policy : PolicyBundle.

Lemma growth_times (Q : EscalationOp → Prop) d d' l :
  growth Q d d' →
  (planner_times l d' = planner_times l d ∧ d'.(lineage_rate_limits) !! l = d.(lineage_rate_limits) !! l) ∨
  ∃ policy now_auth now id s i req resp evs, Q (OpSubmit policy now_auth now id req) ∧
    attempt policy now id s l i req d (resp, evs, d').
Proof.
  intros [Ho Hl|id r Hn Hk Hf He Hl|policy now_auth now id s l' i req resp evs HQ Hf Ha].
  - left. by rewrite (planner_times_origins l d d' Ho), Hl.
  - left. rewrite (planner_times_insert l d d' id r Hn He), Hl. unfold planner_time. by rewrite Hk.
  - destruct (decide (l' = l)) as [->|Hne]; [by right; eauto 16 | left].
    destruct (attempt_tables _ _ _ _ _ _ _ _ _ _ _ Ha) as (_ & He). split.
    + destruct He as [He|[Hn He]]; [unfold planner_times; by rewrite He |].
      rewrite (planner_times_insert l d d' _ _ Hn He). unfold planner_time. simpl.
      by destruct (String.eqb_spec l' l).
    + inversion Ha; subst; simpl; by rewrite ?lookup_insert_ne.
Qed.

(** A lineage's row bounds what its planners did in the current window. *)
Definition row_ok (win mx ws count : Z) (times : gmap string Z) : Prop :=
  (0 ≤ count ≤ mx)%Z ∧ (Z.of_nat (since ws times) ≤ count)%Z ∧
  ((0 < win)%Z → map_Forall (λ _ t, (t < sat_add_i64 ws win)%Z) times).

Definition rate_ok (win mx : Z) (d : Db) : Prop :=
  ∀ l, match d.(lineage_rate_limits) !! l with
       | None => planner_times l d = ∅
       | Some row => row_ok win mx row.(rl_window_start) row.(rl_escalation_count) (planner_times l d)
       end.

Lemma row_ok_empty win mx ws : (0 ≤ mx)%Z → row_ok win mx ws 0 ∅.
Proof. intros Hmx. unfold row_ok. split_and!; [lia | lia | done |]. intros _. apply map_Forall_empty. Qed.

Lemma limits_row_ok win mx now l d :
  (0 ≤ mx)%Z → rate_ok win mx d →
  row_ok win mx (limits_row now l d).(rl_window_start) (limits_row now l d).(rl_escalation_count)
    (planner_times l d).
Proof.
  intros Hmx Hok. specialize (Hok l). unfold limits_row.
  destruct (lineage_rate_limits d !! l) as [row|]; [done |]. rewrite Hok. by apply row_ok_empty.
Qed.

(** A roll-over starts an empty window, and the clock is inside the window. *)
Lemma rolled_window_ok win mx now ws count times ws' count' :
  (0 ≤ mx)%Z → (now < i64_max)%Z → row_ok win mx ws count times →
  (ws', count') = rolled_window now win ws count →
  row_ok win mx ws' count' times ∧ ((0 < win)%Z → (now < sat_add_i64 ws' win)%Z).
Proof.
  intros Hmx Hnow (Hc & Hs & Ht). unfold rolled_window, row_ok.
  destruct (bool_decide_reflect (0 < win)%Z) as [Hw|Hw]; simpl.
  2: { intros [= -> ->]. split; [split_and!; try done; lia | lia]. }
  specialize (Ht Hw). case_bool_decide as Hroll; intros [= -> ->].
  2: { split; [split_and!; try done; lia | lia]. }
  assert (Hlt : map_Forall (λ _ t, (t < now)%Z) times).
  { eapply map_Forall_impl; [exact Ht |]. simpl. lia. }
  split; [split_and! |].
  - lia.
  - lia.
  - unfold since. rewrite map_empty_filter_2; [done |].
    intros k t Hk. simpl. specialize (Hlt _ _ Hk). simpl in Hlt. lia.
  - intros _. eapply map_Forall_impl; [exact Hlt |]. simpl. intros _ t. widths. lia.
  - intros _. widths. lia.
Qed.

Lemma row_ok_insert win mx now ws count k times :
  times !! k = None → (count + 1 ≤ mx)%Z → ((0 < win)%Z → (now < sat_add_i64 ws win)%Z) →
  row_ok win mx ws count times → row_ok win mx ws (count + 1) (<[k := now]> times).
Proof.
  intros Hk Hmx Hnow (Hc & Hs & Ht). unfold row_ok. split_and!; [lia | lia | |].
  - pose proof (since_insert ws k now times Hk). lia.
  - intros Hw. apply map_Forall_insert_2; auto.
Qed.

(** Submissions of one window and limit, before the end of the clock. *)
Definition limited (win mx : Z) (op : EscalationOp) : Prop :=
  match op with
  | OpSubmit policy _ now _ _ =>
      as_i64 policy.(escalation_window) = win ∧ policy.(escalation_max_per_window) = mx ∧
      (now < i64_max)%Z
  | _ => True
  end.

Lemma rate_ok_growth win mx d d' :
  (0 ≤ mx ≤ u32_max)%Z → growth (limited win mx) d d' → rate_ok win mx d → rate_ok win mx d'.
Proof.
  intros Hmx Hg Hok l.
  destruct (growth_times _ d d' l Hg)
    as [[Ht Hl]|(policy & now_auth & now & id & s & i & req & resp & evs & (Hwin & Hlim & Hnow) & Ha)].
  { rewrite Ht, Hl. apply Hok. }
  assert (Hrow := limits_row_ok win mx now l d ltac:(lia) Hok).
  assert (Hwindow : ∀ ws count, (ws, count) = attempt_window policy now (limits_row now l d) →
            row_ok win mx ws count (planner_times l d) ∧ ((0 < win)%Z → (now < sat_add_i64 ws win)%Z)).
  { intros ws count. unfold attempt_window. rewrite Hwin. apply rolled_window_ok; [lia | done | done]. }
  inversion Ha as [Hq|row ws count q evs' -> Hq Hw|row ws count resp' evs' -> Hq Hw Hn Hins|]; subst;
    [apply Hok | | | apply Hok].
  - simpl. rewrite lookup_insert_eq. simpl. by apply Hwindow.
  - simpl. rewrite lookup_insert_eq. simpl.
    destruct (Hwindow _ _ Hw) as [Hr Hin]. apply insert_escalation_ok in Hins as (_ & Hid & _).
    set (r := new_escalation s l i req now (submission_timeout policy now)) in *.
    match goal with |- row_ok _ _ _ _ (planner_times l ?x) =>
      rewrite (planner_times_insert l d x id r Hid eq_refl) end.
    assert (planner_time l r = Some now) as ->.
    { unfold planner_time, r. simpl. by rewrite String.eqb_refl. }
    unfold attempt_number in *. rewrite <-Hw in *. simpl in *.
    assert (wrap_add_i64 count 1 = count + 1)%Z as Hwrap.
    { apply as_i64_id. destruct Hr as (? & _). widths. lia. }
    rewrite Hwrap in *. apply row_ok_insert; [| lia | done | done].
    unfold planner_times. by rewrite lookup_omap, Hid.
Qed.

(** A quarantined lineage keeps its row and its planner escalations. *)
Definition frozen (l : string) (row : RateLimitRow) (times : gmap string Z) (d : Db) : Prop :=
  d.(lineage_rate_limits) !! l = Some row ∧ planner_times l d = times.

Lemma frozen_growth Q l row times d d' :
  row.(rl_quarantined) = 1%Z → growth Q d d' → frozen l row times d → frozen l row times d'.
Proof.
  intros Hq1 Hg [Hl Ht].
  destruct (growth_times _ d d' l Hg) as [[Ht' Hl']|(policy & now_auth & now & id & s & i & req & resp & evs & _ & Ha)].
  { split; congruence. }
  assert (Hrow : limits_row now l d = row) by (unfold limits_row; by rewrite Hl).
  inversion Ha; subst; simplify_eq; try done; congruence.
Qed.
End Rates.

(** ** Every run *)
Section Run.
Context `{Hex, Ed25519, EscalationLib, AnchorPicks}.
Context (sha256 : list byte → list byte) (scope_json : ApprovalScopeWire → string)
  (short_hash : string → string).
Abbreviation run := (run_ops sha256 scope_json short_hash).

Lemma run_ops_preserves (Q : EscalationOp → Prop) (P : Db → Prop) ops d :
  (∀ d d', effect Q d d' → P d → P d') → Forall Q ops → P d → P (run ops d).
Proof.
  intros Hstep Hops. revert d. induction Hops as [|op ops Hop Hops IH]; intros d Hd; [done |].
  apply IH. eapply Hstep; [by apply run_op_effect | done].
Qed.

Lemma run_ops_any (P : Db → Prop) ops d :
  (∀ d d', effect (λ _, True) d d' → P d → P d') → P d → P (run ops d).
Proof.
  intros Hstep. apply (run_ops_preserves (λ _, True)); [done |].
  apply Forall_forall. by intros [].
Qed.

Lemma run_keys_unique ops d : keys_unique d → keys_unique (run ops d).
Proof.
  apply run_ops_any. intros d1 d2 He. by eapply growth_keys_unique, effect_growth.
Qed.

Lemma run_table_le ops d : table_le d (run ops d).
Proof.
  apply (run_ops_any (table_le d)); [| done]. intros d1 d2 He Hle. etrans; [done |].
  by eapply effect_table_le.
Qed.

(** ** Properties *)

(** C17: an escalation is resolved once.  Over any run of submissions, approvals,
    denials, ceiling trips, permanent failures and merge consumptions, no
    escalation disappears or changes what was asked; a pending one becomes
    approved, denied or consumed, an approved one may be consumed, and in every
    other status the row never changes again.  Approval tokens belong to approved
    or consumed escalations, at most one to each. *)
Theorem escalations_resolved_once ops d :
  tokens_ok d →
  tokens_ok (run ops d) ∧
  ∀ id r, d.(escalations) !! id = Some r → ∃ r', (run ops d).(escalations) !! id = Some r' ∧
    origin r' = origin r ∧
    (r' = r ∨ (r.(esc_status) = pending ∧ r'.(esc_status) ∈ [APPROVED; DENIED; CONSUMED]) ∨
     (r.(esc_status) = APPROVED ∧ r'.(esc_status) = CONSUMED)).
Proof.
  intros Ht. split; [| apply run_table_le].
  apply run_ops_any; [| done]. intros d1 d2. apply effect_tokens_ok.
Qed.

(** C20: the rows stay well typed.  If the class and the status of every escalation
    are texts of their enums, its initiator one of the two, and its resolution
    time present exactly when it is not pending, so it is after any run. *)
Theorem escalation_rows_well_typed ops d :
  map_Forall (λ _ r, row_typed r) d.(escalations) →
  map_Forall (λ _ r, row_typed r) (run ops d).(escalations).
Proof. apply (run_ops_any rows_typed). intros d1 d2 He. exact (effect_rows_typed _ d1 d2 He). Qed.


(** Quarantine is permanent.  Once a lineage is quarantined, no run adds an
    escalation of its planners or lifts the quarantine, and every later
    well-formed submission with a new key is refused as quarantined and changes
    nothing, however much time has passed and whatever the policy has become. *)
Theorem quarantine_is_permanent ops d l row policy now_auth now new_id req s i :
  d.(lineage_rate_limits) !! l = Some row → row.(rl_quarantined) = 1%Z →
  (run ops d).(lineage_rate_limits) !! l = Some row ∧
  planner_times l (run ops d) = planner_times l d ∧
  (ready now_auth req (run ops d) s l i →
   find_escalation s req.(req_idempotency_key) (run ops d) = None →
   handle policy now_auth now new_id req (run ops d) = (Rejected LineageQuarantined, [], run ops d)).
Proof.
  intros Hl Hq.
  assert (Hf : frozen l row (planner_times l d) (run ops d)).
  { apply run_ops_any; [| done]. intros d1 d2 He. eapply frozen_growth; [done |]. by apply effect_growth. }
  destruct Hf as [Hl' Ht']. split_and!; [done | done |]. intros Hr Hf.
  by eapply quarantined_submission.
Qed.

(** At most one escalation per session and key.  After a submission was
    answered with an escalation, whatever happens to that escalation meanwhile, every later
    well-formed request of the same session with the same key, even for another
    task, class or scope, is answered with the first escalation and changes
    nothing. *)
Theorem resubmission_returns_first policy now_auth now new_id req d s l i eid timeout evs d1
    ops policy' now_auth' now' new_id' req' l' i' :
  keys_unique d → ready now_auth req d s l i →
  handle policy now_auth now new_id req d = (Submitted eid timeout, evs, d1) →
  ready now_auth' req' (run ops d1) s l' i' →
  req'.(req_idempotency_key) = req.(req_idempotency_key) →
  handle policy' now_auth' now' new_id' req' (run ops d1) = (AlreadyPending eid, [], run ops d1).
Proof.
  intros Hu Hr Hh Hr' Hkey.
  destruct (submitted_inv policy now_auth now new_id req d s l i eid timeout evs d1 Hr Hh)
    as (Hf & Ha & Hid & Hrow).
  assert (Hu1 : keys_unique d1).
  { eapply (growth_keys_unique (λ _, True) d d1); [| done]. by eapply (growth_submit _ _ _ policy now_auth now new_id s l i). }
  destruct (run_table_le ops d1 new_id _ Hrow) as (r' & Hr1 & Ho & _).
  apply run_keys_unique with (ops := ops) in Hu1.
  assert (Hk : same_key s req'.(req_idempotency_key) r' = true).
  { unfold same_key. rewrite Hkey, (f_equal esc_session_id Ho : esc_session_id r' = s),
      (f_equal esc_idempotency_key Ho : esc_idempotency_key r' = req_idempotency_key req).
    by rewrite !String.eqb_refl. }
  rewrite (handle_ready policy' now_auth' now' new_id' req' _ s l' i' Hr').
  rewrite (find_escalation_unique s _ _ new_id r' Hu1 Hr1 Hk). by rewrite Hid.
Qed.

(** A ceiling trip escalates once.  After a trip that inserted an escalation,
    whatever happens in between, a later trip of the initiative at the same count
    with the same anchor session inserts nothing, even when the first escalation
    has been approved and the counter cleared: the initiative waits for an
    operator with no new escalation to answer. *)
Theorem deadlock_escalates_once new_id i max timeout sql_now now d c m id d1 ops t s l t' l'
    new_id' max' timeout' sql_now' now' m' eid d3 :
  ceiling_tx new_id i max timeout sql_now now d = (Ok (Exceeded c m, Some id), d1) →
  let d2 := run_ops sha256 scope_json short_hash ops d1 in
  resolve_anchor i d = Some (t, s, l) → resolve_anchor i d2 = Some (t', s, l') →
  ceiling_tx new_id' i max' timeout' sql_now' now' d2 = (Ok (Exceeded c m', eid), d3) →
  eid = None ∧ d3.(escalations) = d2.(escalations) ∧ (ini_state <$> d3.(initiatives) !! i) = Some STATE_RECOVERY.
Proof.
  intros Ht d2 Ha Ha' Ht'.
  destruct (ceiling_tx_exceeded _ _ _ _ _ _ _ _ _ _ _ Ht) as (r & dx & _ & _ & _ & _ & Htrip & _ & He).
  apply trip_escalation_ok in Htrip as (_ & t0 & s0 & l0 & json & j & Ha0 & _ & _ & ->).
  change (resolve_anchor i d = Some (t0, s0, l0)) in Ha0. rewrite Ha in Ha0. injection Ha0 as <- <- <-.
  set (e := kernel_row t s l i json j _ _ _) in *.
  assert (He1 : escalations d1 !! id = Some e) by (rewrite He; simpl; by rewrite lookup_insert_eq).
  destruct (run_table_le ops d1 id e He1) as (e' & He2 & Ho & _). fold d2 in He2.
  destruct (ceiling_tx_exceeded _ _ _ _ _ _ _ _ _ _ _ Ht')
    as (r2 & dy & _ & _ & _ & _ & Htrip' & [(r3 & _ & Hini) _ _ _ _] & He3).
  set (dz := counted _ _ _ d2) in Htrip'.
  assert (Hf : is_Some (find_escalation s (deadlock_key i c) dz)).
  { destruct (find_escalation s (deadlock_key i c) dz) as [kr|] eqn:Hf; [by eexists |].
    apply find_escalation_None in Hf. specialize (Hf id e' He2). unfold same_key in Hf.
    rewrite (f_equal esc_session_id Ho : esc_session_id e' = s),
      (f_equal esc_idempotency_key Ho : esc_idempotency_key e' = deadlock_key i c), !String.eqb_refl in Hf.
    done. }
  change (resolve_anchor i dz = Some (t', s, l')) in Ha'.
  unfold trip_escalation, insert_logical_deadlock_escalation_in_tx in Htrip'.
  rewrite (insert_kernel_known _ i _ _ _ _ _ dz t' s l' Ha' Hf) in Htrip'. injection Htrip' as <- <-.
  split; [done |]. split; [by rewrite He3 |]. by rewrite Hini, lookup_insert_eq.
Qed.

(** The run merges the workspace of the escalation with this key. *)
Definition consumes (key : string) (op : EscalationOp) : bool :=
  match op with OpConsume _ _ k => String.eqb k key | _ => false end.

(** Attribution needs a merge.  If Check 6b accepts an escalation that was
    not consumed before a run, the escalation is a merge conflict of the submitting session and the
    run completed a workspace merge with its key: no submission, approval,
    denial or kernel step makes the check pass. *)
Theorem attribution_needs_a_merge ops d id r session :
  d.(escalations) !! id = Some r → r.(esc_status) ≠ CONSUMED →
  verify_merge_conflict_resolution id session (run ops d) = Ok tt →
  r.(esc_class) = as_sql_str EscalationClass.MergeConflict ∧ r.(esc_session_id) = session ∧
  Exists (λ op, consumes r.(esc_idempotency_key) op = true) ops.
Proof.
  intros Hr Hs Hv. destruct (run_table_le ops d id r Hr) as (r' & Hr' & Ho & _).
  apply attribution_ok in Hv as (r0 & Hr0 & Hclass & Hcons & Hsess).
  rewrite Hr' in Hr0. injection Hr0 as <-.
  split; [by rewrite <-Hclass, (f_equal esc_class Ho : esc_class r' = _) |].
  split; [by rewrite <-Hsess, (f_equal esc_session_id Ho : esc_session_id r' = _) |].
  destruct (decide (Exists (λ op, consumes r.(esc_idempotency_key) op = true) ops)) as [|Hno]; [done |].
  exfalso.
  assert (Hinv : ∃ r1, (run ops d).(escalations) !! id = Some r1 ∧ origin r1 = origin r ∧
                       r1.(esc_status) ≠ CONSUMED).
  { apply (run_ops_preserves (λ op, consumes r.(esc_idempotency_key) op = false)).
    - intros d1 d2 He (r1 & Hr1 & Ho1 & Hs1). rewrite <-Ho1.
      eapply (unconsumed_effect _ d1 d2 id r1 r.(esc_idempotency_key)); try done.
      + simpl. by intros _ _ k Hk ->; rewrite String.eqb_refl in Hk.
      + by apply eq_sym, (f_equal esc_idempotency_key Ho1).
    - apply Forall_Exists_neg in Hno. eapply Forall_impl; [exact Hno |]. simpl. intros op.
      by destruct (consumes _ op).
    - by exists r. }
  destruct Hinv as (r1 & H1' & _ & Hs1). rewrite Hr' in H1'. injection H1' as <-. by apply Hs1.
Qed.
End Run.

(** ** Witnesses: one initiative, one planner session, one operator *)

Definition any_signature : Ed25519 := trusting (λ _ _ _, true).
#[local] Existing Instances demo_lib demo_picks any_signature hex_codec.

Definition esc_policy (max threshold : Z) : PolicyBundle :=
  MkPolicyBundle [] ∅ 0 0 [] [] "permit" [] 1
    [MkOperatorEntry "fp" "ada" demo_key ["ApproveEscalation"] demo_cert false] 3600 300 max threshold.
Definition conflict_request (key : string) : EscalationRequest :=
  MkEscalationRequest "tok" "t" EscalationClass.MergeConflict
    (RequestedEscalationScope.MergeConflict ["src/a.rs"]) "both sides changed it" key.

Definition demo_run := run_ops (λ _, []) (λ _, "{}") (λ s, s).
Definition submit (id key : string) (now : Z) : EscalationOp :=
  OpSubmit (esc_policy 1 2) now now id (conflict_request key).
Definition approve (token id : string) : EscalationOp :=
  OpApprove token (Ok "nonce") (Ok []) 300 (esc_policy 1 2) id (MkApprovalScopeWire "x" 1 60)
    demo_sig "fp".

(** One escalation recorded and one attempt over the limit. *)
Definition submitted_db : Db := demo_run [submit "e1" "k1" 200; submit "e2" "k2" 201] esc_db.

Lemma no_tokens_ok d : d.(approval_tokens) = ∅ → tokens_ok d.
Proof. intros Hd. split; intros *; by rewrite Hd, lookup_empty. Qed.

Lemma esc_db_rate_ok win mx : rate_ok win mx esc_db.
Proof. intros l. reflexivity. Qed.

Example approve_run_works :
  let d := demo_run [submit "e1" "k1" 200; approve "tk" "e1"; OpConsume 400 "merged" "k1"] esc_db in
  esc_status <$> d.(escalations) !! "e1" = Some CONSUMED ∧ size d.(approval_tokens) = 1.
Proof. vm_compute. done. Qed.

Lemma escalations_resolved_once_witness :
  let d := demo_run [approve "tk" "e1"; approve "tk2" "e1"; OpConsume 400 "merged" "k1"] submitted_db in
  tokens_ok d ∧ ∃ r', d.(escalations) !! "e1" = Some r' ∧ r'.(esc_status) = CONSUMED.
Proof.
  assert (H : tokens_ok submitted_db).
  { apply no_tokens_ok. by vm_compute. }
  destruct (escalations_resolved_once (λ _, []) (λ _, "{}") (λ s, s)
    [approve "tk" "e1"; approve "tk2" "e1"; OpConsume 400 "merged" "k1"] submitted_db H) as [Hok Hrow].
  split; [exact Hok |].
  destruct (submitted_db.(escalations) !! "e1") as [r|] eqn:Hr; [| by vm_compute in Hr].
  destruct (Hrow _ _ Hr) as (r' & Hr' & _). exists r'. split; [exact Hr' |].
  vm_compute in Hr'. by injection Hr' as <-.
Defined.


Lemma esc_ready now key d :
  get_active_session_by_token now "tok" d = (Ok (session_record "s" demo_session), d) →
  d.(tasks) = esc_db.(tasks) → d.(sessions) = esc_db.(sessions) →
  payload_ok (conflict_request key) = true → ready now (conflict_request key) d "s" "lineage" "i".
Proof.
  intros Hs Ht Hss Hp. exists (session_record "s" demo_session).
  exists (MkTaskRow "i" "lane" "Running" None "kernel" 4 20 20 (Some "s") None None None None
            0 None (Some "build") false None None 0).
  split_and!; try done; [by rewrite Ht |]. intros l. unfold task_lineage. simpl. rewrite Hss.
  by intros [= <-].
Qed.

(** Two attempts over the limit quarantine the lineage. *)
Definition quarantined_db : Db :=
  demo_run [submit "e1" "k1" 200; submit "e2" "k2" 201; submit "e2" "k2" 202] esc_db.

Lemma quarantine_is_permanent_witness :
  let d := demo_run [OpDeny 300 300 (esc_policy 9 9) "e1" None "fp"] quarantined_db in
  handle (esc_policy 9 9) 10000 10000 "e9" (conflict_request "k9") d = (Rejected LineageQuarantined, [], d).
Proof.
  destruct (quarantined_db.(lineage_rate_limits) !! "lineage") as [row|] eqn:Hl; [| by vm_compute in Hl].
  destruct (quarantine_is_permanent (λ _, []) (λ _, "{}") (λ s, s)
    [OpDeny 300 300 (esc_policy 9 9) "e1" None "fp"] quarantined_db "lineage" row (esc_policy 9 9)
    10000 10000 "e9" (conflict_request "k9") "s" "i" Hl) as (_ & _ & H).
  { vm_compute in Hl. by injection Hl as <-. }
  apply H; [apply esc_ready; vm_compute; reflexivity | vm_compute; reflexivity].
Defined.

Lemma resubmission_returns_first_witness :
  let d := demo_run [OpDeny 300 300 (esc_policy 1 2) "e1" None "fp"]
             (run_op (λ _, []) (λ _, "{}") (λ s, s) esc_db (submit "e1" "k1" 200)) in
  handle (esc_policy 0 0) 400 400 "e2" (conflict_request "k1") d = (AlreadyPending "e1", [], d).
Proof.
  destruct (handle (esc_policy 1 2) 200 200 "e1" (conflict_request "k1") esc_db) as [[resp evs] d1] eqn:Hh.
  assert (resp = Submitted "e1" 3800) as -> by (vm_compute in Hh; by injection Hh as <- _ _).
  assert (Hd1 : run_op (λ _, []) (λ _, "{}") (λ s, s) esc_db (submit "e1" "k1" 200) = d1)
    by (unfold submit, run_op; by rewrite Hh).
  rewrite Hd1.
  eapply (resubmission_returns_first (λ _, []) (λ _, "{}") (λ s, s) (esc_policy 1 2) 200 200 "e1"
    (conflict_request "k1") esc_db "s" "lineage" "i" "e1" 3800 evs d1
    [OpDeny 300 300 (esc_policy 1 2) "e1" None "fp"]); [| | exact Hh | | reflexivity].
  - intros id id' r r' Hr. change (escalations esc_db) with (∅ : gmap string EscalationRow) in Hr.
    by rewrite lookup_empty in Hr.
  - apply esc_ready; vm_compute; reflexivity.
  - rewrite <-Hd1. apply esc_ready; vm_compute; reflexivity.
Defined.

Lemma attribution_needs_a_merge_witness :
  let ops := [approve "tk" "e1"; OpConsume 400 "merged" "k1"] in
  verify_merge_conflict_resolution "e1" "s" (demo_run ops submitted_db) = Ok tt ∧
  Exists (λ op, consumes "k1" op = true) ops.
Proof.
  assert (Hv : verify_merge_conflict_resolution "e1" "s"
                 (demo_run [approve "tk" "e1"; OpConsume 400 "merged" "k1"] submitted_db) = Ok tt)
    by (by vm_compute).
  split; [exact Hv |].
  destruct (submitted_db.(escalations) !! "e1") as [r|] eqn:Hr; [| by vm_compute in Hr].
  destruct (attribution_needs_a_merge (λ _, []) (λ _, "{}") (λ s, s)
    [approve "tk" "e1"; OpConsume 400 "merged" "k1"] submitted_db "e1" r "s" Hr) as (_ & _ & H);
    [vm_compute in Hr; by injection Hr as <- | exact Hv |].
  vm_compute in Hr. by injection Hr as <-.
Defined.

(** Trip, approve, trip again: the second trip finds the first key. *)
Lemma deadlock_escalates_once_witness :
  let d1 := (ceiling_tx "e1" "i" 0 3600 500 500
               (on_initiatives (alter clear_respawn_count "i") esc_db)).2 in
  let d2 := demo_run [approve "tk" "e1"] d1 in
  let d3 := (ceiling_tx "e2" "i" 0 3600 700 700 d2).2 in
  (ini_state <$> d2.(initiatives) !! "i") = Some STATE_EXECUTING ∧
  (ini_state <$> d3.(initiatives) !! "i") = Some STATE_RECOVERY ∧
  d3.(escalations) = d2.(escalations) ∧ d3.(escalations) !! "e2" = None.
Proof.
  set (d := on_initiatives (alter clear_respawn_count "i") esc_db).
  destruct (ceiling_tx "e1" "i" 0 3600 500 500 d) as [res d1] eqn:Ht.
  assert (res = Ok (Exceeded 1 0, Some "e1")) as -> by (vm_compute in Ht; by injection Ht as <- _).
  assert (Hd1 : d1 = (ceiling_tx "e1" "i" 0 3600 500 500 d).2) by (by rewrite Ht).
  cbv zeta. simpl.
  assert (Hst : (ini_state <$> (demo_run [approve "tk" "e1"] d1).(initiatives) !! "i") = Some STATE_EXECUTING)
    by (rewrite Hd1; vm_compute; reflexivity).
  assert (Hanchor : resolve_anchor "i" (demo_run [approve "tk" "e1"] d1) = Some ("t", "s", "lineage"))
    by (rewrite Hd1; vm_compute; reflexivity).
  assert (Hres : (ceiling_tx "e2" "i" 0 3600 700 700 (demo_run [approve "tk" "e1"] d1)).1
                 = Ok (Exceeded 1 0, None)) by (rewrite Hd1; vm_compute; reflexivity).
  assert (Hfresh : (demo_run [approve "tk" "e1"] d1).(escalations) !! "e2" = None)
    by (rewrite Hd1; vm_compute; reflexivity).
  destruct (ceiling_tx "e2" "i" 0 3600 700 700 _) as [res' d3] eqn:Ht'. simpl in Hres. subst res'.
  destruct (deadlock_escalates_once (λ _, []) (λ _, "{}") (λ s, s) "e1" "i" 0 3600 500 500 d 1 0 "e1" d1
    [approve "tk" "e1"] "t" "s" "lineage" "t" "lineage" "e2" 0 3600 700 700 0 None d3 Ht eq_refl Hanchor Ht')
    as (_ & He & Hr).
  split; [exact Hst |]. split; [exact Hr |]. split; [exact He |]. simpl. rewrite He. exact Hfresh.
Defined.

Lemma escalation_rows_well_typed_witness :
  map_Forall (λ _ r, row_typed r)
    (demo_run [OpDeny 300 300 (esc_policy 1 2) "e1" (Some "no") "fp"] submitted_db).(escalations).
Proof.
  apply (escalation_rows_well_typed (λ _, []) (λ _, "{}") (λ s, s)
    [OpDeny 300 300 (esc_policy 1 2) "e1" (Some "no") "fp"] submitted_db).
  assert (Hs : submitted_db.(escalations) =
    {[ "e1" := new_escalation "s" "lineage" "i" (conflict_request "k1") 200 3800 ]})
    by (vm_compute; reflexivity).
  rewrite Hs. apply map_Forall_singleton.
  apply new_escalation_typed.
Defined.
