(* ===== verification/Completion.v ===== *)
(** * Task completion

    The [CompleteTask] path of [kernel/src/handlers/intent.rs]: inline admission
    of a first commit, the recomputed path check over every accepted range, the
    export snapshot, and the transactions that commit, park or finalise a
    completion.  The version-control adapter, the glob matcher and the audit
    sink are parameters; the clock is read once per request.  After the commit
    the handler also copies commits between worktrees, takes snapshots and
    spawns warn-only verifiers: those effects are outside the store and are not
    modelled. *)

From S2P Require Import Prelude Fsm Store TaskTransitions PlanDag PlanRegistry PathScope.
From S2P Require Import Review Dag Policy Budget Session.

Module PlannerErrorCode.
Inductive PlannerErrorCode : Type :=
  | FailPathPolicyViolation | FailInvalidCommitTopology | FailInvalidDiff | FailMissingWitness
  | FailInsufficientWitness | FailBudgetExceeded | FailUnknownTask | FailTaskNotRunning
  | FailPolicyViolation | Unauthorized | FailStaleBase | FetchDenied | InvalidRequest
  | FailApprovalTokenInvalid | FailInitiativeQuarantined | DependencyNotMet
  | FailVmConcurrencyAtCap | FailDiskFull | FailStructuredOutputInvalid
  | FailStructuredOutputRateLimited | FailGitApplyPending.
#[export] Instance PlannerErrorCode_eq_dec : EqDecision PlannerErrorCode.
Proof. solve_decision. Defined.
End PlannerErrorCode.
Abbreviation PlannerErrorCode := PlannerErrorCode.PlannerErrorCode.
Export (hints) PlannerErrorCode.

(** [vcs::diff::CommitSha::new]: trimmed, 40 hex digits, lower-cased. *)
Definition is_hex_digit (c : Ascii.ascii) : bool :=
  let n := Ascii.nat_of_ascii c in
  ((48 <=? n) && (n <=? 57)) || ((65 <=? n) && (n <=? 70)) || ((97 <=? n) && (n <=? 102)).
Definition commit_sha_new (s : string) : option string :=
  let s := str_trim s in
  if (String.length s =? 40) && forallb is_hex_digit (chars s)
  then Some (String.string_of_list_ascii (ascii_lower <$> chars s)) else None.

(** [r.uri.strip_prefix("path:///").unwrap_or(&r.uri)] *)
Definition workspace_path (uri : string) : string :=
  if starts_with "path:///" uri then String.substring 8 (String.length uri) uri else uri.

(** ** The committing transactions *)

Definition stamp_evaluation_sha (sha : option string) (r : TaskRow) : TaskRow :=
  MkTaskRow r.(task_initiative_id) r.(task_lane_id) r.(task_state) r.(task_block_reason)
    r.(task_actor) r.(task_policy_epoch) r.(task_admitted_at) r.(task_transitioned_at)
    r.(task_session_id) (match sha with Some s => Some s | None => r.(task_evaluation_sha) end)
    r.(task_base_sha) r.(task_submitted_claims_json) r.(task_admission_reserved_units)
    r.(task_actual_cost) r.(task_review_verdict) r.(task_name) r.(task_is_gate_fixup)
    r.(task_parent_gate_failure_task_id) r.(task_parent_gate_failure_type)
    r.(task_cumulative_token_cost_micros).

(** [UPDATE tasks SET evaluation_sha = COALESCE(?1, evaluation_sha)], run only
    for a [Some]. *)
Definition update_evaluation_sha (task_id : string) (sha : option string) : M unit unit :=
  match sha with
  | Some _ => modify (on_tasks (alter (stamp_evaluation_sha sha) task_id))
  | None => mret tt
  end.

(** [INSERT OR IGNORE INTO task_exported_path_snapshots]: only the primary key
    is ignored. *)
Definition insert_export (task_id path : string) : M unit unit := λ d,
  if bool_decide (MkExportRow task_id path ∈ d.(exported_paths)) then (Ok tt, d)
  else if fk_ok d (has_task d task_id)
  then (Ok tt, on_exported_paths (λ l, l ++ [MkExportRow task_id path]) d)
  else (Err tt, d).

Definition drop_err {E A} (m : M E A) : M unit A := se_map_err (λ _, tt) m.

Definition commit_task_completion (now : Z) (task_id lane_id : string) (export_paths : list string)
    (evaluation_sha : option string) : M unit TaskTransitionRecord :=
  with_tx
    (record ← drop_err (transition_task_in_tx now task_id TaskState.Completed None Kernel);
     _ ← update_evaluation_sha task_id evaluation_sha;
     _ ← for_each (insert_export task_id) export_paths;
     _ ← drop_err (release_budget_in_tx lane_id task_id);
     mret record).

Definition commit_task_completion_gates_pending (now : Z) (task_id : string)
    (export_paths : list string) (evaluation_sha : option string)
    : M unit TaskTransitionRecord :=
  with_tx
    (record ← drop_err (transition_task_in_tx now task_id TaskState.GatesPending
                          (Some "task_verifiers_pending") Kernel);
     _ ← update_evaluation_sha task_id evaluation_sha;
     _ ← for_each (insert_export task_id) export_paths;
     mret record).

(** The three hops of a task parked behind its verifiers. *)
Definition finalize_task_verifier_completion_tx (now : Z) (task_id lane_id : string)
    : M unit (list TaskTransitionRecord) :=
  with_tx
    (r1 ← drop_err (transition_task_in_tx now task_id TaskState.Admitted_ None Kernel);
     r2 ← drop_err (transition_task_in_tx now task_id TaskState.Running None Kernel);
     r3 ← drop_err (transition_task_in_tx now task_id TaskState.Completed None Kernel);
     _ ← drop_err (release_budget_in_tx lane_id task_id);
     mret [r1; r2; r3]).

(** ** Reads *)

Definition load_task (task_id : string) : M unit TaskRow := λ d,
  (ok_or (d.(tasks) !! task_id) tt, d).

(** The [(base_sha, head_sha)] pairs of [task_intent_ranges]; the statement has
    no order. *)
Definition ranges_of (d : Db) (task_id : string) : list (string * string) :=
  (λ kr, (kr.2.(range_base_sha), kr.1.2)) <$>
    filter (λ kr : (string * string) * IntentRangeRow, kr.1.1 = task_id)
      (map_to_list d.(intent_ranges)).

Definition read_completion_inputs (task_id : string)
    : M unit (option string * list (string * string)) := λ d,
  (ok_or ((λ r, (r.(task_evaluation_sha), ranges_of d task_id)) <$> d.(tasks) !! task_id) tt, d).

(** [INSERT OR IGNORE INTO task_intent_ranges]. *)
Definition insert_task_intent_range_in_tx (now : Z) (task_id base_sha head_sha : string)
    : M unit unit := λ d,
  match d.(intent_ranges) !! (task_id, head_sha) with
  | Some _ => (Ok tt, d)
  | None =>
      if fk_ok d (has_task d task_id)
      then (Ok tt, on_intent_ranges <[(task_id, head_sha) := MkIntentRangeRow base_sha now]> d)
      else (Err tt, d)
  end.

Definition blocking (v : TaskVerifierEntry) : bool :=
  match v.(tv_on_failure) with BlockReview => true | WarnOnly => false end.

Definition has_pass_witness (d : Db) (task_id sha gate : string) : bool :=
  existsb (λ kw : string * WitnessRow,
      String.eqb kw.2.(wit_task_id) task_id && String.eqb kw.2.(wit_evaluation_sha) sha &&
      String.eqb kw.2.(wit_gate_type) gate && String.eqb kw.2.(wit_result_class) "Pass")
    (map_to_list d.(witness_records)).

Definition missing_blocking_task_verifiers (task_id : string) (evaluation_sha : option string)
    (verifiers : list TaskVerifierEntry) (d : Db) : list string :=
  let all_blocking := tv_name <$> List.filter blocking verifiers in
  match evaluation_sha with
  | Some sha =>
      if String.eqb sha "" then all_blocking
      else tv_name <$> List.filter (λ v, negb (has_pass_witness d task_id sha v.(tv_name)))
                         (List.filter blocking verifiers)
  | None => all_blocking
  end.

Definition lane_budget_snapshot (lane : string) (policy : PolicyBundle) (d : Db) : Z :=
  match (current_budget lane d).1, lane_config_for_row lane policy with
  | Ok s, Ok cfg => Z.max 0 (cfg.(lc_max_cost_per_epoch) - s.(reserved_cost))
  | _, _ => 0
  end.

(** ** Events and world *)

Inductive AuditEvent : Type :=
  | AuditTaskStateChanged (e : TaskStateChanged)
  | AuditIntentAccepted (task_id session_id intent_kind : string) (base_sha head_sha : option string)
      (sequence_number remaining_units : Z) (initiative_id : string)
  | AuditGateFixupCompleted (fixup_task_id parent_task_id gate_type outcome : string)
      (new_evaluation_sha : option string) (initiative_id : string).

(** The fields of [IntentRequest] this handler reads. *)
Record CompleteTaskRequest := MkCompleteTaskRequest {
  req_task_id : string;
  req_session_token : string;
  req_base_sha : option string;
  req_head_sha : option string;
}.

(** An [IntentResponse] whose outcome is [Accepted]; the handler builds no other. *)
Record AcceptedResponse := MkAcceptedResponse {
  resp_sequence_number : Z;
  resp_task_state : TaskState;
  resp_admission_units : Z;
  resp_warn_delegation_stale : bool;
}.

(** What the handler uses of [ctx.domain]: each call may fail and may see a
    repository that changed since the last one. *)
Record DomainAdapter (V : Type) := MkDomainAdapter {
  is_ancestor : string → string → string → SE V unit bool;
  topology_check : string → string → string → SE V unit unit;
  compute_touched_paths : string → string → string → SE V unit (list string);
}.
Arguments is_ancestor {V} _.
Arguments topology_check {V} _.
Arguments compute_touched_paths {V} _.

Record World (V Sink : Type) := MkWorld {
  w_db : Db;
  w_vcs : V;
  w_audit : Sink;
}.
Arguments MkWorld {V Sink} _ _ _.
Arguments w_db {V Sink} _.
Arguments w_vcs {V Sink} _.
Arguments w_audit {V Sink} _.

(** A failure carries the code sent to the planner and the state it last saw. *)
Definition HandlerError : Type := PlannerErrorCode * TaskState.

Section handler.
Context {V Sink Pattern : Type} (domain : DomainAdapter V)
  (emit : AuditEvent → Sink → bool * Sink)
  (pattern_new : string → option Pattern) (matches_path : Pattern → string → bool)
  (registry : PlanRegistry) (policy : PolicyBundle).

Abbreviation H := (SE (World V Sink) HandlerError).

(** Running a store or repository computation inside the handler; its error is
    replaced by the handler's. *)
Definition on_db {E A} (err : HandlerError) (m : M E A) : H A := λ w,
  let '(r, d) := m w.(w_db) in (map_err (λ _, err) r, MkWorld d w.(w_vcs) w.(w_audit)).
Definition on_vcs {A} (err : HandlerError) (m : SE V unit A) : H A := λ w,
  let '(r, v) := m w.(w_vcs) in (map_err (λ _, err) r, MkWorld w.(w_db) v w.(w_audit)).

(** A failed emit is logged and dropped. *)
Definition audit (f : Sink → Sink) : H unit :=
  modify (λ w, MkWorld w.(w_db) w.(w_vcs) (f w.(w_audit))).
Definition emit_event (e : AuditEvent) (k : Sink) : Sink := (emit e k).2.
Definition emit_transition (session_id : option string) (r : TaskTransitionRecord) : H unit :=
  audit (emit_task_state_changed_audit (λ e, emit (AuditTaskStateChanged e)) r session_id).

(** [compute_export_set]: patterns that do not compile are dropped. *)
Definition compute_export_set (touched export_globs : list string) : list string :=
  match export_globs with
  | [] => touched
  | _ => List.filter (λ p, existsb (λ g, matches_path g p) (omap pattern_new export_globs)) touched
  end.

(** The path check with the handler's opaque error. *)
Definition require_paths (touched : list string) (initiative_id task_id : string)
    (err : HandlerError) : H unit :=
  r ← on_db err (check_paths touched initiative_id task_id registry);
  lift_result (map_err (λ _, err) r).

(** Phase A folded into the first completion of an [Admitted] task. *)
Definition admit_inline (now : Z) (req : CompleteTaskRequest) (task_state : TaskState)
    (session_id : string) (session : SessionRecord) (task : TaskRow) (worktree : string) : H unit :=
  let err c : HandlerError := (c, task_state) in
  match req.(req_head_sha) with
  | None => throw (err PlannerErrorCode.FailInvalidDiff)
  | Some head_str =>
      let base_str := default "" session.(sr_base_sha) in
      if String.eqb base_str "" then throw (err PlannerErrorCode.FailPolicyViolation)
      else
        _ ← lift_result (ok_or (commit_sha_new base_str) (err PlannerErrorCode.InvalidRequest));
        if String.eqb head_str base_str then throw (err PlannerErrorCode.FailInvalidDiff)
        else
          is_anc ← on_vcs (err PlannerErrorCode.FailInvalidDiff)
                     (domain.(is_ancestor) base_str head_str worktree);
          _ ← guard_or is_anc (err PlannerErrorCode.FailInvalidDiff);
          _ ← on_vcs (err PlannerErrorCode.FailInvalidCommitTopology)
                (domain.(topology_check) base_str head_str worktree);
          resources ← on_vcs (err PlannerErrorCode.FailInvalidDiff)
                        (domain.(compute_touched_paths) base_str head_str worktree);
          _ ← require_paths (workspace_path <$> resources) task.(task_initiative_id)
                req.(req_task_id) (err PlannerErrorCode.FailPathPolicyViolation);
          rec ← on_db (err PlannerErrorCode.FailPolicyViolation)
                  (with_tx
                     (_ ← insert_task_intent_range_in_tx now req.(req_task_id) base_str head_str;
                      drop_err (transition_task_in_tx now req.(req_task_id) TaskState.Running
                                  None Kernel)));
          emit_transition (Some session_id) rec
  end.

(** The union of the diffs of the stored ranges. *)
Fixpoint touched_of_ranges (err : HandlerError) (worktree : string)
    (ranges : list (string * string)) (acc : gset string) : H (gset string) :=
  match ranges with
  | [] => mret acc
  | (base_str, head_str) :: ranges =>
      _ ← lift_result (ok_or (commit_sha_new base_str) err);
      _ ← lift_result (ok_or (commit_sha_new head_str) err);
      resources ← on_vcs err (domain.(compute_touched_paths) base_str head_str worktree);
      touched_of_ranges err worktree ranges (acc ∪ list_to_set (workspace_path <$> resources))
  end.

(** The trailing segment, from the bound commit to the submitted one. *)
Definition touched_trailing (task_state : TaskState) (worktree : string)
    (h_bind req_head : option string) (acc : gset string) : H (gset string) :=
  match h_bind, req_head with
  | Some h_bind_str, Some h_req =>
      if String.eqb h_bind_str h_req then mret acc
      else
        _ ← lift_result (ok_or (commit_sha_new h_bind_str) (PlannerErrorCode.FailInvalidDiff, task_state));
        _ ← on_vcs (PlannerErrorCode.FailInvalidCommitTopology, task_state)
              (domain.(topology_check) h_bind_str h_req worktree);
        trailing ← on_vcs (PlannerErrorCode.FailInvalidDiff, task_state)
                     (domain.(compute_touched_paths) h_bind_str h_req worktree);
        mret (acc ∪ list_to_set (workspace_path <$> trailing))
  | _, _ => mret acc
  end.

(** [finalize_gate_fixup_completion]: the repaired commit is handed to the
    parent; every failure is logged and dropped. *)
Definition fixup_outcome (fixup_head parent_eval fixup_eval : option string)
    : string * option string :=
  match fixup_head with
  | Some head =>
      if String.eqb head "" then ("completed_no_commit", None)
      else if bool_decide (parent_eval = Some head) then ("completed_no_commit", None)
      else if bool_decide (fixup_eval = Some head ∧ parent_eval = fixup_eval)
      then ("completed_no_commit", None)
      else ("completed_with_commit", Some head)
  | None => ("completed_no_commit", None)
  end.

Definition set_evaluation_sha (sha : string) : TaskRow → TaskRow := stamp_evaluation_sha (Some sha).

Definition finalize_gate_fixup_completion (fixup_task_id : string) (fixup_head_sha : option string)
    (initiative_id : string) (w : World V Sink) : World V Sink :=
  match w.(w_db).(tasks) !! fixup_task_id with
  | None => w
  | Some row =>
      if negb row.(task_is_gate_fixup) then w
      else
        match row.(task_parent_gate_failure_task_id) with
        | None => w
        | Some parent_id =>
            if String.eqb parent_id "" then w
            else
              let gate_type := default "<unknown>" row.(task_parent_gate_failure_type) in
              let parent_eval_sha := p ← w.(w_db).(tasks) !! parent_id; p.(task_evaluation_sha) in
              let '(outcome, new_eval_sha) :=
                fixup_outcome fixup_head_sha parent_eval_sha row.(task_evaluation_sha) in
              let d := match new_eval_sha with
                       | Some sha => on_tasks (alter (set_evaluation_sha sha) parent_id) w.(w_db)
                       | None => w.(w_db)
                       end in
              MkWorld d w.(w_vcs)
                (emit_event (AuditGateFixupCompleted fixup_task_id parent_id gate_type outcome
                               new_eval_sha initiative_id) w.(w_audit))
        end
  end.

(** [if let Err(e) = ..]: the error is logged. *)
Definition mark_successors (initiative_id task_id : string) : H unit := λ w,
  let '(_, d) :=
    mark_successor_edges_satisfied_if_unblocked registry initiative_id task_id (E := SqlError)
      w.(w_db) in
  (Ok tt, MkWorld d w.(w_vcs) w.(w_audit)).

Definition accept (req : CompleteTaskRequest) (session_id : string) (seq : Z) (task : TaskRow)
    (final : TaskState) : H AcceptedResponse := λ w,
  let remaining := lane_budget_snapshot task.(task_lane_id) policy w.(w_db) in
  (Ok (MkAcceptedResponse seq final remaining false),
   MkWorld w.(w_db) w.(w_vcs)
     (emit_event (AuditIntentAccepted req.(req_task_id) session_id "CompleteTask" req.(req_base_sha)
        req.(req_head_sha) seq remaining task.(task_initiative_id)) w.(w_audit))).

(** Step 6: what the plan exports of the touched paths, and its verifiers. *)
Definition planned_exports (initiative_id task_id : string) (touched_vec : list string)
    : list string :=
  match registry_get registry (initiative_id, task_id) with
  | Some f => if f.(path_export_to_successors)
              then compute_export_set touched_vec f.(path_export_globs) else []
  | None => []
  end.
Definition planned_verifiers (initiative_id task_id : string) : list TaskVerifierEntry :=
  match registry_get registry (initiative_id, task_id) with
  | Some f => f.(task_verifiers)
  | None => []
  end.

(** Steps 6 and 7: the export set, the verifiers, and one of the two commits. *)
Definition commit_step (now : Z) (req : CompleteTaskRequest) (task_state : TaskState)
    (session_id : string) (seq : Z) (task : TaskRow) (touched_vec : list string)
    : H AcceptedResponse :=
  let export_paths := planned_exports task.(task_initiative_id) req.(req_task_id) touched_vec in
  let verifiers := planned_verifiers task.(task_initiative_id) req.(req_task_id) in
  missing ← gets (λ w, missing_blocking_task_verifiers req.(req_task_id) req.(req_head_sha)
                         verifiers w.(w_db));
  match missing with
  | _ :: _ =>
      record ← on_db (PlannerErrorCode.FailTaskNotRunning, task_state)
                 (commit_task_completion_gates_pending now req.(req_task_id) export_paths
                    req.(req_head_sha));
      _ ← emit_transition (Some session_id) record;
      accept req session_id seq task TaskState.GatesPending
  | [] =>
      record ← on_db (PlannerErrorCode.FailTaskNotRunning, task_state)
                 (commit_task_completion now req.(req_task_id) task.(task_lane_id) export_paths
                    req.(req_head_sha));
      _ ← emit_transition (Some session_id) record;
      _ ← modify (finalize_gate_fixup_completion req.(req_task_id) req.(req_head_sha)
                    task.(task_initiative_id));
      _ ← mark_successors task.(task_initiative_id) req.(req_task_id);
      accept req session_id seq task TaskState.Completed
  end.

(** Steps 2 to 5: the stored ranges, the trailing segment and the path check. *)
Definition completion_touched (req : CompleteTaskRequest) (task_state : TaskState)
    (worktree : string) (req_head : option string) (task : TaskRow) : H (list string) :=
  inputs ← on_db (PlannerErrorCode.FailUnknownTask, task_state)
             (read_completion_inputs req.(req_task_id));
  touched ← touched_of_ranges (PlannerErrorCode.FailInvalidDiff, task_state) worktree inputs.2 ∅;
  touched ← touched_trailing task_state worktree inputs.1 req_head touched;
  _ ← require_paths (elements touched) task.(task_initiative_id) req.(req_task_id)
        (PlannerErrorCode.FailPathPolicyViolation, task_state);
  mret (elements touched).

(** [handle_complete_task].  Paths come from git and are normalised, so the
    component-wise equality of [BTreeSet<PathBuf>] is string equality. *)
Definition handle_complete_task (now : Z) (req : CompleteTaskRequest) (task_state : TaskState)
    (session_id : string) (seq : Z) : H AcceptedResponse :=
  let err c : HandlerError := (c, task_state) in
  if negb (bool_decide (task_state = TaskState.Admitted_ ∨ task_state = TaskState.Running))
  then throw (err PlannerErrorCode.FailTaskNotRunning)
  else
    task ← on_db (err PlannerErrorCode.FailUnknownTask) (load_task req.(req_task_id));
    session ← on_db (err PlannerErrorCode.Unauthorized)
                (get_session_by_token req.(req_session_token));
    let worktree := default "" session.(sr_worktree_root) in
    let req_head_str := default "" req.(req_head_sha) in
    req_head ← (if String.eqb req_head_str "" then mret None
                else h ← lift_result (ok_or (commit_sha_new req_head_str)
                                        (err PlannerErrorCode.InvalidRequest));
                     mret (Some h));
    _ ← (if bool_decide (task_state = TaskState.Admitted_)
         then admit_inline now req task_state session_id session task worktree
         else mret tt);
    touched_vec ← completion_touched req task_state worktree req_head task;
    commit_step now req task_state session_id seq task touched_vec.

(** [finalize_task_verifier_completion]: the witness handler's way out of
    [GatesPending]; the audit records follow the commit. *)
Definition finalize_task_verifier_completion (now : Z) (task_id lane_id : string)
    (session_id : option string) : SE (World V Sink) unit (list TaskTransitionRecord) := λ w,
  match finalize_task_verifier_completion_tx now task_id lane_id w.(w_db) with
  | (Ok records, d) =>
      (Ok records, MkWorld d w.(w_vcs)
         (foldl (λ k rec, emit_task_state_changed_audit (λ e, emit (AuditTaskStateChanged e)) rec
                            session_id k) w.(w_audit) records))
  | (Err e, d) => (Err e, MkWorld d w.(w_vcs) w.(w_audit))
  end.
End handler.

(** ** Specification *)

Definition add_exports (task_id : string) (paths : list string) (l : list ExportRow) : list ExportRow :=
  foldl (λ l p, if bool_decide (MkExportRow task_id p ∈ l) then l else l ++ [MkExportRow task_id p])
    l paths.

Definition stamped (task_id : string) (sha : option string) (d : Db) : Db :=
  match sha with
  | Some _ => on_tasks (alter (stamp_evaluation_sha sha) task_id) d
  | None => d
  end.

(** What a committing transaction has written, before the budget release. *)
Definition committed (now : Z) (task_id : string) (new_state : TaskState) (reason : option string)
    (exports : list string) (sha : option string) (row : TaskRow) (d : Db) : Db :=
  on_exported_paths (add_exports task_id exports)
    (stamped task_id sha (transitioned now task_id new_state reason Kernel row d)).

Definition completed_store (now : Z) (task_id lane : string) (exports : list string)
    (sha : option string) (row : TaskRow) (d : Db) : Db :=
  on_reservations (delete (lane, task_id))
    (committed now task_id TaskState.Completed None exports sha row d).

(** The row of [t], when a transition to [ns] is legal for it. *)
Definition may_move (d : Db) (t : string) (ns : TaskState) (row : TaskRow) : Prop :=
  d.(tasks) !! t = Some row ∧
  ∃ cur, from_sql_str row.(task_state) = Some cur ∧ is_legal_transition cur ns = true.

Definition moved_record (now : Z) (t : string) (ns : TaskState) (row : TaskRow)
    (rec : TaskTransitionRecord) : Prop :=
  ∃ cur, from_sql_str row.(task_state) = Some cur ∧
    rec = MkTaskTransitionRecord t row.(task_initiative_id) cur ns Kernel now
            (Z.max row.(task_policy_epoch) 0).

(** *** The store transactions *)

Lemma elem_of_add_exports t ps l t' p :
  MkExportRow t' p ∈ add_exports t ps l ↔ MkExportRow t' p ∈ l ∨ (t' = t ∧ p ∈ ps).
Proof.
  unfold add_exports. revert l. induction ps as [|q ps IH]; intros l; simpl; [set_solver |].
  rewrite IH. case_bool_decide as Hin; [| set_solver].
  rewrite elem_of_cons. split; [naive_solver |]. intros [|[-> [->|]]]; auto.
Qed.

Lemma for_each_insert_export t ps d :
  has_task d t = true →
  for_each (insert_export t) ps d = (Ok tt, on_exported_paths (add_exports t ps) d).
Proof.
  revert d. induction ps as [|p ps IH]; intros d Ht; simpl; [by destruct d |].
  unfold mbind, se_bind, insert_export at 1. unfold fk_ok. rewrite Ht, orb_true_r.
  destruct (bool_decide (MkExportRow t p ∈ exported_paths d)) eqn:Hb.
  - rewrite IH by done. unfold on_exported_paths. simpl. by rewrite Hb.
  - rewrite IH by done. unfold on_exported_paths. simpl. by rewrite Hb.
Qed.

Lemma update_evaluation_sha_run t sha d : update_evaluation_sha t sha d = (Ok tt, stamped t sha d).
Proof. by destruct sha. Qed.

Lemma stamped_lookup t sha d row :
  d.(tasks) !! t = Some row →
  (stamped t sha d).(tasks) = <[t := stamp_evaluation_sha sha row]> d.(tasks).
Proof.
  intros Hr. destruct sha as [s|]; simpl; [by apply alter_Some_insert |].
  rewrite insert_id; [done |]. rewrite Hr. by destruct row.
Qed.

Lemma committed_tasks now t ns reason exports sha row d :
  (committed now t ns reason exports sha row d).(tasks) =
  <[t := stamp_evaluation_sha sha (write_task_state (as_sql_str ns) now
           (stored_block_reason ns reason) (as_audit_string Kernel) row)]> d.(tasks).
Proof.
  unfold committed. simpl. erewrite stamped_lookup; [| apply lookup_insert_eq].
  simpl. by rewrite insert_insert_eq.
Qed.

Lemma committed_exports now t ns reason exports sha row d :
  (committed now t ns reason exports sha row d).(exported_paths) =
  add_exports t exports d.(exported_paths).
Proof. by destruct sha. Qed.

Lemma committed_edges now t ns reason exports sha row d :
  (committed now t ns reason exports sha row d).(dag_edges) = d.(dag_edges).
Proof. by destruct sha. Qed.

(** The common front of the committing transactions. *)
Lemma commit_front_run {A} now t ns reason exports sha d
    (k : TaskTransitionRecord → M unit A) out :
  activations_ok d →
  (record ← drop_err (transition_task_in_tx now t ns reason Kernel);
   _ ← update_evaluation_sha t sha;
   _ ← for_each (insert_export t) exports;
   k record) d = out →
  (∃ row rec, may_move d t ns row ∧ moved_record now t ns row rec ∧
     out = k rec (committed now t ns reason exports sha row d)) ∨
  ((¬ ∃ row, may_move d t ns row) ∧ out = (Err tt, d)).
Proof.
  intros Hok Hout. unfold mbind at 1, se_bind at 1, drop_err in Hout.
  rewrite se_map_err_run, transition_task_in_tx_run in Hout by done. unfold may_move, moved_record.
  destruct (tasks d !! t) as [row|] eqn:Hrow;
    [destruct (from_sql_str (A := TaskState) (task_state row)) as [cur|] eqn:Hcur;
       [destruct (is_legal_transition cur ns) eqn:Hleg |] |]; subst out.
  2-4: right; split; [| done]; intros (? & Hr & ? & Hc & Hl); congruence.
  left. exists row. eexists. split; [eauto |]. split; [eauto |].
  unfold mbind at 1, se_bind at 1. rewrite update_evaluation_sha_run.
  unfold mbind at 1, se_bind at 1. rewrite for_each_insert_export; [done |].
  unfold has_task. apply bool_decide_eq_true.
  erewrite stamped_lookup; [| apply lookup_insert_eq]. by rewrite lookup_insert_eq.
Qed.

Lemma release_budget_ok lane t d :
  release_budget_in_tx lane t d = (Ok tt, on_reservations (delete (lane, t)) d).
Proof. unfold release_budget_in_tx. by destruct (_ !! _). Qed.

Lemma commit_task_completion_run now t lane exports sha d :
  activations_ok d →
  (∃ row rec, may_move d t TaskState.Completed row ∧ moved_record now t TaskState.Completed row rec ∧
     commit_task_completion now t lane exports sha d =
       (Ok rec, completed_store now t lane exports sha row d)) ∨
  ((¬ ∃ row, may_move d t TaskState.Completed row) ∧
   commit_task_completion now t lane exports sha d = (Err tt, d)).
Proof.
  intros Hok. unfold commit_task_completion, with_tx.
  destruct (commit_front_run now t TaskState.Completed None exports sha d
    (λ record, _ ← drop_err (release_budget_in_tx lane t); mret record) _ Hok eq_refl)
    as [(row & rec & Hm & Hr & ->)|[Hno ->]]; [left | right; done].
  exists row, rec. split; [done |]. split; [done |].
  unfold mbind, se_bind, drop_err. by rewrite se_map_err_run, release_budget_ok.
Qed.

Lemma commit_gates_pending_run now t exports sha d :
  activations_ok d →
  (∃ row rec, may_move d t TaskState.GatesPending row ∧
     moved_record now t TaskState.GatesPending row rec ∧
     commit_task_completion_gates_pending now t exports sha d =
       (Ok rec, committed now t TaskState.GatesPending (Some "task_verifiers_pending") exports sha
                  row d)) ∨
  ((¬ ∃ row, may_move d t TaskState.GatesPending row) ∧
   commit_task_completion_gates_pending now t exports sha d = (Err tt, d)).
Proof.
  intros Hok. unfold commit_task_completion_gates_pending, with_tx.
  destruct (commit_front_run now t TaskState.GatesPending (Some "task_verifiers_pending") exports sha
    d (λ record, mret record) _ Hok eq_refl) as [(row & rec & Hm & Hr & ->)|[Hno ->]]; [left | right; done].
  exists row, rec. done.
Qed.

(** *** The handler's frame *)

Lemma check_paths_reads reg touched i t d0 :
  preserves (λ d, d = d0) (check_paths touched i t reg).
Proof.
  unfold check_paths, effective_allow, resolve_scope, scope_allow, gate_fixup_parent_task_id,
    collect_predecessor_exports.
  apply preserves_bind; [| auto with se]. apply preserves_bind.
  - destruct (registry_get reg (i, t)); [auto with se |].
    apply preserves_bind; [by intros d -> | auto with se].
  - intros [s f]. destruct (path_scope_override f); [auto with se |].
    apply preserves_bind; [auto with se |]. intros es. apply preserves_bind; [by intros d -> |].
    auto with se.
Qed.

(** The store after the inline admission of [head] on [base]. *)
Definition inlined (now : Z) (t base head : string) (row : TaskRow) (d : Db) : Db :=
  transitioned now t TaskState.Running None Kernel row
    (match d.(intent_ranges) !! (t, head) with
     | Some _ => d
     | None => on_intent_ranges <[(t, head) := MkIntentRangeRow base now]> d
     end).

(** The inline admission happened, with its path check passed. *)
Definition inline_admitted (reg : PlanRegistry) (now : Z) (i t : string) (d d' : Db) : Prop :=
  ∃ base head touched row, may_move d t TaskState.Running row ∧
    check_paths touched i t reg d = (Ok (Ok tt), d) ∧ d' = inlined now t base head row d.

(** The parent update of [finalize_gate_fixup_completion], on the store alone. *)
Definition fixup_parent (t : string) (head : option string) (d : Db) : option (string * string) :=
  row ← d.(tasks) !! t;
  if negb row.(task_is_gate_fixup) then None
  else
    parent ← row.(task_parent_gate_failure_task_id);
    if String.eqb parent "" then None
    else
      sha ← (fixup_outcome head (p ← d.(tasks) !! parent; p.(task_evaluation_sha))
               row.(task_evaluation_sha)).2;
      Some (parent, sha).

Definition fixup_store (t : string) (head : option string) (d : Db) : Db :=
  match fixup_parent t head d with
  | Some (parent, sha) => on_tasks (alter (set_evaluation_sha sha) parent) d
  | None => d
  end.

Definition marked (reg : PlanRegistry) (i t : string) (d : Db) : Db :=
  (mark_successor_edges_satisfied_if_unblocked reg i t (E := SqlError) d).2.

Section handler_facts.
Context {V Sink Pattern : Type} (domain : DomainAdapter V)
  (emit : AuditEvent → Sink → bool * Sink)
  (pattern_new : string → option Pattern) (matches_path : Pattern → string → bool)
  (reg : PlanRegistry) (policy : PolicyBundle).
Implicit Types w : World V Sink.

Definition has_db (d : Db) w : Prop := w.(w_db) = d.

Lemma on_vcs_keeps {A} err (m : SE V unit A) d : preserves (has_db d) (on_vcs (Sink := Sink) err m).
Proof. intros w Hw. unfold on_vcs. by destruct (m (w_vcs w)). Qed.

Lemma audit_keeps f d : preserves (has_db d) (audit (V := V) f).
Proof. by intros w Hw. Qed.

Lemma on_db_keeps {E A} err (m : M E A) d :
  preserves (λ d', d' = d) m → preserves (has_db d) (on_db (V := V) (Sink := Sink) err m).
Proof.
  intros Hm w Hw. unfold on_db, has_db in *. specialize (Hm (w_db w) Hw).
  by destruct (m (w_db w)).
Qed.

Lemma require_paths_keeps touched i t err d :
  preserves (has_db d) (require_paths (V := V) (Sink := Sink) reg touched i t err).
Proof.
  apply preserves_bind; [apply on_db_keeps, check_paths_reads | auto with se].
Qed.

Lemma require_paths_ok touched i t err w u w' :
  require_paths reg touched i t err w = (Ok u, w') →
  check_paths touched i t reg w.(w_db) = (Ok (Ok tt), w.(w_db)).
Proof.
  unfold require_paths, on_db, mbind, se_bind, lift_result.
  pose proof (check_paths_reads reg touched i t (w_db w) (w_db w) eq_refl) as Hd.
  destruct (check_paths touched i t reg (w_db w)) as [[[[]|]|] d']; simpl in *; try done.
  by intros [= _ _]; subst.
Qed.

Hint Resolve on_vcs_keeps audit_keeps on_db_keeps require_paths_keeps check_paths_reads : se.

Lemma admit_tx_run now t base head d :
  activations_ok d →
  (∃ row rec, may_move d t TaskState.Running row ∧
     with_tx (_ ← insert_task_intent_range_in_tx now t base head;
              drop_err (transition_task_in_tx now t TaskState.Running None Kernel)) d
     = (Ok rec, inlined now t base head row d)) ∨
  (∃ e, with_tx (_ ← insert_task_intent_range_in_tx now t base head;
              drop_err (transition_task_in_tx now t TaskState.Running None Kernel)) d = (Err e, d)).
Proof using Type.
  intros Hok. unfold with_tx, mbind, se_bind.
  assert (Hins : ∃ d1, d1 = match d.(intent_ranges) !! (t, head) with
      | Some _ => d | None => on_intent_ranges <[(t, head) := MkIntentRangeRow base now]> d end ∧
    activations_ok d1 ∧ d1.(tasks) = d.(tasks) ∧
    (insert_task_intent_range_in_tx now t base head d = (Ok tt, d1) ∨
     ∃ e, insert_task_intent_range_in_tx now t base head d = (Err e, d))).
  { eexists. split; [reflexivity |]. unfold insert_task_intent_range_in_tx.
    destruct (intent_ranges d !! (t, head)); [by auto |].
    destruct (fk_ok d (has_task d t)); (split; [done |]); (split; [done |]); eauto. }
  destruct Hins as (d1 & Hd1 & Hok1 & Ht & [-> | [e ->]]); [| right; eauto].
  unfold drop_err. rewrite se_map_err_run, transition_task_in_tx_run by done.
  rewrite Ht. unfold may_move.
  destruct (tasks d !! t) as [row|] eqn:Hrow; [| right; eauto].
  destruct (from_sql_str (A := TaskState) (task_state row)) as [cur|] eqn:Hcur; [| right; eauto].
  destruct (is_legal_transition cur TaskState.Running) eqn:Hleg; [| right; eauto].
  left. exists row. eexists. split; [eauto |]. unfold inlined. by rewrite <-Hd1.
Qed.

Lemma admit_inline_run now req st sid session task wt w :
  activations_ok w.(w_db) →
  match admit_inline domain emit reg now req st sid session task wt w with
  | (Err _, w') => w'.(w_db) = w.(w_db)
  | (Ok _, w') => inline_admitted reg now task.(task_initiative_id) req.(req_task_id) w.(w_db) w'.(w_db)
  end.
Proof using Type.
  intros Hok. set (d := w_db w) in *. assert (Hw : has_db d w) by done.
  set (Q := λ rw : result HandlerError unit * World V Sink,
    match rw with
    | (Err _, w') => w'.(w_db) = d
    | (Ok _, w') => inline_admitted reg now task.(task_initiative_id) req.(req_task_id) d w'.(w_db)
    end).
  change (Q (admit_inline domain emit reg now req st sid session task wt w)).
  unfold admit_inline. destruct (req_head_sha req) as [head|]; [| exact Hw].
  destruct (String.eqb (default "" (sr_base_sha session)) ""); [exact Hw |].
  apply (se_bind_keeps (has_db d)); [auto with se | done | done |]. intros _ w1 _ Hw1.
  destruct (String.eqb head _); [exact Hw1 |].
  apply (se_bind_keeps (has_db d)); [auto with se | done | done |]. intros anc w2 _ Hw2.
  apply (se_bind_keeps (has_db d)); [auto with se | done | done |]. intros _ w3 _ Hw3.
  apply (se_bind_keeps (has_db d)); [auto with se | done | done |]. intros _ w4 _ Hw4.
  apply (se_bind_keeps (has_db d)); [auto with se | done | done |]. intros res w5 _ Hw5.
  apply (se_bind_keeps (has_db d)); [auto with se | done | done |]. intros u w6 Hreq Hw6.
  apply require_paths_ok in Hreq. unfold has_db in Hw5, Hw6. rewrite Hw5 in Hreq.
  unfold mbind at 1, se_bind at 1, on_db at 1. rewrite Hw6.
  destruct (admit_tx_run now (req_task_id req) (default "" (sr_base_sha session)) head d Hok)
    as [(row & rec & Hm & ->)|[e ->]]; [| done].
  simpl. do 4 eexists. eauto.
Qed.

Lemma touched_of_ranges_keeps err wt ranges acc d :
  preserves (has_db d) (touched_of_ranges (Sink := Sink) domain err wt ranges acc).
Proof using Type.
  revert acc. induction ranges as [|[base head] ranges IH]; intros acc; simpl; [auto with se |].
  do 3 (apply preserves_bind; [auto with se | intros ?]). apply IH.
Qed.

Lemma touched_trailing_keeps st wt h_bind req_head acc d :
  preserves (has_db d) (touched_trailing (Sink := Sink) domain st wt h_bind req_head acc).
Proof using Type.
  unfold touched_trailing. destruct h_bind as [h|], req_head as [r|]; try apply preserves_ret.
  destruct (String.eqb h r); [apply preserves_ret |].
  do 3 (apply preserves_bind; [auto with se | intros ?]). apply preserves_ret.
Qed.

Lemma read_completion_inputs_reads t d0 : preserves (λ d, d = d0) (read_completion_inputs t).
Proof using Type. by intros d ->. Qed.

Lemma completion_touched_run req st wt req_head task w :
  match completion_touched domain reg req st wt req_head task w with
  | (Err _, w') => w'.(w_db) = w.(w_db)
  | (Ok vec, w') => w'.(w_db) = w.(w_db) ∧
      check_paths vec task.(task_initiative_id) req.(req_task_id) reg w.(w_db)
        = (Ok (Ok tt), w.(w_db))
  end.
Proof using Type.
  set (d := w_db w) in *. assert (Hw : has_db d w) by done.
  set (Q := λ rw : result HandlerError (list string) * World V Sink,
    match rw with
    | (Err _, w') => w'.(w_db) = d
    | (Ok vec, w') => w'.(w_db) = d ∧
        check_paths vec task.(task_initiative_id) req.(req_task_id) reg d = (Ok (Ok tt), d)
    end).
  change (Q (completion_touched domain reg req st wt req_head task w)). unfold completion_touched.
  apply (se_bind_keeps (has_db d));
    [apply on_db_keeps, read_completion_inputs_reads | done | done |]. intros inputs w1 _ Hw1.
  apply (se_bind_keeps (has_db d)); [apply touched_of_ranges_keeps | done | done |]. intros t1 w2 _ Hw2.
  apply (se_bind_keeps (has_db d)); [apply touched_trailing_keeps | done | done |]. intros t2 w3 _ Hw3.
  apply (se_bind_keeps (has_db d)); [auto with se | done | done |]. intros u w4 Hreq Hw4.
  apply require_paths_ok in Hreq. unfold has_db in Hw3. rewrite Hw3 in Hreq. by split.
Qed.

Lemma finalize_gate_fixup_db t head i w :
  w_db (finalize_gate_fixup_completion emit t head i w) = fixup_store t head w.(w_db).
Proof using Type.
  unfold finalize_gate_fixup_completion, fixup_store, fixup_parent.
  destruct (tasks (w_db w) !! t) as [row|]; simpl; [| done].
  destruct (negb (task_is_gate_fixup row)); [done |].
  destruct (task_parent_gate_failure_task_id row) as [parent|]; simpl; [| done].
  destruct (String.eqb parent ""); [done |].
  destruct (fixup_outcome _ _ _) as [o [sha|]]; done.
Qed.

(** The store an accepted completion leaves behind. *)
Definition completion_store (now : Z) (req : CompleteTaskRequest) (task row : TaskRow)
    (exports : list string) (final : TaskState) (d : Db) : Db :=
  match final with
  | TaskState.Completed =>
      marked reg task.(task_initiative_id) req.(req_task_id)
        (fixup_store req.(req_task_id) req.(req_head_sha)
           (completed_store now req.(req_task_id) task.(task_lane_id) exports req.(req_head_sha) row d))
  | _ => committed now req.(req_task_id) final (Some "task_verifiers_pending") exports
           req.(req_head_sha) row d
  end.

(** [Completed] once no blocking verifier is missing, [GatesPending] before. *)
Definition final_state (req : CompleteTaskRequest) (task : TaskRow) (d : Db) : TaskState :=
  match missing_blocking_task_verifiers req.(req_task_id) req.(req_head_sha)
          (planned_verifiers reg task.(task_initiative_id) req.(req_task_id)) d with
  | [] => TaskState.Completed
  | _ => TaskState.GatesPending
  end.

Lemma commit_step_run now req st sid seq task vec w :
  let d := w.(w_db) in
  let exports := planned_exports pattern_new matches_path reg task.(task_initiative_id)
                   req.(req_task_id) vec in
  activations_ok d →
  match commit_step emit pattern_new matches_path reg policy now req st sid seq task vec w with
  | (Err e, w') => w'.(w_db) = d ∧ e = (PlannerErrorCode.FailTaskNotRunning, st) ∧
      ¬ ∃ row, may_move d req.(req_task_id) (final_state req task d) row
  | (Ok resp, w') => resp.(resp_task_state) = final_state req task d ∧
      resp.(resp_sequence_number) = seq ∧ ∃ row,
      may_move d req.(req_task_id) (final_state req task d) row ∧
      w'.(w_db) = completion_store now req task row exports (final_state req task d) d
  end.
Proof using Type.
  intros d exports Hok. unfold commit_step. fold exports. unfold final_state.
  unfold mbind at 1, se_bind at 1, gets. fold d.
  destruct (missing_blocking_task_verifiers _ _ _ _) as [|m ms].
  - unfold mbind at 1, se_bind at 1, on_db at 1. fold d.
    destruct (commit_task_completion_run now (req_task_id req) (task_lane_id task) exports
      (req_head_sha req) d Hok) as [(row & rec & Hm & _ & ->)|[Hno ->]]; simpl; [| done].
    unfold mbind, se_bind, emit_transition, audit, modify, mark_successors, accept. simpl.
    destruct (mark_successor_edges_satisfied_if_unblocked _ _ _ _) as [r d'] eqn:Hmk. simpl.
    split; [done |]. split; [done |]. exists row. split; [done |].
    unfold marked. rewrite finalize_gate_fixup_db in Hmk. simpl in Hmk. by rewrite Hmk.
  - unfold mbind at 1, se_bind at 1, on_db at 1. fold d.
    destruct (commit_gates_pending_run now (req_task_id req) exports (req_head_sha req) d Hok)
      as [(row & rec & Hm & _ & ->)|[Hno ->]]; simpl; [| done].
    eauto.
Qed.

Lemma inlined_activations_ok now t base head row d :
  activations_ok d → activations_ok (inlined now t base head row d).
Proof using Type.
  intros Hok. apply transitioned_activations_ok. by destruct (intent_ranges d !! (t, head)).
Qed.

(** The store the committing step starts from. *)
Definition admitted_store (now : Z) (st : TaskState) (i t : string) (d d1 : Db) : Prop :=
  (st = TaskState.Running ∧ d1 = d) ∨
  (st = TaskState.Admitted_ ∧ inline_admitted reg now i t d d1).

Lemma load_task_reads t d0 : preserves (λ d, d = d0) (load_task t).
Proof using Type. by intros d ->. Qed.
Lemma get_session_by_token_reads tok d0 : preserves (λ d, d = d0) (get_session_by_token tok).
Proof using Type. by intros d ->. Qed.

Lemma on_db_load err t w row w' :
  on_db (V := V) (Sink := Sink) err (load_task t) w = (Ok row, w') → w.(w_db).(tasks) !! t = Some row.
Proof using Type.
  unfold on_db, load_task. destruct (tasks (w_db w) !! t); simpl; [by intros [= <- _] | done].
Qed.

(** An accepted completion that started its committing step from [d1]. *)
Definition accepted_from (now : Z) (req : CompleteTaskRequest) (task : TaskRow) (d1 : Db)
    (resp : AcceptedResponse) (d' : Db) : Prop :=
  ∃ vec row, check_paths vec task.(task_initiative_id) req.(req_task_id) reg d1 = (Ok (Ok tt), d1) ∧
    resp.(resp_task_state) = final_state req task d1 ∧
    may_move d1 req.(req_task_id) (final_state req task d1) row ∧
    d' = completion_store now req task row
           (planned_exports pattern_new matches_path reg task.(task_initiative_id)
              req.(req_task_id) vec) (final_state req task d1) d1.

Definition handler_outcome (now : Z) (req : CompleteTaskRequest) (st : TaskState) (d : Db)
    (rw : result HandlerError AcceptedResponse * World V Sink) : Prop :=
  match rw with
  | (Err _, w') => w'.(w_db) = d ∨ ∃ task, d.(tasks) !! req.(req_task_id) = Some task ∧
      admitted_store now st task.(task_initiative_id) req.(req_task_id) d w'.(w_db)
  | (Ok resp, w') => ∃ task d1, d.(tasks) !! req.(req_task_id) = Some task ∧
      admitted_store now st task.(task_initiative_id) req.(req_task_id) d d1 ∧
      accepted_from now req task d1 resp w'.(w_db)
  end.

Lemma completion_tail_run now req st sid seq task wt req_head w :
  activations_ok w.(w_db) →
  match (vec ← completion_touched domain reg req st wt req_head task;
         commit_step emit pattern_new matches_path reg policy now req st sid seq task vec) w with
  | (Err _, w') => w'.(w_db) = w.(w_db)
  | (Ok resp, w') => accepted_from now req task w.(w_db) resp w'.(w_db)
  end.
Proof using Type.
  intros Hok. unfold mbind, se_bind.
  pose proof (completion_touched_run req st wt req_head task w) as Ht.
  destruct (completion_touched domain reg req st wt req_head task w) as [[vec|e] w1]; [| done].
  destruct Ht as [Hw1 Hc].
  pose proof (commit_step_run now req st sid seq task vec w1) as Hs. simpl in Hs. rewrite Hw1 in Hs.
  specialize (Hs Hok).
  destruct (commit_step _ _ _ _ _ _ _ _ _ _ _ _ w1) as [[resp|e] w2].
  - destruct Hs as (Hst & _ & row & Hm & Hd). exists vec, row. done.
  - by destruct Hs.
Qed.

Lemma handle_complete_task_run now req st sid seq w :
  activations_ok w.(w_db) →
  handler_outcome now req st w.(w_db)
    (handle_complete_task domain emit pattern_new matches_path reg policy now req st sid seq w).
Proof using Type.
  set (d := w_db w). intros Hok. assert (Hw : has_db d w) by done.
  unfold handle_complete_task. case_bool_decide as Hst; simpl; [| by left].
  apply (se_bind_keeps (has_db d)); [apply on_db_keeps, load_task_reads | done | by left |].
  intros task w1 Hload Hw1. apply on_db_load in Hload. fold d in Hload.
  apply (se_bind_keeps (has_db d)); [apply on_db_keeps, get_session_by_token_reads | done | by left |].
  intros session w2 _ Hw2.
  apply (se_bind_keeps (has_db d)); [case_match; [apply preserves_ret |];
    apply preserves_bind; [apply preserves_lift | intros ?; apply preserves_ret] | done | by left |].
  intros req_head w3 _ Hw3. unfold has_db in Hw3. unfold mbind at 1, se_bind at 1.
  case_bool_decide as Had.
  - pose proof (admit_inline_run now req st sid session task (default "" (sr_worktree_root session)) w3)
      as Hin. rewrite Hw3 in Hin. specialize (Hin Hok).
    destruct (admit_inline _ _ _ _ _ _ _ _ _ _ w3) as [[u|e] w4]; [| by left].
    assert (Hok4 : activations_ok (w_db w4)).
    { destruct Hin as (? & ? & ? & ? & _ & _ & ->). by apply inlined_activations_ok. }
    pose proof (completion_tail_run now req st sid seq task (default "" (sr_worktree_root session))
      req_head w4 Hok4) as Ht.
    cbv beta. match type of Ht with match ?x with _ => _ end => destruct x as [[resp|e] w5] end; simpl.
    + exists task, (w_db w4). split; [done |]. split; [by right | done].
    + right. exists task. split; [done |]. rewrite Ht. by right.
  - simpl. pose proof (completion_tail_run now req st sid seq task
      (default "" (sr_worktree_root session)) req_head w3) as Ht. rewrite Hw3 in Ht.
    specialize (Ht Hok). destruct Hst as [|Hst]; [done |].
    match type of Ht with match ?x with _ => _ end => destruct x as [[resp|e] w5] end; simpl; [| by left].
    exists task, d. split; [done |]. split; [by left | done].
Qed.
End handler_facts.

#[export] Hint Resolve on_vcs_keeps audit_keeps on_db_keeps require_paths_keeps check_paths_reads : se.

(** ** Effects on the store *)

Lemma marked_frame reg i t d :
  (marked reg i t d).(tasks) = d.(tasks) ∧
  (marked reg i t d).(exported_paths) = d.(exported_paths) ∧
  (marked reg i t d).(reservations) = d.(reservations) ∧
  (marked reg i t d).(activations) = d.(activations) ∧
  edge_predecessor <$> (marked reg i t d).(dag_edges) = edge_predecessor <$> d.(dag_edges).
Proof.
  unfold marked, mark_successor_edges_satisfied_if_unblocked.
  destruct (negb _); [done |]. generalize (unsatisfied_successors d i t) as succs.
  generalize (reviewer_gate_blocker_for_predecessor reg i t d) as b.
  intros b succs. revert d. induction succs as [|s succs IH]; intros d; [done |]. simpl.
  destruct (negb _); [apply IH |].
  specialize (IH (mark_edge i t s d).2). unfold mark_edge in *. simpl in IH.
  destruct (mark_edges reg i t b succs _) as [m d2]. simpl in *.
  destruct IH as (-> & -> & -> & -> & ->). do 4 (split; [done |]).
  rewrite <-list_fmap_compose. apply list_fmap_ext. intros _ e _. simpl. by destruct (same_edge i t s e).
Qed.

Lemma fixup_store_frame t head d :
  (fixup_store t head d).(exported_paths) = d.(exported_paths) ∧
  (fixup_store t head d).(reservations) = d.(reservations) ∧
  (fixup_store t head d).(activations) = d.(activations) ∧
  (fixup_store t head d).(dag_edges) = d.(dag_edges).
Proof. unfold fixup_store. by destruct (fixup_parent t head d) as [[p sha]|]. Qed.

(** A fixup that has a parent stamps it with the head it submitted. *)
Lemma fixup_parent_head t head d parent sha :
  fixup_parent t head d = Some (parent, sha) → head = Some sha.
Proof.
  unfold fixup_parent. destruct (tasks d !! t) as [row|]; simpl; [| done].
  destruct (negb _); [done |]. destruct (task_parent_gate_failure_task_id row); simpl; [| done].
  destruct (String.eqb _ ""); [done |]. unfold fixup_outcome.
  destruct head as [h|]; [| done]. destruct (String.eqb h ""); [done |].
  repeat case_bool_decide; simpl; try done. by intros [= <- <-].
Qed.

Lemma fixup_store_lookup t head d t' row :
  d.(tasks) !! t' = Some row →
  ∃ sha, (fixup_store t head d).(tasks) !! t' = Some (stamp_evaluation_sha sha row) ∧
    (sha = None ∨ sha = head).
Proof.
  intros Hr. unfold fixup_store.
  destruct (fixup_parent t head d) as [[parent sha]|] eqn:Hf.
  - simpl. destruct (decide (t' = parent)) as [->|Hne].
    + exists (Some sha). rewrite lookup_alter_eq, Hr. split; [done |]. right.
      by apply fixup_parent_head in Hf.
    + exists None. rewrite lookup_alter_ne by done. rewrite Hr. split; [by destruct row | by left].
  - exists None. rewrite Hr. split; [by destruct row | by left].
Qed.

Definition final_reason (final : TaskState) : option string :=
  match final with TaskState.Completed => None | _ => Some "task_verifiers_pending" end.

Section effects.
Context (reg : PlanRegistry).

Lemma completion_store_exports now req task row exports final d t p :
  MkExportRow t p ∈ (completion_store reg now req task row exports final d).(exported_paths) ↔
  MkExportRow t p ∈ d.(exported_paths) ∨ (t = req.(req_task_id) ∧ p ∈ exports).
Proof.
  rewrite <-elem_of_add_exports.
  assert (Hc : ∀ reason, exported_paths (committed now (req_task_id req) final reason exports
    (req_head_sha req) row d) = add_exports (req_task_id req) exports (exported_paths d))
    by (intros; apply committed_exports).
  unfold completion_store. destruct final; try (by rewrite Hc).
  destruct (marked_frame reg (task_initiative_id task) (req_task_id req)
    (fixup_store (req_task_id req) (req_head_sha req) (completed_store now (req_task_id req)
       (task_lane_id task) exports (req_head_sha req) row d))) as (_ & -> & _).
  destruct (fixup_store_frame (req_task_id req) (req_head_sha req) (completed_store now
    (req_task_id req) (task_lane_id task) exports (req_head_sha req) row d)) as (-> & _).
  unfold completed_store, on_reservations. cbn [exported_paths]. by rewrite Hc.
Qed.

(** The row of a task after the completion of [t]. *)
Lemma completion_store_lookup now req task row exports final d t' r :
  d.(tasks) !! req.(req_task_id) = Some row → d.(tasks) !! t' = Some r →
  ∃ sha, (sha = None ∨ sha = req.(req_head_sha)) ∧
    (completion_store reg now req task row exports final d).(tasks) !! t' =
    Some (stamp_evaluation_sha sha
      (if decide (t' = req.(req_task_id)) then
         stamp_evaluation_sha req.(req_head_sha)
           (write_task_state (as_sql_str final) now (stored_block_reason final (final_reason final))
              (as_audit_string Kernel) row)
       else r)).
Proof.
  intros Hrow Hr.
  assert (Hc : (committed now (req_task_id req) final (final_reason final) exports (req_head_sha req)
      row d).(tasks) !! t' = Some
    (if decide (t' = req.(req_task_id)) then
         stamp_evaluation_sha req.(req_head_sha)
           (write_task_state (as_sql_str final) now (stored_block_reason final (final_reason final))
              (as_audit_string Kernel) row)
       else r)).
  { rewrite committed_tasks. destruct (decide (t' = req_task_id req)) as [->|Hne];
      [by rewrite lookup_insert_eq | by rewrite lookup_insert_ne]. }
  destruct (decide (final = TaskState.Completed)) as [->|Hf].
  - unfold completion_store.
    destruct (marked_frame reg (task_initiative_id task) (req_task_id req)
      (fixup_store (req_task_id req) (req_head_sha req) (completed_store now (req_task_id req)
         (task_lane_id task) exports (req_head_sha req) row d))) as (-> & _).
    destruct (fixup_store_lookup (req_task_id req) (req_head_sha req) (completed_store now
      (req_task_id req) (task_lane_id task) exports (req_head_sha req) row d) t' _ Hc)
      as (sha & Hl & Hsha). eauto.
  - exists None. split; [by left |].
    replace (completion_store reg now req task row exports final d) with
      (committed now (req_task_id req) final (final_reason final) exports (req_head_sha req) row d)
      by by destruct final.
    rewrite Hc. by destruct (if decide _ then _ else r).
Qed.

Lemma completion_store_released now req task row exports d :
  (completion_store reg now req task row exports TaskState.Completed d).(reservations)
    !! (task.(task_lane_id), req.(req_task_id)) = None.
Proof.
  unfold completion_store.
  destruct (marked_frame reg (task_initiative_id task) (req_task_id req)
    (fixup_store (req_task_id req) (req_head_sha req) (completed_store now (req_task_id req)
       (task_lane_id task) exports (req_head_sha req) row d))) as (_ & _ & -> & _).
  destruct (fixup_store_frame (req_task_id req) (req_head_sha req) (completed_store now
    (req_task_id req) (task_lane_id task) exports (req_head_sha req) row d)) as (_ & -> & _).
  apply lookup_delete_eq.
Qed.

Lemma completion_store_edges now req task row exports final d :
  edge_predecessor <$> (completion_store reg now req task row exports final d).(dag_edges) =
  edge_predecessor <$> d.(dag_edges).
Proof.
  destruct final; unfold completion_store; try (by rewrite committed_edges).
  destruct (marked_frame reg (task_initiative_id task) (req_task_id req)
    (fixup_store (req_task_id req) (req_head_sha req) (completed_store now (req_task_id req)
       (task_lane_id task) exports (req_head_sha req) row d))) as (_ & _ & _ & _ & ->).
  destruct (fixup_store_frame (req_task_id req) (req_head_sha req) (completed_store now
    (req_task_id req) (task_lane_id task) exports (req_head_sha req) row d)) as (_ & _ & _ & ->).
  unfold completed_store, on_reservations. cbn [dag_edges]. by rewrite committed_edges.
Qed.

Lemma completion_store_activations_ok now req task row exports final d :
  activations_ok d → activations_ok (completion_store reg now req task row exports final d).
Proof.
  intros Hok.
  assert (Hc : ∀ reason, activations_ok (committed now (req_task_id req) final reason exports
    (req_head_sha req) row d)).
  { intros reason. unfold committed, activations_ok. destruct (req_head_sha req); simpl;
      by apply (transitioned_activations_ok now (req_task_id req) final reason Kernel row d). }
  destruct final; unfold completion_store; try apply Hc.
  unfold activations_ok.
  destruct (marked_frame reg (task_initiative_id task) (req_task_id req)
    (fixup_store (req_task_id req) (req_head_sha req) (completed_store now (req_task_id req)
       (task_lane_id task) exports (req_head_sha req) row d))) as (_ & _ & _ & -> & _).
  destruct (fixup_store_frame (req_task_id req) (req_head_sha req) (completed_store now
    (req_task_id req) (task_lane_id task) exports (req_head_sha req) row d)) as (_ & _ & -> & _).
  apply Hc.
Qed.

Lemma completion_store_none now req task row exports final d t' :
  d.(tasks) !! req.(req_task_id) = Some row → d.(tasks) !! t' = None →
  (completion_store reg now req task row exports final d).(tasks) !! t' = None.
Proof.
  intros Hrow Hn. assert (Hne : req_task_id req ≠ t') by congruence.
  assert (Hc : ∀ reason, (committed now (req_task_id req) final reason exports (req_head_sha req)
      row d).(tasks) !! t' = None).
  { intros reason. by rewrite committed_tasks, lookup_insert_ne. }
  destruct final; unfold completion_store; try apply Hc.
  destruct (marked_frame reg (task_initiative_id task) (req_task_id req)
    (fixup_store (req_task_id req) (req_head_sha req) (completed_store now (req_task_id req)
       (task_lane_id task) exports (req_head_sha req) row d))) as (-> & _).
  specialize (Hc None). unfold fixup_store.
  destruct (fixup_parent _ _ _) as [[parent sha]|]; [| exact Hc].
  unfold completed_store. cbn [tasks on_tasks on_reservations].
  destruct (decide (t' = parent)) as [->|Hp]; [by rewrite lookup_alter_eq, Hc | by rewrite lookup_alter_ne].
Qed.
End effects.

(** *** The scope invariant *)

(** Task ids are unique across initiatives ([validate_plan_task_ids_globally_unused]),
    so the registry files a task under the initiative its row names. *)
Definition registry_owner (reg : PlanRegistry) (d : Db) : Prop :=
  ∀ i t f row, registry_get reg (i, t) = Some f → d.(tasks) !! t = Some row →
    row.(task_initiative_id) = i.

Record completion_inv (reg : PlanRegistry) (d : Db) : Prop := {
  ci_activations : activations_ok d;
  ci_edges : edges_resolved d;
  ci_owner : registry_owner reg d;
  ci_exports : ∀ i, exports_within_merge reg i d;
}.

(** The rows of [d'] are those of [d], under the same initiatives. *)
Definition same_tasks (d d' : Db) : Prop :=
  ∀ t, match d.(tasks) !! t with
       | Some r => ∃ r', d'.(tasks) !! t = Some r' ∧
           r'.(task_initiative_id) = r.(task_initiative_id)
       | None => d'.(tasks) !! t = None
       end.

Lemma same_tasks_back d d' t r' :
  same_tasks d d' → d'.(tasks) !! t = Some r' →
  ∃ r, d.(tasks) !! t = Some r ∧ r'.(task_initiative_id) = r.(task_initiative_id).
Proof.
  intros H Hr. specialize (H t). destruct (tasks d !! t) as [r|]; [| congruence].
  destruct H as (r2 & Hr2 & Hi). exists r. split; [done | congruence].
Qed.

Lemma completion_inv_step reg d d' :
  completion_inv reg d → activations_ok d' → same_tasks d d' →
  edge_predecessor <$> d'.(dag_edges) = edge_predecessor <$> d.(dag_edges) →
  (∀ i t p, exports_to_successors reg (i, t) = true → MkExportRow t p ∈ d'.(exported_paths) →
     MkExportRow t p ∈ d.(exported_paths) ∨ merge_granted reg i p) →
  completion_inv reg d'.
Proof.
  intros [Ha He Ho Hx] Ha' Hs Hed Hnew. split; [done | | |].
  - intros e Hin. assert (edge_predecessor e ∈ edge_predecessor <$> dag_edges d) as Hp
      by (rewrite <-Hed; by apply list_elem_of_fmap_2).
    apply list_elem_of_fmap in Hp as (e0 & -> & Hin0). destruct (He e0 Hin0) as [r Hr].
    specialize (Hs (edge_predecessor e0)). rewrite Hr in Hs. destruct Hs as (r' & -> & _). by eexists.
  - intros i t f row Hf Hrow. destruct (same_tasks_back d d' t row Hs Hrow) as (r & Hr & ->).
    by eapply Ho.
  - intros i t p Hopt Hin. destruct (Hnew i t p Hopt Hin) as [Hold|]; [by eapply Hx | done].
Qed.

Lemma inline_admitted_inv reg now i t d d1 :
  completion_inv reg d → inline_admitted reg now i t d d1 →
  completion_inv reg d1 ∧ same_tasks d d1.
Proof.
  intros Hinv (base & head & touched & row & [Hrow _] & _ & ->).
  set (d0 := match intent_ranges d !! (t, head) with
             | Some _ => d
             | None => on_intent_ranges <[(t, head) := MkIntentRangeRow base now]> d end).
  assert (Hd0 : d0.(tasks) = d.(tasks) ∧ d0.(dag_edges) = d.(dag_edges) ∧
                d0.(exported_paths) = d.(exported_paths)).
  { unfold d0. by destruct (intent_ranges d !! (t, head)). }
  destruct Hd0 as (Ht0 & He0 & Hx0).
  assert (Hs : same_tasks d (inlined now t base head row d)).
  { intros t'. unfold inlined. fold d0. cbn [transitioned tasks]. rewrite Ht0.
    destruct (decide (t' = t)) as [->|Hne].
    - rewrite Hrow, lookup_insert_eq. by eexists.
    - rewrite lookup_insert_ne by done. destruct (tasks d !! t'); [by eexists | done]. }
  split; [| done]. eapply completion_inv_step; [done | | done | |].
  - apply inlined_activations_ok, Hinv.
  - unfold inlined. fold d0. cbn [transitioned dag_edges]. by rewrite He0.
  - intros i' t' p _ Hin. left. unfold inlined in Hin. fold d0 in Hin.
    cbn [transitioned exported_paths] in Hin. by rewrite Hx0 in Hin.
Qed.

Lemma compute_export_set_sub {Pattern} (pn : string → option Pattern) mp touched globs p :
  p ∈ compute_export_set pn mp touched globs → p ∈ touched.
Proof.
  unfold compute_export_set. destruct globs; [done |].
  intros [H _]%list_elem_of_In%filter_In. by apply list_elem_of_In.
Qed.

Lemma planned_exports_sub {Pattern} (pn : string → option Pattern) mp reg i t touched p :
  p ∈ planned_exports pn mp reg i t touched → p ∈ touched.
Proof.
  unfold planned_exports. destruct (registry_get reg (i, t)) as [f|]; [| by intros ?%elem_of_nil].
  destruct (path_export_to_successors f); [apply compute_export_set_sub | by intros ?%elem_of_nil].
Qed.

Lemma accepted_from_inv {Pattern} (pn : string → option Pattern) mp reg now req task d1 resp d' :
  (∀ i, registry_valid reg i) → completion_inv reg d1 →
  (∃ r, d1.(tasks) !! req.(req_task_id) = Some r ∧
        r.(task_initiative_id) = task.(task_initiative_id)) →
  accepted_from pn mp reg now req task d1 resp d' → completion_inv reg d'.
Proof.
  intros Hv Hinv (r & Hr & Hri) (vec & row & Hc & _ & [Hrow _] & ->).
  rewrite Hr in Hrow. injection Hrow as <-.
  pose proof Hinv as [Ha He Ho Hx].
  eapply completion_inv_step; [done | by apply completion_store_activations_ok | | apply completion_store_edges |].
  - intros t'. destruct (tasks d1 !! t') as [r'|] eqn:Hr'.
    + destruct (completion_store_lookup reg now req task r
        (planned_exports pn mp reg (task_initiative_id task) (req_task_id req) vec)
        (final_state reg req task d1) d1 t' r' Hr Hr') as (sha & _ & ->).
      eexists. split; [done |]. destruct (decide (t' = req_task_id req)) as [->|]; [| done].
      simpl. congruence.
    + by eapply completion_store_none.
  - intros i t p Hopt [Hold|[-> Hp]]%completion_store_exports; [by left | right].
    apply planned_exports_sub in Hp. unfold exports_to_successors in Hopt.
    destruct (registry_get reg (i, req_task_id req)) as [f|] eqn:Hf; [| done].
    assert (task_initiative_id task = i) as <- by (rewrite <-Hri; by eapply Ho).
    pose proof (check_paths_run reg d1 (task_initiative_id task) (req_task_id req) vec (Hv _) He) as Hrun.
    rewrite Hc in Hrun. destruct Hrun as (_ & _ & Hcov). simpl in Hcov.
    eapply path_granted_merge_granted; [apply Hx | by apply Hcov].
Qed.

(** Every blocking verifier has a passing witness for the submitted commit. *)
Definition verifiers_passed (d : Db) (t : string) (head : option string)
    (vs : list TaskVerifierEntry) : Prop :=
  ∀ v, v ∈ vs → v.(tv_on_failure) = BlockReview →
    ∃ h run wit, head = Some h ∧ h ≠ "" ∧ d.(witness_records) !! run = Some wit ∧
      wit.(wit_task_id) = t ∧ wit.(wit_evaluation_sha) = h ∧ wit.(wit_gate_type) = v.(tv_name) ∧
      wit.(wit_result_class) = "Pass".

Lemma has_pass_witness_iff d t h gate :
  has_pass_witness d t h gate = true ↔ ∃ run wit, d.(witness_records) !! run = Some wit ∧
    wit.(wit_task_id) = t ∧ wit.(wit_evaluation_sha) = h ∧ wit.(wit_gate_type) = gate ∧
    wit.(wit_result_class) = "Pass".
Proof.
  unfold has_pass_witness. rewrite existsb_exists. split.
  - intros ([run wit] & Hin%list_elem_of_In%elem_of_map_to_list & Hb). exists run, wit.
    rewrite !andb_true_iff, !String.eqb_eq in Hb. tauto.
  - intros (run & wit & Hin & ? & ? & ? & ?). exists (run, wit).
    rewrite <-list_elem_of_In, elem_of_map_to_list, !andb_true_iff, !String.eqb_eq. tauto.
Qed.

Lemma missing_verifiers_nil_blocking t head vs d :
  missing_blocking_task_verifiers t head vs d = [] ↔
  ∀ v, v ∈ vs → blocking v = true →
    ∃ h, head = Some h ∧ h ≠ "" ∧ has_pass_witness d t h v.(tv_name) = true.
Proof.
  assert (Hnil : ∀ f : TaskVerifierEntry → bool,
    tv_name <$> List.filter f vs = [] ↔ ∀ v, v ∈ vs → f v = false).
  { intros f. induction vs as [|v vs' IH]; simpl; [by split; [intros _ ? ?%elem_of_nil |] |].
    destruct (f v) eqn:Hf; simpl.
    - split; [done |]. intros H. specialize (H v ltac:(by left)). congruence.
    - rewrite IH. split; intros H v' Hin; [apply elem_of_cons in Hin as [->|]; auto | by apply H; right]. }
  unfold missing_blocking_task_verifiers. destruct head as [h|];
    [destruct (String.eqb_spec h "") as [->|Hh] |].
  - rewrite Hnil. split; intros H v Hin; [intros Hb; rewrite H in Hb by done; done |].
    destruct (blocking v) eqn:Hb; [| done]. by destruct (H v Hin Hb) as (? & [= <-] & ? & _).
  - assert (Hff : List.filter (λ v, negb (has_pass_witness d t h (tv_name v))) (List.filter blocking vs)
      = List.filter (λ v, blocking v && negb (has_pass_witness d t h (tv_name v))) vs).
    { clear. induction vs as [|v vs' IH]; simpl; [done |].
      destruct (blocking v); simpl; [by destruct (has_pass_witness _ _ _ _); simpl; rewrite IH | done]. }
    rewrite Hff, Hnil. split; intros H v Hin.
    + intros Hb. exists h. specialize (H v Hin). rewrite Hb in H.
      by destruct (has_pass_witness d t h (tv_name v)).
    + destruct (blocking v) eqn:Hb; [| done].
      by destruct (H v Hin Hb) as (? & [= <-] & _ & ->).
  - rewrite Hnil. split; intros H v Hin; [intros Hb; rewrite H in Hb by done; done |].
    destruct (blocking v) eqn:Hb; [| done]. by destruct (H v Hin Hb) as (? & ? & _).
Qed.

Lemma missing_verifiers_nil_iff t head vs d :
  missing_blocking_task_verifiers t head vs d = [] ↔ verifiers_passed d t head vs.
Proof.
  rewrite missing_verifiers_nil_blocking. unfold verifiers_passed, blocking.
  setoid_rewrite has_pass_witness_iff. split; intros H v Hin Hb.
  - destruct (H v Hin) as (h & Hh & Hne & run & wit & Hw); [by rewrite Hb |].
    by exists h, run, wit.
  - destruct (tv_on_failure v) eqn:Hv; [| done].
    destruct (H v Hin Hv) as (h & run & wit & Hh & Hne & Hw). exists h. eauto.
Qed.

Lemma admitted_store_frame reg now st i t d d1 task :
  d.(tasks) !! t = Some task → admitted_store reg now st i t d d1 →
  d1.(exported_paths) = d.(exported_paths) ∧ d1.(witness_records) = d.(witness_records) ∧
  (∃ r, d1.(tasks) !! t = Some r ∧ r.(task_initiative_id) = task.(task_initiative_id)) ∧
  ∀ t', t' ≠ t → d1.(tasks) !! t' = d.(tasks) !! t'.
Proof.
  intros Ht [[_ ->]|[_ (base & head & touched & row & [Hrow _] & _ & ->)]]; [eauto 6 |].
  rewrite Ht in Hrow. injection Hrow as <-. unfold inlined.
  destruct (intent_ranges d !! (t, head)); cbn [transitioned tasks exported_paths witness_records
    on_intent_ranges]; do 2 (split; [done |]);
    (split; [rewrite lookup_insert_eq; by eexists | intros t' Hne; by rewrite lookup_insert_ne]).
Qed.

(** ** Properties *)

Section properties.
Context {V Sink Pattern : Type} (domain : DomainAdapter V)
  (emit : AuditEvent → Sink → bool * Sink)
  (pattern_new : string → option Pattern) (matches_path : Pattern → string → bool)
  (reg : PlanRegistry) (policy : PolicyBundle).

(** One completion request, after the agent changed its repository. *)
Record CompletionStep := MkCompletionStep {
  cs_env : V → V;
  cs_now : Z;
  cs_req : CompleteTaskRequest;
  cs_state : TaskState;
  cs_session : string;
  cs_seq : Z;
}.

Definition run_completion (w : World V Sink) (s : CompletionStep) : World V Sink :=
  (handle_complete_task domain emit pattern_new matches_path reg policy s.(cs_now) s.(cs_req)
     s.(cs_state) s.(cs_session) s.(cs_seq) (MkWorld w.(w_db) (s.(cs_env) w.(w_vcs)) w.(w_audit))).2.

Lemma run_completion_inv w s :
  (∀ i, registry_valid reg i) → completion_inv reg w.(w_db) →
  completion_inv reg (run_completion w s).(w_db).
Proof using Type.
  intros Hv Hinv. unfold run_completion.
  pose proof (handle_complete_task_run domain emit pattern_new matches_path reg policy (cs_now s)
    (cs_req s) (cs_state s) (cs_session s) (cs_seq s)
    (MkWorld (w_db w) (cs_env s (w_vcs w)) (w_audit w)) (ci_activations _ _ Hinv)) as Hrun.
  destruct (handle_complete_task _ _ _ _ _ _ _ _ _ _ _ _) as [[resp|e] w']; simpl in *.
  - destruct Hrun as (task & d1 & Ht & Hadm & Hacc).
    destruct (admitted_store_frame reg _ _ _ _ _ _ task Ht Hadm) as (_ & _ & Hr & _).
    assert (completion_inv reg d1).
    { destruct Hadm as [[_ ->]|[_ Hin]]; [done | by eapply inline_admitted_inv]. }
    by eapply accepted_from_inv.
  - destruct Hrun as [->|(task & _ & [[_ ->]|[_ Hin]])]; [done | done |].
    by eapply inline_admitted_inv.
Qed.

(** C5: whatever completion requests arrive, in whatever order and whatever the
    agents did to their repositories in between, no task is ever granted a path
    that an integration merge of its initiative would refuse: exports cannot
    widen the scope the operator signed. *)
Theorem completions_stay_in_scope (steps : list CompletionStep) w i t p :
  (∀ i, registry_valid reg i) → completion_inv reg w.(w_db) →
  path_granted reg (foldl run_completion w steps).(w_db) i t p → merge_granted reg i p.
Proof using Type.
  intros Hv Hinv. assert (Hend : completion_inv reg (foldl run_completion w steps).(w_db)).
  { revert w Hinv. induction steps as [|s steps IH]; intros w Hinv; [done |].
    by apply IH, run_completion_inv. }
  apply path_granted_merge_granted, Hend.
Qed.

End properties.

(** ** Leaving [GatesPending] *)

Lemma hop_ok now t ns d row cur :
  activations_ok d → d.(tasks) !! t = Some row → from_sql_str row.(task_state) = Some cur →
  is_legal_transition cur ns = true →
  drop_err (transition_task_in_tx now t ns None Kernel) d =
    (Ok (MkTaskTransitionRecord t row.(task_initiative_id) cur ns Kernel now
           (Z.max row.(task_policy_epoch) 0)),
     transitioned now t ns None Kernel row d).
Proof.
  intros Hok Hrow Hcur Hleg. unfold drop_err.
  rewrite se_map_err_run, transition_task_in_tx_run by done. by rewrite Hrow, Hcur, Hleg.
Qed.

Definition hop_row (now : Z) (ns : TaskState) (row : TaskRow) : TaskRow :=
  write_task_state (as_sql_str ns) now (stored_block_reason ns None) (as_audit_string Kernel) row.

Lemma finalize_tx_run now t lane d :
  activations_ok d →
  (∃ row cur records d', d.(tasks) !! t = Some row ∧ from_sql_str row.(task_state) = Some cur ∧
     is_legal_transition cur TaskState.Admitted_ = true ∧
     finalize_task_verifier_completion_tx now t lane d = (Ok records, d') ∧
     (λ r, (r.(rec_from_state), r.(rec_to_state))) <$> records =
       [(cur, TaskState.Admitted_); (TaskState.Admitted_, TaskState.Running);
        (TaskState.Running, TaskState.Completed)] ∧
     d'.(tasks) = <[t := hop_row now TaskState.Completed row]> d.(tasks) ∧
     d'.(reservations) = delete (lane, t) d.(reservations)) ∨
  ((¬ ∃ row, may_move d t TaskState.Admitted_ row) ∧
   finalize_task_verifier_completion_tx now t lane d = (Err tt, d)).
Proof.
  intros Hok. unfold finalize_task_verifier_completion_tx, with_tx, may_move.
  destruct (tasks d !! t) as [row|] eqn:Hrow.
  2: { right. split; [by intros (? & ? & _) |]. unfold mbind at 1, se_bind at 1, drop_err at 1.
       by rewrite se_map_err_run, transition_task_in_tx_run, Hrow. }
  destruct (from_sql_str (A := TaskState) (task_state row)) as [cur|] eqn:Hcur.
  2: { right. split; [intros (? & [= <-] & ? & ? & _); congruence |].
       unfold mbind at 1, se_bind at 1, drop_err at 1.
       by rewrite se_map_err_run, transition_task_in_tx_run, Hrow, Hcur. }
  destruct (is_legal_transition cur TaskState.Admitted_) eqn:Hleg.
  2: { right. split; [intros (? & [= <-] & ? & ? & ?); congruence |].
       unfold mbind at 1, se_bind at 1, drop_err at 1.
       by rewrite se_map_err_run, transition_task_in_tx_run, Hrow, Hcur, Hleg. }
  left. exists row, cur.
  set (d1 := transitioned now t TaskState.Admitted_ None Kernel row d).
  set (r1 := hop_row now TaskState.Admitted_ row).
  set (d2 := transitioned now t TaskState.Running None Kernel r1 d1).
  set (r2 := hop_row now TaskState.Running r1).
  assert (H1 : tasks d1 !! t = Some r1) by apply lookup_insert_eq.
  assert (H2 : tasks d2 !! t = Some r2) by apply lookup_insert_eq.
  assert (Hok1 : activations_ok d1) by by apply transitioned_activations_ok.
  assert (Hok2 : activations_ok d2) by by apply transitioned_activations_ok.
  unfold mbind, se_bind.
  rewrite (hop_ok now t TaskState.Admitted_ d row cur) by done. fold d1.
  rewrite (hop_ok now t TaskState.Running d1 r1 TaskState.Admitted_) by done. fold d2.
  rewrite (hop_ok now t TaskState.Completed d2 r2 TaskState.Running) by done.
  unfold drop_err. rewrite se_map_err_run, release_budget_ok. simpl.
  do 2 eexists. do 3 (split; [done |]). split; [reflexivity |]. split; [done |].
  split; [| done]. unfold d2, d1, transitioned. cbn [tasks]. by rewrite !insert_insert_eq.
Qed.

(** An audit sink that keeps everything. *)
Definition log (e : AuditEvent) (k : list AuditEvent) : bool * list AuditEvent := (true, k ++ [e]).

Definition not_audited {V Sink} (w w' : World V Sink) : Prop :=
  w'.(w_db) = w.(w_db) ∧ w'.(w_audit) = w.(w_audit).

(** Finalising a verified task is atomic and accepts exactly the states the
    first hop may leave, which besides [GatesPending] are [Running], [Failed]
    and [BlockedRecoveryPending]; it ends in [Completed] with the lane released
    and one audit record per hop, and otherwise neither writes nor audits. *)
Theorem finalize_sources {V} now t lane sid (w : World V (list AuditEvent)) :
  activations_ok w.(w_db) →
  let d := w.(w_db) in
  match finalize_task_verifier_completion log now t lane sid w with
  | (Ok records, w') => ∃ row cur, d.(tasks) !! t = Some row ∧
      from_sql_str row.(task_state) = Some cur ∧
      cur ∈ [TaskState.GatesPending; TaskState.Running; TaskState.Failed;
             TaskState.BlockedRecoveryPending] ∧
      (λ r, (r.(rec_from_state), r.(rec_to_state))) <$> records =
        [(cur, TaskState.Admitted_); (TaskState.Admitted_, TaskState.Running);
         (TaskState.Running, TaskState.Completed)] ∧
      w'.(w_db).(tasks) = <[t := hop_row now TaskState.Completed row]> d.(tasks) ∧
      w'.(w_db).(reservations) = delete (lane, t) d.(reservations) ∧
      length w'.(w_audit) = length w.(w_audit) + 3
  | (Err _, w') => not_audited w w' ∧ ∀ row, d.(tasks) !! t = Some row →
      row.(task_state) ∉ (as_sql_str <$> [TaskState.GatesPending; TaskState.Running; TaskState.Failed;
                                          TaskState.BlockedRecoveryPending])
  end.
Proof.
  intros Hok d. unfold finalize_task_verifier_completion. fold d.
  destruct (finalize_tx_run now t lane d Hok)
    as [(row & cur & records & d' & Hrow & Hcur & Hleg & -> & Hrec & Ht & Hr)|[Hno ->]].
  - exists row, cur. split; [done |]. split; [done |].
    split; [destruct cur; simpl in Hleg; try done; set_solver |]. do 3 (split; [done |]). simpl.
    destruct records as [|a [|b [|c [|e l]]]]; try done.
    unfold emit_task_state_changed_audit, log. simpl. rewrite !length_app. simpl. lia.
  - split; [done |]. intros row Hrow Hin. apply Hno. exists row. split; [done |].
    apply list_elem_of_fmap in Hin as (cur & Hs & Hin). exists cur. rewrite Hs.
    split; [apply from_as_sql_str |]. set_solver.
Qed.

(** ** A run with an unchecked commit *)

Definition sha_of (c : Ascii.ascii) : string := String.string_of_list_ascii (replicate 40 c).
Definition base_sha : string := Eval vm_compute in sha_of (Ascii.ascii_of_nat 48).
Definition first_head : string := Eval vm_compute in sha_of (Ascii.ascii_of_nat 97).
Definition second_head : string := Eval vm_compute in sha_of (Ascii.ascii_of_nat 98).

(** A repository whose second diff fails once; the first head touches a file in
    scope, every other head one outside it. *)
Definition flaky_repository : DomainAdapter nat :=
  MkDomainAdapter nat (λ _ _ _, mret true) (λ _ _ _, mret tt)
    (λ _ head _ n,
       (if (n =? 1)%nat then Err tt
        else Ok [if String.eqb head first_head then "path:///src/lib.rs" else "path:///.env"], S n)).

Definition one_task_registry : PlanRegistry :=
  registry_insert ("i", "build") (demo_fields ["src/"] true) new_registry.

Definition one_session : SessionRow :=
  MkSessionRow "Planner" "tok" "lin" (Some "/wt") (Some base_sha) None 1 0 10 99 false None
    (Some "Executor") false (Some "i").
Definition one_initiative : InitiativeRow := MkInitiativeRow "Executing" "{}" "sha" 10 None None 0 None.
Definition one_task_db : Db :=
  on_sessions (λ _, {[ "s" := one_session ]})
    (on_tasks (λ _, {[ "build" := PathScope.demo_row "Admitted" ]})
      (on_initiatives (λ _, {[ "i" := one_initiative ]}) empty_db)).

Definition one_lane_policy : PolicyBundle := MkPolicyBundle [] ∅ 0 0 [] [] "permit" [] 1 [] 0 0 0 0.

Definition complete (head : string) (st : TaskState) (w : World nat (list AuditEvent)) :=
  handle_complete_task flaky_repository log (λ g, Some g) (λ g p : string, String.eqb g p)
    one_task_registry one_lane_policy 30 (MkCompleteTaskRequest "build" "tok" (Some base_sha) (Some head))
    st "s" 1 w.

Definition first_attempt := complete first_head TaskState.Admitted_ (MkWorld one_task_db 0 []).
Definition second_attempt := complete second_head TaskState.Running first_attempt.2.


(** ** Witnesses *)

Lemma one_task_registry_valid i : registry_valid one_task_registry i.
Proof.
  intros t f e Hf He. unfold one_task_registry, registry_get in Hf. simpl in Hf.
  apply lookup_insert_Some in Hf as [[_ <-]|[_ Hf]]; [| by rewrite lookup_empty in Hf].
  simpl in He. apply list_elem_of_singleton in He as ->. by vm_compute.
Qed.

Lemma one_task_inv : completion_inv one_task_registry one_task_db.
Proof.
  split.
  - by apply (bool_decide_unpack _).
  - intros e He. by apply elem_of_nil in He.
  - intros i t f row Hf Hrow. unfold one_task_registry, registry_get in Hf. simpl in Hf.
    apply lookup_insert_Some in Hf as [[[= <- <-] _]|[_ Hf]]; [| by rewrite lookup_empty in Hf].
    simpl in Hrow. rewrite lookup_singleton_eq in Hrow. by injection Hrow as <-.
  - intros i t p _ He. by apply elem_of_nil in He.
Qed.

Definition demo_step : CompletionStep (V := nat) :=
  MkCompletionStep (λ _, 7) 30 (MkCompleteTaskRequest "build" "tok" (Some base_sha) (Some first_head))
    TaskState.Admitted_ "s" 1.

Lemma completions_stay_in_scope_witness :
  merge_granted one_task_registry "i" "src/lib.rs" ∧
  (task_state <$> (foldl (run_completion flaky_repository log (λ g, Some g)
    (λ g p : string, String.eqb g p) one_task_registry one_lane_policy)
    (MkWorld one_task_db 0 []) [demo_step]).(w_db).(tasks) !! "build") = Some "Completed".
Proof.
  split; [| by vm_compute].
  apply (completions_stay_in_scope flaky_repository log (λ g, Some g) (λ g p : string, String.eqb g p)
    one_task_registry one_lane_policy [demo_step] (MkWorld one_task_db 0 []) "i" "build");
    [exact one_task_registry_valid | exact one_task_inv |].
  exists "build", (demo_fields ["src/"] true). split; [by apply scope_own |].
  left. right. exists "src/". split; [by left |]. right. exists "src", ["lib.rs"]. by vm_compute.
Defined.


Definition parked_world (st : string) : World nat (list AuditEvent) :=
  MkWorld (on_tasks (λ _, {[ "build" := PathScope.demo_row st ]}) one_task_db) 0 [].

Lemma finalize_sources_witness :
  (task_state <$> (finalize_task_verifier_completion log 30 "build" "lane" None
     (parked_world "Failed")).2.(w_db).(tasks) !! "build") = Some "Completed".
Proof.
  pose proof (finalize_sources 30 "build" "lane" None (parked_world "Failed")
    ltac:(by apply (bool_decide_unpack _))) as H.
  cbv zeta in H.
  destruct (finalize_task_verifier_completion log _ _ _ _ _) as [[records|e] w'] eqn:E;
    [| by vm_compute in E].
  destruct H as (row & cur & Hrow & _ & _ & _ & Ht & _). cbn [snd].
  by rewrite Ht, lookup_insert_eq.
Defined.
