(* ===== verification/VerifierToken.v ===== *)
(** * Verifier run tokens

    [kernel/src/authority/verifier_token.rs]: machine credentials that bind one
    verifier run to a (task, gate, evaluation) triple, stored by hash and used
    once.  Hex decoding, SHA-256 and the CSPRNG are parameters; no theorem needs
    the hash to be injective. *)

From S2P Require Import Prelude Fsm Store Session.

(** [raxis_crypto::token::ct_eq]: constant-time comparison of byte slices. *)
Definition ct_eq (a b : list Z) : bool :=
  if length a =? length b
  then bool_decide (foldl (λ acc xy, Z.lor acc (Z.lxor xy.1 xy.2)) 0%Z (zip a b) = 0%Z)
  else false.

Record ValidatedVerifierToken := MkValidatedVerifierToken {
  vvt_verifier_run_id : string;
  vvt_task_id : string;
  vvt_gate_type : string;
  vvt_evaluation_sha : string;
  vvt_gate_source : string;
  vvt_gate_hook : string;
  vvt_verifier_on_failure : option string;
}.

Inductive IssueVerifierTokenOutcome : Type :=
  | Issued (raw_token : string)
  | AlreadyActive (verifier_run_id : string).

Record VerifierRunMetadata := MkVerifierRunMetadata {
  md_gate_source : string;
  md_gate_hook : string;
  md_verifier_image_alias : option string;
  md_verifier_command : option string;
  md_verifier_on_failure : option string;
}.

(** The CHECK list of [verifier_run_tokens.status]. *)
Definition verifier_statuses : list string :=
  ["Pending"; "Pass"; "Fail"; "Inconclusive"; "SpawnFailed"; "ProcessFailed"; "Timeout";
   "ConfigInvalid"; "BudgetExhausted"; "CapExceeded"].

(** [INSERT INTO verifier_run_tokens]: CHECK on the status, primary key, foreign
    key to [tasks]. *)
Definition insert_vrt (run_id : string) (r : VerifierTokenRow) : M SqlError unit := λ d,
  if bool_decide (r.(vrt_status) ∈ verifier_statuses) then
    if bool_decide (is_Some (d.(verifier_tokens) !! run_id)) then (Err SqlConstraintPrimaryKey, d)
    else if fk_ok d (has_task d r.(vrt_task_id))
    then (Ok tt, on_verifier_tokens <[run_id := r]> d)
    else (Err SqlConstraintForeignKey, d)
  else (Err SqlConstraintCheck, d).

(** [UPDATE verifier_run_tokens SET .. WHERE p], with the number of rows. *)
Definition update_vrt (p : string → VerifierTokenRow → bool)
    (f : VerifierTokenRow → VerifierTokenRow) : M SqlError nat := λ d,
  let hit := filter (λ kr, p kr.1 kr.2 = true) d.(verifier_tokens) in
  if bool_decide (map_Forall (λ _ r, (f r).(vrt_status) ∈ verifier_statuses) hit)
  then (Ok (size hit), on_verifier_tokens (λ m, (f <$> hit) ∪ m) d)
  else (Err SqlConstraintCheck, d).

Definition store_err {A} (m : M SqlError A) : M AuthorityError A :=
  se_map_err AuthorityError.StoreError m.

(** ** Issuing *)

(** The generator: raw token and the hash of its bytes, or an RNG failure. *)
Definition Generated : Type := result unit (string * string).

Definition issue_verifier_token (generated : Generated) (now : Z)
    (run_id task_id gate_type evaluation_sha : string) (ttl_secs : Z) : M AuthorityError string :=
  gen ← lift_result (map_err (λ _, AuthorityError.Crypto) generated);
  _ ← store_err (insert_vrt run_id
        (MkVerifierTokenRow task_id gate_type evaluation_sha gen.2 now
           (wrap_add_i64 now (as_i64 ttl_secs)) false None "policy_gate" "intent" None None None
           "Pending" None));
  mret gen.1.

Definition same_tuple (task_id gate_type evaluation_sha : string) (r : VerifierTokenRow) : Prop :=
  r.(vrt_task_id) = task_id ∧ r.(vrt_gate_type) = gate_type ∧
  r.(vrt_evaluation_sha) = evaluation_sha.
#[export] Instance same_tuple_dec t g e r : Decision (same_tuple t g e r).
Proof. unfold same_tuple. apply _. Defined.

(** The WHERE clause of the active-run query. *)
Definition active_run (task_id gate_type evaluation_sha : string) (now : Z)
    (r : VerifierTokenRow) : bool :=
  bool_decide (same_tuple task_id gate_type evaluation_sha r) && negb r.(vrt_consumed) &&
  bool_decide (now < r.(vrt_expires_at))%Z.

(** [ORDER BY issued_at DESC, verifier_run_id DESC] *)
Definition newer (a b : string * VerifierTokenRow) : bool :=
  (b.2.(vrt_issued_at) <? a.2.(vrt_issued_at))%Z ||
  (b.2.(vrt_issued_at) =? a.2.(vrt_issued_at))%Z && String.ltb b.1 a.1.

Definition newest (l : list (string * VerifierTokenRow)) : option string :=
  fst <$> foldr (λ x acc, match acc with
                          | Some y => if newer y x then Some y else Some x
                          | None => Some x end) None l.

Definition find_active (task_id gate_type evaluation_sha : string) (now : Z) (d : Db)
    : option string :=
  newest (map_to_list
    (filter (λ kr, active_run task_id gate_type evaluation_sha now kr.2 = true) d.(verifier_tokens))).

Definition issue_verifier_token_unless_active (generated : Generated) (now : Z)
    (run_id task_id gate_type evaluation_sha : string) (ttl_secs : Z) (md : VerifierRunMetadata)
    : M AuthorityError IssueVerifierTokenOutcome :=
  active ← gets (find_active task_id gate_type evaluation_sha now);
  match active with
  | Some verifier_run_id => mret (AlreadyActive verifier_run_id)
  | None =>
      gen ← lift_result (map_err (λ _, AuthorityError.Crypto) generated);
      _ ← store_err (insert_vrt run_id
            (MkVerifierTokenRow task_id gate_type evaluation_sha gen.2 now
               (wrap_add_i64 now (as_i64 ttl_secs)) false None md.(md_gate_source)
               md.(md_gate_hook) md.(md_verifier_image_alias) md.(md_verifier_command)
               md.(md_verifier_on_failure) "Pending" None));
      mret (Issued gen.1)
  end.

Definition record_terminal_verifier_run (generated : Generated) (now : Z)
    (run_id task_id gate_type evaluation_sha status failure_reason : string)
    (md : VerifierRunMetadata) : M AuthorityError unit :=
  gen ← lift_result (map_err (λ _, AuthorityError.Crypto) generated);
  store_err (insert_vrt run_id
    (MkVerifierTokenRow task_id gate_type evaluation_sha gen.2 now now true (Some now)
       md.(md_gate_source) md.(md_gate_hook) md.(md_verifier_image_alias) md.(md_verifier_command)
       md.(md_verifier_on_failure) status (Some failure_reason))).

(** ** Consuming *)

Definition set_consumed (now : Z) (status : string) (failure_reason : option string)
    (r : VerifierTokenRow) : VerifierTokenRow :=
  MkVerifierTokenRow r.(vrt_task_id) r.(vrt_gate_type) r.(vrt_evaluation_sha) r.(vrt_token_hash)
    r.(vrt_issued_at) r.(vrt_expires_at) true (Some now) r.(vrt_gate_source) r.(vrt_gate_hook)
    r.(vrt_image_alias) r.(vrt_command) r.(vrt_on_failure) status failure_reason.

Definition mark_verifier_run_terminal_by_run_id (now : Z) (verifier_run_id status : string)
    (failure_reason : option string) : M AuthorityError unit :=
  _ ← store_err (update_vrt (λ k r, String.eqb k verifier_run_id && negb r.(vrt_consumed))
                   (set_consumed now status failure_reason));
  mret tt.

Definition consume_verifier_token_by_run_id (now : Z) (verifier_run_id : string)
    : M AuthorityError unit :=
  mark_verifier_run_terminal_by_run_id now verifier_run_id "SpawnFailed" None.

Section hashed.
(** [hex::decode] and [sha256_hex]. *)
Context (hex_decode : string → option (list Z)) (sha256_hex : list Z → string).

Definition token_hash (raw_token : string) : result AuthorityError string :=
  b ← ok_or (hex_decode raw_token) AuthorityError.TokenMismatch; Ok (sha256_hex b).

Definition validated (k : string) (r : VerifierTokenRow) : ValidatedVerifierToken :=
  MkValidatedVerifierToken k r.(vrt_task_id) r.(vrt_gate_type) r.(vrt_evaluation_sha)
    r.(vrt_gate_source) r.(vrt_gate_hook) r.(vrt_on_failure).

(** [query_row] reads the first row with the hash. *)
Definition row_by_hash (h : string) : M AuthorityError (string * VerifierTokenRow) := λ d,
  (ok_or (List.find (λ kr, String.eqb kr.2.(vrt_token_hash) h) (map_to_list d.(verifier_tokens)))
     AuthorityError.TokenNotFound, d).

Definition validate_verifier_token_row_in_tx (now : Z) (raw_token : string)
    : M AuthorityError ValidatedVerifierToken :=
  h ← lift_result (token_hash raw_token);
  row ← row_by_hash h;
  _ ← guard_or (negb row.2.(vrt_consumed)) AuthorityError.TokenConsumed;
  _ ← guard_or (bool_decide (now < row.2.(vrt_expires_at))%Z) AuthorityError.TokenExpired;
  mret (validated row.1 row.2).

Definition validate_verifier_token_in_tx (now : Z) (raw_token : string) : M AuthorityError string :=
  row ← validate_verifier_token_row_in_tx now raw_token; mret row.(vvt_verifier_run_id).

Definition validate_verifier_token (now : Z) (raw_token : string) : M AuthorityError string :=
  validate_verifier_token_in_tx now raw_token.

(** [status = COALESCE(?2, status)]; the failure reason is left alone. *)
Definition consume_verifier_token_in_tx_with_status (now : Z) (raw_token : string)
    (status : option string) : M AuthorityError unit :=
  h ← lift_result (token_hash raw_token);
  rows ← store_err (update_vrt
           (λ _ r, String.eqb r.(vrt_token_hash) h && negb r.(vrt_consumed))
           (λ r, set_consumed now (default r.(vrt_status) status) r.(vrt_failure_reason) r));
  guard_or (negb (rows =? 0)) AuthorityError.TokenConsumed.

Definition consume_verifier_token_in_tx (now : Z) (raw_token : string) : M AuthorityError unit :=
  consume_verifier_token_in_tx_with_status now raw_token None.

Definition consume_verifier_token (now : Z) (raw_token : string) : M AuthorityError unit :=
  consume_verifier_token_in_tx now raw_token.
End hashed.

(** ** Lemmas *)

Lemma update_vrt_ok_lookup p f d n d' k :
  update_vrt p f d = (Ok n, d') →
  d'.(verifier_tokens) !! k =
    (λ r, if p k r then f r else r) <$> d.(verifier_tokens) !! k.
Proof.
  unfold update_vrt. case_bool_decide; [| done]. intros [= <- <-]. simpl.
  rewrite lookup_union, lookup_fmap, map_lookup_filter.
  destruct (verifier_tokens d !! k) as [r|]; simpl; [| done].
  case_guard as Hp; simpl; [by rewrite Hp | by rewrite (not_true_is_false _ Hp)].
Qed.

Lemma update_vrt_count p f d n d' :
  update_vrt p f d = (Ok n, d') →
  n = size (filter (λ kr, p kr.1 kr.2 = true) d.(verifier_tokens)).
Proof. unfold update_vrt. case_bool_decide; by intros [=]. Qed.

Lemma update_vrt_hit p f d n d' :
  update_vrt p f d = (Ok n, d') → n ≠ 0 → ∃ k r, d.(verifier_tokens) !! k = Some r ∧ p k r = true.
Proof.
  intros ->%update_vrt_count Hn.
  destruct (map_choose (filter (λ kr, p kr.1 kr.2 = true) (verifier_tokens d))) as (k & r & Hk).
  { intros Hemp. by rewrite Hemp, map_size_empty in Hn. }
  apply map_lookup_filter_Some in Hk as [Hk Hp]. by exists k, r.
Qed.

Lemma update_vrt_miss p f d n d' :
  update_vrt p f d = (Ok n, d') →
  (∀ k r, d.(verifier_tokens) !! k = Some r → p k r = false) → n = 0.
Proof.
  intros ->%update_vrt_count Hall. apply map_size_empty_iff, map_empty. intros k.
  apply map_lookup_filter_None. right. intros r Hk. simpl. by rewrite (Hall _ _ Hk).
Qed.

Lemma update_vrt_err p f d e d' : update_vrt p f d = (Err e, d') → d' = d.
Proof. unfold update_vrt. case_bool_decide; by intros [=]. Qed.

Lemma insert_vrt_inv run r d res d' :
  insert_vrt run r d = (res, d') →
  match res with
  | Ok _ => d.(verifier_tokens) !! run = None ∧ d' = on_verifier_tokens <[run := r]> d
  | Err _ => d' = d
  end.
Proof.
  unfold insert_vrt. repeat case_bool_decide; repeat case_match; intros [=]; subst; try done.
  split; [by apply eq_None_not_Some | done].
Qed.

Lemma newest_None l : newest l = None → l = [].
Proof. destruct l as [|x l]; [done |]. unfold newest; simpl. by repeat case_match. Qed.

Lemma find_active_None t g e now d k r :
  find_active t g e now d = None → d.(verifier_tokens) !! k = Some r →
  active_run t g e now r = false.
Proof.
  unfold find_active. intros Hn%newest_None%map_to_list_empty_iff Hk.
  destruct (active_run t g e now r) eqn:Ha; [| done].
  assert (filter (λ kr, active_run t g e now kr.2 = true) (verifier_tokens d) !! k = Some r) as Hin
    by by apply map_lookup_filter_Some.
  by rewrite Hn in Hin.
Qed.

(** *** Runs of token operations *)

Inductive TokenOp : Type :=
  | OpIssue (generated : Generated) (now : Z) (run_id task_id gate_type evaluation_sha : string)
      (ttl_secs : Z) (md : VerifierRunMetadata)
  | OpRecord (generated : Generated) (now : Z)
      (run_id task_id gate_type evaluation_sha status failure_reason : string)
      (md : VerifierRunMetadata)
  | OpMark (now : Z) (verifier_run_id status : string) (failure_reason : option string)
  | OpConsume (now : Z) (raw_token : string) (status : option string).

Section runs.
Context (hex_decode : string → option (list Z)) (sha256_hex : list Z → string).

Definition run_token_op (d : Db) (op : TokenOp) : Db :=
  match op with
  | OpIssue gen now run t g e ttl md =>
      (issue_verifier_token_unless_active gen now run t g e ttl md d).2
  | OpRecord gen now run t g e st why md => (record_terminal_verifier_run gen now run t g e st why md d).2
  | OpMark now run st why => (mark_verifier_run_terminal_by_run_id now run st why d).2
  | OpConsume now raw st =>
      (consume_verifier_token_in_tx_with_status hex_decode sha256_hex now raw st d).2
  end.

(** What one operation may do to the table: add one row under a new key, whose
    triple has no unconsumed row that expires later unless the new row is
    consumed already, or consume some rows in place. *)
Definition vrt_step (d d' : Db) : Prop :=
  (∃ run r, d.(verifier_tokens) !! run = None ∧ d'.(verifier_tokens) = <[run := r]> d.(verifier_tokens) ∧
     (r.(vrt_consumed) = false → ∀ k r0, d.(verifier_tokens) !! k = Some r0 →
        active_run r.(vrt_task_id) r.(vrt_gate_type) r.(vrt_evaluation_sha) r.(vrt_issued_at) r0 = false)) ∨
  (∀ k r', d'.(verifier_tokens) !! k = Some r' → ∃ r, d.(verifier_tokens) !! k = Some r ∧
     (r' = r ∨ (r'.(vrt_consumed) = true ∧ r'.(vrt_token_hash) = r.(vrt_token_hash)))).

Lemma vrt_step_refl d : vrt_step d d.
Proof. right. eauto. Qed.

Lemma vrt_step_update p now st why d res d' :
  update_vrt p (λ r, set_consumed now (st r) (why r) r) d = (res, d') → vrt_step d d'.
Proof.
  destruct res as [n|e]; [| intros ->%update_vrt_err; apply vrt_step_refl].
  intros Hup. right. intros k r' Hk. rewrite (update_vrt_ok_lookup _ _ _ _ _ k Hup) in Hk.
  destruct (verifier_tokens d !! k) as [r|]; simplify_eq/=. exists r. split; [done |].
  destruct (p k r); auto.
Qed.

Lemma run_token_op_step d op : vrt_step d (run_token_op d op).
Proof.
  destruct op as [gen now run t g e ttl md|gen now run t g e st why md|now run st why|now raw st]; simpl.
  - unfold issue_verifier_token_unless_active, store_err. se_unfold.
    destruct (find_active t g e now d) eqn:Hf; [apply vrt_step_refl |].
    destruct gen as [[raw h]|]; simpl; [| apply vrt_step_refl].
    destruct (insert_vrt run _ d) as [[[]|er] d1] eqn:Hi; apply insert_vrt_inv in Hi; simpl;
      [| subst; apply vrt_step_refl].
    destruct Hi as (Hnone & ->). left. eexists run, _. split_and!; [done | done |].
    intros _ k r0 Hk. by eapply find_active_None.
  - unfold record_terminal_verifier_run, store_err. se_unfold.
    destruct gen as [[raw h]|]; simpl; [| apply vrt_step_refl].
    destruct (insert_vrt run _ d) as [[[]|er] d1] eqn:Hi; apply insert_vrt_inv in Hi; simpl;
      [| subst; apply vrt_step_refl].
    destruct Hi as (Hnone & ->). left. by eexists run, _.
  - unfold mark_verifier_run_terminal_by_run_id, store_err. se_unfold.
    destruct (update_vrt _ _ d) as [[n|er] d1] eqn:Hu; simpl;
      by apply (vrt_step_update _ now (λ _, st) (λ _, why)) in Hu.
  - unfold consume_verifier_token_in_tx_with_status, store_err. se_unfold.
    destruct (token_hash hex_decode sha256_hex raw) as [h|]; [| apply vrt_step_refl].
    destruct (update_vrt _ _ d) as [[n|er] d1] eqn:Hu; simpl;
      by apply (vrt_step_update _ now (λ r, default (vrt_status r) st) vrt_failure_reason) in Hu.
Qed.

(** Two unconsumed rows of one triple were never live at the same time. *)
Definition runs_disjoint (d : Db) : Prop := ∀ k1 k2 r1 r2,
  k1 ≠ k2 → d.(verifier_tokens) !! k1 = Some r1 → d.(verifier_tokens) !! k2 = Some r2 →
  same_tuple r1.(vrt_task_id) r1.(vrt_gate_type) r1.(vrt_evaluation_sha) r2 →
  r1.(vrt_consumed) = false → r2.(vrt_consumed) = false →
  (r1.(vrt_expires_at) ≤ r2.(vrt_issued_at) ∨ r2.(vrt_expires_at) ≤ r1.(vrt_issued_at))%Z.

Lemma active_run_false_expired t g e now r :
  active_run t g e now r = false → same_tuple t g e r → r.(vrt_consumed) = false →
  (r.(vrt_expires_at) ≤ now)%Z.
Proof.
  unfold active_run. intros Ha Hs Hc. rewrite bool_decide_eq_true_2, Hc in Ha by done. simpl in Ha.
  apply bool_decide_eq_false in Ha. lia.
Qed.

Lemma vrt_step_disjoint d d' : vrt_step d d' → runs_disjoint d → runs_disjoint d'.
Proof.
  intros [(run & r & Hnone & Hd' & Hnew)|Hup] Hdis k1 k2 r1 r2 Hne Hk1 Hk2 Hs Hc1 Hc2.
  - rewrite Hd' in Hk1, Hk2.
    apply lookup_insert_Some in Hk1 as [[<- <-]|[Hn1 Hk1]], Hk2 as [[<- <-]|[Hn2 Hk2]];
      [done | | | by eapply (Hdis k1 k2)].
    + right. by apply (active_run_false_expired _ _ _ _ _ (Hnew Hc1 _ _ Hk2) Hs).
    + left. apply (active_run_false_expired _ _ _ _ _ (Hnew Hc2 _ _ Hk1)); [| done].
      destruct Hs as (-> & -> & ->). by split_and!.
  - destruct (Hup _ _ Hk1) as (r1' & Hk1' & [<-|[? _]]); [| congruence].
    destruct (Hup _ _ Hk2) as (r2' & Hk2' & [<-|[? _]]); [| congruence].
    by eapply (Hdis k1 k2).
Qed.

(** A token hash that is on record and whose every row is consumed. *)
Definition spent (h : string) (d : Db) : Prop :=
  (∃ k r, d.(verifier_tokens) !! k = Some r ∧ r.(vrt_token_hash) = h) ∧
  ∀ k r, d.(verifier_tokens) !! k = Some r → r.(vrt_token_hash) = h → r.(vrt_consumed) = true.

(** The hash an operation stores in a new row. *)
Definition stores_hash (op : TokenOp) (h : string) : Prop :=
  match op with
  | OpIssue (Ok gen) _ _ _ _ _ _ _ | OpRecord (Ok gen) _ _ _ _ _ _ _ _ => gen.2 = h
  | _ => False
  end.

Lemma update_spent p now st why d res d' h :
  update_vrt p (λ r, set_consumed now (st r) (why r) r) d = (res, d') → spent h d → spent h d'.
Proof.
  destruct res as [n|e]; [| by intros ->%update_vrt_err].
  intros Hup [(k & r & Hk & Hh) Hall]. split.
  - exists k. rewrite (update_vrt_ok_lookup _ _ _ _ _ k Hup), Hk. simpl.
    eexists. split; [done |]. by destruct (p k r).
  - intros k' r' Hk' Hh'. rewrite (update_vrt_ok_lookup _ _ _ _ _ k' Hup) in Hk'.
    destruct (verifier_tokens d !! k') as [r0|] eqn:Hr0; simplify_eq/=.
    destruct (p k' r0); [done |]. by eapply Hall.
Qed.

Lemma insert_spent run r d h :
  d.(verifier_tokens) !! run = None → r.(vrt_token_hash) ≠ h → spent h d →
  spent h (on_verifier_tokens <[run := r]> d).
Proof.
  intros Hnone Hne [(k & r0 & Hk & Hh) Hall]. split; simpl.
  - exists k, r0. rewrite lookup_insert_ne; [done |]. congruence.
  - intros k' r' [[_ <-]|[_ Hk']]%lookup_insert_Some Hh'; [done |]. by eapply Hall.
Qed.

Lemma run_token_op_spent d op h : ¬ stores_hash op h → spent h d → spent h (run_token_op d op).
Proof.
  intros Hst Hsp.
  destruct op as [gen now run t g e ttl md|gen now run t g e st why md|now run st why|now raw st]; simpl in *.
  - unfold issue_verifier_token_unless_active, store_err. se_unfold.
    destruct (find_active t g e now d); [done |].
    destruct gen as [[raw hh]|]; simpl in *; [| done].
    destruct (insert_vrt run _ d) as [[[]|er] d1] eqn:Hi; apply insert_vrt_inv in Hi; simpl;
      [| by subst]. destruct Hi as (Hnone & ->). by apply insert_spent.
  - unfold record_terminal_verifier_run, store_err. se_unfold.
    destruct gen as [[raw hh]|]; simpl in *; [| done].
    destruct (insert_vrt run _ d) as [[[]|er] d1] eqn:Hi; apply insert_vrt_inv in Hi; simpl;
      [| by subst]. destruct Hi as (Hnone & ->). by apply insert_spent.
  - unfold mark_verifier_run_terminal_by_run_id, store_err. se_unfold.
    destruct (update_vrt _ _ d) as [[n|er] d1] eqn:Hu; simpl;
      by eapply (update_spent _ now (λ _, st) (λ _, why)) in Hu.
  - unfold consume_verifier_token_in_tx_with_status, store_err. se_unfold.
    destruct (token_hash hex_decode sha256_hex raw) as [h'|]; [| done].
    destruct (update_vrt _ _ d) as [[n|er] d1] eqn:Hu; simpl;
      by eapply (update_spent _ now (λ r, default (vrt_status r) st) vrt_failure_reason) in Hu.
Qed.

Lemma consume_ok_spent now raw st d d' h :
  token_hash hex_decode sha256_hex raw = Ok h →
  consume_verifier_token_in_tx_with_status hex_decode sha256_hex now raw st d = (Ok tt, d') →
  spent h d'.
Proof.
  unfold consume_verifier_token_in_tx_with_status, store_err. intros Hh H.
  se_step H. unfold lift_result in H0. rewrite Hh in H0. injection H0 as <- <-.
  se_step H. rewrite se_map_err_run in H0.
  destruct (update_vrt _ _ d) as [[n|er] d1] eqn:Hu; [| done]. injection H0 as <- <-.
  unfold guard_or in H. destruct (n =? 0) eqn:Hn; [done |]. injection H as <-.
  apply Nat.eqb_neq in Hn.
  split.
  - destruct (update_vrt_hit _ _ _ _ _ Hu Hn) as (k & r & Hk & Hp).
    exists k. rewrite (update_vrt_ok_lookup _ _ _ _ _ k Hu), Hk. simpl. rewrite Hp.
    eexists. split; [done |]. simpl. apply andb_true_iff in Hp as [Heq _]. by apply String.eqb_eq in Heq.
  - intros k r' Hk Hr'. rewrite (update_vrt_ok_lookup _ _ _ _ _ k Hu) in Hk.
    destruct (verifier_tokens d !! k) as [r|]; [| done]. injection Hk as <-. revert Hr'.
    destruct (String.eqb (vrt_token_hash r) h) eqn:Hp, (vrt_consumed r) eqn:Hc; simpl; try done.
    intros Heq. by rewrite Heq, String.eqb_refl in Hp.
Qed.

Lemma spent_refused h d now raw st :
  spent h d → token_hash hex_decode sha256_hex raw = Ok h →
  validate_verifier_token_row_in_tx hex_decode sha256_hex now raw d = (Err AuthorityError.TokenConsumed, d) ∧
  is_ok (consume_verifier_token_in_tx_with_status hex_decode sha256_hex now raw st d).1 = false.
Proof.
  intros [(k0 & r0 & Hk0 & Hh0) Hall] Hh. split.
  - unfold validate_verifier_token_row_in_tx.
    erewrite se_bind_ok by (unfold lift_result; by rewrite Hh).
    assert (∃ k r, row_by_hash h d = (Ok (k, r), d) ∧ r.(vrt_consumed) = true) as (k & r & Hrow & Hcon).
    { unfold row_by_hash. destruct (List.find _ (map_to_list (verifier_tokens d))) as [[k r]|] eqn:Hf.
      - apply find_some in Hf as [Hin%list_elem_of_In Heq%String.eqb_eq].
        apply elem_of_map_to_list in Hin. exists k, r. split; [done | by eapply Hall].
      - exfalso. eapply find_none in Hf; [| apply list_elem_of_In, elem_of_map_to_list, Hk0].
        simpl in Hf. by rewrite Hh0, String.eqb_refl in Hf. }
    erewrite se_bind_ok by exact Hrow. unfold mbind, se_bind, guard_or; simpl. by rewrite Hcon.
  - unfold consume_verifier_token_in_tx_with_status, store_err.
    erewrite se_bind_ok by (unfold lift_result; by rewrite Hh).
    unfold mbind, se_bind. rewrite se_map_err_run.
    destruct (update_vrt _ _ d) as [[n|er] d1] eqn:Hu; [| done]. simpl.
    apply update_vrt_miss in Hu as ->; [done |]. intros k r Hk.
    destruct (String.eqb_spec (vrt_token_hash r) h) as [Heq|]; [| done].
    by rewrite (Hall _ _ Hk Heq).
Qed.
End runs.

(** ** Properties *)

(** C10: verifier tokens are used once.  After a token has been consumed, every
    later attempt to validate or consume a token with that hash is refused,
    through any sequence of issues, records, terminal marks and consumptions
    that stores no new row under the same hash. *)
Theorem verifier_token_single_use hex_decode sha256_hex now raw st d d1 h ops now' st' :
  token_hash hex_decode sha256_hex raw = Ok h →
  consume_verifier_token_in_tx_with_status hex_decode sha256_hex now raw st d = (Ok tt, d1) →
  Forall (λ op, ¬ stores_hash op h) ops →
  let d2 := foldl (run_token_op hex_decode sha256_hex) d1 ops in
  validate_verifier_token_row_in_tx hex_decode sha256_hex now' raw d2
    = (Err AuthorityError.TokenConsumed, d2) ∧
  is_ok (consume_verifier_token_in_tx_with_status hex_decode sha256_hex now' raw st' d2).1 = false.
Proof.
  intros Hh Hc Hops d2. apply (spent_refused _ _ h); [| done].
  apply (consume_ok_spent _ _ _ _ _ _ _ h) in Hc; [| done]. unfold d2. clear d2.
  revert d1 Hc. induction Hops as [|op ops Hop _ IH]; intros d1 Hsp; simpl; [done |].
  by apply IH, run_token_op_spent.
Qed.

(** Whatever sequence of token operations runs, at any instant at most one
    verifier run per (task, gate, evaluation) is live: issued, not consumed and
    not yet expired. *)
Theorem at_most_one_live_run hex_decode sha256_hex ops d t g e now k1 k2 r1 r2 :
  runs_disjoint d →
  let d' := foldl (run_token_op hex_decode sha256_hex) d ops in
  d'.(verifier_tokens) !! k1 = Some r1 → d'.(verifier_tokens) !! k2 = Some r2 →
  active_run t g e now r1 = true → active_run t g e now r2 = true →
  (r1.(vrt_issued_at) ≤ now)%Z → (r2.(vrt_issued_at) ≤ now)%Z → k1 = k2.
Proof.
  intros Hdis. cbv zeta.
  assert (Hall : runs_disjoint (foldl (run_token_op hex_decode sha256_hex) d ops)).
  { revert d Hdis. induction ops as [|op ops IH]; intros d Hdis; simpl; [done |].
    apply IH. eapply vrt_step_disjoint; [apply run_token_op_step | done]. }
  intros Hk1 Hk2 Ha1 Ha2 Hi1 Hi2. destruct (decide (k1 = k2)) as [|Hne]; [done | exfalso].
  unfold active_run in Ha1, Ha2. rewrite !andb_true_iff, !bool_decide_eq_true, !negb_true_iff in Ha1, Ha2.
  destruct Ha1 as [[(Ht1 & Hg1 & He1) Hc1] Hx1], Ha2 as [[(Ht2 & Hg2 & He2) Hc2] Hx2].
  destruct (Hall k1 k2 r1 r2) as [?|?]; try done; [| lia | lia]. split_and!; congruence.
Qed.

(** An issued token validates to the run it was minted for, exactly until it
    expires; issuing answers [AlreadyActive] instead, and writes nothing, exactly
    when a live run of the same triple exists. *)
Theorem issue_then_validate hex_decode sha256_hex raw h now run t g e ttl md d out d' now' :
  token_hash hex_decode sha256_hex raw = Ok h →
  map_Forall (λ _ r, r.(vrt_token_hash) ≠ h) d.(verifier_tokens) →
  issue_verifier_token_unless_active (Ok (raw, h)) now run t g e ttl md d = (Ok out, d') →
  match out with
  | AlreadyActive k => d' = d ∧ ∃ k' r, d.(verifier_tokens) !! k' = Some r ∧ active_run t g e now r = true
  | Issued raw' => raw' = raw ∧
      map_Forall (λ _ r, active_run t g e now r = false) d.(verifier_tokens) ∧
      (validate_verifier_token_row_in_tx hex_decode sha256_hex now' raw d').1 =
        if bool_decide (now' < wrap_add_i64 now (as_i64 ttl))%Z
        then Ok (MkValidatedVerifierToken run t g e md.(md_gate_source) md.(md_gate_hook)
                   md.(md_verifier_on_failure))
        else Err AuthorityError.TokenExpired
  end.
Proof.
  intros Hh Hfresh. unfold issue_verifier_token_unless_active, store_err. se_unfold.
  destruct (find_active t g e now d) as [k|] eqn:Hf.
  - intros [= <- <-]. split; [done |]. unfold find_active in Hf.
    destruct (map_to_list _) as [|[k' r] l] eqn:Hl; [done |]. exists k', r.
    apply (map_lookup_filter_Some (λ kr : string * VerifierTokenRow, active_run t g e now kr.2 = true)).
    apply elem_of_map_to_list. rewrite Hl. by left.
  - simpl. destruct (insert_vrt run _ d) as [[[]|er] d1] eqn:Hi; simpl; [| done].
    apply insert_vrt_inv in Hi as [Hnone ->]. intros [= <- <-]. split; [done |]. split.
    { intros k r Hk. by eapply find_active_None. }
    set (row := MkVerifierTokenRow _ _ _ _ _ _ _ _ _ _ _ _ _ _ _).
    unfold validate_verifier_token_row_in_tx.
    erewrite se_bind_ok by (unfold lift_result; by rewrite Hh).
    assert (Hrow : row_by_hash h (on_verifier_tokens <[run := row]> d)
                   = (Ok (run, row), on_verifier_tokens <[run := row]> d)).
    { unfold row_by_hash. destruct (List.find _ _) as [[k r]|] eqn:Hfind; simpl in *.
      - apply find_some in Hfind as [Hin%list_elem_of_In Heq%String.eqb_eq].
        apply elem_of_map_to_list, lookup_insert_Some in Hin as [[-> ->]|[_ Hk]]; [done |].
        by specialize (Hfresh _ _ Hk).
      - exfalso. eapply find_none in Hfind;
          [| apply list_elem_of_In, elem_of_map_to_list, lookup_insert_eq].
        simpl in Hfind. by rewrite String.eqb_refl in Hfind. }
    erewrite se_bind_ok by exact Hrow. unfold mbind, se_bind, guard_or; simpl.
    by destruct (bool_decide _).
Qed.

(** The constant-time comparison decides equality of byte slices. *)
Theorem ct_eq_correct a b : ct_eq a b = true ↔ a = b.
Proof.
  assert (Hfold : ∀ l acc, foldl (λ acc xy, Z.lor acc (Z.lxor xy.1 xy.2)) acc l = 0%Z ↔
            acc = 0%Z ∧ Forall (λ xy : Z * Z, xy.1 = xy.2) l).
  { induction l as [|[x y] l IH]; intros acc; simpl; [naive_solver |].
    rewrite IH, Z.lor_eq_0_iff, Z.lxor_eq_0_iff, Forall_cons. naive_solver. }
  unfold ct_eq. destruct (Nat.eqb_spec (length a) (length b)) as [Hlen|Hlen]; [| naive_solver].
  rewrite bool_decide_eq_true, Hfold. split; [intros [_ Hall] | intros <-; split; [done |]].
  - revert b Hlen Hall. induction a as [|x a IH]; intros [|y b] [=] Hall; [done |].
    simpl in Hall. apply Forall_cons in Hall as [Hxy Hall]. simpl in Hxy. f_equal; auto.
  - clear Hlen. induction a; simpl; constructor; auto.
Qed.

(** ** Witnesses: hex decoding of two known tokens, a hash that counts bytes *)

Definition demo_hex (s : string) : option (list Z) :=
  if String.eqb s "aa" then Some [170%Z] else if String.eqb s "bb" then Some [187%Z; 187%Z] else None.
Definition demo_sha (b : list Z) : string := if length b =? 1 then "h1" else "h2".
Definition demo_md : VerifierRunMetadata := MkVerifierRunMetadata "policy_gate" "intent" None None None.
Definition demo_store : Db :=
  on_tasks (λ _, {[ "t" := MkTaskRow "i" "lane" "Running" None "kernel" 4 20 20 None None None None None 0
                            None None false None None 0 ]}) empty_db.
Definition demo_tokens : Db :=
  (issue_verifier_token_unless_active (Ok ("aa", "h1")) 10 "r1" "t" "gate" "sha" 60 demo_md demo_store).2.

Lemma verifier_token_single_use_witness :
  let d2 := foldl (run_token_op demo_hex demo_sha)
    (consume_verifier_token_in_tx_with_status demo_hex demo_sha 20 "aa" (Some "Pass") demo_tokens).2
    [OpIssue (Ok ("bb", "h2")) 21 "r2" "t" "gate" "sha" 60 demo_md] in
  validate_verifier_token_row_in_tx demo_hex demo_sha 22 "aa" d2 = (Err AuthorityError.TokenConsumed, d2).
Proof.
  destruct (consume_verifier_token_in_tx_with_status demo_hex demo_sha 20 "aa" (Some "Pass") demo_tokens)
    as [[[]|e] d1] eqn:E; [| by vm_compute in E].
  eapply (verifier_token_single_use _ _ 20 "aa" (Some "Pass") demo_tokens d1 "h1" _ 22 None);
    [reflexivity | exact E | by repeat constructor].
Defined.

Lemma at_most_one_live_run_witness :
  let d1 := foldl (run_token_op demo_hex demo_sha) demo_store
    [OpIssue (Ok ("aa", "h1")) 10 "r1" "t" "gate" "sha" 60 demo_md;
     OpIssue (Ok ("bb", "h2")) 20 "r2" "t" "gate" "sha" 60 demo_md] in
  is_Some (d1.(verifier_tokens) !! "r1") ∧
  match d1.(verifier_tokens) !! "r2" with
  | Some r => (30 < r.(vrt_issued_at))%Z ∨ active_run "t" "gate" "sha" 30 r = false
  | None => True
  end.
Proof.
  intros d1. split; [vm_compute; eauto |]. destruct (verifier_tokens d1 !! "r2") as [r|] eqn:Hk; [| done].
  destruct (Z.le_gt_cases r.(vrt_issued_at) 30) as [Hi|Hi]; [right | by left].
  destruct (active_run "t" "gate" "sha" 30 r) eqn:Ha; [| done].
  assert (Hne : "r2" = "r1"); [| discriminate].
  refine (at_most_one_live_run demo_hex demo_sha _ demo_store "t" "gate" "sha" 30 "r2" "r1" r _ _ Hk _ Ha _ Hi _);
    [| vm_compute; reflexivity | reflexivity | vm_compute; discriminate].
  intros k1 k2 r1 r2 _ Hk1. change ((∅ : gmap string VerifierTokenRow) !! k1 = Some r1) in Hk1.
  by rewrite lookup_empty in Hk1.
Defined.

Lemma issue_then_validate_witness :
  (validate_verifier_token_row_in_tx demo_hex demo_sha 69 "aa" demo_tokens).1 =
    Ok (MkValidatedVerifierToken "r1" "t" "gate" "sha" "policy_gate" "intent" None).
Proof.
  unfold demo_tokens.
  destruct (issue_verifier_token_unless_active _ _ _ _ _ _ _ _ demo_store) as [[out|e] d'] eqn:E;
    [| by vm_compute in E].
  apply (issue_then_validate demo_hex demo_sha "aa" "h1" 10 "r1" "t" "gate" "sha" 60 demo_md demo_store out
    d' 69) in E as H; [| reflexivity | apply map_Forall_empty].
  destruct out; [| by vm_compute in E]. destruct H as (_ & _ & H). exact H.
Defined.
