(* ===== verification/AuditChain.v ===== *)
(** * The audit chain

    [crates/audit/src/writer.rs] and [crates/audit/src/reader.rs]: an append-only
    file of JSON lines, each carrying its sequence number and the SHA-256 of the
    previous raw line.  SHA-256 and [serde_json] are parameters; nothing assumes
    the hash injective: tamper evidence is stated as "equal, or here is a
    collision".  Files are byte strings, and the file system is reduced to the
    contents of the segments in index order. *)

From Stdlib Require Import Ascii.
From S2P Require Import Prelude.

Definition LF : Ascii.ascii := Ascii.ascii_of_nat 10.
Definition CR : Ascii.ascii := Ascii.ascii_of_nat 13.

(** ** Lines *)

(** [read_line]/[read_until(b'\n')] to the end: every piece but possibly the
    last ends in its newline. *)
Fixpoint split_lines (s : string) : list string :=
  match s with
  | EmptyString => []
  | String c s' =>
      if Ascii.eqb c LF then String c EmptyString :: split_lines s'
      else match split_lines s' with
           | [] => [String c EmptyString]
           | l :: ls => String c l :: ls
           end
  end.

(** [strip_suffix] of one character. *)
Fixpoint strip_last (c : Ascii.ascii) (s : string) : string :=
  match s with
  | EmptyString => EmptyString
  | String a EmptyString => if Ascii.eqb a c then EmptyString else s
  | String a s' => String a (strip_last c s')
  end.

(** What [BufRead::lines] yields: the newline and a carriage return before it
    are dropped. *)
Definition lines_item (line : string) : string :=
  let without_lf := strip_last LF line in
  if String.eqb without_lf line then line else strip_last CR without_lf.

(** The reader drops the carriage return also from a line without newline. *)
Definition trimmed_line_bytes (line : string) : string := strip_last CR (strip_last LF line).

(** [trim_end_matches(['\n', '\r']).is_empty()] *)
Definition blank_crlf (s : string) : bool :=
  forallb (λ c, Ascii.eqb c LF || Ascii.eqb c CR) (String.list_ascii_of_string s).

Definition GENESIS_PREV_SHA256 : string :=
  "0000000000000000000000000000000000000000000000000000000000000000".

Definition wrap_u64 (z : Z) : Z := (z mod 2^64)%Z.

(** ** Errors and records *)

Module AuditWriterError.
Inductive AuditWriterError : Type :=
  | Io
  | Json
  | ChainSequenceGap (line_number expected got : Z)
  | ChainPrevSha256Break (line_number : Z) (expected got : string)
  | MalformedRecord (line_number : Z) (reason : string)
  | SegmentLockHeld (path : string)
  | SegmentLockIo (path : string).
End AuditWriterError.
Abbreviation AuditWriterError := AuditWriterError.AuditWriterError.

Module ChainReadError.
Inductive ChainReadError : Type :=
  | AuditDirOpen (path : string)
  | NoSegments (path : string)
  | SegmentOpen (path : string)
  | SegmentIo (path : string) (line_no : Z)
  | MalformedRecord (path : string) (line_no : Z) (reason : string)
  | ChainBreak (path : string) (seq : Z) (expected actual : string)
  | SequenceGap (path : string) (line_no expected actual : Z).
End ChainReadError.
Abbreviation ChainReadError := ChainReadError.ChainReadError.

Record ChainResumeInfo := MkChainResumeInfo { next_seq : Z; resume_prev_sha256 : string }.
Record ChainStats := MkChainStats { total_records : Z; last_seq : Z; segment_count : nat }.

(** The outcome of the three I/O calls of one append: all done; the line is in
    the file but [sync_data] failed; or the flush failed after [n] of the
    buffered bytes reached the file. *)
Inductive PersistOutcome : Type :=
  | Synced
  | SyncFailed
  | FlushFailed (n : nat).

Section chain.
(** [serde_json]: parsing, the typed reads of the fields the chain uses, and
    [serde_json::to_string] of an event; [Event] is the caller's part of a
    record, [sha256_hex] the hash. *)
Context {json Event : Type}.
Context (from_str : string → option json).
Context (get_seq : json → option Z) (get_event_kind get_prev_sha256 : json → option string).
Context (get_emitted_at : json → option Z).
Context (get_session_id get_task_id get_initiative_id : json → option string).
Context (to_string : Z → string → Event → string) (sha256_hex : string → string).

(** ** Writer *)

Record AuditWriter := MkAuditWriter {
  w_file : string;
  w_buffer : string;
  w_seq : Z;
  w_prev_sha256 : string;
}.

Definition open_writer (file : string) (starting_seq : Z) (starting_prev_sha256 : option string)
    : AuditWriter :=
  MkAuditWriter file "" starting_seq (default GENESIS_PREV_SHA256 starting_prev_sha256).

(** [append]: the JSON line with its newline goes through the buffered writer,
    is flushed and synced; only then do [seq] and [prev_sha256] advance. *)
Definition append (outcome : PersistOutcome) (e : Event) (w : AuditWriter)
    : result AuditWriterError unit * AuditWriter :=
  let line := to_string w.(w_seq) w.(w_prev_sha256) e +:+ String LF "" in
  let next_prev := sha256_hex line in
  let buffer := w.(w_buffer) +:+ line in
  match outcome with
  | Synced => (Ok tt, MkAuditWriter (w.(w_file) +:+ buffer) "" (wrap_u64 (w.(w_seq) + 1)) next_prev)
  | SyncFailed =>
      (Err AuditWriterError.Io,
       MkAuditWriter (w.(w_file) +:+ buffer) "" w.(w_seq) w.(w_prev_sha256))
  | FlushFailed n =>
      (Err AuditWriterError.Io,
       MkAuditWriter (w.(w_file) +:+ String.substring 0 n buffer)
         (String.substring n (String.length buffer) buffer) w.(w_seq) w.(w_prev_sha256))
  end.

(** ** Resuming *)

Definition resume_line (line_number : Z) (st : option (Z * string)) (raw : string)
    : result AuditWriterError (option (Z * string)) :=
  let line := lines_item raw in
  if negb (utf8_valid line) then Err AuditWriterError.Io
  else if String.eqb (str_trim line) "" then Ok st
  else
    parsed ← ok_or (from_str line) (AuditWriterError.MalformedRecord line_number "JSON parse error");
    seq ← ok_or (get_seq parsed)
            (AuditWriterError.MalformedRecord line_number "missing or non-integer `seq` field");
    prev ← ok_or (get_prev_sha256 parsed)
             (AuditWriterError.MalformedRecord line_number
                "missing or non-string `prev_sha256` field");
    let expected_seq := match st with Some (s, _) => wrap_u64 (s + 1) | None => 0%Z end in
    let expected_prev := match st with Some (_, sha) => sha | None => GENESIS_PREV_SHA256 end in
    if negb (seq =? expected_seq)%Z
    then Err (AuditWriterError.ChainSequenceGap line_number expected_seq seq)
    else if negb (String.eqb prev expected_prev)
    then Err (AuditWriterError.ChainPrevSha256Break line_number expected_prev prev)
    else Ok (Some (seq, sha256_hex (line +:+ String LF ""))).

Fixpoint resume_lines (line_number : Z) (st : option (Z * string)) (lines : list string)
    : result AuditWriterError (option (Z * string)) :=
  match lines with
  | [] => Ok st
  | raw :: lines => st' ← resume_line line_number st raw; resume_lines (line_number + 1) st' lines
  end.

(** [None] is a file that does not exist. *)
Definition last_chain_state (file : option string)
    : result AuditWriterError (option ChainResumeInfo) :=
  match file with
  | None => Ok None
  | Some content =>
      match resume_lines 1 None (split_lines content) with
      | Ok (Some (seq, sha)) => Ok (Some (MkChainResumeInfo (wrap_u64 (seq + 1)) sha))
      | Ok None => Ok None
      | Err e => Err e
      end
  end.

(** ** Reader *)

Record ChainRecord := MkChainRecord {
  cr_seq : Z;
  cr_event_kind : string;
  cr_prev_sha256 : string;
  cr_emitted_at : option Z;
  cr_session_id : option string;
  cr_task_id : option string;
  cr_initiative_id : option string;
  cr_line_no : Z;
  cr_segment_path : string;
  cr_line_sha256 : string;
  cr_raw_line : string;
  cr_parsed_value : json;
}.

Definition parse_record_line (path : string) (line_no : Z) (line_bytes : string)
    : result ChainReadError ChainRecord :=
  let bad reason := ChainReadError.MalformedRecord path line_no reason in
  let raw_line := trimmed_line_bytes line_bytes in
  _ ← (if utf8_valid raw_line then Ok tt else Err (bad "UTF-8 parse"));
  parsed ← ok_or (from_str raw_line) (bad "JSON parse");
  seq ← ok_or (get_seq parsed) (bad "missing or non-numeric `seq`");
  event_kind ← ok_or (get_event_kind parsed) (bad "missing or non-string `event_kind`");
  prev ← ok_or (get_prev_sha256 parsed) (bad "missing or non-string `prev_sha256`");
  Ok (MkChainRecord seq event_kind prev (get_emitted_at parsed) (get_session_id parsed)
        (get_task_id parsed) (get_initiative_id parsed) line_no path (sha256_hex line_bytes)
        raw_line parsed).

(** The iterator's [expected_prev_sha256] and [expected_seq]. *)
Record IterState := MkIterState { it_prev : option string; it_seq : option Z }.

Definition link_record (path : string) (line_no : Z) (st : IterState) (r : ChainRecord)
    : result ChainReadError IterState :=
  _ ← match st.(it_seq) with
      | Some expected =>
          if (r.(cr_seq) =? expected)%Z then Ok tt
          else Err (ChainReadError.SequenceGap path line_no expected r.(cr_seq))
      | None => Ok tt
      end;
  let expected := default GENESIS_PREV_SHA256 st.(it_prev) in
  if String.eqb r.(cr_prev_sha256) expected
  then Ok (MkIterState (Some r.(cr_line_sha256)) (Some (sat_add_u64 r.(cr_seq) 1)))
  else Err (ChainReadError.ChainBreak path r.(cr_seq) expected r.(cr_prev_sha256)).

(** One segment up to the first error, which is where every consumer stops. *)
Fixpoint read_segment (path : string) (line_no : Z) (st : IterState) (lines : list string)
    : result ChainReadError (list ChainRecord * IterState) :=
  match lines with
  | [] => Ok ([], st)
  | raw :: lines =>
      if negb (utf8_valid raw) then Err (ChainReadError.SegmentIo path line_no)
      else if blank_crlf raw then read_segment path line_no st lines
      else
        r ← parse_record_line path (line_no + 1) raw;
        st' ← link_record path (line_no + 1) st r;
        rest ← read_segment path (line_no + 1) st' lines;
        Ok (r :: rest.1, rest.2)
  end.

Fixpoint read_segments (st : IterState) (segments : list (string * string))
    : result ChainReadError (list ChainRecord) :=
  match segments with
  | [] => Ok []
  | (path, content) :: segments =>
      here ← read_segment path 0 st (split_lines content);
      rest ← read_segments here.2 segments;
      Ok (here.1 ++ rest)
  end.

Definition records (segments : list (string * string)) : result ChainReadError (list ChainRecord) :=
  read_segments (MkIterState None None) segments.

Definition verify_chain_from (segments : list (string * string)) (from_seq : Z)
    : result ChainReadError ChainStats :=
  rs ← records segments;
  let slice := List.filter (λ r, from_seq <=? r.(cr_seq))%Z rs in
  Ok (MkChainStats (Z.min (Z.of_nat (length slice)) u64_max)
        (match last slice with Some r => r.(cr_seq) | None => Z.max 0 (from_seq - 1) end)
        (length (remove_dups (cr_segment_path <$> slice)))).

Definition verify_chain_full (segments : list (string * string)) : result ChainReadError ChainStats :=
  verify_chain_from segments 0.

Inductive ChainQuickCheck : Type :=
  | QuickOk (last_seq : Z) (segment_count : nat)
  | QuickNoSegments
  | QuickBroken (error : ChainReadError).

Definition quick_chain_check (segments : list (string * string)) : ChainQuickCheck :=
  match segments with
  | [] => QuickNoSegments
  | _ =>
      match records segments with
      | Ok rs => QuickOk (default 0%Z (cr_seq <$> last rs)) (length segments)
      | Err e => QuickBroken e
      end
  end.
End chain.

(** ** Lemmas on lines *)

Definition no_lf (s : string) : Prop := LF ∉ chars s.
Definition terminate (l : string) : string := l +:+ String LF "".
Definition join_lines (ls : list string) : string := foldr (λ l acc, l +:+ acc) "" ls.

(** The text of a JSON object on one line. *)
Definition json_text (s : string) : Prop :=
  (∃ body, s = ("{" +:+ body) +:+ "}") ∧ no_lf s ∧ utf8_valid s = true.

Lemma split_lines_cons_line l rest : no_lf l →
  split_lines (terminate l +:+ rest) = terminate l :: split_lines rest.
Proof.
  unfold no_lf, terminate. rewrite str_app_assoc.
  change (String LF "" +:+ rest) with (String LF rest).
  induction l as [|c l IH]; intros Hl; [done |].
  rewrite !string_app_cons. apply not_elem_of_cons in Hl as [Hc Hl]. simpl.
  destruct (Ascii.eqb_spec c LF); [congruence |]. by rewrite IH.
Qed.

Lemma split_lines_join ls : Forall no_lf ls → split_lines (join_lines (terminate <$> ls)) = terminate <$> ls.
Proof.
  induction 1 as [|l ls Hl _ IH]; [done |]. rewrite fmap_cons.
  change (join_lines (terminate l :: _)) with (terminate l +:+ join_lines (terminate <$> ls)).
  by rewrite split_lines_cons_line, IH.
Qed.

Lemma join_lines_app a b : join_lines (a ++ b) = join_lines a +:+ join_lines b.
Proof. induction a as [|x a IH]; simpl; [done |]. by rewrite IH, str_app_assoc. Qed.

Lemma strip_last_snoc c s : strip_last c (s +:+ String c "") = s.
Proof.
  induction s as [|x s IH]; simpl; [by rewrite Ascii.eqb_refl |]. rewrite IH. by destruct s.
Qed.

Lemma strip_last_other c d s : c ≠ d → strip_last c (s +:+ String d "") = s +:+ String d "".
Proof.
  intros Hne. induction s as [|x s IH]; simpl.
  - destruct (Ascii.eqb_spec d c); [congruence | done].
  - rewrite IH. by destruct s.
Qed.

Lemma terminate_neq s : String.eqb s (terminate s) = false.
Proof.
  apply String.eqb_neq. unfold terminate. intros Heq.
  apply (f_equal String.length) in Heq. rewrite str_length_app in Heq. simpl in Heq. lia.
Qed.

Lemma json_text_trimmed s : json_text s →
  lines_item (terminate s) = s ∧ trimmed_line_bytes (terminate s) = s.
Proof.
  intros [[body Hs] _]. unfold lines_item, trimmed_line_bytes.
  assert (strip_last LF (terminate s) = s) as -> by apply strip_last_snoc.
  rewrite terminate_neq, Hs, strip_last_other by (by vm_compute). done.
Qed.

Lemma json_text_not_blank s : json_text s → String.eqb (str_trim s) "" = false.
Proof.
  intros [[body ->] _]. apply String.eqb_neq. unfold str_trim.
  assert (trim_start (("{" +:+ body) +:+ "}") = ("{" +:+ body) +:+ "}") as -> by reflexivity.
  unfold trim_end. apply str_rev_nonempty. rewrite str_rev_snoc. by vm_compute.
Qed.

Lemma json_text_not_crlf s : json_text s → blank_crlf (terminate s) = false.
Proof. by intros [[body ->] _]. Qed.

Lemma utf8_snoc_lf fuel l :
  utf8_valid_bytes fuel l = true → utf8_valid_bytes (S fuel) (l ++ [10]) = true.
Proof.
  revert l. induction fuel as [|fuel IH]; intros l H; [done |].
  cbn [utf8_valid_bytes] in H. destruct l as [|a l1]; [by destruct fuel |].
  cbn [app]. remember (S fuel) as f. cbn [utf8_valid_bytes].
  destruct (a <? 128); [by apply IH |]. subst f.
  destruct l1 as [|b l2]; [done |]. cbn [app].
  destruct (in_byte 194 223 a && in_byte 128 191 b); [by apply IH |].
  destruct l2 as [|c l3]; [done |]. cbn [app].
  destruct (in_byte 224 239 a && _ && in_byte 128 191 c); [by apply IH |].
  destruct l3 as [|d l4]; [done |]. cbn [app].
  apply andb_true_iff in H as [-> H]. by apply IH.
Qed.

Lemma utf8_valid_terminate s : utf8_valid s = true → utf8_valid (terminate s) = true.
Proof.
  unfold utf8_valid, terminate. fold (chars s). fold (chars (s +:+ String LF "")).
  rewrite chars_app, str_length_app, fmap_app. simpl (String.length (String LF "")).
  rewrite Nat.add_1_r. apply utf8_snoc_lf.
Qed.

(** ** Chains *)

Section proofs.
Context {json Event : Type}.
Context (from_str : string → option json).
Context (get_seq : json → option Z) (get_event_kind get_prev_sha256 : json → option string).
Context (get_emitted_at : json → option Z).
Context (get_session_id get_task_id get_initiative_id : json → option string).
Context (to_string : Z → string → Event → string) (sha256_hex : string → string).

(** What [serde_json] documents: an event serialises to one line of JSON whose
    fields read back. *)
Definition codec_ok : Prop := ∀ q p e, in_u64 q →
  json_text (to_string q p e) ∧ ∃ j k, from_str (to_string q p e) = Some j ∧
    get_seq j = Some q ∧ get_prev_sha256 j = Some p ∧ get_event_kind j = Some k.

(** The lines (without newline) and the final state of a run of appends. *)
Fixpoint chain_lines (q : Z) (p : string) (es : list Event) : list string :=
  match es with
  | [] => []
  | e :: es =>
      let l := to_string q p e in l :: chain_lines (q + 1) (sha256_hex (terminate l)) es
  end.
Fixpoint chain_head (q : Z) (p : string) (es : list Event) : string :=
  match es with
  | [] => p
  | e :: es => chain_head (q + 1) (sha256_hex (terminate (to_string q p e))) es
  end.

Abbreviation append := (append to_string sha256_hex).
Abbreviation resume_lines := (resume_lines from_str get_seq get_prev_sha256 sha256_hex).
Abbreviation last_chain_state := (last_chain_state from_str get_seq get_prev_sha256 sha256_hex).

(** Appends whose I/O all succeeds. *)
Definition append_all (es : list Event) (w : AuditWriter) : AuditWriter :=
  foldl (λ w e, (append Synced e w).2) w es.

Lemma append_all_run es w :
  w.(w_buffer) = "" → (0 ≤ w.(w_seq))%Z → (w.(w_seq) + Z.of_nat (length es) ≤ u64_max)%Z →
  append_all es w =
    MkAuditWriter (w.(w_file) +:+ join_lines (terminate <$> chain_lines w.(w_seq) w.(w_prev_sha256) es))
      "" (w.(w_seq) + Z.of_nat (length es)) (chain_head w.(w_seq) w.(w_prev_sha256) es).
Proof using Type.
  unfold append_all. revert w. induction es as [|e es IH]; intros [f b q p] Hb Hq Hlen; simpl in *.
  - subst. by rewrite str_app_nil_r, Z.add_0_r.
  - subst b. assert (wrap_u64 (q + 1) = q + 1)%Z as ->.
    { unfold wrap_u64. rewrite Z.mod_small; [done |]. widths. lia. }
    rewrite IH by (simpl; lia || done). simpl. fold (terminate (to_string q p e)).
    rewrite str_app_assoc. f_equal. lia.
Qed.

Lemma chain_lines_length q p es : length (chain_lines q p es) = length es.
Proof. revert q p. induction es as [|e es IH]; intros q p; simpl; [done |]. by rewrite IH. Qed.

Lemma chain_lines_json q p es : codec_ok → (0 ≤ q)%Z → (q + Z.of_nat (length es) ≤ u64_max)%Z →
  Forall json_text (chain_lines q p es).
Proof using Type.
  intros Hc. revert q p. induction es as [|e es IH]; intros q p Hq Hlen; simpl in *; constructor.
  - apply Hc. widths. lia.
  - apply IH; lia.
Qed.

Lemma split_written q p es : codec_ok → (0 ≤ q)%Z → (q + Z.of_nat (length es) ≤ u64_max)%Z →
  split_lines (join_lines (terminate <$> chain_lines q p es)) = terminate <$> chain_lines q p es.
Proof using Type.
  intros Hc Hq Hlen. apply split_lines_join. eapply Forall_impl; [by apply chain_lines_json |].
  intros l Hl. apply Hl.
Qed.

Lemma chain_lines_snoc q p es e :
  chain_lines q p (es ++ [e]) =
    chain_lines q p es ++ [to_string (q + Z.of_nat (length es)) (chain_head q p es) e].
Proof using Type.
  revert q p. induction es as [|a es IH]; intros q p; cbn [app chain_lines chain_head length];
    [by rewrite Z.add_0_r |].
  rewrite IH. by replace (q + 1 + Z.of_nat (length es))%Z with (q + Z.of_nat (S (length es)))%Z by lia.
Qed.

(** *** Resuming *)

(** The scan state after a line with number [q]. *)
Definition scan_expects (st : option (Z * string)) (q : Z) (p : string) : Prop :=
  match st with
  | None => q = 0%Z ∧ p = GENESIS_PREV_SHA256
  | Some (s, sha) => wrap_u64 (s + 1) = q ∧ sha = p
  end.

Lemma resume_line_ok n st q p e :
  codec_ok → in_u64 q → scan_expects st q p →
  resume_line from_str get_seq get_prev_sha256 sha256_hex n st (terminate (to_string q p e)) =
    Ok (Some (q, sha256_hex (terminate (to_string q p e)))).
Proof using Type.
  intros Hc Hq Hst. destruct (Hc q p e Hq) as (Htext & j & k & Hj & Hsq & Hsp & _).
  unfold resume_line. rewrite (proj1 (json_text_trimmed _ Htext)).
  destruct Htext as (Hb & Hlf & Hutf). rewrite Hutf, json_text_not_blank by done. simpl.
  unfold mbind, result_bind. rewrite Hj. simpl. rewrite Hsq. simpl. rewrite Hsp. simpl.
  assert ((match st with Some (s, _) => wrap_u64 (s + 1) | None => 0%Z end) = q) as ->.
  { by destruct st as [[s sha]|]; destruct Hst. }
  assert ((match st with Some (_, sha) => sha | None => GENESIS_PREV_SHA256 end) = p) as ->.
  { by destruct st as [[s sha]|]; destruct Hst. }
  by rewrite Z.eqb_refl, String.eqb_refl.
Qed.

Lemma scan_expects_next q p e : (0 ≤ q)%Z → (q + 1 ≤ u64_max)%Z →
  scan_expects (Some (q, sha256_hex (terminate (to_string q p e)))) (q + 1)
    (sha256_hex (terminate (to_string q p e))).
Proof using Type. intros. split; [| done]. unfold wrap_u64. rewrite Z.mod_small; [done |]. widths. lia. Qed.

Lemma resume_lines_written es n st q p rest :
  codec_ok → (0 ≤ q)%Z → (q + Z.of_nat (length es) ≤ u64_max)%Z → scan_expects st q p →
  ∃ st', scan_expects st' (q + Z.of_nat (length es)) (chain_head q p es) ∧
    (es = [] → st' = st) ∧ (es ≠ [] → is_Some st') ∧
    resume_lines n st ((terminate <$> chain_lines q p es) ++ rest) =
      resume_lines (n + Z.of_nat (length es)) st' rest.
Proof using Type.
  intros Hc. revert n st q p. induction es as [|e es IH]; intros n st q p Hq Hlen Hst.
  { exists st. simpl. rewrite !Z.add_0_r. by split_and!. }
  simpl in Hlen. cbn [chain_lines chain_head].
  destruct (IH (n + 1)%Z (Some (q, sha256_hex (terminate (to_string q p e)))) (q + 1)%Z
    (sha256_hex (terminate (to_string q p e)))) as (st' & Hst' & Hnil & Hcons & Hrun);
    [lia | lia | apply scan_expects_next; lia |].
  exists st'. split_and!.
  - replace (q + Z.of_nat (length (e :: es)))%Z with (q + 1 + Z.of_nat (length es))%Z by (simpl; lia). done.
  - done.
  - intros _. destruct es; [rewrite (Hnil eq_refl); by eauto | by apply Hcons].
  - rewrite fmap_cons. cbn [app AuditChain.resume_lines]. unfold mbind, result_bind.
    rewrite resume_line_ok by (done || (widths; lia)). rewrite Hrun. f_equal. simpl. lia.
Qed.

(** What the boot path does with the scan's answer. *)
Definition reopen (file : string) : result AuditWriterError AuditWriter :=
  match last_chain_state (Some file) with
  | Ok None => Ok (open_writer file 0 None)
  | Ok (Some info) => Ok (open_writer file info.(next_seq) (Some info.(resume_prev_sha256)))
  | Err e => Err e
  end.

Lemma written_state es :
  (Z.of_nat (length es) ≤ u64_max)%Z →
  append_all es (open_writer "" 0 None) =
    MkAuditWriter (join_lines (terminate <$> chain_lines 0 GENESIS_PREV_SHA256 es)) ""
      (Z.of_nat (length es)) (chain_head 0 GENESIS_PREV_SHA256 es).
Proof using Type. intros Hlen. by rewrite append_all_run. Qed.

(** *** Verification *)

Abbreviation read_segment := (read_segment from_str get_seq get_event_kind get_prev_sha256
  get_emitted_at get_session_id get_task_id get_initiative_id sha256_hex).
Abbreviation parse_record_line := (parse_record_line from_str get_seq get_event_kind get_prev_sha256
  get_emitted_at get_session_id get_task_id get_initiative_id sha256_hex).

Definition iter_expects (st : IterState) (q : Z) (p : string) : Prop :=
  default GENESIS_PREV_SHA256 st.(it_prev) = p ∧ (st.(it_seq) = None ∨ st.(it_seq) = Some q).

Lemma parse_written path n q p e :
  codec_ok → in_u64 q →
  ∃ r, parse_record_line path n (terminate (to_string q p e)) = Ok r ∧ r.(cr_seq) = q ∧
    r.(cr_prev_sha256) = p ∧ r.(cr_segment_path) = path ∧
    r.(cr_line_sha256) = sha256_hex (terminate (to_string q p e)).
Proof.
  intros Hc Hq. destruct (Hc q p e Hq) as (Htext & j & k & Hj & Hsq & Hsp & Hk).
  eexists. unfold parse_record_line. rewrite (proj2 (json_text_trimmed _ Htext)).
  destruct Htext as (Hb & Hlf & Hutf). rewrite Hutf. unfold mbind, result_bind.
  rewrite Hj. simpl. rewrite Hsq. simpl. rewrite Hk. simpl. rewrite Hsp. simpl. done.
Qed.

Lemma read_segment_written path es n st q p :
  codec_ok → (0 ≤ q)%Z → (q + Z.of_nat (length es) ≤ u64_max)%Z → iter_expects st q p →
  ∃ rs st', read_segment path n st (terminate <$> chain_lines q p es) = Ok (rs, st') ∧
    cr_seq <$> rs = seqZ q (Z.of_nat (length es)) ∧ Forall (λ r, r.(cr_segment_path) = path) rs.
Proof.
  intros Hc. revert n st q p. induction es as [|e es IH]; intros n st q p Hq Hlen Hst; simpl in Hlen.
  { by exists [], st. }
  cbn [chain_lines]. rewrite fmap_cons. cbn [AuditChain.read_segment].
  destruct (Hc q p e) as (Htext & _); [widths; lia |].
  rewrite utf8_valid_terminate, json_text_not_crlf by apply Htext. cbn [negb].
  destruct (parse_written path (n + 1) q p e Hc) as (r & Hr & Hrq & Hrp & Hpath & Hsha); [widths; lia |].
  unfold mbind, result_bind. rewrite Hr. unfold link_record, mbind, result_bind.
  destruct Hst as [Hprev Hseq]. rewrite Hprev, Hrp, String.eqb_refl, Hrq.
  assert ((match it_seq st with
           | Some expected => if (q =? expected)%Z then Ok tt
               else Err (ChainReadError.SequenceGap path (n + 1) expected q)
           | None => Ok tt end) = Ok tt) as ->.
  { destruct Hseq as [-> | ->]; [done |]. by rewrite Z.eqb_refl. }
  destruct (IH (n + 1)%Z (MkIterState (Some (cr_line_sha256 r)) (Some (sat_add_u64 q 1))) (q + 1)%Z
    (sha256_hex (terminate (to_string q p e)))) as (rs & st' & Hrun & Hseqs & Hpaths); [lia | lia | |].
  { split; simpl; [done |]. right. f_equal. widths. lia. }
  rewrite Hrun. exists (r :: rs), st'. split_and!; [done | | by constructor].
  rewrite fmap_cons, Hseqs, Hrq, (seqZ_cons q) by (simpl; lia).
  f_equal. f_equal; rewrite ?length_cons; lia.
Qed.

(** *** Linkage of what verifies *)

Abbreviation read_segments := (read_segments from_str get_seq get_event_kind get_prev_sha256
  get_emitted_at get_session_id get_task_id get_initiative_id sha256_hex).
Abbreviation records := (records from_str get_seq get_event_kind get_prev_sha256
  get_emitted_at get_session_id get_task_id get_initiative_id sha256_hex).

(** The raw record lines of the segments, newlines included, blank lines left out. *)
Definition record_lines (segments : list (string * string)) : list string :=
  concat ((λ s, filter (λ l, blank_crlf l = false) (split_lines s.2)) <$> segments).

(** The previous-hash field of a raw line. *)
Definition line_prev (raw : string) : option string :=
  j ← from_str (trimmed_line_bytes raw); get_prev_sha256 j.

(** Every line names the hash of the line before it, the first one names [p]. *)
Fixpoint linked (p : string) (ls : list string) : Prop :=
  match ls with
  | [] => True
  | l :: ls => line_prev l = Some p ∧ linked (sha256_hex l) ls
  end.

Definition head_hash (p : string) (ls : list string) : string := foldl (λ _ l, sha256_hex l) p ls.

Lemma parse_record_line_ok path n raw r :
  parse_record_line path n raw = Ok r →
  line_prev raw = Some r.(cr_prev_sha256) ∧ r.(cr_line_sha256) = sha256_hex raw.
Proof.
  unfold parse_record_line, line_prev, mbind, result_bind, option_bind.
  destruct (utf8_valid _); [| done].
  destruct (from_str _) as [j|]; simpl; [| done].
  destruct (get_seq j); simpl; [| done]. destruct (get_event_kind j); simpl; [| done].
  destruct (get_prev_sha256 j); simpl; [| done]. by intros [= <-].
Qed.

Lemma link_record_ok path n st (r : @ChainRecord json) st' :
  link_record path n st r = Ok st' →
  r.(cr_prev_sha256) = default GENESIS_PREV_SHA256 st.(it_prev) ∧
  (∀ q, st.(it_seq) = Some q → r.(cr_seq) = q) ∧
  st' = MkIterState (Some r.(cr_line_sha256)) (Some (sat_add_u64 r.(cr_seq) 1)).
Proof.
  unfold link_record, mbind, result_bind. intros H.
  assert (Hseq : ∀ q, it_seq st = Some q → cr_seq r = q).
  { intros q Hq. rewrite Hq in H. destruct (Z.eqb_spec (cr_seq r) q); [done | by simpl in H]. }
  destruct (match it_seq st with Some _ => _ | None => _ end); [| done].
  destruct (String.eqb_spec (cr_prev_sha256 r) (default GENESIS_PREV_SHA256 (it_prev st))); [| done].
  by injection H as <-.
Qed.

(** The sequence numbers of a verified stretch, given where it starts. *)
Definition consecutive (st : IterState) (rs : list (@ChainRecord json)) : Prop :=
  ∀ i r r', rs !! i = Some r → rs !! S i = Some r' → r'.(cr_seq) = sat_add_u64 r.(cr_seq) 1.

Definition starts_at (st : IterState) (rs : list (@ChainRecord json)) : Prop :=
  ∀ q r, st.(it_seq) = Some q → head rs = Some r → r.(cr_seq) = q.

(** The iterator's state after some records. *)
Definition state_after (st : IterState) (rs : list (@ChainRecord json)) : IterState :=
  foldl (λ _ r, MkIterState (Some r.(cr_line_sha256)) (Some (sat_add_u64 r.(cr_seq) 1))) st rs.

Definition walked (st : IterState) (raws : list string) (rs : list (@ChainRecord json)) : Prop :=
  cr_line_sha256 <$> rs = sha256_hex <$> raws ∧
  linked (default GENESIS_PREV_SHA256 st.(it_prev)) raws ∧
  consecutive st rs ∧ starts_at st rs.

Lemma walked_nil st : walked st [] [].
Proof. unfold walked. split_and!; done. Qed.

Lemma walked_cons st raw r raws rs path n st' :
  parse_record_line path n raw = Ok r → link_record path n st r = Ok st' →
  walked st' raws rs → walked st (raw :: raws) (r :: rs).
Proof.
  intros [Hprev Hsha]%parse_record_line_ok (Hlink & Hseq & ->)%link_record_ok
    (Hhash & Hlinked & Hcons & Hstart). unfold walked. simpl in Hlinked. split; [| split; [| split]].
  - by rewrite !fmap_cons, Hhash, Hsha.
  - simpl. by rewrite Hprev, Hlink, <-Hsha.
  - intros [|i] r1 r2 H1 H2; simpl in H1, H2; [| by apply (Hcons i)].
    injection H1 as <-. rewrite <-head_lookup in H2. by eapply Hstart.
  - intros q r1 Hq [= <-]. by apply Hseq.
Qed.

Lemma walked_app st raws1 rs1 raws2 rs2 :
  walked st raws1 rs1 → walked (state_after st rs1) raws2 rs2 →
  walked st (raws1 ++ raws2) (rs1 ++ rs2).
Proof.
  revert st raws1. induction rs1 as [|r rs1 IH]; intros st raws1 H1 H2.
  - destruct H1 as [Hh _]. destruct raws1; [done | discriminate].
  - destruct raws1 as [|raw raws1]; [by destruct H1 |].
    destruct H1 as (Hh & [Hp Hl] & Hc & Hs). rewrite !fmap_cons in Hh.
    injection Hh as Hsha Hh. simpl in H2.
    set (st1 := MkIterState (Some (cr_line_sha256 r)) (Some (sat_add_u64 (cr_seq r) 1))) in *.
    assert (Hw : walked st1 raws1 rs1).
    { split_and!; [done | simpl; by rewrite Hsha | intros i; apply (Hc (S i)) |].
      intros q r1 [= <-] Hr1. apply (Hc 0 r r1); [done |]. simpl. by rewrite <-head_lookup. }
    destruct (IH st1 raws1 Hw H2) as (Hh' & Hl' & Hc' & Hs').
    split; [| split; [| split]].
    + simpl app. by rewrite !fmap_cons, Hsha, Hh'.
    + simpl in Hl' |- *. by rewrite <-Hsha.
    + intros [|i] r1 r2 Hr1 Hr2; simpl in Hr1, Hr2; [| by apply (Hc' i)].
      injection Hr1 as <-. rewrite <-head_lookup in Hr2. by eapply Hs'.
    + intros q r1 Hq [= <-]. by eapply Hs.
Qed.

Lemma read_segment_walked path n st lines rs st' :
  read_segment path n st lines = Ok (rs, st') →
  walked st (filter (λ l, blank_crlf l = false) lines) rs ∧ st' = state_after st rs ∧
  Forall (λ r, r.(cr_segment_path) = path) rs.
Proof.
  revert n st rs st'. induction lines as [|raw lines IH]; intros n st rs st'.
  { intros [= <- <-]. split_and!; [apply walked_nil | done | constructor]. }
  cbn [AuditChain.read_segment]. destruct (utf8_valid raw); [| done]. cbn [negb].
  destruct (blank_crlf raw) eqn:Hb; [rewrite filter_cons_False by congruence; apply IH |].
  rewrite filter_cons_True by done. unfold mbind, result_bind.
  destruct (parse_record_line path (n + 1) raw) as [r|] eqn:Hr; [| done].
  destruct (link_record path (n + 1) st r) as [st1|] eqn:Hlink; [| done].
  destruct (read_segment path (n + 1) st1 lines) as [[rs1 st2]|] eqn:Hrest; [| done].
  intros [= <- <-]. apply IH in Hrest as (Hw & -> & Hpath).
  split_and!; [by eapply walked_cons | |].
  - apply link_record_ok in Hlink as (_ & _ & ->). done.
  - constructor; [| done]. revert Hr. unfold parse_record_line, mbind, result_bind.
    repeat case_match; try done. by intros [= <-].
Qed.

Lemma read_segments_walked st segments rs :
  read_segments st segments = Ok rs → walked st (record_lines segments) rs.
Proof.
  revert st rs. induction segments as [|[path content] segments IH]; intros st rs.
  { intros [= <-]. apply walked_nil. }
  cbn [AuditChain.read_segments]. unfold mbind, result_bind.
  destruct (read_segment path 0 st (split_lines content)) as [[rs1 st1]|] eqn:H1; [| done].
  simpl. destruct (read_segments st1 segments) as [rs2|] eqn:H2; [| done]. intros [= <-].
  apply read_segment_walked in H1 as (Hw1 & -> & _). apply IH in H2.
  unfold record_lines. rewrite fmap_cons. simpl. by apply walked_app.
Qed.

Lemma linked_snoc p ls l : linked p (ls ++ [l]) ↔ linked p ls ∧ line_prev l = Some (head_hash p ls).
Proof.
  revert p. induction ls as [|x ls IH]; intros p; simpl; [naive_solver |].
  rewrite IH. unfold head_hash; simpl. tauto.
Qed.

Lemma head_hash_snoc p ls l : head_hash p (ls ++ [l]) = sha256_hex l.
Proof. unfold head_hash. by rewrite foldl_app. Qed.

(** A hash collision, or a line that hashes to the genesis constant. *)
Definition hash_broken : Prop :=
  (∃ x y, x ≠ y ∧ sha256_hex x = sha256_hex y) ∨ (∃ x, sha256_hex x = GENESIS_PREV_SHA256).

Lemma linked_same_head ls1 ls2 :
  linked GENESIS_PREV_SHA256 ls1 → linked GENESIS_PREV_SHA256 ls2 →
  head_hash GENESIS_PREV_SHA256 ls1 = head_hash GENESIS_PREV_SHA256 ls2 →
  ls1 = ls2 ∨ hash_broken.
Proof.
  revert ls2. induction ls1 as [|l1 ls1 IH] using rev_ind; intros ls2;
    destruct ls2 as [|l2 ls2 _] using rev_ind; rewrite ?head_hash_snoc, ?linked_snoc.
  - by left.
  - intros _ _ Hh. right. right. by exists l2.
  - intros _ _ Hh. right. right. by exists l1.
  - intros [Hl1 Hp1] [Hl2 Hp2] Hh. destruct (decide (l1 = l2)) as [<-|Hne].
    + destruct (IH ls2 Hl1 Hl2) as [->|Hbroken]; [congruence | by left | by right].
    + right. left. by exists l1, l2.
Qed.

Lemma head_hash_last p ls : head_hash p ls = default p (last (sha256_hex <$> ls)).
Proof.
  destruct ls as [|l ls _] using rev_ind; [done |].
  rewrite head_hash_snoc, fmap_app. simpl. by rewrite last_snoc.
Qed.

Lemma records_seqs segments rs r0 :
  records segments = Ok rs → head rs = Some r0 →
  ((r0.(cr_seq) + Z.of_nat (length rs) ≤ u64_max)%Z →
   cr_seq <$> rs = seqZ r0.(cr_seq) (Z.of_nat (length rs))).
Proof.
  intros (_ & _ & Hc & _)%read_segments_walked. clear segments.
  revert r0. induction rs as [|r rs IH]; intros r0; [done |]. intros [= <-] Hlen.
  rewrite length_cons in Hlen. rewrite fmap_cons, length_cons, (seqZ_cons (cr_seq r)) by lia. f_equal.
  destruct rs as [|r1 rs]; [done |].
  assert (Hr1 : cr_seq r1 = (cr_seq r + 1)%Z).
  { rewrite (Hc 0 r r1) by done. unfold sat_add_u64. rewrite length_cons in Hlen. lia. }
  rewrite (IH (λ i, Hc (S i)) r1) by (done || lia). f_equal; lia.
Qed.

Lemma remove_dups_const {A} `{EqDecision A} (x : A) l :
  Forall (λ y, y = x) l → l ≠ [] → remove_dups l = [x].
Proof.
  induction 1 as [|y l -> Hl IH]; intros Hne; [done |]. cbn [remove_dups].
  destruct l as [|z l]; [done |]. destruct (decide_rel (∈) x (z :: l)) as [_|Hnin]; [by apply IH |].
  destruct Hnin. apply Forall_cons in Hl as [-> _]. by left.
Qed.

Lemma last_seqZ q n : (0 < n)%Z → last (seqZ q n) = Some (q + n - 1)%Z.
Proof.
  intros Hn. rewrite last_lookup, length_seqZ. apply lookup_seqZ. lia.
Qed.

Lemma list_filter_all {A} (f : A → bool) l : Forall (λ x, f x = true) l → List.filter f l = l.
Proof. induction 1 as [|x l Hx _ IH]; simpl; [done |]. by rewrite Hx, IH. Qed.

Abbreviation verify_chain_full := (verify_chain_full from_str get_seq get_event_kind get_prev_sha256
  get_emitted_at get_session_id get_task_id get_initiative_id sha256_hex).

(** ** Properties *)

(** C11: restarting is invisible to the chain.  After any run of successful
    appends from an empty segment, scanning the file and reopening the writer on
    the scan's answer gives back the very writer that was running: same sequence
    number, same previous hash, same file. *)
Theorem resume_is_identity es :
  codec_ok → (Z.of_nat (length es) ≤ u64_max)%Z →
  let w := append_all es (open_writer "" 0 None) in reopen w.(w_file) = Ok w.
Proof using Type.
  intros Hc Hlen. cbv zeta. rewrite written_state by done. unfold reopen; simpl.
  rewrite split_written by (done || lia).
  destruct (resume_lines_written es 1 None 0 GENESIS_PREV_SHA256 [] Hc) as (st & Hst & Hnil & Hcons & Hrun);
    [lia | lia | done |].
  rewrite app_nil_r in Hrun. rewrite Hrun. simpl.
  destruct st as [[s sha]|]; simpl.
  - destruct Hst as [-> ->]. done.
  - destruct es as [|e es]; [done |]. by destruct (Hcons ltac:(done)).
Qed.

(** What the writer writes, the verifier accepts, with exact statistics: the
    number of events, the last sequence number, one segment. *)
Theorem written_chain_verifies es path :
  codec_ok → (0 < Z.of_nat (length es) ≤ u64_max)%Z →
  verify_chain_full [(path, (append_all es (open_writer "" 0 None)).(w_file))] =
    Ok (MkChainStats (Z.of_nat (length es)) (Z.of_nat (length es) - 1) 1).
Proof.
  intros Hc Hlen. rewrite written_state by lia. simpl.
  unfold AuditChain.verify_chain_full, verify_chain_from, AuditChain.records.
  cbn [AuditChain.read_segments]. rewrite split_written by (done || lia).
  destruct (read_segment_written path es 0 (MkIterState None None) 0 GENESIS_PREV_SHA256 Hc)
    as (rs & st & Hrun & Hseqs & Hpaths); [lia | lia | by split; [| left] |].
  unfold mbind, result_bind. rewrite Hrun. simpl. rewrite app_nil_r.
  assert (Hlen_rs : length rs = length es).
  { rewrite <-(length_fmap cr_seq), Hseqs, length_seqZ. lia. }
  rewrite list_filter_all.
  2: { apply Forall_forall. intros r Hr. apply Z.leb_le.
       assert (Hin : cr_seq r ∈ cr_seq <$> rs) by by apply list_elem_of_fmap_2.
       rewrite Hseqs in Hin. apply elem_of_seqZ in Hin. lia. }
  rewrite Hlen_rs. destruct rs as [|r rs _] using rev_ind; [simpl in *; lia |].
  rewrite remove_dups_const with (x := path).
  - rewrite last_snoc. simpl. do 2 f_equal; [lia |].
    assert (Hl : last (cr_seq <$> rs ++ [r]) = Some (cr_seq r)) by (rewrite fmap_app; apply last_snoc).
    rewrite Hseqs, last_seqZ in Hl by lia. injection Hl as <-. lia.
  - by apply Forall_fmap.
  - by rewrite fmap_app; destruct (cr_segment_path <$> rs).
Qed.


(** A verified chain has no gap: its records are as many as the non-blank
    lines, numbered consecutively from the first one. *)
Theorem verified_chain_consecutive segments rs r0 :
  records segments = Ok rs → head rs = Some r0 →
  (r0.(cr_seq) + Z.of_nat (length rs) ≤ u64_max)%Z →
  length rs = length (record_lines segments) ∧
  cr_seq <$> rs = seqZ r0.(cr_seq) (Z.of_nat (length rs)).
Proof.
  intros Hrs Hhead Hlen. split; [| by eapply records_seqs].
  apply read_segments_walked in Hrs as [Hh _]. by apply (f_equal length) in Hh; rewrite !length_fmap in Hh.
Qed.

(** The two readers disagree on the first sequence number: the verifier
    accepts a one-record chain that starts anywhere, the writer's scan refuses
    it unless it starts at zero. *)
Theorem verifier_ignores_first_sequence q e path :
  codec_ok → in_u64 q → q ≠ 0%Z → (q < u64_max)%Z →
  let file := terminate (to_string q GENESIS_PREV_SHA256 e) in
  verify_chain_full [(path, file)] = Ok (MkChainStats 1 q 1) ∧
  last_chain_state (Some file) = Err (AuditWriterError.ChainSequenceGap 1 0 q).
Proof.
  intros Hc Hq Hne Hmax. cbv zeta.
  assert (Hsplit : split_lines (terminate (to_string q GENESIS_PREV_SHA256 e))
                   = terminate <$> chain_lines q GENESIS_PREV_SHA256 [e]).
  { rewrite <-(split_written q GENESIS_PREV_SHA256 [e] Hc); [| widths; lia | simpl; lia].
    simpl. unfold join_lines; simpl. by rewrite str_app_nil_r. }
  split.
  - unfold AuditChain.verify_chain_full, verify_chain_from, AuditChain.records.
    cbn [AuditChain.read_segments]. rewrite Hsplit.
    destruct (read_segment_written path [e] 0 (MkIterState None None) q GENESIS_PREV_SHA256 Hc)
      as (rs & st & Hrun & Hseqs & Hpaths); [widths; lia | simpl; lia | by split; [| left] |].
    unfold mbind, result_bind. rewrite Hrun. simpl. rewrite app_nil_r.
    change (Z.of_nat (length [e])) with 1%Z in Hseqs. rewrite (seqZ_cons q) in Hseqs by lia.
    destruct rs as [|r [|r' rs]]; try discriminate.
    injection Hseqs as Hr. simpl. rewrite Hr, (proj2 (Z.leb_le 0 q)) by (widths; lia). simpl. by rewrite Hr.
  - unfold AuditChain.last_chain_state. rewrite Hsplit. cbn [chain_lines].
    destruct (Hc q GENESIS_PREV_SHA256 e Hq) as (Htext & j & k & Hj & Hsq & Hsp & _).
    unfold AuditChain.resume_lines, resume_line; simpl. rewrite (proj1 (json_text_trimmed _ Htext)).
    rewrite json_text_not_blank, (proj2 (proj2 Htext)) by done. simpl.
    unfold mbind, result_bind. rewrite Hj. simpl. rewrite Hsq. simpl. rewrite Hsp. simpl.
    by rewrite (proj2 (Z.eqb_neq q 0)).
Qed.

(** An append whose sync fails after the line reached the file poisons the
    chain: the line is there but the writer's sequence number has not moved, so
    after the next successful append the boot scan finds the same number twice
    and refuses the segment. *)
Theorem sync_failure_breaks_chain es e1 e2 :
  codec_ok → (Z.of_nat (length es) + 2 ≤ u64_max)%Z →
  let w := append_all es (open_writer "" 0 None) in
  let w1 := (append SyncFailed e1 w).2 in
  let w2 := (append Synced e2 w1).2 in
  let n := Z.of_nat (length es) in
  last_chain_state (Some w2.(w_file)) = Err (AuditWriterError.ChainSequenceGap (n + 2) (n + 1) n).
Proof using Type.
  intros Hc Hlen. cbv zeta. rewrite written_state by lia. simpl.
  set (n := Z.of_nat (length es)). set (p := chain_head 0 GENESIS_PREV_SHA256 es).
  fold (terminate (to_string n p e1)) (terminate (to_string n p e2)).
  set (lines := (terminate <$> chain_lines 0 GENESIS_PREV_SHA256 (es ++ [e1])) ++ [terminate (to_string n p e2)]).
  assert (Hfile : (join_lines (terminate <$> chain_lines 0 GENESIS_PREV_SHA256 es) +:+
                    "" +:+ terminate (to_string n p e1)) +:+ "" +:+ terminate (to_string n p e2) = join_lines lines).
  { unfold lines. rewrite chain_lines_snoc, Z.add_0_l, fmap_app, !join_lines_app. simpl.
    by rewrite !str_app_nil_r. }
  rewrite Hfile.
  assert (Hsplit : split_lines (join_lines lines) = lines).
  { unfold lines. change [terminate (to_string n p e2)] with (terminate <$> [to_string n p e2]).
    rewrite <-fmap_app. apply split_lines_join. apply Forall_app. split.
    - eapply Forall_impl; [apply chain_lines_json; [done | lia | rewrite length_app; simpl; lia] |].
      intros l Hl. apply Hl.
    - apply Forall_singleton. apply Hc. widths. lia. }
  rewrite Hsplit. unfold lines.
  destruct (resume_lines_written (es ++ [e1]) 1 None 0 GENESIS_PREV_SHA256 [terminate (to_string n p e2)] Hc)
    as (st & Hst & _ & Hsome & Hrun); [lia | rewrite length_app; simpl; lia | done |].
  rewrite Hrun. rewrite length_app in Hst. rewrite length_app.
  destruct (Hsome ltac:(by destruct es)) as [[s sha] ->]. destruct Hst as [Hs _].
  destruct (Hc n p e2) as (Htext & j & k & Hj & Hsq & Hsp & _); [widths; lia |].
  cbn [AuditChain.resume_lines]. unfold resume_line. rewrite (proj1 (json_text_trimmed _ Htext)).
  rewrite json_text_not_blank, (proj2 (proj2 Htext)) by done. simpl.
  unfold mbind, result_bind. rewrite Hj. simpl. rewrite Hsq. simpl. rewrite Hsp. simpl.
  rewrite Hs. simpl (length [e1]). rewrite (proj2 (Z.eqb_neq _ _)) by (subst n; lia). simpl.
  do 2 f_equal; subst n; lia.
Qed.
End proofs.

(** ** Witnesses

    A codec and a hash at which [codec_ok] holds: the record is coded as the
    bits of its [Countable] encoding between braces. *)
Module Demo.
Definition json : Type := Z * string * string.

Fixpoint bits (p : positive) : string :=
  match p with
  | xI p => String "1"%char (bits p)
  | xO p => String "0"%char (bits p)
  | xH => ""
  end.
Fixpoint unbits (s : string) : option positive :=
  match s with
  | String "1"%char s => xI <$> unbits s
  | String "0"%char s => xO <$> unbits s
  | String "}"%char EmptyString => Some xH
  | _ => None
  end.
Definition to_string (q : Z) (p : string) (e : string) : string :=
  ("{" +:+ bits (encode (q, p, e))) +:+ "}".
Definition from_str (s : string) : option json :=
  match s with String "{"%char s => p ← unbits s; decode p | _ => None end.
Definition get_seq (j : json) : option Z := Some j.1.1.
Definition get_prev_sha256 (j : json) : option string := Some j.1.2.
Definition get_event_kind (j : json) : option string := Some j.2.
Definition no_int (j : json) : option Z := None.
Definition no_string (j : json) : option string := None.

(** A checksum in the place of SHA-256: no theorem needs more than a function. *)
Definition sha256_hex (s : string) : string :=
  bits (N.succ_pos (foldr (λ c n, ((Ascii.N_of_ascii c + 31 * n) mod 65521)%N) 7%N (chars s))).

Lemma unbits_bits p : unbits (bits p +:+ "}") = Some p.
Proof. induction p as [p IH|p IH|]; [| | done]; cbn [bits]; rewrite string_app_cons; simpl; by rewrite IH. Qed.

Definition plain (c : Ascii.ascii) : bool :=
  (Ascii.nat_of_ascii c <? 128) && negb (Ascii.eqb c LF).

Lemma plain_bits p : forallb plain (chars (bits p)) = true.
Proof. induction p as [p IH|p IH|]; [| | done]; apply IH. Qed.

Lemma utf8_ascii fuel l : length l < fuel → Forall (λ n, n < 128) l → utf8_valid_bytes fuel l = true.
Proof.
  revert l. induction fuel as [|fuel IH]; intros l Hlen Hl; [lia |].
  cbn [utf8_valid_bytes]. destruct l as [|a l]; [done |]. simpl in Hlen. apply Forall_cons in Hl as [Ha Hl].
  rewrite (proj2 (Nat.ltb_lt a 128) Ha). apply IH; [lia | done].
Qed.

Lemma length_of_chars s : length (chars s) = String.length s.
Proof. unfold chars. induction s as [|c s IH]; simpl; [done |]. by rewrite IH. Qed.

Lemma plain_text s : forallb plain (chars s) = true → no_lf s ∧ utf8_valid s = true.
Proof.
  intros H. rewrite forallb_forall in H. split.
  - unfold no_lf. intros Hin. apply list_elem_of_In, H in Hin. by vm_compute in Hin.
  - apply utf8_ascii; [rewrite length_fmap; fold (chars s); rewrite length_of_chars; lia |].
    apply Forall_fmap, Forall_forall. intros c Hc. apply list_elem_of_In, H in Hc.
    apply andb_true_iff in Hc as [Hc _]. by apply Nat.ltb_lt in Hc.
Qed.

Lemma codec : codec_ok from_str get_seq get_event_kind get_prev_sha256 to_string.
Proof.
  intros q p e _. split.
  - split; [by exists (bits (encode (q, p, e))) |]. apply plain_text. unfold to_string.
    rewrite !chars_app, !forallb_app, plain_bits. done.
  - exists (q, p, e), e. split_and!; [| done..]. unfold to_string.
    rewrite str_app_assoc. change (from_str _) with
      (p0 ← unbits (bits (encode (q, p, e)) +:+ "}"); decode (A := json) p0).
    rewrite unbits_bits. simpl. by rewrite decode_encode.
Qed.

Abbreviation append_all := (append_all to_string sha256_hex).
Abbreviation records := (records from_str get_seq get_event_kind get_prev_sha256 no_int
  no_string no_string no_string sha256_hex).

Definition events : list string := ["KernelStarted"; "SessionCreated"].
Definition file : string := (append_all events (open_writer "" 0 None)).(w_file).
End Demo.

Lemma resume_is_identity_witness :
  let w := Demo.append_all Demo.events (open_writer "" 0 None) in
  reopen Demo.from_str Demo.get_seq Demo.get_prev_sha256 Demo.sha256_hex w.(w_file) = Ok w.
Proof. apply (resume_is_identity _ _ Demo.get_event_kind _ _ _ Demo.events); [exact Demo.codec | by vm_compute]. Defined.

Lemma written_chain_verifies_witness :
  verify_chain_full Demo.from_str Demo.get_seq Demo.get_event_kind Demo.get_prev_sha256 Demo.no_int
    Demo.no_string Demo.no_string Demo.no_string Demo.sha256_hex [("segment-000.jsonl", Demo.file)]
  = Ok (MkChainStats 2 1 1).
Proof. apply (written_chain_verifies _ _ _ _ _ _ _ _ Demo.to_string _ Demo.events); [exact Demo.codec | by vm_compute]. Defined.


Lemma verified_chain_consecutive_witness :
  ∃ rs : list (@ChainRecord Demo.json), length rs = 2 ∧ length rs = length (record_lines [("a", Demo.file)]) ∧
    cr_seq <$> rs = seqZ 0 2.
Proof.
  destruct (Demo.records [("a", Demo.file)]) as [rs|] eqn:E; [| by vm_compute in E].
  exists rs. pose proof E as E'. vm_compute in E'. injection E' as Hrs.
  destruct rs as [|r0 rs0]; [discriminate |].
  assert (Hlen : length (r0 :: rs0) = 2) by (rewrite <-Hrs; reflexivity).
  assert (Hr0 : cr_seq r0 = 0%Z) by (injection Hrs as <- _; reflexivity).
  split; [done |].
  destruct (verified_chain_consecutive _ _ _ _ _ _ _ _ _ _ _ r0 E) as [Hl Hs];
    [reflexivity | rewrite Hr0, Hlen; by vm_compute |].
  split; [exact Hl |]. rewrite Hr0, Hlen in Hs. exact Hs.
Defined.

Lemma verifier_ignores_first_sequence_witness :
  let file := terminate (Demo.to_string 41 GENESIS_PREV_SHA256 "KernelStarted") in
  verify_chain_full Demo.from_str Demo.get_seq Demo.get_event_kind Demo.get_prev_sha256 Demo.no_int
    Demo.no_string Demo.no_string Demo.no_string Demo.sha256_hex [("a", file)] = Ok (MkChainStats 1 41 1) ∧
  last_chain_state Demo.from_str Demo.get_seq Demo.get_prev_sha256 Demo.sha256_hex (Some file)
    = Err (AuditWriterError.ChainSequenceGap 1 0 41).
Proof. apply verifier_ignores_first_sequence; [exact Demo.codec | by vm_compute..]. Defined.

Lemma sync_failure_breaks_chain_witness :
  let w := Demo.append_all Demo.events (open_writer "" 0 None) in
  let w1 := (append Demo.to_string Demo.sha256_hex SyncFailed "TaskAdmitted" w).2 in
  let w2 := (append Demo.to_string Demo.sha256_hex Synced "TaskRunning" w1).2 in
  last_chain_state Demo.from_str Demo.get_seq Demo.get_prev_sha256 Demo.sha256_hex (Some w2.(w_file))
    = Err (AuditWriterError.ChainSequenceGap 4 3 2).
Proof.
  apply (sync_failure_breaks_chain _ _ Demo.get_event_kind _ _ _ Demo.events); [exact Demo.codec | by vm_compute].
Defined.
