(* ===== verification/Glob.v ===== *)
(** * Path globs

    The matcher of [kernel/src/gates/policy_lookup.rs], which selects claim rules
    and gates by path.  The code recurses on byte slices; every call shortens
    the pattern, so the model recurses on the pattern and the two loops over the
    path are recursions of their own.  The reference is the language of the
    pattern read as a sequence of pieces. *)

From Stdlib Require Import Ascii.
From S2P Require Import Prelude Bytes.

Abbreviation chr := Ascii.ascii.
Definition star : chr := "*"%char.
Definition slash : chr := "/"%char.
Definition question : chr := "?"%char.

(** [for i in 0..=s.len() { if glob_rec(rest, &s[i..]) { return true } } false] *)
Fixpoint some_suffix (f : list chr → bool) (s : list chr) : bool :=
  f s || match s with [] => false | _ :: s' => some_suffix f s' end.

(** The loop of the single star: it stops at a separator or at the end. *)
Fixpoint segment_suffix (f : list chr → bool) (s : list chr) : bool :=
  f s || match s with
         | [] => false
         | c :: s' => if Ascii.eqb c slash then false else segment_suffix f s'
         end.

Fixpoint glob_rec (pat s : list chr) {struct pat} : bool :=
  match pat with
  | [] => match s with [] => true | _ => false end
  | pc :: pat1 =>
      if Ascii.eqb pc star then
        match pat1 with
        | pc2 :: pat2 =>
            if Ascii.eqb pc2 star then
              match pat2 with
              | pc3 :: pat3 =>
                  if Ascii.eqb pc3 slash then some_suffix (glob_rec pat3) s
                  else some_suffix (glob_rec pat2) s
              | [] => some_suffix (glob_rec pat2) s
              end
            else segment_suffix (glob_rec pat1) s
        | [] => segment_suffix (glob_rec pat1) s
        end
      else match s with
           | [] => false
           | sc :: s1 =>
               if Ascii.eqb pc question && negb (Ascii.eqb sc slash) then glob_rec pat1 s1
               else if Ascii.eqb pc sc then glob_rec pat1 s1
               else false
           end
  end.

Definition glob_matches (pattern path : string) : bool := glob_rec (chars pattern) (chars path).

(** ** The language of a pattern

    A pattern is a sequence of pieces; a path matches when it splits into one
    string per piece.  [**] swallows one separator that follows it. *)

Inductive piece : Type :=
  | AnyPath            (* [**] or [**/]: any characters, separators included *)
  | AnySegment         (* a single star: any characters but the separator *)
  | AnyChar            (* the question mark: one character but the separator *)
  | Lit (c : chr).

Fixpoint pieces (pat : list chr) : list piece :=
  match pat with
  | [] => []
  | pc :: pat1 =>
      if Ascii.eqb pc star then
        match pat1 with
        | pc2 :: pat2 =>
            if Ascii.eqb pc2 star then
              match pat2 with
              | pc3 :: pat3 => if Ascii.eqb pc3 slash then AnyPath :: pieces pat3
                               else AnyPath :: pieces pat2
              | [] => AnyPath :: pieces pat2
              end
            else AnySegment :: pieces pat1
        | [] => AnySegment :: pieces pat1
        end
      else if Ascii.eqb pc question then AnyChar :: pieces pat1
      else Lit pc :: pieces pat1
  end.

Definition matches_piece (p : piece) (u : list chr) : Prop :=
  match p with
  | AnyPath => True
  | AnySegment => slash ∉ u
  | AnyChar => ∃ c, u = [c] ∧ c ≠ slash
  | Lit c => u = [c]
  end.

Definition in_language (ps : list piece) (s : list chr) : Prop :=
  ∃ parts, Forall2 matches_piece ps parts ∧ s = mjoin parts.

Lemma in_language_nil s : in_language [] s ↔ s = [].
Proof.
  split; [intros (parts & H & ->); by inversion H | intros ->; by exists []].
Qed.

Lemma in_language_cons p ps s :
  in_language (p :: ps) s ↔ ∃ u s', s = u ++ s' ∧ matches_piece p u ∧ in_language ps s'.
Proof.
  split.
  - intros (parts & H & ->). inversion H as [|? u ? parts' Hu Hps]; subst.
    exists u, (mjoin parts'). split; [done |]. split; [done |]. by exists parts'.
  - intros (u & s' & -> & Hu & parts & Hps & ->). exists (u :: parts). by split; [constructor |].
Qed.

Lemma some_suffix_iff f s : some_suffix f s = true ↔ ∃ u s', s = u ++ s' ∧ f s' = true.
Proof.
  induction s as [|c s IH]; simpl; rewrite orb_true_iff.
  - split; [intros [H|H]; [by exists [], [] | done] |].
    intros (u & s' & Hs & H). left. by destruct u, s'.
  - rewrite IH. split.
    + intros [H|(u & s' & -> & H)]; [by exists [], (c :: s) | by exists (c :: u), s'].
    + intros ([|c' u] & s' & Hs & H); simpl in Hs; [left; by subst |].
      right. injection Hs as -> ->. by exists u, s'.
Qed.

Lemma segment_suffix_iff f s :
  segment_suffix f s = true ↔ ∃ u s', s = u ++ s' ∧ (slash ∉ u) ∧ f s' = true.
Proof.
  induction s as [|c s IH]; simpl; rewrite orb_true_iff.
  - split; [intros [H|H]; [exists [], []; set_solver | done] |].
    intros (u & s' & Hs & _ & H). left. by destruct u, s'.
  - destruct (Ascii.eqb_spec c slash) as [->|Hc].
    + split; [intros [H|H]; [exists [], (slash :: s); set_solver | done] |].
      intros ([|c' u] & s' & Hs & Hu & H); simpl in Hs; [left; by subst |].
      injection Hs as <- ->. set_solver.
    + rewrite IH. split.
      * intros [H|(u & s' & -> & Hu & H)]; [exists [], (c :: s); set_solver |].
        exists (c :: u), s'. split; [done |]. split; [set_solver | done].
      * intros ([|c' u] & s' & Hs & Hu & H); simpl in Hs; [left; by subst |].
        right. injection Hs as -> ->. exists u, s'. set_solver.
Qed.

(** Induction on the length of a pattern, as the recursion skips up to three characters. *)
Lemma pattern_ind (P : list chr → Prop) :
  (∀ pat, (∀ pat', length pat' < length pat → P pat') → P pat) → ∀ pat, P pat.
Proof. intros H pat. apply (well_founded_ind (well_founded_ltof _ length) P). exact H. Qed.

Lemma any_path_case f ps s :
  (∀ s, f s = true ↔ in_language ps s) →
  some_suffix f s = true ↔ in_language (AnyPath :: ps) s.
Proof.
  intros Hf. rewrite some_suffix_iff, in_language_cons. setoid_rewrite Hf.
  split; intros (u & s' & H); exists u, s'; simpl in *; tauto.
Qed.

Lemma any_segment_case f ps s :
  (∀ s, f s = true ↔ in_language ps s) →
  segment_suffix f s = true ↔ in_language (AnySegment :: ps) s.
Proof.
  intros Hf. rewrite segment_suffix_iff, in_language_cons. setoid_rewrite Hf. done.
Qed.

Lemma one_char_case (Q : chr → Prop) p ps s :
  (∀ u, matches_piece p u ↔ ∃ c, u = [c] ∧ Q c) →
  in_language (p :: ps) s ↔ ∃ c s', s = c :: s' ∧ Q c ∧ in_language ps s'.
Proof.
  intros HQ. rewrite in_language_cons. setoid_rewrite HQ. split.
  - intros (u & s' & -> & (c & -> & Hc) & H). by exists c, s'.
  - intros (c & s' & -> & Hc & H). exists [c], s'. eauto.
Qed.

Lemma glob_rec_language pat : ∀ s, glob_rec pat s = true ↔ in_language (pieces pat) s.
Proof.
  induction pat as [pat IH] using pattern_ind. intros s. destruct pat as [|pc pat1]; simpl.
  { rewrite in_language_nil. by destruct s. }
  destruct (Ascii.eqb_spec pc star) as [->|Hstar].
  - destruct pat1 as [|pc2 pat2]; [apply any_segment_case; apply IH; simpl; lia |].
    destruct (Ascii.eqb pc2 star); [| apply any_segment_case; apply IH; simpl; lia].
    destruct pat2 as [|pc3 pat3]; [apply any_path_case; apply IH; simpl; lia |].
    destruct (Ascii.eqb pc3 slash); apply any_path_case; apply IH; simpl; lia.
  - assert (Hrec : ∀ s, glob_rec pat1 s = true ↔ in_language (pieces pat1) s)
      by (apply IH; simpl; lia).
    destruct (Ascii.eqb_spec pc question) as [->|Hq].
    + rewrite (one_char_case (λ c, c ≠ slash)) by done.
      destruct s as [|sc s1]; [split; [done | by intros (? & ? & ? & _)] |]. simpl.
      destruct (Ascii.eqb_spec sc slash) as [->|Hs]; simpl.
      * split; [by destruct (Ascii.eqb_spec question slash) |].
        intros (c & s' & [= <- <-] & ? & _). done.
      * rewrite Hrec. split; [intros H; by exists sc, s1 | by intros (? & ? & [= <- <-] & _ & H)].
    + rewrite (one_char_case (λ c, c = pc)); [| intros u; simpl; naive_solver].
      destruct s as [|sc s1]; [split; [done | by intros (? & ? & ? & _)] |]. simpl.
      destruct (Ascii.eqb_spec pc sc) as [->|Hs].
      * rewrite Hrec. split; [intros H; by exists sc, s1 | by intros (? & ? & [= <- <-] & _ & H)].
      * split; [done |]. intros (c & s' & [= <- <-] & Hc & _). by subst.
Qed.

(** C21: the glob matcher terminates on every pattern and accepts exactly the
    paths that split into one string per piece of the pattern: any string for
    [**] (or [**/]), a separator-free string for a star, one character other
    than the separator for a question mark, and the character itself otherwise. *)
Theorem glob_matches_correct pattern path :
  glob_matches pattern path = true ↔ in_language (pieces (chars pattern)) (chars path).
Proof. apply glob_rec_language. Qed.

(** ** Consequences *)

Definition is_meta (c : chr) : bool := Ascii.eqb c star || Ascii.eqb c question.
Definition literal (s : string) : bool := forallb (λ c, negb (is_meta c)) (chars s).

Lemma pieces_literal pat rest :
  forallb (λ c, negb (is_meta c)) pat = true → pieces (pat ++ rest) = (Lit <$> pat) ++ pieces rest.
Proof.
  induction pat as [|c pat IH]; [done |]. intros [Hc Hp]%andb_true_iff.
  rewrite <-app_comm_cons. simpl. unfold is_meta in Hc.
  destruct (Ascii.eqb c star); [done |]. destruct (Ascii.eqb c question); [done |].
  by rewrite IH.
Qed.

Lemma in_language_literal pat rest s :
  in_language ((Lit <$> pat) ++ rest) s ↔ ∃ s', s = pat ++ s' ∧ in_language rest s'.
Proof.
  revert s. induction pat as [|c pat IH]; intros s; simpl.
  { split; [by exists s | by intros (s' & -> & H)]. }
  rewrite (one_char_case (λ x, x = c)); [| intros u; simpl; naive_solver]. setoid_rewrite IH.
  split; [by intros (? & ? & -> & -> & s' & -> & H); exists s' |].
  intros (s' & -> & H). exists c, (pat ++ s'). eauto.
Qed.

(** A pattern without meta-characters matches itself and nothing else. *)
Lemma literal_matches_iff pattern path :
  literal pattern = true → glob_matches pattern path = true ↔ path = pattern.
Proof.
  intros Hl. unfold glob_matches. rewrite glob_rec_language, <-(app_nil_r (chars pattern)),
    pieces_literal by done.
  rewrite in_language_literal. simpl. setoid_rewrite in_language_nil. split.
  - intros (? & H & ->). rewrite app_nil_r in H. by apply chars_inj.
  - intros ->. exists []. by rewrite app_nil_r.
Qed.

Lemma double_star_matches path : glob_matches "**" path = true.
Proof.
  unfold glob_matches. rewrite glob_rec_language. simpl. rewrite in_language_cons.
  exists (chars path), []. rewrite app_nil_r. split_and!; [done | done |]. by apply in_language_nil.
Qed.

(** A [**/] piece is not bound to segments: whatever ends in the rest of the
    pattern matches, also in the middle of a file name. *)
Lemma double_star_ignores_boundary u name :
  literal name = true → glob_matches ("**/" +:+ name) (u +:+ name) = true.
Proof.
  intros Hl. unfold glob_matches. rewrite glob_rec_language, !chars_app. simpl.
  rewrite in_language_cons. exists (chars u), (chars name). split_and!; [done | done |].
  rewrite <-(app_nil_r (chars name)), pieces_literal, in_language_literal by done.
  exists []. split; [done | by apply in_language_nil].
Qed.

Example double_star_in_file_name : glob_matches "src/**/main.rs" "src/domain.rs" = true.
Proof. reflexivity. Qed.
Example star_stays_in_segment : glob_matches "src/*.rs" "src/sub/main.rs" = false.
Proof. reflexivity. Qed.
Example question_is_one_char : glob_matches "src/?.rs" "src/ab.rs" = false.
Proof. reflexivity. Qed.
