(* ===== verification/Delegation.v ===== *)
(** * Capability delegations

    [kernel/src/authority/delegation.rs] with the signing domain of
    [crates/crypto/src/delegation.rs].  SQLite prepares a statement against the
    columns the table has; the operations therefore take the columns of the
    installed [delegations] table, and [delegations_columns] is the list the
    schema of [crates/store/src/migration.rs] creates.  SHA-256, Ed25519 and the
    clock are arguments. *)

From S2P Require Import Prelude Fsm Store Bytes Crypto Session.

(** ** The signing domain *)

Definition DOMAIN : string := "RAXIS-V1-DELEGATION-GRANT".

Definition scope_bytes (scope_json : option string) : list byte :=
  match scope_json with
  | None => [byte_of 0]
  | Some json => byte_of 1 :: sized (chars json)
  end.

(** The buffer [delegation_signing_input] hashes. *)
Definition canonical_bytes (session_id capability_class delegating_role_id : string)
    (expires_at : Z) (scope_json : option string) : list byte :=
  chars DOMAIN ++ NUL :: chars session_id ++ NUL :: chars capability_class ++
  NUL :: chars delegating_role_id ++ NUL :: le_bytes 8 expires_at ++ NUL :: scope_bytes scope_json.

(** ** Statements *)

(** The columns of [delegations] after every migration. *)
Definition delegations_columns : list string :=
  ["delegation_id"; "session_id"; "capability_class"; "delegating_role_id"; "delegate_role_id";
   "effective_from"; "expires_at"; "revoked_at"; "status"; "epoch_stale_set_at";
   "operator_signature"].

(** Preparing a statement fails on the first column the table lacks. *)
Definition prepare {E} (columns : list string) (err : SqlError → E) (used : list string)
    : M E unit :=
  lift_result
    (match List.find (λ c, negb (bool_decide (c ∈ columns))) used with
     | Some c => Err (err (SqlNoSuchColumn c))
     | None => Ok tt
     end).

Definition insert_columns : list string :=
  ["delegation_id"; "session_id"; "capability_class"; "scope_json"; "granted_by"; "granted_at";
   "expires_at"; "use_count"; "max_uses"; "status"].
Definition check_columns : list string :=
  ["status"; "expires_at"; "session_id"; "capability_class"; "granted_at"].
Definition existing_columns : list string :=
  ["delegation_id"; "session_id"; "capability_class"; "status"].
Definition update_columns : list string := ["status"; "session_id"; "capability_class"].

Definition same_pair (session_id capability : string) (r : DelegationRow) : bool :=
  String.eqb r.(deleg_session_id) session_id && String.eqb r.(deleg_capability_class) capability.

(** The pairs of the table, as [UNIQUE (session_id, capability_class)] sees them. *)
Definition pair_rows (session_id capability : string) (d : Db) : list (string * DelegationRow) :=
  List.filter (λ kr : string * DelegationRow, same_pair session_id capability kr.2)
    (map_to_list d.(delegations)).

Definition insert_delegation (id : string) (r : DelegationRow) (d : Db) : result SqlError unit * Db :=
  if bool_decide (is_Some (d.(delegations) !! id)) then (Err SqlConstraintPrimaryKey, d)
  else match pair_rows r.(deleg_session_id) r.(deleg_capability_class) d with
       | _ :: _ => (Err SqlConstraintUnique, d)
       | [] =>
           if fk_ok d (bool_decide (is_Some (d.(sessions) !! r.(deleg_session_id))))
           then (Ok tt, on_delegations <[id := r]> d)
           else (Err SqlConstraintForeignKey, d)
       end.

(** [UPDATE delegations SET status = st WHERE p], with the number of rows changed. *)
Definition set_status (st : string) (r : DelegationRow) : DelegationRow :=
  MkDelegationRow r.(deleg_session_id) r.(deleg_capability_class) r.(deleg_scope_json)
    r.(deleg_granted_by) r.(deleg_granted_at) r.(deleg_expires_at) r.(deleg_use_count)
    r.(deleg_max_uses) st.

Definition update_status (p : DelegationRow → bool) (st : string) : M SqlError nat := λ d,
  (Ok (length (List.filter (λ kr : string * DelegationRow, p kr.2) (map_to_list d.(delegations)))),
   on_delegations (fmap (λ r, if p r then set_status st r else r)) d).

(** The stored text of a stored status ([as_sql_str().expect(..)]). *)
Definition stored_text (s : DelegationStatus) : string :=
  default "" (DelegationStatus.delegation_status_as_sql_str s).

(** ** Operations *)
Section Operations.
Variable sha256 : list byte → list byte.
Variable dalek : Ed25519.
Variable columns : list string.

Definition delegation_signing_input (session_id capability_class delegating_role_id : string)
    (expires_at : Z) (scope_json : option string) : list byte :=
  sha256 (canonical_bytes session_id capability_class delegating_role_id expires_at scope_json).

Definition verify_delegation_grant (pubkey_bytes signature_bytes : list byte)
    (session_id capability_class delegating_role_id : string) (expires_at : Z)
    (scope_json : option string) : bool :=
  is_ok (verify_ed25519 pubkey_bytes
    (delegation_signing_input session_id capability_class delegating_role_id expires_at scope_json)
    signature_bytes).

(** The id reported for a violated constraint. *)
Definition existing_delegation (session_id capability_class : string) (d : Db) : string :=
  match prepare columns id existing_columns d with
  | (Err _, _) => "unknown"
  | (Ok _, _) =>
      match List.filter (λ kr : string * DelegationRow,
              String.eqb kr.2.(deleg_status) (stored_text DelegationStatus.Active))
              (pair_rows session_id capability_class d) with
      | kr :: _ => kr.1
      | [] => "unknown"
      end
  end.

Definition is_constraint_violation (e : SqlError) : bool :=
  match e with
  | SqlConstraintPrimaryKey | SqlConstraintUnique | SqlConstraintForeignKey
  | SqlConstraintCheck => true
  | _ => false
  end.

Definition insert_statement (id : string) (r : DelegationRow) : M SqlError unit :=
  _ ← prepare columns (λ e, e) insert_columns;
  insert_delegation id r.

Definition grant_delegation (now : Z) (session_id delegation_id capability_class : string)
    (scope_json : option string) (granted_by : string) (ttl_secs : Z) (max_uses : option Z)
    (signature_bytes operator_pubkey_bytes : list byte) (policy_max_delegation_ttl_secs : Z)
    : M AuthorityError unit := λ d,
  if (policy_max_delegation_ttl_secs <? ttl_secs)%Z
  then (Err (AuthorityError.DelegationTtlOutOfRange ttl_secs policy_max_delegation_ttl_secs), d)
  else
    let expires_at := wrap_add_i64 now (as_i64 ttl_secs) in
    if negb (verify_delegation_grant operator_pubkey_bytes signature_bytes session_id
               capability_class granted_by (expires_at mod 2^64) scope_json)
    then (Err AuthorityError.DelegationSignatureInvalid, d)
    else
      match insert_statement delegation_id
              (MkDelegationRow session_id capability_class scope_json granted_by now expires_at 0
                 max_uses (stored_text DelegationStatus.Active)) d with
      | (Ok _, d') => (Ok tt, d')
      | (Err e, d') =>
          if is_constraint_violation e
          then (Err (AuthorityError.DelegationAlreadyActive
                       (existing_delegation session_id capability_class d')), d')
          else (Err (AuthorityError.StoreError e), d')
      end.

(** [ORDER BY granted_at DESC LIMIT 1]: a pair has at most one row. *)
Definition check_capability (now : Z) (session_id : string) (capability : CapabilityClass)
    : M AuthorityError DelegationStatus :=
  _ ← prepare columns AuthorityError.StoreError check_columns;
  rows ← gets (pair_rows session_id (as_sql_str capability));
  mret (match rows with
        | [] => DelegationStatus.NotGranted
        | kr :: _ =>
            if (kr.2.(deleg_expires_at) <=? now)%Z then DelegationStatus.Expired
            else default DelegationStatus.Expired
                   (DelegationStatus.delegation_status_from_sql_str kr.2.(deleg_status))
        end).

Definition record_capability_use (session_id : string) (capability : CapabilityClass)
    : M AuthorityError unit :=
  _ ← prepare columns AuthorityError.StoreError update_columns;
  rows ← se_map_err AuthorityError.StoreError
           (update_status (λ r, same_pair session_id (as_sql_str capability) r &&
                                String.eqb r.(deleg_status) (stored_text DelegationStatus.StaleOnNextUse))
              (stored_text DelegationStatus.RenewalRequired));
  if Nat.eqb rows 0 then throw AuthorityError.DelegationNotStale else mret tt.

Definition mark_stale_on_epoch_advance : M AuthorityError nat :=
  _ ← prepare columns AuthorityError.StoreError ["status"];
  se_map_err AuthorityError.StoreError
    (update_status (λ r, String.eqb r.(deleg_status) (stored_text DelegationStatus.Active))
       (stored_text DelegationStatus.StaleOnNextUse)).
End Operations.

(** ** Runs of operations *)

(** One call into the module, by any thread: the store mutex orders them. *)
Inductive Call : Type :=
  | Grant (now : Z) (session_id delegation_id capability_class : string)
      (scope_json : option string) (granted_by : string) (ttl_secs : Z) (max_uses : option Z)
      (signature pubkey : list byte) (max_ttl : Z)
  | Use (session_id : string) (capability : CapabilityClass)
  | EpochAdvance.

Section Runs.
Variable sha256 : list byte → list byte.
Variable dalek : Ed25519.
Variable columns : list string.

(** What a call returned: did it succeed? *)
Definition run_call (c : Call) (d : Db) : bool * Db :=
  match c with
  | Grant now s id cap scope by_ ttl uses sig pk max_ttl =>
      let '(r, d') :=
        grant_delegation sha256 dalek columns now s id cap scope by_ ttl uses sig pk max_ttl d in
      (is_ok r, d')
  | Use s cap => let '(r, d') := record_capability_use columns s cap d in (is_ok r, d')
  | EpochAdvance => let '(r, d') := mark_stale_on_epoch_advance columns d in (is_ok r, d')
  end.

Fixpoint run_calls (cs : list Call) (d : Db) : list bool * Db :=
  match cs with
  | [] => ([], d)
  | c :: cs' =>
      let '(b, d1) := run_call c d in
      let '(bs, d2) := run_calls cs' d1 in (b :: bs, d2)
  end.
End Runs.

(** ** Lemmas *)

Lemma same_pair_iff s c r :
  same_pair s c r = true ↔ r.(deleg_session_id) = s ∧ r.(deleg_capability_class) = c.
Proof. unfold same_pair. by rewrite andb_true_iff, !String.eqb_eq. Qed.

Lemma elem_of_pair_rows s c d id r :
  (id, r) ∈ pair_rows s c d ↔ d.(delegations) !! id = Some r ∧ same_pair s c r = true.
Proof.
  unfold pair_rows. rewrite list_elem_of_In, filter_In, <-list_elem_of_In, elem_of_map_to_list.
  done.
Qed.

Lemma prepare_run {E} columns (err : SqlError → E) used d :
  prepare columns err used d = (Ok tt, d) ∨
  ∃ c, c ∈ used ∧ (c ∉ columns) ∧ prepare columns err used d = (Err (err (SqlNoSuchColumn c)), d).
Proof.
  unfold prepare, lift_result. destruct (List.find _ used) as [c|] eqn:H; [right | by left].
  apply find_some in H as [H1 H2]. exists c. rewrite list_elem_of_In. split; [done |].
  by apply negb_true_iff, bool_decide_eq_false in H2.
Qed.

Lemma prepare_ok {E} columns (err : SqlError → E) used d :
  used ⊆ columns → prepare columns err used d = (Ok tt, d).
Proof. destruct (prepare_run columns err used d) as [?|(c & ? & ? & _)]; set_solver. Qed.

Lemma set_status_same_pair s c st r : same_pair s c (set_status st r) = same_pair s c r.
Proof. done. Qed.

Lemma lookup_updated (p : DelegationRow → bool) st (m : gmap string DelegationRow) id r :
  ((λ r, if p r then set_status st r else r) <$> m) !! id = Some r →
  ∃ r0, m !! id = Some r0 ∧ r = (if p r0 then set_status st r0 else r0).
Proof. rewrite lookup_fmap_Some. intros (r0 & <- & H). eauto. Qed.

(** What one call can do to the table: nothing, insert a row for a pair that had
    none, or rewrite statuses. *)
Inductive table_step (m : gmap string DelegationRow) : gmap string DelegationRow → Prop :=
  | step_none : table_step m m
  | step_insert id r :
      m !! id = None →
      (∀ id' r', m !! id' = Some r' →
         same_pair r.(deleg_session_id) r.(deleg_capability_class) r' = false) →
      table_step m (<[id := r]> m)
  | step_stale :
      table_step m
        ((λ r, if String.eqb r.(deleg_status) "Active" then set_status "StaleOnNextUse" r else r) <$> m)
  | step_use s c :
      table_step m
        ((λ r, if same_pair s c r && String.eqb r.(deleg_status) "StaleOnNextUse"
               then set_status "RenewalRequired" r else r) <$> m).

Lemma insert_delegation_step id r d :
  (insert_delegation id r d = (Ok tt, on_delegations <[id := r]> d) ∧
   table_step d.(delegations) (<[id := r]> d.(delegations)) ∧
   pair_rows r.(deleg_session_id) r.(deleg_capability_class) d = []) ∨
  (∃ e, insert_delegation id r d = (Err e, d) ∧ is_constraint_violation e = true).
Proof.
  unfold insert_delegation. case_bool_decide as Hid; [right; by eexists |].
  destruct (pair_rows _ _ d) as [|[k r'] l] eqn:Hp; [| right; by eexists].
  destruct (fk_ok d _); [left | right; by eexists]. split_and!; [done | | done].
  apply step_insert; [by apply eq_None_not_Some |].
  intros id' r' Hr'. destruct (same_pair _ _ r') eqn:Hs; [| done].
  assert (H : (id', r') ∈ pair_rows r.(deleg_session_id) r.(deleg_capability_class) d)
    by (by apply elem_of_pair_rows). rewrite Hp in H. by apply elem_of_nil in H.
Qed.

Section Facts.
Context (sha256 : list byte → list byte) (verify : Ed25519).
Context (columns : list string).
Abbreviation grant := (grant_delegation sha256 verify columns).

(** A grant either fails without a write or inserts an [Active] row for a pair that had none. *)
Lemma grant_run now s id cap scope by_ ttl uses sig pk max_ttl d :
  (∃ e, grant now s id cap scope by_ ttl uses sig pk max_ttl d = (Err e, d)) ∨
  (∃ r, grant now s id cap scope by_ ttl uses sig pk max_ttl d =
          (Ok tt, on_delegations <[id := r]> d) ∧
        r = MkDelegationRow s cap scope by_ now (wrap_add_i64 now (as_i64 ttl)) 0 uses "Active" ∧
        table_step d.(delegations) (<[id := r]> d.(delegations)) ∧ pair_rows s cap d = [] ∧
        insert_columns ⊆ columns).
Proof.
  unfold grant_delegation. change (stored_text DelegationStatus.Active) with "Active".
  destruct (Z.ltb _ _); [left; by eexists |].
  destruct (negb _); [left; by eexists |]. unfold insert_statement, mbind, se_bind.
  destruct (prepare_run columns (λ e, e) insert_columns d) as [Hc|(c & _ & _ & ->)];
    [| left; by eexists]. rewrite Hc.
  destruct (insert_delegation_step id
    (MkDelegationRow s cap scope by_ now (wrap_add_i64 now (as_i64 ttl)) 0 uses "Active") d)
    as [(Hi & Hstep & Hp)|(e & Hi & He)].
  - right. eexists. rewrite Hi. split_and!; try done.
    intros c' Hc'. destruct (decide (c' ∈ columns)) as [|Hn]; [done |]. exfalso.
    revert Hc. unfold prepare, lift_result.
    destruct (List.find _ insert_columns) eqn:Hf; [done |]. intros _.
    apply list_elem_of_In in Hc'. pose proof (find_none _ _ Hf c' Hc') as Hb. simpl in Hb.
    by rewrite bool_decide_eq_false_2 in Hb.
  - left. rewrite Hi, He. by eexists.
Qed.
End Facts.

Section RunFacts.
Context (sha256 : list byte → list byte) (verify : Ed25519).
Context (columns : list string).
Abbreviation run1 := (run_call sha256 verify columns).
Abbreviation run := (run_calls sha256 verify columns).

Lemma use_run s cap d :
  (∃ e, record_capability_use columns s cap d = (Err e, d)) ∨
  (record_capability_use columns s cap d =
     (if Nat.eqb (length (List.filter (λ kr : string * DelegationRow,
           same_pair s (as_sql_str cap) kr.2 && String.eqb kr.2.(deleg_status) "StaleOnNextUse")
           (map_to_list d.(delegations)))) 0
      then Err AuthorityError.DelegationNotStale else Ok tt,
      on_delegations (fmap (λ r, if same_pair s (as_sql_str cap) r && String.eqb r.(deleg_status) "StaleOnNextUse"
                                 then set_status "RenewalRequired" r else r)) d)).
Proof.
  unfold record_capability_use, mbind, se_bind.
  destruct (prepare_run columns AuthorityError.StoreError update_columns d) as [->|(c & _ & _ & ->)];
    [right | left; by eexists].
  unfold se_map_err, update_status, map_err. cbn [stored_text].
  by destruct (Nat.eqb _ 0).
Qed.

Lemma run_call_step c d : table_step d.(delegations) (run1 c d).2.(delegations).
Proof.
  destruct c as [now s id cap scope by_ ttl uses sig pk mx|s cap|]; simpl.
  - destruct (grant_run sha256 verify columns now s id cap scope by_ ttl uses sig pk mx d)
      as [(e & ->)|(r & -> & _ & H & _)]; [apply step_none | done].
  - destruct (use_run s cap d) as [(e & ->)| ->]; [apply step_none | apply step_use].
  - unfold mark_stale_on_epoch_advance, mbind, se_bind.
    destruct (prepare_run columns AuthorityError.StoreError ["status"] d) as [->|(c & _ & _ & ->)];
      [apply step_stale | apply step_none].
Qed.

Lemma run_calls_rtc cs d : rtc table_step d.(delegations) (run cs d).2.(delegations).
Proof.
  revert d. induction cs as [|c cs IH]; intros d; simpl; [constructor |].
  pose proof (run_call_step c d) as H. destruct (run1 c d) as [b d1].
  specialize (IH d1). destruct (run cs d1) as [bs d2]. by eapply rtc_l.
Qed.
End RunFacts.

(** ** The UNIQUE constraint and a spent grace use *)

Definition unique_pairs (m : gmap string DelegationRow) : Prop :=
  ∀ id id' r r', m !! id = Some r → m !! id' = Some r' →
    same_pair r.(deleg_session_id) r.(deleg_capability_class) r' = true → id = id'.

(** The one row of the pair asks for renewal. *)
Definition spent (s c : string) (m : gmap string DelegationRow) : Prop :=
  (∃ id r, m !! id = Some r ∧ same_pair s c r = true) ∧
  ∀ id r, m !! id = Some r → same_pair s c r = true → r.(deleg_status) = "RenewalRequired".

Lemma table_step_unique m m' : table_step m m' → unique_pairs m → unique_pairs m'.
Proof.
  intros [|id r Hid Hno|  |s c] Hu; [done | | |].
  - intros i i' a a' Ha Ha' Hp. apply same_pair_iff in Hp as [H1 H2].
    destruct (decide (i = id)) as [->|Hi]; destruct (decide (i' = id)) as [->|Hi'].
    + done.
    + rewrite lookup_insert_eq in Ha. injection Ha as <-. rewrite lookup_insert_ne in Ha' by done.
      specialize (Hno _ _ Ha'). apply not_true_iff_false in Hno. exfalso. apply Hno.
      by apply same_pair_iff.
    + rewrite lookup_insert_eq in Ha'. injection Ha' as <-. rewrite lookup_insert_ne in Ha by done.
      specialize (Hno _ _ Ha). apply not_true_iff_false in Hno. exfalso. apply Hno.
      by apply same_pair_iff.
    + rewrite lookup_insert_ne in Ha, Ha' by done. apply (Hu i i' a a'); [done.. |].
      by apply same_pair_iff.
  - intros i i' a a' (b & Hb & ->)%lookup_updated (b' & Hb' & ->)%lookup_updated Hp.
    apply (Hu i i' b b'); [done.. |]. by do 2 case_match.
  - intros i i' a a' (b & Hb & ->)%lookup_updated (b' & Hb' & ->)%lookup_updated Hp.
    apply (Hu i i' b b'); [done.. |]. by do 2 case_match.
Qed.

Lemma table_step_spent s c m m' : table_step m m' → spent s c m → spent s c m'.
Proof.
  intros [|id r Hid Hno| |s' c'] [(i & a & Ha & Hp) Hall]; [by split; eauto | | |].
  - assert (Hr : same_pair s c r = false).
    { apply not_true_iff_false. intros [<- <-]%same_pair_iff. specialize (Hno _ _ Ha). congruence. }
    split.
    + exists i, a. rewrite lookup_insert_ne by (by intros ->; congruence). done.
    + intros j b [[-> ->]|[_ Hb]]%lookup_insert_Some Hpb; [congruence | by eapply Hall].
  - split.
    + exists i. eexists. rewrite lookup_fmap, Ha. split; [reflexivity |]. by case_match.
    + intros j b (b0 & Hb0 & ->)%lookup_updated Hpb.
      destruct (String.eqb_spec b0.(deleg_status) "Active") as [Hact|]; [| by eapply Hall].
      rewrite set_status_same_pair in Hpb. specialize (Hall _ _ Hb0 Hpb). congruence.
  - split.
    + exists i. eexists. rewrite lookup_fmap, Ha. split; [reflexivity |]. by case_match.
    + intros j b (b0 & Hb0 & ->)%lookup_updated Hpb. case_match; [done | by eapply Hall].
Qed.

Lemma filter_length_pos {A} (f : A → bool) l : length (List.filter f l) ≠ 0 → ∃ x, x ∈ l ∧ f x = true.
Proof.
  intros H. destruct (List.filter f l) as [|x k] eqn:Hf; [done |].
  exists x. rewrite list_elem_of_In, <-filter_In, Hf. by left.
Qed.

Section Spent.
Context (sha256 : list byte → list byte) (verify : Ed25519).
Context (columns : list string).

Lemma use_spends s cap d d1 :
  unique_pairs d.(delegations) → record_capability_use columns s cap d = (Ok tt, d1) →
  spent s (as_sql_str cap) d1.(delegations).
Proof.
  intros Hu Hrun. destruct (use_run columns s cap d) as [(e & He)|Hr]; [congruence |].
  rewrite Hrun in Hr. destruct (Nat.eqb_spec (length (List.filter (λ kr : string * DelegationRow,
    same_pair s (as_sql_str cap) kr.2 && String.eqb kr.2.(deleg_status) "StaleOnNextUse")
    (map_to_list d.(delegations)))) 0) as [|Hn]; [discriminate |].
  apply (f_equal snd) in Hr. cbn [snd] in Hr. subst d1. apply filter_length_pos in Hn as ([id r] & Hin & [Hp Hs]%andb_true_iff).
  apply elem_of_map_to_list in Hin. cbn [snd] in Hp, Hs. split.
  - exists id, (set_status "RenewalRequired" r). split; [| done].
    apply lookup_fmap_Some. exists r. split; [| done]. cbv beta. by rewrite Hp, Hs.
  - intros id' r' (r0 & H0 & ->)%lookup_updated Hp'.
    assert (Hp0 : same_pair s (as_sql_str cap) r0 = true) by (by case_match).
    assert (id = id') as <-.
    { apply (Hu id id' r r0); [done.. |]. apply same_pair_iff in Hp as [-> ->]. done. }
    assert (r0 = r) as -> by congruence. by rewrite Hp, Hs.
Qed.

Lemma use_on_spent s cap d :
  spent s (as_sql_str cap) d.(delegations) → ∃ e, (record_capability_use columns s cap d).1 = Err e.
Proof.
  intros [_ Hall]. destruct (use_run columns s cap d) as [(e & ->)| ->]; [by eexists |].
  destruct (Nat.eqb_spec (length (List.filter (λ kr : string * DelegationRow,
    same_pair s (as_sql_str cap) kr.2 && String.eqb kr.2.(deleg_status) "StaleOnNextUse")
    (map_to_list d.(delegations)))) 0) as [Hz|Hn]; [by eexists |].
  apply filter_length_pos in Hn as ([id r] & Hin & [Hp Hs]%andb_true_iff).
  apply elem_of_map_to_list in Hin. cbn [snd] in Hp, Hs. apply String.eqb_eq in Hs.
  rewrite (Hall _ _ Hin Hp) in Hs. discriminate.
Qed.

Lemma grant_on_spent now s id cap scope by_ ttl uses sig pk mx d :
  spent s cap d.(delegations) →
  ∃ e, (grant_delegation sha256 verify columns now s id cap scope by_ ttl uses sig pk mx d).1 = Err e.
Proof.
  intros [(i & r & Hr & Hp) _].
  destruct (grant_run sha256 verify columns now s id cap scope by_ ttl uses sig pk mx d)
    as [(e & ->)|(r' & _ & _ & _ & Hno & _)]; [by eexists |].
  assert (H : (i, r) ∈ pair_rows s cap d) by (by apply elem_of_pair_rows).
  rewrite Hno in H. by apply elem_of_nil in H.
Qed.

Lemma check_on_spent now s cap d st d' :
  spent s (as_sql_str cap) d.(delegations) → check_capability columns now s cap d = (Ok st, d') →
  st = DelegationStatus.RenewalRequired ∨ st = DelegationStatus.Expired.
Proof.
  intros [(i & r & Hr & Hp) Hall]. unfold check_capability, mbind, se_bind.
  destruct (prepare_run columns AuthorityError.StoreError check_columns d) as [->|(c & _ & _ & ->)];
    [| discriminate]. unfold gets, mret, se_ret.
  destruct (pair_rows s (as_sql_str cap) d) as [|[k r'] l] eqn:Hl.
  { assert (H : (i, r) ∈ pair_rows s (as_sql_str cap) d) by (by apply elem_of_pair_rows).
    rewrite Hl in H. by apply elem_of_nil in H. }
  assert (H : (k, r') ∈ pair_rows s (as_sql_str cap) d) by (rewrite Hl; by left).
  apply elem_of_pair_rows in H as [Hk Hpk]. cbn [snd]. rewrite (Hall _ _ Hk Hpk).
  intros [= <- <-]. case_match; auto.
Qed.

(** The calls that would bring the pair back: another use, or a grant for it. *)
Definition revives (s : string) (cap : CapabilityClass) (c : Call) : Prop :=
  match c with
  | Use s' cap' => s' = s ∧ cap' = cap
  | Grant _ s' _ cap' _ _ _ _ _ _ _ => s' = s ∧ cap' = as_sql_str cap
  | EpochAdvance => False
  end.

Lemma revival_fails s cap c d :
  spent s (as_sql_str cap) d.(delegations) → revives s cap c →
  (run_call sha256 verify columns c d).1 = false.
Proof.
  intros Hs Hr. destruct c as [now s' id cap' scope by_ ttl uses sig pk mx|s' cap'|]; simpl in *;
    [destruct Hr as [-> ->] | destruct Hr as [-> ->] | done].
  - destruct (grant_on_spent now s id _ scope by_ ttl uses sig pk mx d Hs) as [e He].
    destruct (grant_delegation _ _ _ _ _ _ _ _ _ _ _ _ _ _ d). simpl in *. by subst.
  - destruct (use_on_spent s cap d Hs) as [e He].
    destruct (record_capability_use _ _ _ d). simpl in *. by subst.
Qed.

Lemma spent_run s cap cs d :
  spent s (as_sql_str cap) d.(delegations) →
  Forall2 (λ c b, revives s cap c → b = false) cs (run_calls sha256 verify columns cs d).1 ∧
  spent s (as_sql_str cap) (run_calls sha256 verify columns cs d).2.(delegations).
Proof.
  revert d. induction cs as [|c cs IH]; intros d Hs; simpl; [by split; [constructor |] |].
  pose proof (revival_fails s cap c d Hs) as Hf.
  pose proof (table_step_spent _ _ _ _ (run_call_step sha256 verify columns c d) Hs) as Hs1.
  destruct (run_call sha256 verify columns c d) as [b d1]. destruct (IH d1 Hs1) as [H1 H2].
  destruct (run_calls sha256 verify columns cs d1) as [bs d2]. by split; [constructor |].
Qed.

(** A delegation's grace use is final.  Once [record_capability_use]
    succeeded for a session and capability, then over any sequence of grants,
    uses and epoch advances no further use and no new grant of the pair
    succeeds, and [check_capability] answers [RenewalRequired] or [Expired]:
    the pair's UNIQUE row blocks the renewal the state machine describes. *)
Theorem grace_use_is_final s cap d d1 cs bs d2 :
  unique_pairs d.(delegations) →
  record_capability_use columns s cap d = (Ok tt, d1) →
  run_calls sha256 verify columns cs d1 = (bs, d2) →
  Forall2 (λ c b, revives s cap c → b = false) cs bs ∧
  ∀ now st d3, check_capability columns now s cap d2 = (Ok st, d3) →
    st = DelegationStatus.RenewalRequired ∨ st = DelegationStatus.Expired.
Proof.
  intros Hu Hr Hrun. pose proof (spent_run s cap cs d1 (use_spends s cap d d1 Hu Hr)) as [H1 H2].
  rewrite Hrun in H1, H2. split; [done |]. intros now st d3. by apply check_on_spent.
Qed.
End Spent.

(** ** The shipped schema *)

Lemma on_delegations_empty f d :
  d.(delegations) = ∅ → on_delegations (fmap f) d = d.
Proof. destruct d. simpl. intros ->. reflexivity. Qed.

(** With the columns the migrations create, no delegation can exist: over
    any sequence of calls on a store without delegations every grant and every
    use fails and the store never changes, and every capability check and every
    read of the table is refused by SQLite for the missing column
    [granted_at]. *)
Theorem shipped_schema_has_no_delegations sha256 verify cs d :
  d.(delegations) = ∅ →
  (run_calls sha256 verify delegations_columns cs d).2 = d ∧
  Forall2 (λ c b, c ≠ EpochAdvance → b = false) cs
    (run_calls sha256 verify delegations_columns cs d).1 ∧
  ∀ now s cap, check_capability delegations_columns now s cap d =
    (Err (AuthorityError.StoreError (SqlNoSuchColumn "granted_at")), d).
Proof.
  intros Hd. cut ((run_calls sha256 verify delegations_columns cs d).2 = d ∧
    Forall2 (λ c b, c ≠ EpochAdvance → b = false) cs
      (run_calls sha256 verify delegations_columns cs d).1); [intros [? ?]; by split_and! |].
  induction cs as [|c cs IH]; simpl; [by split; [| constructor] |].
  assert (Hc : (run_call sha256 verify delegations_columns c d).2 = d ∧
    (c ≠ EpochAdvance → (run_call sha256 verify delegations_columns c d).1 = false)).
  { destruct c as [now s id cap scope by_ ttl uses sig pk mx|s cap|]; cbn [run_call].
    - destruct (grant_run sha256 verify delegations_columns now s id cap scope by_ ttl uses sig pk mx d)
        as [(e & ->)|(r & _ & _ & _ & _ & Hsub)]; [done |].
      exfalso. assert (H : "scope_json" ∈ delegations_columns) by (apply Hsub; set_solver).
      revert H. by vm_compute; set_solver.
    - destruct (use_run delegations_columns s cap d) as [(e & ->)| ->]; [done |].
      rewrite on_delegations_empty by done. rewrite Hd. done.
    - unfold mark_stale_on_epoch_advance, mbind, se_bind. rewrite prepare_ok by set_solver.
      unfold se_map_err, update_status. cbn [map_err]. by rewrite on_delegations_empty. }
  destruct (run_call sha256 verify delegations_columns c d) as [b d1]. cbn [fst snd] in Hc.
  destruct Hc as [-> Hb].
  destruct (run_calls sha256 verify delegations_columns cs d) as [bs d2]. cbn [fst snd] in IH |- *.
  destruct IH as [-> H]. by split; [| constructor].
Qed.

(** ** The signing domain is unambiguous *)

Lemma scope_bytes_inj a b : scope_bytes a = scope_bytes b → a = b.
Proof.
  destruct a as [a|], b as [b|]; simpl; intros H; [| done..].
  f_equal. apply chars_inj, sized_inj. apply (f_equal tail) in H. exact H.
Qed.

(** Two grants with the same canonical signing bytes are the same grant:
    when session id, capability and role id hold no NUL byte, every field is
    determined by the bytes the operator signs, so a signature cannot be
    re-read as a grant of another session, capability, role, expiry or scope. *)
Theorem signing_domain_injective s s' cap cap' role role' exp exp' scope scope' :
  nul_free s → nul_free s' → nul_free cap → nul_free cap' → nul_free role → nul_free role' →
  in_u64 exp → in_u64 exp' →
  canonical_bytes s cap role exp scope = canonical_bytes s' cap' role' exp' scope' →
  s = s' ∧ cap = cap' ∧ role = role' ∧ exp = exp' ∧ scope = scope'.
Proof.
  intros Hs Hs' Hc Hc' Hr Hr' He He' H. unfold canonical_bytes in H.
  apply app_inv_head in H. apply (f_equal tail) in H. cbn [tail] in H.
  apply field_inj in H as [-> H]; [| done..]. apply field_inj in H as [-> H]; [| done..].
  apply field_inj in H as [-> H]; [| done..].
  apply app_inj_1 in H as [He1 H]; [| by rewrite !le_bytes_length].
  apply le_bytes_inj in He1; [| widths; lia..].
  apply (f_equal tail) in H. cbn [tail] in H.
  split_and!; [done.. | by apply scope_bytes_inj].
Qed.

(** ** With a table that has the columns the code writes *)

(** On a table with the columns the code uses, a successful grant was within
    the TTL limit and signed for exactly its fields, and until it expires
    [check_capability] finds it [Active]. *)
Theorem grant_then_check sha256 verify columns now s id cap scope by_ ttl uses sig pk max_ttl d d' t st d'' :
  check_columns ⊆ columns →
  grant_delegation sha256 verify columns now s id (as_sql_str cap) scope by_ ttl uses sig pk max_ttl d
    = (Ok tt, d') →
  check_capability columns t s cap d' = (st, d'') →
  (ttl ≤ max_ttl)%Z ∧
  verify_delegation_grant sha256 verify pk sig s (as_sql_str cap) by_
    (wrap_add_i64 now (as_i64 ttl) mod 2^64) scope = true ∧
  st = Ok (if (wrap_add_i64 now (as_i64 ttl) <=? t)%Z then DelegationStatus.Expired
           else DelegationStatus.Active).
Proof.
  intros Hcols Hg Hc.
  assert (Hpre : (ttl ≤ max_ttl)%Z ∧ verify_delegation_grant sha256 verify pk sig s (as_sql_str cap)
    by_ (wrap_add_i64 now (as_i64 ttl) mod 2^64) scope = true).
  { revert Hg. unfold grant_delegation. destruct (Z.ltb_spec max_ttl ttl); [discriminate |].
    destruct (verify_delegation_grant _ _ _ _ _ _ _ _ _); [by split; [lia |] | discriminate]. }
  destruct Hpre as [H1 H2]. split_and!; [done.. |].
  destruct (grant_run sha256 verify columns now s id (as_sql_str cap) scope by_ ttl uses sig pk max_ttl d)
    as [(e & He)|(r & Hr & Hrow & Hstep & Hno & _)]; rewrite Hg in *; [congruence |].
  apply (f_equal snd) in Hr. cbn [snd] in Hr. subst d'.
  revert Hc. unfold check_capability, mbind, se_bind. rewrite prepare_ok by done.
  unfold gets, mret, se_ret.
  destruct (pair_rows s (as_sql_str cap) (on_delegations <[id := r]> d)) as [|[k x] l] eqn:Hl.
  { assert (H : (id, r) ∈ pair_rows s (as_sql_str cap) (on_delegations <[id := r]> d)).
    { apply elem_of_pair_rows. split; [apply lookup_insert_eq |]. rewrite Hrow. by apply same_pair_iff. }
    rewrite Hl in H. by apply elem_of_nil in H. }
  assert (H : (k, x) ∈ pair_rows s (as_sql_str cap) (on_delegations <[id := r]> d))
    by (rewrite Hl; by left).
  apply elem_of_pair_rows in H as [Hk Hp].
  change (<[id := r]> d.(delegations) !! k = Some x) in Hk.
  apply lookup_insert_Some in Hk as [[-> <-]|[_ Hk]].
  - rewrite Hrow. cbn [deleg_expires_at deleg_status snd]. by case_match; intros [= <- _].
  - exfalso. assert (H : (k, x) ∈ pair_rows s (as_sql_str cap) d) by (by apply elem_of_pair_rows).
    rewrite Hno in H. by apply elem_of_nil in H.
Qed.

(** ** Witnesses: a table with the columns of the code and of the schema, a
    verifier that accepts every signature and the identity as hash *)

Definition demo_columns : list string := delegations_columns ++ insert_columns.
Definition demo_verify : Ed25519 := trusting (λ _ _ _, true).
Definition demo_sig_bytes : list byte := replicate 64 NUL.
Definition demo_pk_bytes : list byte := replicate 32 NUL.
Definition demo_session : SessionRow :=
  MkSessionRow "Planner" "tok" "lin" None None None 0 0 0 1000 false None None false None.
Definition demo_deleg_db : Db := on_sessions <["s" := demo_session]> empty_db.
Definition demo_grant : Db :=
  (grant_delegation (λ l, l) demo_verify demo_columns 10 "s" "g1" "InfraRead" None "op" 100 None
     demo_sig_bytes demo_pk_bytes 3600 demo_deleg_db).2.
Definition demo_stale : Db := (mark_stale_on_epoch_advance demo_columns demo_grant).2.

Lemma demo_unique : unique_pairs demo_stale.(delegations).
Proof.
  intros id id' r r' H H'. change (demo_stale.(delegations)) with
    ({[ "g1" := MkDelegationRow "s" "InfraRead" None "op" 10 110 0 None "StaleOnNextUse" ]}
      : gmap string DelegationRow) in *.
  apply lookup_singleton_Some in H as [<- _]. by apply lookup_singleton_Some in H' as [<- _].
Qed.

Lemma grace_use_is_final_witness :
  Forall2 (λ c b, revives "s" CapabilityClass.InfraRead c → b = false)
    [EpochAdvance; Use "s" CapabilityClass.InfraRead;
     Grant 20 "s" "g2" "InfraRead" None "op" 50 None demo_sig_bytes demo_pk_bytes 3600]
    [true; false; false].
Proof.
  eapply (grace_use_is_final (λ l, l) demo_verify demo_columns "s" CapabilityClass.InfraRead
            demo_stale); [apply demo_unique | reflexivity | reflexivity].
Defined.

Lemma shipped_schema_has_no_delegations_witness :
  (run_calls (λ l, l) demo_verify delegations_columns
     [Grant 10 "s" "g1" "InfraRead" None "op" 100 None demo_sig_bytes demo_pk_bytes 3600] demo_deleg_db).2 = demo_deleg_db.
Proof. apply shipped_schema_has_no_delegations. reflexivity. Defined.

Lemma signing_domain_injective_witness :
  "s" = "s" ∧ "InfraRead" = "InfraRead" ∧ "op" = "op" ∧ 110%Z = 110%Z ∧ Some "{}" = Some "{}".
Proof.
  apply signing_domain_injective; [by apply (bool_decide_unpack _).. | widths; lia | widths; lia |].
  reflexivity.
Defined.

Lemma grant_then_check_witness :
  (100 ≤ 3600)%Z ∧
  verify_delegation_grant (λ l, l) demo_verify demo_pk_bytes demo_sig_bytes "s" "InfraRead" "op" 110 None = true ∧
  Ok (E := AuthorityError) DelegationStatus.Active = Ok DelegationStatus.Active.
Proof.
  apply (grant_then_check (λ l, l) demo_verify demo_columns 10 "s" "g1" CapabilityClass.InfraRead
           None "op" 100 None demo_sig_bytes demo_pk_bytes 3600 demo_deleg_db demo_grant 50
           (Ok DelegationStatus.Active) demo_grant);
    [by apply (bool_decide_unpack _) | reflexivity | reflexivity].
Defined.
