(* ===== verification/Toml.v ===== *)
(** * TOML documents

    The plan and policy readers use the [toml] crate.  Its documents are an
    abstract type with the accessors the code calls; a component that reads a
    document is stated for any instance. *)

From S2P Require Import Prelude.

Class Toml := {
  Value : Type;
  Table : Type;
  toml_from_str : string → option Value;     (* toml::from_str(..).ok() *)
  value_get : Value → string → option Value; (* Value::get(key) *)
  table_get : Table → string → option Value; (* Table::get(key) *)
  as_table : Value → option Table;
  as_array : Value → option (list Value);
  as_str : Value → option string;
}.

(** [doc.get(section).and_then(as_table).and_then(|t| t.get(key)).and_then(as_str)] *)
Definition section_str `{Toml} (doc : Value) (section key : string) : option string :=
  v ← value_get doc section; t ← as_table v; w ← table_get t key; as_str w.
