(* ===== verification/Gates.v ===== *)
(** * Gate evaluation

    [kernel/src/gates/policy_lookup.rs], [claim.rs], [witness.rs] and [mod.rs],
    with the witness lookup of [kernel/src/witness_index.rs] and the gate phase
    of [handle_inner] in [kernel/src/handlers/intent.rs].

    The clock is read once per capability check ([clock] gives the reading for
    each claim).  [SELECT .. ORDER BY recorded_at DESC LIMIT 1] leaves ties to
    SQLite: [newest] stands for its choice and [Newest] for what the query
    promises.  Spawning verifiers is process I/O and happens after the parts
    modelled here. *)

From Stdlib Require Import Ascii.
From stdpp Require Import pretty.
From S2P Require Import Prelude Fsm Store Policy Session Glob Delegation Toml.

(** ** Data *)

Inductive ClaimType : Type :=
  | Named (s : string)
  | StrictDefault.
#[export] Instance ClaimType_eq_dec : EqDecision ClaimType.
Proof. solve_decision. Defined.

Definition claim_as_str (c : ClaimType) : string :=
  match c with Named s => s | StrictDefault => "StrictDefault" end.

Record SubmittedClaim := MkSubmittedClaim {
  sc_claim_type : string;
  sc_evidence_ref : option string;
}.

Module GateError.
Inductive GateError : Type :=
  | PolicyMisconfigured (reason : string)
  | AuthorityError (e : AuthorityError)
  | WitnessError (result_class : string)
  | VerifierCapExceeded (task_id gate_type : string)
  | VerifierAlreadyActive (task_id gate_type evaluation_sha verifier_run_id : string)
  | VerifierBudgetExhausted (task_id : string) (cumulative_seconds budget_seconds : Z)
  | SpawnFailed (gate_type reason : string)
  | StoreError (reason : string).
End GateError.
Abbreviation GateError := GateError.GateError.

Inductive ResultClass : Type := Pass | Fail_ | Inconclusive.
#[export] Instance ResultClass_eq_dec : EqDecision ResultClass.
Proof. solve_decision. Defined.
Definition result_class_as_str (r : ResultClass) : string :=
  match r with Pass => "Pass" | Fail_ => "Fail" | Inconclusive => "Inconclusive" end.
Definition result_class_from_str (s : string) : option ResultClass :=
  if String.eqb s "Pass" then Some Pass
  else if String.eqb s "Fail" then Some Fail_
  else if String.eqb s "Inconclusive" then Some Inconclusive
  else None.

Record WitnessRecord := MkWitnessRecord {
  wr_verifier_run_id : string;
  wr_evaluation_sha : string;
  wr_task_id : string;
  wr_gate_type : string;
  wr_result_class : ResultClass;
  wr_blob_sha256 : string;
  wr_blob_path : string;
  wr_recorded_at : Z;
}.

Inductive ClaimCheckResult : Type :=
  | Sufficient
  | SufficientStale (stale_capabilities : list CapabilityClass)
  | Insufficient (failing_claims : list string)
  | DelegationInsufficient (claim_type : string)
  | ScopeInsufficient (claim_type : string) (uncovered_paths : list string).

Inductive PreSpawnDecision : Type :=
  | PreSpawnPass (delegate_renewal_required : bool)
  | PreSpawnClaimInsufficient (reason : string)
  | NeedsVerifierSpawn (missing_gates : list string).

Inductive GateEvalResult : Type :=
  | GatePass (delegate_renewal_required : bool)
  | BreakglassPass (activation_id : string)
  | ClaimInsufficient (reason : string)
  | PendingWitness (missing_gates : list string).

Record GateRuntimeContext := MkGateRuntimeContext {
  ctx_initiative_id : option string;
  ctx_workspace_name : option string;
  ctx_lane_id : option string;
  ctx_task_agent_type : option string;
  ctx_environment : option string;
  ctx_hook : string;
}.

(** ** Policy lookup *)

(** [rules.iter().find(|rule| glob_matches(&rule.path_glob, &path_str))] *)
Definition matching_rule (policy : PolicyBundle) (path : string) : option ClaimRule :=
  List.find (λ rule, glob_matches rule.(path_glob) path) policy.(claim_rules).

Definition default_deny (policy : PolicyBundle) : bool :=
  negb (String.eqb policy.(claim_default_action) "permit").

(** What one path inserts into the set. *)
Definition path_claims (policy : PolicyBundle) (path : string) : list ClaimType :=
  match matching_rule policy path with
  | Some rule => Named <$> rule.(claim_types)
  | None => if default_deny policy then [StrictDefault] else []
  end.

(** [out.sort_by_key(|ct| ct.as_str())] *)
Definition claim_le (a b : ClaimType) : Prop := str_le (claim_as_str a) (claim_as_str b).
#[export] Instance claim_le_dec a b : Decision (claim_le a b).
Proof. unfold claim_le. apply _. Defined.
#[export] Instance claim_le_total : Total claim_le.
Proof. intros a b. unfold claim_le. apply (total str_le). Qed.

Definition required_claims (paths : list string) (policy : PolicyBundle)
    : result GateError (list ClaimType) :=
  let any_unmatched :=
    default_deny policy && existsb (λ p, negb (bool_decide (is_Some (matching_rule policy p)))) paths in
  let claims := remove_dups (mjoin (path_claims policy <$> paths)) in
  if default_deny policy && negb any_unmatched && bool_decide (claims = [])
  then Err (GateError.PolicyMisconfigured
              "default_action=deny but all matched paths have empty claim_types")
  else Ok (merge_sort claim_le claims).

Definition check_claim_scope (claim : SubmittedClaim) (paths : list string) : list string :=
  List.filter (λ p, negb (glob_matches (default "**" claim.(sc_evidence_ref)) p)) paths.

(** ** Claims *)

Record ClaimAcc := MkClaimAcc {
  acc_failing : list string;
  acc_scope : option (string * list string);
  acc_stale : list CapabilityClass;
}.

Section Claims.
Variable columns : list string.
Variable clock : string → Z.

(** Step A for one claim: [Ok None] proceeds, [Ok (Some cap)] proceeds on the
    grace use of [cap], [Err] ends the evaluation. *)
Inductive Delegated : Type :=
  | Proceed
  | ProceedStale (cap : CapabilityClass)
  | Blocked.

Definition delegation_step (session_id claim_type : string) : M GateError Delegated :=
  match from_sql_str (A := CapabilityClass) claim_type with
  | None => mret Proceed
  | Some cap =>
      st ← se_map_err GateError.AuthorityError
             (check_capability columns (clock claim_type) session_id cap);
      mret (match st with
            | DelegationStatus.Active => Proceed
            | DelegationStatus.StaleOnNextUse => ProceedStale cap
            | DelegationStatus.NotGranted | DelegationStatus.Expired
            | DelegationStatus.RenewalRequired => Blocked
            end)
  end.

(** Steps B and C for one claim. *)
Definition submission_step (submitted : list SubmittedClaim) (touched_paths : list string)
    (claim_type : string) (acc : ClaimAcc) : ClaimAcc :=
  match List.find (λ s, String.eqb s.(sc_claim_type) claim_type) submitted with
  | None => MkClaimAcc (acc.(acc_failing) ++ [claim_type]) acc.(acc_scope) acc.(acc_stale)
  | Some claim =>
      match acc.(acc_scope) with
      | Some _ => acc
      | None =>
          match check_claim_scope claim touched_paths with
          | [] => acc
          | uncovered => MkClaimAcc acc.(acc_failing) (Some (claim_type, uncovered)) acc.(acc_stale)
          end
      end
  end.

Definition finish (acc : ClaimAcc) : ClaimCheckResult :=
  match acc.(acc_scope) with
  | Some (ct, uncovered) => ScopeInsufficient ct uncovered
  | None =>
      match acc.(acc_failing) with
      | [] => match acc.(acc_stale) with [] => Sufficient | caps => SufficientStale caps end
      | failing => Insufficient failing
      end
  end.

Fixpoint evaluate_loop (session_id : string) (required : list ClaimType)
    (submitted : list SubmittedClaim) (touched_paths : list string) (acc : ClaimAcc)
    : M GateError ClaimCheckResult :=
  match required with
  | [] => mret (finish acc)
  | StrictDefault :: _ => mret (DelegationInsufficient "StrictDefault")
  | Named ct :: required' =>
      step ← delegation_step session_id ct;
      match step with
      | Blocked => mret (DelegationInsufficient ct)
      | Proceed =>
          evaluate_loop session_id required' submitted touched_paths
            (submission_step submitted touched_paths ct acc)
      | ProceedStale cap =>
          evaluate_loop session_id required' submitted touched_paths
            (submission_step submitted touched_paths ct
               (MkClaimAcc acc.(acc_failing) acc.(acc_scope) (acc.(acc_stale) ++ [cap])))
      end
  end.

Definition evaluate (session_id : string) (required : list ClaimType)
    (submitted : list SubmittedClaim) (touched_paths : list string) : M GateError ClaimCheckResult :=
  evaluate_loop session_id required submitted touched_paths (MkClaimAcc [] None []).
End Claims.

(** ** Witness lookup *)

Definition parse_row (kw : string * WitnessRow) : result GateError WitnessRecord :=
  match result_class_from_str kw.2.(wit_result_class) with
  | Some rc => Ok (MkWitnessRecord kw.1 kw.2.(wit_evaluation_sha) kw.2.(wit_task_id)
                     kw.2.(wit_gate_type) rc kw.2.(wit_blob_sha256) kw.2.(wit_blob_path)
                     kw.2.(wit_recorded_at))
  | None => Err (GateError.WitnessError kw.2.(wit_result_class))
  end.

Definition witness_rows (evaluation_sha task_id gate : string) (d : Db)
    : list (string * WitnessRow) :=
  List.filter (λ kw : string * WitnessRow,
      String.eqb kw.2.(wit_evaluation_sha) evaluation_sha && String.eqb kw.2.(wit_task_id) task_id &&
      String.eqb kw.2.(wit_gate_type) gate)
    (map_to_list d.(witness_records)).

(** What [ORDER BY recorded_at DESC LIMIT 1] promises of the row it returns. *)
Record Newest (newest : list (string * WitnessRow) → option (string * WitnessRow)) : Prop := {
  newest_some l : l ≠ [] → is_Some (newest l);
  newest_in l kw : newest l = Some kw → kw ∈ l;
  newest_max l kw kw' : newest l = Some kw → kw' ∈ l →
    (kw'.2.(wit_recorded_at) ≤ kw.2.(wit_recorded_at))%Z;
}.

Section Evaluation.
Variable newest : list (string * WitnessRow) → option (string * WitnessRow).

Definition lookup_witness (evaluation_sha task_id gate : string) (verifier_run_id : option string)
    (d : Db) : result GateError (option WitnessRecord) :=
  let row := match verifier_run_id with
             | Some run_id => pair run_id <$> d.(witness_records) !! run_id
             | None => newest (witness_rows evaluation_sha task_id gate d)
             end in
  match row with
  | None => Ok None
  | Some kw => r ← parse_row kw; mret (Some r)
  end.

Definition is_pass (o : option WitnessRecord) : bool :=
  match o with Some r => bool_decide (r.(wr_result_class) = Pass) | None => false end.

(** ** Which gates apply *)

Definition gate_satisfies_claim (gate : GateEntry) (claim : string) : bool :=
  String.eqb gate.(gate_type) claim ||
  bool_decide (gate.(gate_claim_type) = Some claim) ||
  existsb (λ v, String.eqb v claim) gate.(satisfies).

Definition selector_matches (values : list string) (runtime_value : option string) : bool :=
  match values with
  | [] => true
  | _ => match runtime_value with
         | None => true
         | Some v => existsb (λ x, String.eqb x v) values
         end
  end.

Definition path_selector_matches (globs touched_paths : list string) : bool :=
  match globs, touched_paths with
  | [], _ => true
  | _, [] => true
  | _, _ => existsb (λ p, existsb (λ g, glob_matches g p) globs) touched_paths
  end.

Definition gate_applies (gate : GateEntry) (ctx : GateRuntimeContext) (touched_paths : list string)
    : bool :=
  let s := gate.(selectors) in
  selector_matches s.(workspaces) ctx.(ctx_workspace_name)
  && selector_matches s.(lane_ids) ctx.(ctx_lane_id)
  && selector_matches s.(task_agent_types) ctx.(ctx_task_agent_type)
  && selector_matches s.(environments) ctx.(ctx_environment)
  && selector_matches s.(hooks) (Some ctx.(ctx_hook))
  && path_selector_matches s.(path_globs) touched_paths.

Definition lookup_plan_bytes_for_gate_context (d : Db) (initiative_id : string) : option string :=
  match d.(signed_plan_artifacts) !! initiative_id with
  | Some bytes => Some bytes
  | None =>
      row ← d.(initiatives) !! initiative_id;
      bundle ← row.(ini_plan_bundle_sha256);
      pba_artifact_bytes <$>
        List.find (λ a, String.eqb a.(pba_bundle_sha256) bundle &&
                        String.eqb a.(pba_artifact_name) "plan.toml") d.(plan_bundle_artifacts)
  end.

Context `{Toml}.

(** [session_agent_type] of the plan entry of the task, [Executor] when absent. *)
Definition planned_agent_type (doc : Value) (task_id : string) : option string :=
  match (t ← value_get doc "tasks"; l ← as_array t;
         entry ← List.find (λ e, bool_decide ((v ← value_get e "task_id"; as_str v) = Some task_id)) l;
         v ← value_get entry "session_agent_type"; as_str v) with
  | Some a => Some a
  | None => Some "Executor"
  end.

Definition read_gate_runtime_context (d : Db) (task_id : string) : GateRuntimeContext :=
  match d.(tasks) !! task_id with
  | None => MkGateRuntimeContext None None None None None "complete_task"
  | Some row =>
      let base := MkGateRuntimeContext (Some row.(task_initiative_id)) None (Some row.(task_lane_id))
                    None None "complete_task" in
      match (bytes ← lookup_plan_bytes_for_gate_context d row.(task_initiative_id);
             toml_from_str bytes) with
      | None => base
      | Some doc =>
          MkGateRuntimeContext (Some row.(task_initiative_id)) (section_str doc "workspace" "name")
            (Some row.(task_lane_id)) (planned_agent_type doc task_id)
            (section_str doc "workspace" "environment") "complete_task"
      end
  end.

Definition applicable_gates (policy : PolicyBundle) (d : Db) (task_id : string)
    (touched_paths : list string) : list GateEntry :=
  List.filter (λ gate, gate_applies gate (read_gate_runtime_context d task_id) touched_paths)
    policy.(gates).

(** ** Step 2.5: claims derived from the kernel's own witnesses *)

Section PreSpawn.
Variable columns : list string.
Variable clock : string → Z.
Variables evaluation_sha task_id : string.

Definition passing_witness (gate : string) (d : Db) : result GateError (option WitnessRecord) :=
  r ← lookup_witness evaluation_sha task_id gate None d;
  mret (if is_pass r then r else None).

Definition synthetic_claim (claim : string) (rec : WitnessRecord) : SubmittedClaim :=
  MkSubmittedClaim claim (Some rec.(wr_blob_sha256)).

(** The inner loop over the applicable gates, which stops at the first passing witness. *)
Fixpoint claim_from_gates (claim : string) (gs : list GateEntry) (d : Db)
    : result GateError (option SubmittedClaim) :=
  match gs with
  | [] => mret None
  | g :: gs' =>
      if gate_satisfies_claim g claim then
        r ← passing_witness g.(gate_type) d;
        match r with
        | Some rec => mret (Some (synthetic_claim claim rec))
        | None => claim_from_gates claim gs' d
        end
      else claim_from_gates claim gs' d
  end.

(** One round of the loop over the required claims, with the fallback on a
    witness whose gate type is the claim itself. *)
Definition derive_claim (gs : list GateEntry) (d : Db) (effective : list SubmittedClaim)
    (req : ClaimType) : result GateError (list SubmittedClaim) :=
  let claim := claim_as_str req in
  if String.eqb claim "StrictDefault" then mret effective
  else
    found ← claim_from_gates claim gs d;
    let effective := effective ++ option_list found in
    if existsb (λ c, String.eqb c.(sc_claim_type) claim) effective then mret effective
    else
      r ← passing_witness claim d;
      mret (effective ++ option_list (synthetic_claim claim <$> r)).

Fixpoint derive_claims (gs : list GateEntry) (d : Db) (effective : list SubmittedClaim)
    (required : list ClaimType) : result GateError (list SubmittedClaim) :=
  match required with
  | [] => mret effective
  | req :: required' =>
      effective' ← derive_claim gs d effective req;
      derive_claims gs d effective' required'
  end.

(** Step 4: the gates whose newest witness is not a pass. *)
Fixpoint missing_gates (gate_types : list string) (d : Db) : result GateError (list string) :=
  match gate_types with
  | [] => mret []
  | g :: gs =>
      r ← lookup_witness evaluation_sha task_id g None d;
      rest ← missing_gates gs d;
      mret (if is_pass r then rest else g :: rest)
  end.

Fixpoint join_comma (l : list string) : string :=
  match l with [] => "" | [x] => x | x :: l' => x +:+ ", " +:+ join_comma l' end.

Definition insufficiency (r : ClaimCheckResult) : string :=
  match r with
  | Insufficient failing => "missing submitted claims: " +:+ join_comma failing
  | DelegationInsufficient ct => "delegation insufficient for claim type: " +:+ ct
  | ScopeInsufficient ct uncovered =>
      "scope insufficient for " +:+ ct +:+ ": " +:+ pretty (N.of_nat (length uncovered)) +:+ " path(s) uncovered"
  | _ => ""
  end.

(** Step 4 after the claims were found sufficient: the witness of every gate,
    then the grace uses. *)
Definition witness_step (session_id : string) (gate_types : list string)
    (stale_capabilities : list CapabilityClass) (delegate_renewal_required : bool)
    : M GateError PreSpawnDecision :=
  missing ← (λ d, (missing_gates gate_types d, d));
  match missing with
  | [] =>
      _ ← (if delegate_renewal_required
           then for_each (λ cap, se_map_err GateError.AuthorityError
                                   (record_capability_use columns session_id cap)) stale_capabilities
           else mret tt);
      mret (PreSpawnPass delegate_renewal_required)
  | _ => mret (NeedsVerifierSpawn missing)
  end.

(** Steps 2.5 to 4, past the fast path. *)
Definition evaluate_claims_and_witnesses (session_id : string) (touched_paths : list string)
    (required : list ClaimType) (gs : list GateEntry) : M GateError PreSpawnDecision :=
  effective ← (λ d, (derive_claims gs d [] required, d));
  verdict ← evaluate columns clock session_id required effective touched_paths;
  match verdict with
  | Sufficient => witness_step session_id (gate_type <$> gs) [] false
  | SufficientStale caps => witness_step session_id (gate_type <$> gs) caps true
  | _ => mret (PreSpawnClaimInsufficient (insufficiency verdict))
  end.

Definition evaluate_pre_spawn (session_id : string) (touched_paths : list string)
    (policy : PolicyBundle) : M GateError PreSpawnDecision :=
  required ← lift_result (required_claims touched_paths policy);
  gs ← gets (λ d, applicable_gates policy d task_id touched_paths);
  match required, gs with
  | [], [] => mret (PreSpawnPass false)
  | _, _ => evaluate_claims_and_witnesses session_id touched_paths required gs
  end.

(** ** The initial intent path

    [evaluate_claims_impl] with [spawn_missing_verifiers] false, after the
    break-glass check of step 1. *)
Inductive BreakglassStatus : Type :=
  | BreakglassActive (activation_id : string)
  | BreakglassInactive.

Definition evaluate_claims_defer_verifier_spawn (breakglass : BreakglassStatus) (session_id : string)
    (touched_paths : list string) (policy : PolicyBundle) : M GateError GateEvalResult :=
  match breakglass with
  | BreakglassActive activation_id => mret (BreakglassPass activation_id)
  | BreakglassInactive =>
      pre ← evaluate_pre_spawn session_id touched_paths policy;
      mret (match pre with
            | PreSpawnPass b => GatePass b
            | PreSpawnClaimInsufficient reason => ClaimInsufficient reason
            | NeedsVerifierSpawn missing => PendingWitness missing
            end)
  end.

(** Phase B of [handle_inner]: the pending gates and the stale warning, or the
    refusal [FailMissingWitness]. *)
Definition gate_phase (r : result GateError GateEvalResult) : result unit (list string * bool) :=
  match r with
  | Err _ | Ok (ClaimInsufficient _) => Err tt
  | Ok (PendingWitness missing) => Ok (missing, false)
  | Ok (GatePass b) => Ok ([], b)
  | Ok (BreakglassPass _) => Ok ([], false)
  end.
End PreSpawn.
End Evaluation.

(** ** Required claims *)

Lemma elem_of_path_claims policy p c :
  c ∈ path_claims policy p ↔
  (∃ rule s, matching_rule policy p = Some rule ∧ s ∈ rule.(claim_types) ∧ c = Named s) ∨
  (matching_rule policy p = None ∧ default_deny policy = true ∧ c = StrictDefault).
Proof.
  unfold path_claims. destruct (matching_rule policy p) as [rule|].
  - rewrite list_elem_of_fmap. split; [intros (s & -> & H); left; eauto |].
    intros [(r & s & [= <-] & H & ->)|(? & _)]; [by exists s | done].
  - destruct (default_deny policy).
    + rewrite list_elem_of_singleton. naive_solver.
    + split; [by intros ?%elem_of_nil | naive_solver].
Qed.

Lemma elem_of_collected policy paths c :
  c ∈ mjoin (path_claims policy <$> paths) ↔ ∃ p, p ∈ paths ∧ c ∈ path_claims policy p.
Proof.
  rewrite list_elem_of_join. setoid_rewrite list_elem_of_fmap.
  split; [intros (l & Hc & p & -> & Hp); eauto | intros (p & Hp & Hc); eauto].
Qed.

Lemma some_unmatched policy paths :
  existsb (λ p, negb (bool_decide (is_Some (matching_rule policy p)))) paths = true ↔
  ∃ p, p ∈ paths ∧ matching_rule policy p = None.
Proof.
  rewrite existsb_exists. setoid_rewrite <-list_elem_of_In. setoid_rewrite negb_true_iff.
  setoid_rewrite bool_decide_eq_false. setoid_rewrite eq_None_not_Some. done.
Qed.

(** The required claims are computed totally.  An answer lists, without
    duplicates and in byte order, exactly the claims of the first rule matching
    each path, and [StrictDefault] exactly when some path has no rule and the
    policy does not permit by default; an error is reported exactly when the
    policy denies by default and every path has a rule that asks for nothing,
    which includes the empty set of paths. *)
Theorem required_claims_spec paths policy :
  match required_claims paths policy with
  | Ok out =>
      NoDup out ∧ Sorted claim_le out ∧
      (∀ s, Named s ∈ out ↔ ∃ p rule, p ∈ paths ∧ matching_rule policy p = Some rule ∧
                                      s ∈ rule.(claim_types)) ∧
      (StrictDefault ∈ out ↔ default_deny policy = true ∧
                             ∃ p, p ∈ paths ∧ matching_rule policy p = None) ∧
      (default_deny policy = true → out ≠ [])
  | Err _ =>
      default_deny policy = true ∧
      ∀ p, p ∈ paths → ∃ rule, matching_rule policy p = Some rule ∧ rule.(claim_types) = []
  end.
Proof.
  unfold required_claims. set (claims := mjoin (path_claims policy <$> paths)).
  set (unmatched := existsb _ paths).
  assert (Hmem : ∀ c, c ∈ merge_sort claim_le (remove_dups claims) ↔ c ∈ claims).
  { intros c. rewrite merge_sort_Permutation. apply elem_of_remove_dups. }
  destruct (default_deny policy && negb (default_deny policy && unmatched) &&
            bool_decide (remove_dups claims = [])) eqn:Hb.
  - rewrite !andb_true_iff, negb_true_iff in Hb. destruct Hb as [[Hd Hu] Hnil].
    rewrite Hd in Hu. apply bool_decide_eq_true in Hnil. split; [done |]. intros p Hp.
    assert (Hno : ∀ c, c ∉ claims).
    { intros c Hc. rewrite <-elem_of_remove_dups, Hnil in Hc. by apply elem_of_nil in Hc. }
    destruct (matching_rule policy p) as [rule|] eqn:Hm.
    + exists rule. split; [done |]. destruct (claim_types rule) as [|s l] eqn:Hl; [done |]. exfalso.
      apply (Hno (Named s)), elem_of_collected. exists p. split; [done |]. apply elem_of_path_claims.
      left. exists rule, s. rewrite Hl. by split_and!; [| left |].
    + exfalso. apply not_true_iff_false in Hu. apply Hu, some_unmatched. eauto.
  - split_and!.
    + rewrite merge_sort_Permutation. apply NoDup_remove_dups.
    + apply Sorted_merge_sort, _.
    + intros s. rewrite Hmem. unfold claims. rewrite elem_of_collected.
      setoid_rewrite elem_of_path_claims. naive_solver.
    + rewrite Hmem. unfold claims. rewrite elem_of_collected.
      setoid_rewrite elem_of_path_claims. naive_solver.
    + intros Hd Hnil. assert (Hno : ∀ c, c ∉ claims).
      { intros c Hc. rewrite <-Hmem, Hnil in Hc. by apply elem_of_nil in Hc. }
      rewrite Hd in Hb. simpl in Hb. destruct unmatched eqn:Hu; simpl in Hb.
      * apply some_unmatched in Hu as (p & Hp & Hm). apply (Hno StrictDefault), elem_of_collected.
        exists p. split; [done |]. apply elem_of_path_claims. by right.
      * apply bool_decide_eq_false in Hb. destruct (remove_dups claims) as [|c l] eqn:Hr; [done |].
        apply (Hno c). apply elem_of_remove_dups. rewrite Hr. by left.
Qed.

(** ** Claim evaluation against its specification

    What [evaluate] documents, without its accumulators: the first claim that
    cannot proceed decides; otherwise the first claim whose submission leaves
    paths uncovered; otherwise all claims nobody submitted; otherwise the grace
    uses that were needed. *)
Section Verdict.
Context (columns : list string) (clock : string → Z) (session_id : string).
Context (submitted : list SubmittedClaim) (touched_paths : list string) (d : Db).

Definition delegated (ct : string) : result GateError Delegated :=
  (delegation_step columns clock session_id ct d).1.

Definition stops (c : ClaimType) : option (result GateError ClaimCheckResult) :=
  match c with
  | StrictDefault => Some (Ok (DelegationInsufficient "StrictDefault"))
  | Named ct =>
      match delegated ct with
      | Err e => Some (Err e)
      | Ok Blocked => Some (Ok (DelegationInsufficient ct))
      | Ok _ => None
      end
  end.

Definition claim_name (c : ClaimType) : option string :=
  match c with Named s => Some s | StrictDefault => None end.

Definition submission (ct : string) : option SubmittedClaim :=
  List.find (λ s, String.eqb s.(sc_claim_type) ct) submitted.

Definition scope_gap (ct : string) : option (string * list string) :=
  claim ← submission ct;
  match check_claim_scope claim touched_paths with [] => None | u => Some (ct, u) end.

Definition not_submitted (ct : string) : bool :=
  match submission ct with None => true | Some _ => false end.

Definition grace_use (ct : string) : option CapabilityClass :=
  match delegated ct with Ok (ProceedStale cap) => Some cap | _ => None end.

Definition claim_verdict (required : list ClaimType) : result GateError ClaimCheckResult :=
  let names := omap claim_name required in
  match head (omap stops required) with
  | Some r => r
  | None =>
      Ok (match head (omap scope_gap names) with
          | Some (ct, uncovered) => ScopeInsufficient ct uncovered
          | None =>
              match List.filter not_submitted names with
              | [] => match omap grace_use names with [] => Sufficient | caps => SufficientStale caps end
              | failing => Insufficient failing
              end
          end)
  end.

Lemma check_capability_pure now s cap :
  (check_capability columns now s cap d).2 = d.
Proof.
  unfold check_capability, mbind, se_bind.
  by destruct (prepare_run columns AuthorityError.StoreError check_columns d) as [->|(c & _ & _ & ->)].
Qed.

Lemma delegation_step_run ct :
  delegation_step columns clock session_id ct d = (delegated ct, d).
Proof.
  unfold delegated, delegation_step. destruct (from_sql_str ct) as [cap|]; [| done].
  unfold mbind, se_bind, se_map_err. pose proof (check_capability_pure (clock ct) session_id cap) as H.
  destruct (check_capability columns (clock ct) session_id cap d) as [[st|e] d']; simpl in H; by subst.
Qed.

Definition after (names : list string) (acc : ClaimAcc) : ClaimAcc :=
  MkClaimAcc (acc.(acc_failing) ++ List.filter not_submitted names)
    (match acc.(acc_scope) with Some x => Some x | None => head (omap scope_gap names) end)
    (acc.(acc_stale) ++ omap grace_use names).

Lemma after_cons ct names acc :
  after (ct :: names) acc =
  after names (submission_step submitted touched_paths ct
    (MkClaimAcc acc.(acc_failing) acc.(acc_scope) (acc.(acc_stale) ++ option_list (grace_use ct)))).
Proof.
  destruct acc as [failing sc stale].
  unfold after, submission_step, not_submitted, scope_gap, submission. cbn [acc_failing acc_scope acc_stale].
  cbn [List.filter omap list_omap head].
  destruct (List.find _ submitted) as [claim|] eqn:Hs; cbn [mbind option_bind];
    destruct sc; cbn [acc_failing acc_scope acc_stale];
    try destruct (check_claim_scope claim touched_paths); cbn [acc_failing acc_scope acc_stale];
    f_equal; rewrite <-?app_assoc; by destruct (grace_use ct).
Qed.

Lemma evaluate_loop_run required acc :
  evaluate_loop columns clock session_id required submitted touched_paths acc d =
  (match head (omap stops required) with
   | Some r => r
   | None => Ok (finish (after (omap claim_name required) acc))
   end, d).
Proof.
  revert acc. induction required as [|[ct|] required IH]; intros acc; [| | done].
  { simpl. unfold after. simpl. rewrite !app_nil_r. by destruct acc as [? [] ?]. }
  cbn [evaluate_loop]. unfold mbind at 1, se_bind. rewrite delegation_step_run.
  change (omap claim_name (Named ct :: required)) with (ct :: omap claim_name required).
  rewrite after_cons. cbn [omap list_omap stops].
  unfold grace_use. destruct (delegated ct) as [[|cap|]|e] eqn:Hd; [| | done..].
  - rewrite IH. cbn [option_list]. by destruct acc; rewrite app_nil_r.
  - by rewrite IH.
Qed.
End Verdict.

(** Claim evaluation is exactly its documented specification, changes
    nothing, and gives each failure its precedence: a claim that may not be used
    (or the default-deny sentinel) before any scope gap, a scope gap before
    missing submissions, and those before the list of grace uses. *)
Theorem evaluate_correct columns clock session_id required submitted touched_paths d :
  evaluate columns clock session_id required submitted touched_paths d =
  (claim_verdict columns clock session_id submitted touched_paths d required, d).
Proof.
  unfold evaluate. by rewrite evaluate_loop_run.
Qed.

(** ** Witness lookups *)

Section Witnesses.
Context (newest : list (string * WitnessRow) → option (string * WitnessRow)).
Context (Hnewest : Newest newest).

Lemma elem_of_witness_rows sha t g d run w :
  (run, w) ∈ witness_rows sha t g d ↔
  d.(witness_records) !! run = Some w ∧
  w.(wit_evaluation_sha) = sha ∧ w.(wit_task_id) = t ∧ w.(wit_gate_type) = g.
Proof.
  unfold witness_rows. rewrite list_elem_of_In, filter_In, <-list_elem_of_In, elem_of_map_to_list.
  rewrite !andb_true_iff, !String.eqb_eq. tauto.
Qed.

(** The gate's newest witness for the commit exists and passed. *)
Definition gate_passed (sha t g : string) (d : Db) : Prop :=
  ∃ run w, d.(witness_records) !! run = Some w ∧
    w.(wit_evaluation_sha) = sha ∧ w.(wit_task_id) = t ∧ w.(wit_gate_type) = g ∧
    w.(wit_result_class) = "Pass" ∧
    ∀ run' w', d.(witness_records) !! run' = Some w' →
      w'.(wit_evaluation_sha) = sha → w'.(wit_task_id) = t → w'.(wit_gate_type) = g →
      (w'.(wit_recorded_at) ≤ w.(wit_recorded_at))%Z.

Lemma result_class_round_trip s rc :
  result_class_from_str s = Some rc ↔ s = result_class_as_str rc.
Proof.
  unfold result_class_from_str. split.
  - repeat case_match; intros [= <-];
      repeat match goal with H : String.eqb _ _ = true |- _ => apply String.eqb_eq in H end; done.
  - intros ->. by destruct rc.
Qed.

Lemma lookup_none_run sha t g d r :
  lookup_witness newest sha t g None d = Ok r →
  match r with
  | None => witness_rows sha t g d = []
  | Some rec => ∃ w, newest (witness_rows sha t g d) = Some (rec.(wr_verifier_run_id), w) ∧
      w.(wit_result_class) = result_class_as_str rec.(wr_result_class) ∧
      w.(wit_blob_sha256) = rec.(wr_blob_sha256)
  end.
Proof using Hnewest.
  unfold lookup_witness, parse_row. destruct (newest (witness_rows sha t g d)) as [[run w]|] eqn:Hn.
  - cbn [snd]. destruct (result_class_from_str _) as [rc|] eqn:Hrc; [| discriminate].
    intros [= <-]. exists w. split; [done |]. by apply result_class_round_trip in Hrc.
  - intros [= <-]. destruct (witness_rows sha t g d) as [|x l] eqn:Hl; [done |].
    destruct (newest_some _ Hnewest (x :: l) ltac:(done)). congruence.
Qed.

Lemma lookup_pass sha t g d r :
  lookup_witness newest sha t g None d = Ok r → is_pass r = true → gate_passed sha t g d.
Proof using Hnewest.
  intros Hl Hp. destruct r as [rec|]; [| done]. apply bool_decide_eq_true in Hp.
  apply lookup_none_run in Hl as (w & Hn & Hc & _). rewrite Hp in Hc.
  pose proof (newest_in _ Hnewest _ _ Hn) as (H1 & H2 & H3 & H4)%elem_of_witness_rows.
  exists (rec.(wr_verifier_run_id)), w. split_and!; [done.. |].
  intros run' w' H' ???. apply (newest_max _ Hnewest _ _ (run', w') Hn).
  by apply elem_of_witness_rows.
Qed.

(** The CHECK constraint of [witness_records]. *)
Definition witness_classes_ok (d : Db) : Prop :=
  map_Forall (λ _ w, is_Some (result_class_from_str w.(wit_result_class))) d.(witness_records).
#[export] Instance witness_classes_ok_dec d : Decision (witness_classes_ok d).
Proof. unfold witness_classes_ok. apply _. Defined.

Lemma lookup_total sha t g d :
  witness_classes_ok d → ∃ r, lookup_witness newest sha t g None d = Ok r.
Proof using Hnewest.
  intros Hok. unfold lookup_witness. destruct (newest _) as [[run w]|] eqn:Hn; [| by eexists].
  pose proof (newest_in _ Hnewest _ _ Hn) as [H _]%elem_of_witness_rows.
  destruct (Hok _ _ H) as [rc Hrc]. unfold parse_row. cbn [snd]. rewrite Hrc. by eexists.
Qed.

Lemma missing_gates_nil sha t gs d :
  missing_gates newest sha t gs d = Ok [] → ∀ g, g ∈ gs → gate_passed sha t g d.
Proof using Hnewest.
  induction gs as [|g gs IH]; intros H g' Hg; [by apply elem_of_nil in Hg |]. simpl in H.
  destruct (lookup_witness newest sha t g None d) as [r|] eqn:Hl; [| discriminate]. simpl in H.
  destruct (missing_gates newest sha t gs d) as [rest|] eqn:Hm; [| discriminate]. simpl in H.
  destruct (is_pass r) eqn:Hp; [| discriminate]. injection H as ->.
  apply elem_of_cons in Hg as [->|Hg]; [by eapply lookup_pass | by apply IH].
Qed.

(** Whether the newest witness, as the query picks it, is a pass. *)
Definition gate_open (sha t d g : _) : bool :=
  match newest (witness_rows sha t g d) with
  | Some kw => String.eqb kw.2.(wit_result_class) "Pass"
  | None => false
  end.

Lemma missing_gates_run sha t gs d :
  witness_classes_ok d →
  missing_gates newest sha t gs d = Ok (List.filter (λ g, negb (gate_open sha t d g)) gs).
Proof using Hnewest.
  intros Hok. induction gs as [|g gs IH]; [done |]. simpl.
  destruct (lookup_total sha t g d Hok) as [r Hr]. rewrite Hr, IH. simpl.
  assert (gate_open sha t d g = is_pass r) as ->; [| by destruct (is_pass r)].
  pose proof (lookup_none_run _ _ _ _ _ Hr) as H. unfold gate_open. destruct r as [rec|]; simpl.
  - destruct H as (w & -> & Hc & _). cbn [snd]. rewrite Hc. by destruct (wr_result_class rec).
  - destruct (newest _) as [kw|] eqn:Hn; [| done]. apply (newest_in _ Hnewest) in Hn.
    rewrite H in Hn. by apply elem_of_nil in Hn.
Qed.
End Witnesses.

(** ** Derived claims *)

Section Derived.
Context (newest : list (string * WitnessRow) → option (string * WitnessRow)).
Context (Hnewest : Newest newest) (sha t : string).

(** A claim the kernel may state: a gate that satisfies it (or the gate of the
    same name) passed, and the evidence is the hash of that witness's blob. *)
Definition backed (gs : list GateEntry) (d : Db) (c : SubmittedClaim) : Prop :=
  ∃ g run w,
    (g = c.(sc_claim_type) ∨
     ∃ gate, gate ∈ gs ∧ gate_satisfies_claim gate c.(sc_claim_type) = true ∧ g = gate.(gate_type)) ∧
    gate_passed sha t g d ∧ d.(witness_records) !! run = Some w ∧
    c.(sc_evidence_ref) = Some w.(wit_blob_sha256).

Lemma passing_witness_backed claim gs d g rec :
  (g = claim ∨ ∃ gate, gate ∈ gs ∧ gate_satisfies_claim gate claim = true ∧ g = gate.(gate_type)) →
  passing_witness newest sha t g d = Ok (Some rec) → backed gs d (synthetic_claim claim rec).
Proof using Hnewest.
  intros Hg. unfold passing_witness. destruct (lookup_witness newest sha t g None d) as [r|] eqn:Hl;
    [| discriminate]. simpl. destruct (is_pass r) eqn:Hp; [| discriminate]. intros [= ->].
  pose proof (lookup_none_run _ Hnewest _ _ _ _ _ Hl) as (w & Hn & _ & Hb).
  pose proof (newest_in _ Hnewest _ _ Hn) as [H1 _]%elem_of_witness_rows.
  exists g, rec.(wr_verifier_run_id), w. split_and!; [done | by eapply lookup_pass | done |].
  simpl. by rewrite Hb.
Qed.

Lemma claim_from_gates_backed claim all gs d c :
  (∀ g, g ∈ gs → g ∈ all) → claim_from_gates newest sha t claim gs d = Ok (Some c) →
  backed all d c ∧ c.(sc_claim_type) = claim.
Proof using Hnewest.
  intros Hsub. induction gs as [|g gs IH]; [discriminate |]. simpl.
  assert (IH' := IH ltac:(intros g' Hg'; apply Hsub; by right)).
  destruct (gate_satisfies_claim g claim) eqn:Hs; [| done].
  destruct (passing_witness newest sha t (gate_type g) d) as [[rec|]|] eqn:Hp; simpl; [| done..].
  intros [= <-]. split; [| done]. apply (passing_witness_backed _ _ _ (gate_type g)); [| done].
  right. exists g. split; [apply Hsub; by left | done].
Qed.

Lemma derive_claim_backed gs d eff req out :
  derive_claim newest sha t gs d eff req = Ok out → Forall (backed gs d) eff → Forall (backed gs d) out.
Proof using Hnewest.
  unfold derive_claim. destruct (String.eqb _ "StrictDefault"); [by intros [= <-] |].
  destruct (claim_from_gates newest sha t (claim_as_str req) gs d) as [found|] eqn:Hf; [| discriminate].
  simpl. intros H Heff. assert (Heff' : Forall (backed gs d) (eff ++ option_list found)).
  { apply Forall_app. split; [done |]. destruct found as [c|]; [| constructor].
    apply Forall_singleton. by eapply claim_from_gates_backed. }
  destruct (existsb _ _); [by injection H as <- |].
  destruct (passing_witness newest sha t (claim_as_str req) d) as [r|] eqn:Hp; [| discriminate].
  simpl in H. injection H as <-. apply Forall_app. split; [done |].
  destruct r as [rec|]; [| constructor]. apply Forall_singleton.
  apply (passing_witness_backed _ _ _ (claim_as_str req)); [by left | done].
Qed.

Lemma derive_claims_backed gs d required eff out :
  derive_claims newest sha t gs d eff required = Ok out →
  Forall (backed gs d) eff → Forall (backed gs d) out.
Proof using Hnewest.
  revert eff. induction required as [|req required IH]; intros eff; simpl; [by intros [= <-] |].
  destruct (derive_claim newest sha t gs d eff req) as [eff'|] eqn:He; [| discriminate]. simpl.
  intros H Heff. apply (IH eff'); [done | by eapply derive_claim_backed].
Qed.
End Derived.

(** ** What a sufficient verdict means *)

Lemma head_omap_none {A B} (f : A → option B) l : head (omap f l) = None ↔ ∀ x, x ∈ l → f x = None.
Proof.
  induction l as [|x l IH]; simpl; [split; [by intros _ ? ?%elem_of_nil | done] |].
  destruct (f x) as [b|] eqn:Hx; simpl.
  - split; [done |]. intros H. specialize (H x ltac:(by left)). congruence.
  - rewrite IH. split; intros H y; [intros [->|Hy]%elem_of_cons; auto | intros Hy; apply H; by right].
Qed.

Definition sufficient (r : ClaimCheckResult) : bool :=
  match r with Sufficient | SufficientStale _ => true | _ => false end.

Lemma claim_verdict_sufficient columns clock s submitted touched d required r :
  claim_verdict columns clock s submitted touched d required = Ok r → sufficient r = true →
  ∀ c, c ∈ required → ∃ ct claim, c = Named ct ∧
    delegated columns clock s d ct ≠ Ok Blocked ∧ is_ok (delegated columns clock s d ct) = true ∧
    claim ∈ submitted ∧ claim.(sc_claim_type) = ct ∧ check_claim_scope claim touched = [].
Proof.
  unfold claim_verdict. destruct (head (omap (stops columns clock s d) required)) eqn:Hstop.
  { intros -> Hr. exfalso. apply head_Some_elem_of in Hstop.
    apply list_elem_of_omap in Hstop as (c & _ & Hc). destruct c as [ct|]; simpl in Hc.
    - destruct (delegated columns clock s d ct) as [[]|]; by simplify_eq.
    - by simplify_eq. }
  rewrite head_omap_none in Hstop. intros H Hr. injection H as <-.
  destruct (head (omap (scope_gap submitted touched) _)) as [[ct u]|] eqn:Hgap; [done |].
  rewrite head_omap_none in Hgap.
  destruct (List.filter (not_submitted submitted) _) as [|x l] eqn:Hns; [| done].
  intros c Hc. specialize (Hstop c Hc). destruct c as [ct|]; [| done]. simpl in Hstop.
  assert (Hin : ct ∈ omap claim_name required) by (apply list_elem_of_omap; by exists (Named ct)).
  specialize (Hgap ct Hin). unfold scope_gap in Hgap.
  assert (Hsub : not_submitted submitted ct = false).
  { apply not_true_iff_false. intros Hn.
    assert (H : ct ∈ List.filter (not_submitted submitted) (omap claim_name required))
      by (rewrite list_elem_of_In, filter_In, <-list_elem_of_In; done).
    rewrite Hns in H. by apply elem_of_nil in H. }
  unfold not_submitted in Hsub. destruct (submission submitted ct) as [claim|] eqn:Hsu; [| done].
  apply find_some in Hsu as [H1 H2%String.eqb_eq]. exists ct, claim. simpl in Hgap.
  split_and!; [done | by intros Hd; rewrite Hd in Hstop | | by apply list_elem_of_In | done |].
  - by destruct (delegated columns clock s d ct).
  - by destruct (check_claim_scope claim touched).
Qed.

(** ** The pre-spawn decision *)

Lemma on_delegations_same f d : f d.(delegations) = d.(delegations) → on_delegations f d = d.
Proof. intros H. unfold on_delegations. rewrite H. by destruct d. Qed.

(** Only the delegations table may differ. *)
Definition delegations_only (d d' : Db) : Prop := d' = on_delegations (λ _, d'.(delegations)) d.

Lemma delegations_only_refl d : delegations_only d d.
Proof. unfold delegations_only. by rewrite on_delegations_same. Qed.

Lemma record_uses_frame columns s caps d :
  delegations_only d
    (for_each (λ cap, se_map_err GateError.AuthorityError (record_capability_use columns s cap)) caps d).2.
Proof.
  cut (∀ d0, delegations_only d0 d → delegations_only d0
    (for_each (λ cap, se_map_err GateError.AuthorityError (record_capability_use columns s cap)) caps d).2);
    [intros H; apply H, delegations_only_refl |].
  intros d0. apply preserves_for_each. intros cap. apply preserves_map_err. intros d1 ->.
  destruct (use_run columns s cap (on_delegations (λ _, delegations d1) d0)) as [(e & ->)| ->];
    reflexivity.
Qed.

Section Decision.
Context (newest : list (string * WitnessRow) → option (string * WitnessRow)) `{toml : !Toml}.
Context (Hnewest : Newest newest) (columns : list string) (clock : string → Z) (sha t : string).
Abbreviation pre_spawn := (evaluate_pre_spawn newest columns clock sha t).

Lemma witness_step_run s gs caps b d :
  (∃ e, missing_gates newest sha t gs d = Err e ∧
        witness_step newest columns sha t s gs caps b d = (Err e, d)) ∨
  (∃ m ms, missing_gates newest sha t gs d = Ok (m :: ms) ∧
        witness_step newest columns sha t s gs caps b d = (Ok (NeedsVerifierSpawn (m :: ms)), d)) ∨
  (missing_gates newest sha t gs d = Ok [] ∧
   ∃ r d', witness_step newest columns sha t s gs caps b d = (r, d') ∧ delegations_only d d' ∧
     (b = false → d' = d) ∧ ∀ x, r = Ok x → x = PreSpawnPass b).
Proof.
  unfold witness_step, mbind, se_bind. destruct (missing_gates newest sha t gs d) as [[|m ms]|e];
    [right; right; split; [done |] | right; left; eauto | left; eauto].
  destruct b.
  - pose proof (record_uses_frame columns s caps d) as Hf.
    destruct (for_each _ caps d) as [[[]|e] d'];
      (eexists _, d'; split; [reflexivity |]; split; [exact Hf |]; split; [done |]; by intros x [= <-]).
  - eexists _, d. split; [reflexivity |]. split; [apply delegations_only_refl |].
    split; [done |]. by intros x [= <-].
Qed.

Lemma evaluate_claims_and_witnesses_run s touched required gs d :
  evaluate_claims_and_witnesses newest columns clock sha t s touched required gs d =
  match derive_claims newest sha t gs d [] required with
  | Err e => (Err e, d)
  | Ok eff =>
      match claim_verdict columns clock s eff touched d required with
      | Err e => (Err e, d)
      | Ok r =>
          if sufficient r
          then witness_step newest columns sha t s (gate_type <$> gs)
                 (match r with SufficientStale caps => caps | _ => [] end)
                 (match r with SufficientStale _ => true | _ => false end) d
          else (Ok (PreSpawnClaimInsufficient (insufficiency r)), d)
      end
  end.
Proof.
  unfold evaluate_claims_and_witnesses, mbind, se_bind.
  destruct (derive_claims newest sha t gs d [] required) as [eff|e]; [| done].
  rewrite evaluate_correct. by destruct (claim_verdict columns clock s eff touched d required) as [[]|].
Qed.

Lemma pre_spawn_run s touched policy d :
  pre_spawn s touched policy d =
  match required_claims touched policy with
  | Err e => (Err e, d)
  | Ok required =>
      match required, applicable_gates policy d t touched with
      | [], [] => (Ok (PreSpawnPass false), d)
      | _, gs => evaluate_claims_and_witnesses newest columns clock sha t s touched required gs d
      end
  end.
Proof.
  unfold evaluate_pre_spawn, mbind, se_bind, lift_result, gets.
  destruct (required_claims touched policy) as [[|c required]|e]; [| done..].
  by destruct (applicable_gates policy d t touched).
Qed.

(** C19: a task passes the gates only on evidence.  When the decision is a pass,
    every gate of the policy that applies to the task has a passing newest
    witness for the very commit, no path fell to default deny, every required
    claim was usable and is backed by a passing witness of a gate that
    satisfies it or carries its name, and nothing but delegation rows changed
    (nothing at all without a grace use). *)
Theorem pass_is_witnessed s touched policy d b d' :
  pre_spawn s touched policy d = (Ok (PreSpawnPass b), d') →
  (∀ gate, gate ∈ policy.(gates) →
     gate_applies gate (read_gate_runtime_context d t) touched = true →
     gate_passed sha t gate.(gate_type) d) ∧
  (∃ required, required_claims touched policy = Ok required ∧
     ∀ c, c ∈ required → ∃ ct, c = Named ct ∧ delegated columns clock s d ct ≠ Ok Blocked ∧
       ∃ g, gate_passed sha t g d ∧
         (g = ct ∨ ∃ gate, gate ∈ policy.(gates) ∧ gate_satisfies_claim gate ct = true ∧
                           g = gate.(gate_type))) ∧
  delegations_only d d' ∧ (b = false → d' = d).
Proof using Hnewest.
  intros Hrun. rewrite pre_spawn_run in Hrun.
  assert (Hgs : ∀ gate, gate ∈ policy.(gates) →
    gate_applies gate (read_gate_runtime_context d t) touched = true →
    gate ∈ applicable_gates policy d t touched).
  { intros gate Hg Ha. unfold applicable_gates.
    rewrite list_elem_of_In, filter_In, <-list_elem_of_In. done. }
  destruct (required_claims touched policy) as [required|e] eqn:Hreq; [| congruence].
  assert (Hcase : (required = [] ∧ applicable_gates policy d t touched = [] ∧ b = false ∧ d' = d) ∨
    evaluate_claims_and_witnesses newest columns clock sha t s touched required
      (applicable_gates policy d t touched) d = (Ok (PreSpawnPass b), d')).
  { destruct required; [| by right]. destruct (applicable_gates policy d t touched); [| by right].
    left. by simplify_eq. }
  clear Hrun. destruct Hcase as [(-> & Hnil & -> & ->)|Hrun].
  { split_and!; [| | apply delegations_only_refl | done].
    - intros gate Hg Ha. specialize (Hgs _ Hg Ha). rewrite Hnil in Hgs. by apply elem_of_nil in Hgs.
    - exists []. split; [done |]. by intros c ?%elem_of_nil. }
  rewrite evaluate_claims_and_witnesses_run in Hrun. rename Hrun into H.
  destruct (derive_claims newest sha t (applicable_gates policy d t touched) d [] required)
    as [eff|e] eqn:Hder; [| congruence].
  destruct (claim_verdict columns clock s eff touched d required) as [r|e] eqn:Hv; [| congruence].
  destruct (sufficient r) eqn:Hs; [| congruence].
  apply derive_claims_backed in Hder; [| done | constructor]. rewrite Forall_forall in Hder.
  match type of H with witness_step _ _ _ _ _ ?gs ?caps ?bb ?dd = _ =>
    destruct (witness_step_run s gs caps bb dd)
      as [(e & _ & Hw)|[(m & ms & _ & Hw)|(Hm & r' & d1 & Hw & Hf & Hb & Hx)]] end; [congruence.. |].
  rewrite H in Hw. injection Hw as <- <-. specialize (Hx _ eq_refl). injection Hx as ->.
  split_and!; [| | done | done].
  - intros gate Hg Ha. eapply missing_gates_nil; [done.. |]. apply list_elem_of_fmap. eauto.
  - exists required. split; [done |]. intros c Hc.
    destruct (claim_verdict_sufficient _ _ _ _ _ _ _ _ Hv Hs c Hc)
      as (ct & claim & -> & Hnb & _ & Hin & Hct & _).
    exists ct. split_and!; [done.. |]. destruct (Hder _ Hin) as (g & run & w & Hg & Hp & _).
    exists g. split; [done |]. rewrite Hct in Hg.
    destruct Hg as [->|(gate & Hgate & Hsat & ->)]; [by left | right].
    exists gate. split_and!; [| done..]. unfold applicable_gates in Hgate.
    rewrite list_elem_of_In, filter_In, <-list_elem_of_In in Hgate. by destruct Hgate.
Qed.
End Decision.

Section Ends.
Context (newest : list (string * WitnessRow) → option (string * WitnessRow)) `{toml : !Toml}.
Context (Hnewest : Newest newest) (columns : list string) (clock : string → Z) (sha t : string).
Abbreviation pre_spawn := (evaluate_pre_spawn newest columns clock sha t).

(** When no path needs a claim the decision is total and changes nothing: a
    pass when the newest witness of every applicable gate is a pass, and
    otherwise the gates still missing, in the order the policy lists them. *)
Theorem unclaimed_gates_decided s touched policy d :
  required_claims touched policy = Ok [] → witness_classes_ok d →
  pre_spawn s touched policy d =
  (Ok (match List.filter (λ g, negb (gate_open newest sha t d g))
               (gate_type <$> applicable_gates policy d t touched) with
       | [] => PreSpawnPass false
       | missing => NeedsVerifierSpawn missing
       end), d).
Proof using Hnewest.
  intros Hreq Hok. rewrite pre_spawn_run, Hreq.
  destruct (applicable_gates policy d t touched) as [|g gs] eqn:Hgs; [done |].
  rewrite evaluate_claims_and_witnesses_run. cbn [derive_claims].
  change (claim_verdict columns clock s [] touched d []) with (Ok (E := GateError) Sufficient).
  cbn [sufficient]. unfold witness_step, mbind, se_bind.
  rewrite missing_gates_run by done. by destruct (List.filter _ _).
Qed.

(** A claim the kernel derives from a witness carries the witness's blob
    hash as evidence, and the scope check reads that hash as a path pattern.  So
    whenever some claim is required and a touched path is not itself a blob hash,
    the evaluation ends in an error or in "claims insufficient", whatever
    witnesses passed: it never passes and never asks for a verifier. *)
Theorem required_claims_never_pass s touched policy d required p :
  required_claims touched policy = Ok required → required ≠ [] → p ∈ touched →
  (∀ run w, d.(witness_records) !! run = Some w →
     literal w.(wit_blob_sha256) = true ∧ w.(wit_blob_sha256) ≠ p) →
  (∃ e, pre_spawn s touched policy d = (Err e, d)) ∨
  (∃ reason, pre_spawn s touched policy d = (Ok (PreSpawnClaimInsufficient reason), d)).
Proof using Hnewest.
  intros Hreq Hne Hp Hlit. rewrite pre_spawn_run, Hreq.
  assert (Hd : ∃ gs, match required, applicable_gates policy d t touched with
    | [], [] => (Ok (PreSpawnPass false), d)
    | _, gs => evaluate_claims_and_witnesses newest columns clock sha t s touched required gs d
    end = evaluate_claims_and_witnesses newest columns clock sha t s touched required gs d)
    by (destruct required; [done | by eexists]).
  destruct Hd as [gs ->]. rewrite evaluate_claims_and_witnesses_run.
  destruct (derive_claims newest sha t gs d [] required) as [eff|e] eqn:Hder; [| eauto].
  destruct (claim_verdict columns clock s eff touched d required) as [r|e] eqn:Hv; [| eauto].
  destruct (sufficient r) eqn:Hs; [exfalso | eauto].
  destruct required as [|c required]; [done |].
  destruct (claim_verdict_sufficient _ _ _ _ _ _ _ _ Hv Hs c ltac:(by left))
    as (ct & claim & _ & _ & _ & Hin & _ & Hscope).
  apply derive_claims_backed in Hder; [| done | constructor]. rewrite Forall_forall in Hder.
  destruct (Hder _ Hin) as (g & run & w & _ & _ & Hw & Hev).
  destruct (Hlit _ _ Hw) as [Hl Hnp].
  assert (H : p ∈ check_claim_scope claim touched).
  { unfold check_claim_scope. rewrite list_elem_of_In, filter_In, <-list_elem_of_In.
    split; [done |]. rewrite Hev. cbn [default]. apply negb_true_iff, not_true_iff_false.
    cbn [from_option]. rewrite literal_matches_iff by done. intros ->. done. }
  rewrite Hscope in H. by apply elem_of_nil in H.
Qed.
End Ends.

(** ** Selectors fail closed *)

Definition less_resolved (o o' : option string) : Prop := o = None ∨ o = o'.

(** [ctx] knows at most what [ctx'] knows. *)
Definition ctx_le (ctx ctx' : GateRuntimeContext) : Prop :=
  less_resolved ctx.(ctx_workspace_name) ctx'.(ctx_workspace_name) ∧
  less_resolved ctx.(ctx_lane_id) ctx'.(ctx_lane_id) ∧
  less_resolved ctx.(ctx_task_agent_type) ctx'.(ctx_task_agent_type) ∧
  less_resolved ctx.(ctx_environment) ctx'.(ctx_environment) ∧
  ctx.(ctx_hook) = ctx'.(ctx_hook).

Lemma selector_matches_le values o o' :
  less_resolved o o' → selector_matches values o' = true → selector_matches values o = true.
Proof. intros [-> | ->]; [by destruct values | done]. Qed.

(** A gate never disappears because the kernel failed to resolve something:
    a gate that applies when the context is known applies when any part of it is
    unknown, and also when the touched paths are. *)
Theorem unresolved_context_keeps_gates gate ctx ctx' touched :
  ctx_le ctx ctx' → gate_applies gate ctx' touched = true →
  gate_applies gate ctx touched = true ∧ gate_applies gate ctx [] = true.
Proof.
  intros (H1 & H2 & H3 & H4 & H5). unfold gate_applies. rewrite !andb_true_iff, H5.
  intros [[[[[? ?] ?] ?] ?] ?].
  assert (path_selector_matches (path_globs (selectors gate)) [] = true)
    by (by destruct (path_globs (selectors gate))).
  split; split_and!; eauto using selector_matches_le.
Qed.

(** ** The query choice is realisable, and witnesses *)

Definition pick_newest (l : list (string * WitnessRow)) : option (string * WitnessRow) :=
  foldr (λ kw acc, match acc with
                   | Some kw' => if (kw'.2.(wit_recorded_at) <=? kw.2.(wit_recorded_at))%Z
                                 then Some kw else Some kw'
                   | None => Some kw
                   end) None l.

Lemma pick_newest_ok : Newest pick_newest.
Proof.
  assert (Hspec : ∀ l kw, pick_newest l = Some kw → kw ∈ l ∧ ∀ kw', kw' ∈ l →
    (kw'.2.(wit_recorded_at) ≤ kw.2.(wit_recorded_at))%Z).
  { induction l as [|x l IH]; intros kw; [done |]. cbn [pick_newest foldr]. fold (pick_newest l).
    destruct (pick_newest l) as [y|] eqn:Hy.
    - destruct (IH y eq_refl) as [Hin Hmax].
      destruct (Z.leb_spec y.2.(wit_recorded_at) x.2.(wit_recorded_at)); intros [= <-];
        (split; [set_solver |]); intros kw' [->|Hk]%elem_of_cons; try lia; specialize (Hmax _ Hk); lia.
    - intros [= <-]. split; [by left |]. intros kw' [->|Hk]%elem_of_cons; [lia |].
      destruct l as [|z l]; [by apply elem_of_nil in Hk |]. simpl in Hy.
      by destruct (pick_newest l) as [w|]; [destruct (Z.leb _ _) |]. }
  split.
  - intros [|x l]; [done |]. intros _. simpl. destruct (pick_newest l); [| by eexists].
    destruct (Z.leb _ _); by eexists.
  - intros l kw H. by apply Hspec.
  - intros l kw kw' H. by apply Hspec.
Qed.

#[local] Instance demo_toml : Toml := {|
  Value := string; Table := string; toml_from_str _ := None; value_get _ _ := None;
  table_get _ _ := None; as_table _ := None; as_array _ := None; as_str v := Some v |}.

Definition any_gate (name : string) : GateEntry :=
  MkGateEntry name None ["Reviewed"] (MkGateSelectors [] [] ["src/**"] [] [] []).
Definition gate_policy (rules : list ClaimRule) (action : string) : PolicyBundle :=
  MkPolicyBundle [] ∅ 0 0 [] rules action [any_gate "Tests"; any_gate "Lint"] 1 [] 0 0 0 0.
Definition gate_witness (gate class : string) (at_ : Z) : WitnessRow :=
  MkWitnessRow "sha" "t" gate class "00ff" "00ff" at_.
Definition gate_db : Db :=
  on_witness_records (λ _,
    {[ "r1" := gate_witness "Tests" "Fail" 1; "r2" := gate_witness "Tests" "Pass" 2;
       "r3" := gate_witness "Lint" "Pass" 3 ]}) empty_db.

Lemma pass_is_witnessed_witness : gate_passed "sha" "t" "Tests" gate_db.
Proof.
  destruct (pass_is_witnessed pick_newest pick_newest_ok delegations_columns (λ _, 0%Z) "sha" "t" "s"
              ["src/a.rs"] (gate_policy [] "permit") gate_db false gate_db) as [H _]; [reflexivity |].
  apply (H (any_gate "Tests")); [by left | reflexivity].
Defined.

Lemma unclaimed_gates_decided_witness :
  evaluate_pre_spawn pick_newest delegations_columns (λ _, 0%Z) "sha2" "t" "s" ["src/a.rs"]
    (gate_policy [] "permit") gate_db = (Ok (NeedsVerifierSpawn ["Tests"; "Lint"]), gate_db).
Proof.
  etrans; [apply (unclaimed_gates_decided pick_newest pick_newest_ok delegations_columns (λ _, 0%Z)
                    "sha2" "t" "s" ["src/a.rs"] (gate_policy [] "permit") gate_db) |];
    [reflexivity | apply (bool_decide_unpack _); vm_compute; exact I | vm_compute; reflexivity].
Defined.

Lemma required_claims_never_pass_witness :
  (∃ e, evaluate_pre_spawn pick_newest delegations_columns (λ _, 0%Z) "sha" "t" "s" ["src/a.rs"]
     (gate_policy [MkClaimRule "src/**" ["Reviewed"]] "deny") gate_db = (Err e, gate_db)) ∨
  (∃ reason, evaluate_pre_spawn pick_newest delegations_columns (λ _, 0%Z) "sha" "t" "s" ["src/a.rs"]
     (gate_policy [MkClaimRule "src/**" ["Reviewed"]] "deny") gate_db =
       (Ok (PreSpawnClaimInsufficient reason), gate_db)).
Proof.
  apply (required_claims_never_pass pick_newest pick_newest_ok delegations_columns (λ _, 0%Z) "sha" "t"
           "s" ["src/a.rs"] (gate_policy [MkClaimRule "src/**" ["Reviewed"]] "deny") gate_db
           [Named "Reviewed"] "src/a.rs"); [reflexivity | done | by left |].
  intros run w Hw. assert (w.(wit_blob_sha256) = "00ff") as ->; [| done].
  cbn [gate_db on_witness_records witness_records] in Hw.
  repeat (apply lookup_insert_Some in Hw as [[_ <-]|[_ Hw]]; [done |]).
  by apply lookup_singleton_Some in Hw as [_ <-].
Defined.

Example required_claim_blocks :
  (evaluate_pre_spawn pick_newest delegations_columns (λ _, 0%Z) "sha" "t" "s" ["src/a.rs"]
     (gate_policy [MkClaimRule "src/**" ["Reviewed"]] "deny") gate_db).1
  = Ok (PreSpawnClaimInsufficient "scope insufficient for Reviewed: 1 path(s) uncovered").
Proof. reflexivity. Qed.

Lemma unresolved_context_keeps_gates_witness :
  gate_applies (any_gate "Tests") (MkGateRuntimeContext None None None None None "complete_task")
    ["src/a.rs"] = true ∧
  gate_applies (any_gate "Tests") (MkGateRuntimeContext None None None None None "complete_task")
    [] = true.
Proof.
  apply (unresolved_context_keeps_gates _ _
           (MkGateRuntimeContext (Some "i") (Some "w") (Some "lane") (Some "Executor") None
              "complete_task")); [| reflexivity].
  split_and!; try done; by left.
Defined.
