(* ===== verification/Hosts.v ===== *)
(** * Host names, URL hosts and the egress allowlists

    The host matching that decides what a session may reach.
    [crates/egress-admission/src/lib.rs] ([EgressAllowlist], [glob_match]) decides
    for the transparent proxy, [gateway/src/policy_view.rs] ([extract_host],
    [is_url_allowed]) for mediated fetches, and
    [kernel/src/handlers/tproxy_admit.rs] repeats the former; the lists they read
    are the effective lists of [crates/policy/src/bundle.rs].  [glob_match] is
    written out three times in the source and [extract_host] four times, each
    time with the same body, and is one definition here. *)

From S2P Require Import Prelude Policy.
From Stdlib Require Import Ascii.

(** ** Text *)


Fixpoint to_ascii_lowercase (s : string) : string :=
  match s with
  | EmptyString => EmptyString
  | String c s' => String (ascii_lower c) (to_ascii_lowercase s')
  end.

Definition eq_ignore_ascii_case (a b : string) : bool :=
  String.eqb (to_ascii_lowercase a) (to_ascii_lowercase b).

Fixpoint strip_prefix (p s : string) : option string :=
  match p, s with
  | EmptyString, _ => Some s
  | String a p', String b s' => if Ascii.eqb a b then strip_prefix p' s' else None
  | String _ _, EmptyString => None
  end.

Definition strip_suffix (p s : string) : option string :=
  String.rev <$> strip_prefix (String.rev p) (String.rev s).

(** [s.ends_with(p)] *)
Definition ends_with_str (p s : string) : bool := bool_decide (is_Some (strip_suffix p s)).

(** [s.split_once(sep)] *)
Fixpoint split_once (sep s : string) : option (string * string) :=
  match strip_prefix sep s with
  | Some t => Some ("", t)
  | None =>
      match s with
      | EmptyString => None
      | String a s' =>
          match split_once sep s' with
          | Some (u, v) => Some (String a u, v)
          | None => None
          end
      end
  end.

(** [s.split(c).next()] *)
Fixpoint first_piece (c : Ascii.ascii) (s : string) : string :=
  match s with
  | EmptyString => EmptyString
  | String a s' => if Ascii.eqb a c then EmptyString else String a (first_piece c s')
  end.

(** ** Patterns *)

Definition glob_match (pattern value : string) : bool :=
  if String.eqb pattern "*" then true
  else match strip_prefix "*." pattern with
       | Some suffix => String.eqb value suffix || ends_with_str ("." +:+ suffix) value
       | None =>
           match strip_suffix ".*" pattern with
           | Some prefix => String.eqb value prefix || starts_with (prefix +:+ ".") value
           | None => String.eqb pattern value
           end
       end.

(** ** The transparent proxy's allowlist *)

Record EgressAllowlist := MkEgressAllowlist {
  exact_hosts : list string;
  patterns : list string;
  credential_proxy_real_targets : gset (string * Z);
}.

Definition host_allowed_against_lists (host : string) (exact patterns : list string) : bool :=
  let host_l := to_ascii_lowercase host in
  if existsb (λ h, eq_ignore_ascii_case h host_l) exact then true
  else existsb (λ p, glob_match p host_l) patterns.

Definition host_is_allowed (a : EgressAllowlist) (host : string) : bool :=
  let host_l := to_ascii_lowercase host in
  if existsb (λ h, eq_ignore_ascii_case h host_l) a.(exact_hosts) then true
  else existsb (λ p, glob_match p host_l) a.(patterns).

Definition is_credential_proxy_real_target (a : EgressAllowlist) (host : string) (port : Z) : bool :=
  let host_l := to_ascii_lowercase host in
  existsb (λ hp, (hp.2 =? port)%Z && eq_ignore_ascii_case hp.1 host_l)
    (elements a.(credential_proxy_real_targets)).

(** ** URLs *)

Definition extract_host (url : string) : option string :=
  match split_once "://" url with
  | None => None
  | Some (_, after_scheme) =>
      let host_with_path := first_piece "/"%char after_scheme in
      let host := first_piece ":"%char host_with_path in
      if String.eqb host "" then None else Some host
  end.

(** The gateway's test of a host against its two lists. *)
Definition domain_allowed (domains pats : list string) (host : string) : bool :=
  existsb (λ d, String.eqb d host) domains || existsb (λ p, glob_match p host) pats.

(** ** The effective lists of a policy *)

Record EgressSection := MkEgressSection {
  egress_domains : list string;
  egress_patterns : list string;
  implicit_provider_grants : bool;
  deny_provider : list string;
}.

Record DefaultProviderEgressGrant := MkGrant {
  grant_provider_id : string;
  grant_provider_kind : string;
  fqdn : string;
}.

Definition fqdn_for_provider_kind (kind : string) : option string :=
  if String.eqb kind "Anthropic" then Some "api.anthropic.com"
  else if String.eqb kind "OpenAI" then Some "api.openai.com"
  else if String.eqb kind "Gemini" then Some "generativelanguage.googleapis.com"
  else if String.eqb kind "Bedrock" then Some "bedrock-runtime.us-east-1.amazonaws.com"
  else None.

(** One iteration of the loop over the providers. *)
Definition provider_grant (deny : list string) (p : ProviderEntry) : list DefaultProviderEgressGrant :=
  if bool_decide (p.(provider_id) ∈ deny) then []
  else match fqdn_for_provider_kind p.(provider_kind) with
       | Some f => [MkGrant p.(provider_id) p.(provider_kind) f]
       | None =>
           if String.eqb p.(provider_kind) "http_sidecar" then
             match p.(sidecar_endpoint) ≫= extract_host with
             | Some host => [MkGrant p.(provider_id) p.(provider_kind) host]
             | None => []
             end
           else []
       end.

Definition derive_default_provider_egress_grants (providers : list ProviderEntry)
    (implicit : bool) (deny : list string) : list DefaultProviderEgressGrant :=
  if implicit then flat_map (provider_grant deny) providers else [].

Definition default_provider_egress_grants (ps : list ProviderEntry) (e : EgressSection) :=
  derive_default_provider_egress_grants ps e.(implicit_provider_grants) e.(deny_provider).

(** [if seen.insert(d.to_ascii_lowercase()) { out.push(d) }] *)
Definition push_domain (st : gset string * list string) (d : string) : gset string * list string :=
  let key := to_ascii_lowercase d in
  if decide (key ∈ st.1) then st else ({[key]} ∪ st.1, st.2 ++ [d]).

Definition effective_egress_domains (ps : list ProviderEntry) (e : EgressSection) : list string :=
  let st := foldl push_domain (∅, []) e.(egress_domains) in
  (foldl push_domain st (fqdn <$> default_provider_egress_grants ps e)).2.

Definition effective_egress_patterns (e : EgressSection) : list string := e.(egress_patterns).

(** ** Facts on text *)

Lemma ascii_lower_idemp c : ascii_lower (ascii_lower c) = ascii_lower c.
Proof. destruct c as [[] [] [] [] [] [] [] []]; reflexivity. Qed.

Lemma to_ascii_lowercase_idemp s :
  to_ascii_lowercase (to_ascii_lowercase s) = to_ascii_lowercase s.
Proof. induction s as [|c s IH]; [done |]. simpl. by rewrite ascii_lower_idemp, IH. Qed.

Lemma eq_ignore_ascii_case_iff a b :
  eq_ignore_ascii_case a b = true ↔ to_ascii_lowercase a = to_ascii_lowercase b.
Proof. apply String.eqb_eq. Qed.

Lemma str_rev_app a b : String.rev (a +:+ b) = String.rev b +:+ String.rev a.
Proof.
  unfold String.rev. induction a as [|x a IH]; [by rewrite str_app_nil_r |].
  rewrite string_app_cons. simpl.
  by rewrite rev_app_spec, IH, (rev_app_spec a (String x "")), str_app_assoc.
Qed.

Lemma str_rev_involutive s : String.rev (String.rev s) = s.
Proof.
  induction s as [|x s IH]; [done |]. change (String x s) with (String x "" +:+ s) at 1.
  by rewrite str_rev_app, str_rev_app, IH.
Qed.

Lemma str_app_inj_l a b c : a +:+ b = a +:+ c → b = c.
Proof. induction a as [|x a IH]; [done |]. rewrite !string_app_cons. intros [= H]. by apply IH. Qed.

Lemma strip_prefix_Some p s t : strip_prefix p s = Some t ↔ s = p +:+ t.
Proof.
  revert s. induction p as [|a p IH]; intros s.
  { change (strip_prefix "" s) with (Some s). change ("" +:+ t) with t. split; congruence. }
  rewrite string_app_cons. destruct s as [|b s]; simpl; [done |].
  destruct (Ascii.eqb_spec a b) as [->|Hne]; [rewrite IH |]; split; intros H; congruence.
Qed.

Lemma strip_prefix_app p t : strip_prefix p (p +:+ t) = Some t.
Proof. by apply strip_prefix_Some. Qed.

Lemma strip_suffix_Some p s t : strip_suffix p s = Some t ↔ s = t +:+ p.
Proof.
  unfold strip_suffix. rewrite fmap_Some. split.
  - intros (u & Hu & ->). apply strip_prefix_Some in Hu.
    by rewrite <-(str_rev_involutive s), Hu, str_rev_app, str_rev_involutive.
  - intros ->. exists (String.rev t). by rewrite str_rev_app, strip_prefix_app, str_rev_involutive.
Qed.

Lemma ends_with_str_iff p s : ends_with_str p s = true ↔ ∃ t, s = t +:+ p.
Proof.
  unfold ends_with_str. rewrite bool_decide_eq_true. unfold is_Some.
  by setoid_rewrite strip_suffix_Some.
Qed.

(** ** Facts on splitting *)

Definition free_of (c : Ascii.ascii) (s : string) : bool :=
  forallb (λ a, negb (Ascii.eqb a c)) (chars s).

Lemma free_of_cons c a s : free_of c (String a s) = true ↔ a ≠ c ∧ free_of c s = true.
Proof.
  unfold free_of. simpl. rewrite andb_true_iff, negb_true_iff, Ascii.eqb_neq. done.
Qed.

Lemma free_of_app c a b : free_of c (a +:+ b) = free_of c a && free_of c b.
Proof. unfold free_of. by rewrite chars_app, forallb_app. Qed.

Lemma first_piece_app c u v : free_of c u = true → first_piece c (u +:+ String c v) = u.
Proof.
  induction u as [|a u IH]; intros H.
  { change (first_piece c (String c v) = ""). simpl. by rewrite Ascii.eqb_refl. }
  apply free_of_cons in H as [Hne Hu]. rewrite string_app_cons. simpl.
  rewrite (proj2 (Ascii.eqb_neq a c) Hne). by rewrite IH.
Qed.

Lemma first_piece_free c u : free_of c u = true → first_piece c u = u.
Proof.
  induction u as [|a u IH]; intros H; [done |]. apply free_of_cons in H as [Hne Hu].
  simpl. rewrite (proj2 (Ascii.eqb_neq a c) Hne). by rewrite IH.
Qed.

Lemma free_of_first_piece c u : free_of c (first_piece c u) = true.
Proof.
  induction u as [|a u IH]; [done |]. simpl. destruct (Ascii.eqb_spec a c); [done |].
  by apply free_of_cons.
Qed.

(** No proper prefix of [sep] can start inside [u], so [sep] is found right after it. *)
Lemma split_once_app a sep u v :
  free_of a u = true → split_once (String a sep) (u +:+ String a sep +:+ v) = Some (u, v).
Proof.
  induction u as [|x u IH]; intros H.
  { change ("" +:+ String a sep +:+ v) with (String a sep +:+ v).
    destruct (String a sep +:+ v) as [|y s] eqn:E; [done |]. cbn [split_once].
    rewrite <-E, strip_prefix_app. done. }
  apply free_of_cons in H as [Hne Hu]. rewrite string_app_cons. cbn [split_once strip_prefix].
  rewrite (proj2 (Ascii.eqb_neq a x)) by done. by rewrite IH.
Qed.

(** ** What a pattern matches

    The documented pattern language, independent of the matcher: a pattern that
    is of none of the three starred shapes matches only itself, whatever stars it
    contains. *)

Inductive host_matches : string → string → Prop :=
  | matches_any v : host_matches "*" v
  | matches_domain suffix : host_matches ("*." +:+ suffix) suffix
  | matches_subdomain suffix u : host_matches ("*." +:+ suffix) (u +:+ "." +:+ suffix)
  | matches_stem prefix :
      starts_with "*." (prefix +:+ ".*") = false → host_matches (prefix +:+ ".*") prefix
  | matches_below prefix u :
      starts_with "*." (prefix +:+ ".*") = false →
      host_matches (prefix +:+ ".*") (prefix +:+ "." +:+ u)
  | matches_itself p : host_matches p p.

Lemma strip_prefix_None p s : strip_prefix p s = None ↔ starts_with p s = false.
Proof.
  destruct (strip_prefix p s) as [t|] eqn:E, (starts_with p s) eqn:E'; try done.
  - apply strip_prefix_Some in E as ->. by rewrite (proj2 (starts_with_iff p _)) in E' by eauto.
  - apply starts_with_iff in E' as [t ->]. by rewrite strip_prefix_app in E.
Qed.

Lemma glob_suffix_true suffix v :
  glob_match ("*." +:+ suffix) v = true ↔ v = suffix ∨ ∃ u, v = u +:+ "." +:+ suffix.
Proof.
  unfold glob_match. change (String.eqb ("*." +:+ suffix) "*") with false.
  rewrite strip_prefix_app, orb_true_iff, String.eqb_eq, ends_with_str_iff. done.
Qed.

Lemma glob_prefix_true prefix v :
  starts_with "*." (prefix +:+ ".*") = false →
  glob_match (prefix +:+ ".*") v = true ↔ v = prefix ∨ ∃ u, v = prefix +:+ "." +:+ u.
Proof.
  intros Hp. unfold glob_match.
  rewrite (proj2 (String.eqb_neq _ "*")).
  2: { intros E. apply (f_equal String.length) in E. rewrite str_length_app in E. simpl in E. lia. }
  rewrite (proj2 (strip_prefix_None _ _) Hp).
  rewrite (proj2 (strip_suffix_Some ".*" _ prefix)) by done.
  rewrite orb_true_iff, String.eqb_eq, starts_with_iff. by setoid_rewrite str_app_assoc.
Qed.

Lemma glob_match_self p : glob_match p p = true.
Proof.
  unfold glob_match. destruct (String.eqb p "*"); [done |].
  destruct (strip_prefix "*." p) as [t|] eqn:E1.
  { apply strip_prefix_Some in E1 as ->.
    rewrite (proj2 (ends_with_str_iff _ _)); [apply orb_true_r | by exists "*"]. }
  destruct (strip_suffix ".*" p) as [t|] eqn:E2; [| apply String.eqb_refl].
  apply strip_suffix_Some in E2 as ->.
  rewrite (proj2 (starts_with_iff _ _)); [apply orb_true_r |].
  exists "*". by rewrite str_app_assoc.
Qed.

Lemma glob_match_iff p v : glob_match p v = true ↔ host_matches p v.
Proof.
  split.
  - unfold glob_match. destruct (String.eqb_spec p "*") as [->|_]; [intros _; constructor |].
    destruct (strip_prefix "*." p) as [suffix|] eqn:E1.
    { apply strip_prefix_Some in E1 as ->. rewrite orb_true_iff, String.eqb_eq, ends_with_str_iff.
      intros [->|[u ->]]; constructor. }
    apply strip_prefix_None in E1. destruct (strip_suffix ".*" p) as [prefix|] eqn:E2.
    + apply strip_suffix_Some in E2 as ->. rewrite orb_true_iff, String.eqb_eq, starts_with_iff.
      intros [->|[u ->]]; [by constructor |]. rewrite str_app_assoc. by constructor.
    + intros ->%String.eqb_eq. constructor.
  - intros []; [done | apply glob_suffix_true; by left | apply glob_suffix_true; eauto
      | apply glob_prefix_true; [done | by left] | apply glob_prefix_true; [done | eauto]
      | apply glob_match_self].
Qed.

(** ** What an allowlist admits *)

Definition same_host (a b : string) : Prop := to_ascii_lowercase a = to_ascii_lowercase b.

#[export] Instance same_host_equivalence : Equivalence same_host.
Proof. split; unfold same_host; red; congruence. Qed.

Lemma host_is_allowed_iff a h :
  host_is_allowed a h = true ↔
  (∃ d, d ∈ a.(exact_hosts) ∧ same_host d h) ∨
  (∃ p, p ∈ a.(patterns) ∧ host_matches p (to_ascii_lowercase h)).
Proof.
  unfold host_is_allowed.
  setoid_rewrite <-glob_match_iff. unfold same_host.
  destruct (existsb _ (exact_hosts a)) eqn:E.
  - split; [intros _; left | done]. apply existsb_exists in E as (d & Hd & E).
    apply eq_ignore_ascii_case_iff in E. rewrite to_ascii_lowercase_idemp in E.
    exists d. by rewrite list_elem_of_In.
  - rewrite existsb_exists. setoid_rewrite <-list_elem_of_In. split; [by right |].
    intros [(d & Hd & Hs)|H]; [| done]. exfalso. apply not_true_iff_false in E. apply E.
    apply existsb_exists. exists d. rewrite <-list_elem_of_In. split; [done |].
    apply eq_ignore_ascii_case_iff. by rewrite to_ascii_lowercase_idemp.
Qed.

#[export] Instance host_is_allowed_proper a : Proper (same_host ==> (=)) (host_is_allowed a).
Proof. intros h h' Hh. unfold host_is_allowed. by rewrite Hh. Qed.

Lemma real_target_iff a h port :
  is_credential_proxy_real_target a h port = true ↔
  ∃ d, (d, port) ∈ a.(credential_proxy_real_targets) ∧ same_host d h.
Proof.
  unfold is_credential_proxy_real_target, same_host. rewrite existsb_exists. split.
  - intros ([d q] & Hin & [Hq%Z.eqb_eq E]%andb_true_iff). simpl in *. subst q. exists d.
    apply eq_ignore_ascii_case_iff in E. rewrite to_ascii_lowercase_idemp in E.
    rewrite <-list_elem_of_In, elem_of_elements in Hin. done.
  - intros (d & Hd & Hs). exists (d, port). rewrite <-list_elem_of_In, elem_of_elements.
    split; [done |]. apply andb_true_iff. split; [apply Z.eqb_refl |].
    apply eq_ignore_ascii_case_iff. by rewrite to_ascii_lowercase_idemp.
Qed.

Lemma domain_allowed_iff ds ps h :
  domain_allowed ds ps h = true ↔ h ∈ ds ∨ ∃ p, p ∈ ps ∧ host_matches p h.
Proof.
  unfold domain_allowed. setoid_rewrite <-glob_match_iff.
  rewrite orb_true_iff, !existsb_exists. setoid_rewrite <-list_elem_of_In.
  setoid_rewrite String.eqb_eq. naive_solver.
Qed.

(** ** The effective list *)

Definition lower_all (l : list string) : list string := to_ascii_lowercase <$> l.

(** What the fold keeps: the keys of its output are exactly the set, without
    repetition, and what is kept of each host is the way it was first written. *)
Record pushed (done : list string) (st : gset string * list string) : Prop := {
  pushed_nodup : NoDup (lower_all st.2);
  pushed_keys k : k ∈ st.1 ↔ k ∈ lower_all st.2;
  pushed_all k : k ∈ lower_all st.2 ↔ k ∈ lower_all done;
  pushed_first d : d ∈ st.2 ↔ List.find (λ x, eq_ignore_ascii_case x d) done = Some d;
}.

Lemma find_app {A} (f : A → bool) l1 l2 :
  List.find f (l1 ++ l2) = match List.find f l1 with Some x => Some x | None => List.find f l2 end.
Proof. induction l1 as [|x l1 IH]; [done |]. simpl. by destruct (f x). Qed.

Lemma find_same_host l d x :
  List.find (λ x, eq_ignore_ascii_case x d) l = Some x → x ∈ l ∧ same_host x d.
Proof. intros [H%list_elem_of_In E]%find_some. by apply eq_ignore_ascii_case_iff in E. Qed.

Lemma find_no_host l d :
  List.find (λ x, eq_ignore_ascii_case x d) l = None ↔ to_ascii_lowercase d ∉ lower_all l.
Proof.
  unfold lower_all. split.
  - intros H (x & E & Hx)%list_elem_of_fmap. apply list_elem_of_In in Hx.
    apply (find_none _ _ H) in Hx. apply not_true_iff_false in Hx. apply Hx.
    by apply eq_ignore_ascii_case_iff.
  - intros H. destruct (List.find _ l) as [x|] eqn:E; [| done]. exfalso. apply H.
    apply find_same_host in E as [Hx Hs]. apply list_elem_of_fmap. by exists x.
Qed.

Lemma push_domain_pushed l st d : pushed l st → pushed (l ++ [d]) (push_domain st d).
Proof.
  intros [Hnd Hk Ha Hf]. unfold push_domain. destruct (decide _) as [Hin|Hin].
  - apply Hk in Hin as Hin'. apply Ha in Hin'. split; [done | done | |].
    + intros k. unfold lower_all in *. rewrite Ha, fmap_app, elem_of_app, list_fmap_singleton.
      rewrite list_elem_of_singleton. naive_solver.
    + intros x. rewrite Hf, find_app. destruct (List.find _ l) eqn:E; [done |]. simpl.
      destruct (eq_ignore_ascii_case d x) eqn:E'; [| done]. apply eq_ignore_ascii_case_iff in E'.
      apply find_no_host in E. by rewrite E' in Hin'.
  - unfold lower_all in *. split; cbn [fst snd]; unfold lower_all.
    + rewrite fmap_app, list_fmap_singleton. apply NoDup_app. split_and!; [done | | by apply NoDup_singleton].
      intros k Hk' ->%list_elem_of_singleton. by apply Hin, Hk.
    + intros k. rewrite fmap_app, elem_of_app, elem_of_union, Hk, list_fmap_singleton.
      rewrite elem_of_singleton, list_elem_of_singleton. tauto.
    + intros k. by rewrite !fmap_app, !elem_of_app, Ha.
    + rewrite Hk, Ha in Hin. apply find_no_host in Hin as Hn. intros x.
      rewrite elem_of_app, list_elem_of_singleton, Hf, find_app.
      destruct (List.find (λ y, eq_ignore_ascii_case y x) l) as [y|] eqn:E; simpl.
      * split; [intros [H| ->]; [done | congruence] | by left].
      * destruct (eq_ignore_ascii_case d x) eqn:E'.
        -- split; [intros [H| ->]; congruence | intros [= ->]; by right].
        -- split; [| done]. intros [| ->]; [done |].
           by rewrite (proj2 (eq_ignore_ascii_case_iff d d)) in E'.
Qed.

Lemma push_all_pushed l l' st : pushed l st → pushed (l ++ l') (foldl push_domain st l').
Proof.
  revert l st. induction l' as [|d l' IH]; intros l st H; simpl; [by rewrite app_nil_r |].
  replace (l ++ d :: l') with ((l ++ [d]) ++ l') by by rewrite <-app_assoc.
  by apply IH, push_domain_pushed.
Qed.

Lemma effective_pushed ps e :
  ∃ seen, pushed (e.(egress_domains) ++ (fqdn <$> default_provider_egress_grants ps e))
                 (seen, effective_egress_domains ps e).
Proof.
  unfold effective_egress_domains. rewrite <-foldl_app.
  pose proof (push_all_pushed [] (e.(egress_domains) ++ (fqdn <$> default_provider_egress_grants ps e))
    (∅, [])) as H. simpl in H.
  destruct (foldl push_domain (∅, []) _) as [seen l]. exists seen. apply H.
  split; simpl; [constructor | set_solver | done | set_solver].
Qed.

Lemma elem_of_lower_all h l : to_ascii_lowercase h ∈ lower_all l ↔ ∃ d, d ∈ l ∧ same_host d h.
Proof.
  unfold lower_all, same_host. rewrite list_elem_of_fmap. naive_solver.
Qed.

Lemma effective_same_host ps e h :
  (∃ d, d ∈ effective_egress_domains ps e ∧ same_host d h) ↔
  (∃ d, d ∈ e.(egress_domains) ∧ same_host d h) ∨
  (∃ g, g ∈ default_provider_egress_grants ps e ∧ same_host g.(fqdn) h).
Proof.
  destruct (effective_pushed ps e) as [seen [_ _ Hall _]]. simpl in Hall.
  rewrite <-elem_of_lower_all, Hall. unfold lower_all. rewrite fmap_app, elem_of_app.
  fold (lower_all e.(egress_domains)). rewrite elem_of_lower_all.
  rewrite <-list_fmap_compose, list_elem_of_fmap. unfold same_host, compose. naive_solver.
Qed.

(** An entry of the effective list is the first of all that name its host. *)
Lemma effective_first ps e d :
  d ∈ effective_egress_domains ps e ↔
  List.find (λ x, eq_ignore_ascii_case x d)
    (e.(egress_domains) ++ (fqdn <$> default_provider_egress_grants ps e)) = Some d.
Proof. destruct (effective_pushed ps e) as [seen [_ _ _ Hs]]. exact (Hs d). Qed.

Lemma effective_sound ps e d :
  d ∈ effective_egress_domains ps e →
  d ∈ e.(egress_domains) ∨ d ∈ fqdn <$> default_provider_egress_grants ps e.
Proof. intros [H _]%effective_first%find_same_host. by apply elem_of_app. Qed.

Lemma grant_iff ps e g :
  g ∈ default_provider_egress_grants ps e ↔
  e.(implicit_provider_grants) = true ∧
  ∃ p, p ∈ ps ∧ (p.(provider_id) ∉ e.(deny_provider)) ∧
       g = MkGrant p.(provider_id) p.(provider_kind) g.(fqdn) ∧
       (fqdn_for_provider_kind p.(provider_kind) = Some g.(fqdn) ∨
        p.(provider_kind) = "http_sidecar" ∧
        (p.(sidecar_endpoint) ≫= extract_host) = Some g.(fqdn)).
Proof.
  unfold default_provider_egress_grants, derive_default_provider_egress_grants.
  destruct (implicit_provider_grants e); [| split; [intros H; by apply elem_of_nil in H | by intros [? _]]].
  rewrite list_elem_of_In, in_flat_map. setoid_rewrite <-list_elem_of_In.
  unfold provider_grant. split.
  - intros (p & Hp & Hg). split; [done |]. exists p. split; [done |].
    case_bool_decide as Hd; [by apply elem_of_nil in Hg |]. split; [done |].
    destruct (fqdn_for_provider_kind _) as [f|].
    + apply list_elem_of_singleton in Hg as ->. simpl. auto.
    + destruct (String.eqb_spec (provider_kind p) "http_sidecar"); [| by apply elem_of_nil in Hg].
      destruct (sidecar_endpoint p ≫= extract_host) as [f|]; [| by apply elem_of_nil in Hg].
      apply list_elem_of_singleton in Hg as ->. simpl. auto.
  - intros (_ & p & Hp & Hd & -> & Hf). exists p. split; [done |].
    rewrite bool_decide_eq_false_2 by done. destruct Hf as [->|[Hk Hf]]; [by apply list_elem_of_singleton |].
    rewrite Hk, Hf. by apply list_elem_of_singleton.
Qed.

(** ** The host a URL names

    RFC 3986 section 3: the authority ends at the first of [/], [?] and [#]; what
    precedes its last [@] is user information; a port follows a colon.  (Bracketed
    address literals are left out.)  This is the host an HTTP client connects to. *)

Fixpoint take_until_any (cs : list Ascii.ascii) (s : string) : string :=
  match s with
  | EmptyString => EmptyString
  | String a s' => if bool_decide (a ∈ cs) then EmptyString else String a (take_until_any cs s')
  end.

Fixpoint after_last (c : Ascii.ascii) (s : string) : string :=
  match s with
  | EmptyString => EmptyString
  | String a s' =>
      if negb (free_of c s') then after_last c s'
      else if Ascii.eqb a c then s' else s
  end.

Definition url_authority (after_scheme : string) : string :=
  take_until_any ["/"%char; "?"%char; "#"%char] after_scheme.

Definition url_host (url : string) : option string :=
  '(_, rest) ← split_once "://" url;
  let h := first_piece ":"%char (after_last "@"%char (url_authority rest)) in
  if String.eqb h "" then None else Some h.

Definition plain_char (c : Ascii.ascii) : bool :=
  negb (bool_decide (c ∈ ["/"%char; "?"%char; "#"%char; "@"%char; ":"%char])).
(** A name without any delimiter of the URL syntax. *)
Definition plain (s : string) : bool := forallb plain_char (chars s).

Lemma plain_cons a s : plain (String a s) = true ↔ plain_char a = true ∧ plain s = true.
Proof. apply andb_true_iff. Qed.

Lemma plain_free c s :
  c ∈ ["/"%char; "?"%char; "#"%char; "@"%char; ":"%char] → plain s = true → free_of c s = true.
Proof.
  intros Hc. induction s as [|a s IH]; [done |]. intros [Ha Hs]%plain_cons.
  apply free_of_cons. split; [| by apply IH]. intros ->. unfold plain_char in Ha.
  by rewrite bool_decide_eq_true_2 in Ha.
Qed.

Lemma take_until_any_app cs u c v :
  c ∈ cs → Forall (λ a, a ∉ cs) (chars u) → take_until_any cs (u +:+ String c v) = u.
Proof.
  intros Hc. induction u as [|a u IH]; intros Hu.
  { change (take_until_any cs (String c v) = ""). simpl. by rewrite bool_decide_eq_true_2. }
  apply Forall_cons in Hu as [Ha Hu]. rewrite string_app_cons. simpl.
  rewrite bool_decide_eq_false_2 by done. by rewrite IH.
Qed.

Lemma after_last_free c s : free_of c s = true → after_last c s = s.
Proof.
  destruct s as [|a s]; [done |]. intros [Hne Hs]%free_of_cons. simpl. rewrite Hs. simpl.
  by rewrite (proj2 (Ascii.eqb_neq a c) Hne).
Qed.

Lemma after_last_app c u v : free_of c v = true → after_last c (u +:+ String c v) = v.
Proof.
  intros Hv. induction u as [|a u IH].
  { change (after_last c (String c v) = v). simpl. by rewrite Hv, Ascii.eqb_refl. }
  rewrite string_app_cons. simpl.
  assert (free_of c (u +:+ String c v) = false) as ->; [| done].
  rewrite free_of_app. replace (free_of c (String c v)) with false; [apply andb_false_r |].
  symmetry. apply not_true_iff_false. intros [? _]%free_of_cons. done.
Qed.

Lemma first_piece_until c cs u :
  c ∈ cs → (∀ a, a ∈ cs → a ≠ c → free_of a (first_piece c u) = true) →
  take_until_any cs u = first_piece c u.
Proof.
  intros Hc. induction u as [|a u IH]; intros H; [done |]. simpl in *.
  destruct (Ascii.eqb_spec a c) as [->|Hne]; [by rewrite bool_decide_eq_true_2 |].
  rewrite bool_decide_eq_false_2.
  - rewrite IH; [done |]. intros b Hb Hbc. specialize (H b Hb Hbc).
    by apply free_of_cons in H as [_ H].
  - intros Ha. specialize (H a Ha Hne). by apply free_of_cons in H as [? _].
Qed.

(** ** Properties *)

(** What stands before the path holds none of the delimiters the gateway's parser
    does not know. *)
Definition simple_url (url : string) : Prop :=
  ∃ scheme rest, split_once "://" url = Some (scheme, rest) ∧
    ∀ c, c ∈ ["?"%char; "#"%char; "@"%char] → free_of c (first_piece "/"%char rest) = true.

Lemma extract_host_simple url : simple_url url → extract_host url = url_host url.
Proof.
  intros (scheme & rest & E & H). unfold extract_host, url_host, url_authority. rewrite E. cbn [mbind option_bind].
  rewrite (first_piece_until "/"%char); [| set_solver |].
  - rewrite after_last_free; [done |]. apply H. set_solver.
  - intros a Ha Hne. apply H. set_solver.
Qed.

Definition is_lower (s : string) : Prop := to_ascii_lowercase s = s.

(** The proxy's allowlist for a session, as the kernel builds it for an
    orchestrator. *)
Definition session_allowlist (ps : list ProviderEntry) (e : EgressSection) : EgressAllowlist :=
  MkEgressAllowlist (effective_egress_domains ps e) (effective_egress_patterns e) ∅.

(** The proxy and the gateway give the same answer for every host when the policy
    and the host are written in lower case. *)
Theorem egress_tiers_agree ps e h :
  is_lower h → Forall is_lower e.(egress_domains) →
  Forall (λ p, ∀ f, p.(sidecar_endpoint) ≫= extract_host = Some f → is_lower f) ps →
  domain_allowed (effective_egress_domains ps e) (effective_egress_patterns e) h
    = host_is_allowed (session_allowlist ps e) h.
Proof.
  intros Hh Hd Hp. apply eq_true_iff_eq. rewrite domain_allowed_iff, host_is_allowed_iff.
  unfold session_allowlist. simpl. unfold is_lower in Hh. rewrite Hh.
  assert (∀ d, d ∈ effective_egress_domains ps e → is_lower d) as Hl.
  { intros d [H|H]%effective_sound; [by eapply Forall_forall in H |].
    apply list_elem_of_fmap in H as (g & -> & (_ & p & Hin & _ & _ & Hf)%grant_iff).
    rewrite Forall_forall in Hp. destruct Hf as [Hf|[_ Hf]]; [| by apply (Hp p Hin)].
    unfold fqdn_for_provider_kind in Hf.
    repeat case_match; try done; injection Hf as <-; reflexivity. }
  unfold same_host. rewrite Hh. split; (intros [H|H]; [left | by right]); [by exists h |].
  destruct H as (d & Hin & Hs). specialize (Hl d Hin). unfold is_lower in Hl. congruence.
Qed.

(** The grants of the policy file reach both tiers: the proxy always admits the
    host of a provider that is not denied; the gateway does exactly when the first
    entry that names this host, ignoring case, is the grant's own text.  An
    operator domain in another case takes the grant's place. *)
Theorem implicit_grant_reach ps e p f :
  p ∈ ps → p.(provider_id) ∉ e.(deny_provider) → e.(implicit_provider_grants) = true →
  fqdn_for_provider_kind p.(provider_kind) = Some f →
  (∀ q, q ∈ e.(egress_patterns) → ¬ host_matches q f) →
  host_is_allowed (session_allowlist ps e) f = true ∧
  (domain_allowed (effective_egress_domains ps e) (effective_egress_patterns e) f = true ↔
   List.find (λ d, eq_ignore_ascii_case d f)
     (e.(egress_domains) ++ (fqdn <$> default_provider_egress_grants ps e)) = Some f).
Proof.
  intros Hp Hd Hi Hf Hpat. split.
  - apply host_is_allowed_iff. left. apply effective_same_host. right.
    exists (MkGrant p.(provider_id) p.(provider_kind) f). split; [| done].
    apply grant_iff. split; [done |]. exists p. auto.
  - rewrite domain_allowed_iff, effective_first. naive_solver.
Qed.

(** ** Witness *)

Lemma egress_tiers_agree_witness :
  let e := MkEgressSection ["pypi.org"] ["*.example.com"] true [] in
  domain_allowed (effective_egress_domains [] e) (effective_egress_patterns e) "www.example.com" = true ∧
  domain_allowed (effective_egress_domains [] e) (effective_egress_patterns e) "www.example.com"
    = host_is_allowed (session_allowlist [] e) "www.example.com".
Proof.
  split; [reflexivity |].
  refine (egress_tiers_agree [] (MkEgressSection ["pypi.org"] ["*.example.com"] true []) "www.example.com" _ _ _).
  - reflexivity.
  - repeat constructor.
  - constructor.
Defined.
