(* ===== verification/Providers.v ===== *)
(** * Provider entries of a policy

    The validation of [[providers]] in [crates/policy/src/bundle.rs]: the checks a
    policy passes before any component reads a provider.  The text of an error is
    the constructor of the check that failed. *)

From S2P Require Import Prelude Policy Session Hosts.
From Stdlib Require Import Ascii.

Definition MAX_INFERENCE_TIMEOUT_MS : Z := 120000.
Definition MAX_DATA_FETCH_TIMEOUT_MS : Z := 60000.
Definition STREAM_IDLE_TIMEOUT_FLOOR_MS : Z := 5000.
Definition STREAM_IDLE_TIMEOUT_CEILING_MS : Z := 600000.
Definition MAX_RESPONSE_BYTES_CEILING : Z := 64 * 1024 * 1024.
Definition LLM_PROVIDER_KINDS : list string :=
  ["Anthropic"; "OpenAI"; "Gemini"; "Bedrock"; "http_sidecar"].

Inductive ProviderFault :=
  | EmptyProviderId
  | DuplicateProviderId
  | EmptyCredentialsFile
  | CredentialsFileNotBare
  | InferenceTimeoutZero
  | InferenceTimeoutAboveCap
  | DataFetchTimeoutZero
  | DataFetchTimeoutAboveCap
  | MaxResponseBytesZero
  | MaxResponseBytesAboveCeiling
  | StreamIdleTimeoutOutOfBand
  | SidecarEndpointMissing
  | SidecarEndpointScheme
  | SidecarSecretMissing
  | SidecarSecretNotHex
  | SidecarSecretTooShort
  | StraySidecarEndpoint
  | StraySidecarSecret
  | StraySidecarHealthPath
  | PricingOnNonModel
  | ZeroRate.
#[export] Instance ProviderFault_eq_dec : EqDecision ProviderFault.
Proof. solve_decision. Defined.

Definition backslash : Ascii.ascii := ascii_of_nat 92.

(** The first check that fires. *)
Fixpoint first_fault (checks : list (bool * ProviderFault)) : option ProviderFault :=
  match checks with
  | [] => None
  | (bad, fault) :: checks => if bad then Some fault else first_fault checks
  end.

Definition sidecar_checks (p : ProviderEntry) : list (bool * ProviderFault) :=
  let endpoint := default "" p.(sidecar_endpoint) in
  let secret := default "" p.(sidecar_hmac_secret) in
  if String.eqb p.(provider_kind) "http_sidecar" then
    [(String.eqb endpoint "", SidecarEndpointMissing);
     (negb (starts_with "http://" endpoint || starts_with "https://" endpoint), SidecarEndpointScheme);
     (String.eqb secret "", SidecarSecretMissing);
     (negb (String.length secret mod 2 =? 0) || negb (forallb is_ascii_hexdigit (chars secret)),
      SidecarSecretNotHex);
     (String.length secret <? 32, SidecarSecretTooShort)]
  else
    [(bool_decide (is_Some p.(sidecar_endpoint)), StraySidecarEndpoint);
     (bool_decide (is_Some p.(sidecar_hmac_secret)), StraySidecarSecret);
     (bool_decide (is_Some p.(sidecar_health_check_path)), StraySidecarHealthPath)].

Definition pricing_checks (p : ProviderEntry) : list (bool * ProviderFault) :=
  let zero (r : option Z) := bool_decide (r = Some 0%Z) in
  match p.(provider_pricing), bool_decide (p.(provider_kind) ∈ LLM_PROVIDER_KINDS) with
  | None, _ => []
  | Some _, false => [(true, PricingOnNonModel)]
  | Some r, true =>
      [((r.(input_tokens_per_dollar) =? 0)%Z, ZeroRate);
       ((r.(output_tokens_per_dollar) =? 0)%Z, ZeroRate);
       (zero r.(cache_read_tokens_per_dollar), ZeroRate);
       (zero r.(cache_creation_tokens_per_dollar), ZeroRate)]
  end.

Definition limit_checks (p : ProviderEntry) : list (bool * ProviderFault) :=
  [((p.(inference_timeout_ms) =? 0)%Z, InferenceTimeoutZero);
   ((MAX_INFERENCE_TIMEOUT_MS <? p.(inference_timeout_ms))%Z, InferenceTimeoutAboveCap);
   ((p.(data_fetch_timeout_ms) =? 0)%Z, DataFetchTimeoutZero);
   ((MAX_DATA_FETCH_TIMEOUT_MS <? p.(data_fetch_timeout_ms))%Z, DataFetchTimeoutAboveCap);
   ((p.(max_response_bytes) =? 0)%Z, MaxResponseBytesZero);
   ((MAX_RESPONSE_BYTES_CEILING <? p.(max_response_bytes))%Z, MaxResponseBytesAboveCeiling);
   (match p.(stream_idle_timeout_ms) with
    | Some ms => (ms <? STREAM_IDLE_TIMEOUT_FLOOR_MS)%Z || (STREAM_IDLE_TIMEOUT_CEILING_MS <? ms)%Z
    | None => false
    end, StreamIdleTimeoutOutOfBand)].

(** The body of the loop: [seen] are the identifiers of the entries before. *)
Definition provider_fault (seen : gset string) (p : ProviderEntry) : option ProviderFault :=
  let cf := p.(credentials_file) in
  first_fault
    ([(String.eqb (str_trim p.(provider_id)) "", EmptyProviderId);
      (bool_decide (p.(provider_id) ∈ seen), DuplicateProviderId);
      (String.eqb cf "", EmptyCredentialsFile);
      (negb (free_of "/"%char cf) || negb (free_of backslash cf) || String.eqb cf "." || String.eqb cf "..",
       CredentialsFileNotBare)]
     ++ limit_checks p ++ sidecar_checks p ++ pricing_checks p).

Fixpoint validate_providers_from (seen : gset string) (ps : list ProviderEntry)
    : result (string * ProviderFault) unit :=
  match ps with
  | [] => Ok tt
  | p :: ps =>
      match provider_fault seen p with
      | Some fault => Err (p.(provider_id), fault)
      | None => validate_providers_from ({[p.(provider_id)]} ∪ seen) ps
      end
  end.

Definition validate_providers (ps : list ProviderEntry) : result (string * ProviderFault) unit :=
  validate_providers_from ∅ ps.

(** ** What the checks say *)

Lemma first_fault_None l : first_fault l = None ↔ Forall (λ c, c.1 = false) l.
Proof.
  induction l as [|[b f] l IH]; simpl; [by split |]. rewrite Forall_cons. simpl.
  destruct b; [naive_solver | rewrite IH; naive_solver].
Qed.

Lemma first_fault_app a b :
  first_fault (a ++ b) = match first_fault a with Some f => Some f | None => first_fault b end.
Proof. induction a as [|[c f] a IH]; [done |]. simpl. by destruct c. Qed.

(** What each group of checks demands. *)
Record named (p : ProviderEntry) : Prop := {
  named_id : str_trim p.(provider_id) ≠ "";
  named_file : p.(credentials_file) ∉ [""; "."; ".."];
  named_bare : free_of "/"%char p.(credentials_file) = true ∧ free_of backslash p.(credentials_file) = true;
}.

Record limits_kept (p : ProviderEntry) : Prop := {
  limited_inference : p.(inference_timeout_ms) ≠ 0%Z ∧ (p.(inference_timeout_ms) ≤ MAX_INFERENCE_TIMEOUT_MS)%Z;
  limited_fetch : p.(data_fetch_timeout_ms) ≠ 0%Z ∧ (p.(data_fetch_timeout_ms) ≤ MAX_DATA_FETCH_TIMEOUT_MS)%Z;
  limited_bytes : p.(max_response_bytes) ≠ 0%Z ∧ (p.(max_response_bytes) ≤ MAX_RESPONSE_BYTES_CEILING)%Z;
  limited_idle ms : p.(stream_idle_timeout_ms) = Some ms →
    (STREAM_IDLE_TIMEOUT_FLOOR_MS ≤ ms ≤ STREAM_IDLE_TIMEOUT_CEILING_MS)%Z;
}.

(** An entry has the three sidecar fields its kind calls for. *)
Inductive sidecar_fields (p : ProviderEntry) : Prop :=
  | sidecar_declared e s :
      p.(provider_kind) = "http_sidecar" → p.(sidecar_endpoint) = Some e → p.(sidecar_hmac_secret) = Some s →
      starts_with "http://" e = true ∨ starts_with "https://" e = true →
      Nat.Even (String.length s) → 32 ≤ String.length s →
      Forall (λ c, is_ascii_hexdigit c = true) (chars s) → sidecar_fields p
  | sidecar_absent :
      p.(provider_kind) ≠ "http_sidecar" → p.(sidecar_endpoint) = None → p.(sidecar_hmac_secret) = None →
      p.(sidecar_health_check_path) = None → sidecar_fields p.

Definition rated (p : ProviderEntry) : Prop :=
  ∀ r, p.(provider_pricing) = Some r →
    p.(provider_kind) ∈ LLM_PROVIDER_KINDS ∧
    r.(input_tokens_per_dollar) ≠ 0%Z ∧ r.(output_tokens_per_dollar) ≠ 0%Z ∧
    r.(cache_read_tokens_per_dollar) ≠ Some 0%Z ∧ r.(cache_creation_tokens_per_dollar) ≠ Some 0%Z.

Record well_formed_provider (p : ProviderEntry) : Prop := {
  wf_named : named p;
  wf_limited : limits_kept p;
  wf_sidecar : sidecar_fields p;
  wf_rated : rated p;
}.

Lemma limit_checks_pass p : first_fault (limit_checks p) = None ↔ limits_kept p.
Proof.
  rewrite first_fault_None. unfold limit_checks. rewrite !Forall_cons, Forall_nil. cbn [fst].
  rewrite !Z.eqb_neq, !Z.ltb_ge. split.
  - intros (? & ? & ? & ? & ? & ? & Hi & _). split; try done.
    intros ms E. rewrite E, orb_false_iff, !Z.ltb_ge in Hi. lia.
  - intros [[] [] [] Hi]. split_and!; try done. destruct (stream_idle_timeout_ms p) as [ms|]; [| done].
    specialize (Hi ms eq_refl). rewrite orb_false_iff, !Z.ltb_ge. lia.
Qed.

Lemma pricing_checks_pass p : first_fault (pricing_checks p) = None ↔ rated p.
Proof.
  unfold pricing_checks, rated. destruct (provider_pricing p) as [r|]; [| by split].
  case_bool_decide as Hk; [| split; [done | intros H; destruct (H r eq_refl); done]].
  rewrite first_fault_None, !Forall_cons, Forall_nil. cbn [fst].
  rewrite !Z.eqb_neq, !bool_decide_eq_false. split.
  - by intros (? & ? & ? & ? & _) r' [= <-].
  - intros H. by destruct (H r eq_refl) as (_ & ? & ? & ? & ?).
Qed.

Lemma even_mod n : negb (n mod 2 =? 0) = false ↔ Nat.Even n.
Proof.
  rewrite negb_false_iff, Nat.eqb_eq, Nat.Div0.mod_divides by done. done.
Qed.

Lemma forallb_true {A} (f : A → bool) l : forallb f l = true ↔ Forall (λ a, f a = true) l.
Proof. by rewrite forallb_forall, Forall_forall; setoid_rewrite list_elem_of_In. Qed.

Lemma sidecar_checks_pass p : first_fault (sidecar_checks p) = None ↔ sidecar_fields p.
Proof.
  rewrite first_fault_None. unfold sidecar_checks. destruct (String.eqb_spec (provider_kind p) "http_sidecar") as [Hk|Hk];
    rewrite !Forall_cons, Forall_nil; cbn [fst].
  - rewrite !String.eqb_neq, orb_false_iff, even_mod, !negb_false_iff, orb_true_iff, forallb_true, Nat.ltb_ge.
    split.
    + intros (He & Hs & Hn & [Hv Hh] & Hl & _).
      destruct (sidecar_endpoint p) as [e|] eqn:E; [| done]. destruct (sidecar_hmac_secret p) as [s|] eqn:E'; [| done].
      by eapply (sidecar_declared p e s).
    + intros [e s _ E E' Hs Hv Hl Hh|]; [| done]. rewrite E, E'. simpl. split_and!; try done.
      * intros ->. by destruct Hs.
      * intros ->. simpl in Hl. lia.
  - rewrite !bool_decide_eq_false, <-!eq_None_not_Some. split.
    + intros (? & ? & ? & _). by apply sidecar_absent.
    + by intros [|].
Qed.

Lemma provider_fault_None seen p :
  provider_fault seen p = None ↔ (p.(provider_id) ∉ seen) ∧ well_formed_provider p.
Proof.
  assert (∀ A B : option ProviderFault,
    match A with Some f => Some f | None => B end = None ↔ A = None ∧ B = None) as Hcat
    by (intros [] ?; naive_solver).
  unfold provider_fault. rewrite !first_fault_app, !Hcat, limit_checks_pass, sidecar_checks_pass, pricing_checks_pass.
  rewrite first_fault_None, !Forall_cons, Forall_nil. cbn [fst].
  rewrite !String.eqb_neq, bool_decide_eq_false, !orb_false_iff, !negb_false_iff, !String.eqb_neq.
  split.
  - intros ((? & ? & ? & (((? & ?) & ?) & ?) & _) & ? & ? & ?). split; [done |]. split; try done. split; try done.
    rewrite !not_elem_of_cons. split_and!; try done. apply not_elem_of_nil.
  - intros [? [[? Hf []] ? ? ?]]. rewrite !not_elem_of_cons in Hf. destruct Hf as (? & ? & ? & _). by split_and!.
Qed.

Lemma validate_from_iff ps seen :
  validate_providers_from seen ps = Ok tt ↔
  (∀ p, p ∈ ps → (p.(provider_id) ∉ seen) ∧ well_formed_provider p) ∧ NoDup (provider_id <$> ps).
Proof.
  revert seen. induction ps as [|p ps IH]; intros seen; simpl.
  { split; [| done]. intros _. split; [intros q Hq; by apply elem_of_nil in Hq | constructor]. }
  rewrite NoDup_cons. pose proof (provider_fault_None seen p) as Hp.
  destruct (provider_fault seen p) as [f|].
  - split; [done |]. intros [H _]. by specialize (proj2 Hp (H p ltac:(constructor))).
  - rewrite IH. destruct (proj1 Hp eq_refl) as [Hs Hw]. clear Hp IH. split.
    + intros [H Hnd]. split; [| split; [| done]].
      * intros q [->|Hq]%elem_of_cons; [done |]. destruct (H q Hq) as [Hq' ?]. split; [| done]. intros Hin. apply Hq'. by apply elem_of_union_r.
      * intros (q & Hq & Hin)%list_elem_of_fmap. destruct (H q Hin) as [Hq' _]. apply Hq', elem_of_union_l. rewrite Hq. by apply elem_of_singleton.
    + intros (H & Hn & Hnd). split; [| done]. intros q Hq.
      destruct (H q) as [? ?]; [by right |]. split; [| done].
      intros [Heq%elem_of_singleton|?]%elem_of_union; [| done].
      apply Hn. apply list_elem_of_fmap. by exists q.
Qed.

(** ** Properties *)

(** A policy's provider table is accepted exactly when the identifiers are
    distinct and every entry has a bare credentials file, timeouts and sizes in
    range, the sidecar fields of its kind and no zero rate. *)
Theorem validate_providers_iff ps :
  validate_providers ps = Ok tt ↔ NoDup (provider_id <$> ps) ∧ Forall well_formed_provider ps.
Proof.
  unfold validate_providers. rewrite validate_from_iff, Forall_forall.
  split; intros [H1 H2]; [split; [done |]; intros p Hp; by apply H1 | split; [| done]; intros p Hp].
  split; [apply not_elem_of_empty | by apply H2].
Qed.

(** No check looks at the kind alone: an entry of any unknown kind is accepted,
    and it has no implicit egress grant. *)
Theorem unknown_kind_accepted k :
  k ∉ LLM_PROVIDER_KINDS →
  let p := MkProviderEntry "custom" k "custom.toml" 30000 10000 16777216 None None None None None in
  validate_providers [p] = Ok tt ∧ provider_grant [] p = [].
Proof.
  intros Hk p. assert (k ≠ "http_sidecar") as Hs by (intros ->; apply Hk; set_solver). split.
  - apply validate_providers_iff. split; [apply NoDup_singleton |]. apply Forall_singleton.
    split; [split | split | apply sidecar_absent | by intros r]; try done.
    rewrite !not_elem_of_cons. split_and!; try done. apply not_elem_of_nil.
  - unfold LLM_PROVIDER_KINDS in Hk. rewrite !not_elem_of_cons in Hk. destruct Hk as (? & ? & ? & ? & ? & _).
    unfold provider_grant, fqdn_for_provider_kind. simpl.
    rewrite !(proj2 (String.eqb_neq k _)) by done. done.
Qed.
