(* ===== verification/StallTracker.v ===== *)
(** * The egress-stall tracker

    [crates/egress-admission/src/stall_tracker.rs]: denials are counted per
    (session, host, port, reason) in a sliding window, and a burst is reported
    once.  Instants and durations are nanoseconds of the tracker's monotonic
    clock; the mutex makes every call one step. *)

From S2P Require Import Prelude.

Record StallKey := MkStallKey {
  key_session_id : string;
  key_host_or_sni : option string;
  key_port : Z;
  key_reason : string;
}.
#[export] Instance StallKey_eq_dec : EqDecision StallKey.
Proof. solve_decision. Defined.
#[export] Instance StallKey_countable : Countable StallKey.
Proof.
  refine (inj_countable' (λ k, (k.(key_session_id), k.(key_host_or_sni), k.(key_port), k.(key_reason)))
            (λ '(s, h, p, r), MkStallKey s h p r) _). by intros [].
Defined.

Record Bucket := MkBucket { denials : list Z; last_emit_at : option Z }.

Record EgressStallTracker := MkTracker {
  window : Z;
  threshold : Z;
  buckets : gmap StallKey Bucket;
}.

Record StallEmission := MkEmission {
  emit_key : StallKey;
  block_count_in_window : Z;
  window_seconds : Z;
}.
Inductive StallSignal := Quiet | Detected (e : StallEmission).
#[export] Instance StallEmission_eq_dec : EqDecision StallEmission.
Proof. solve_decision. Defined.
#[export] Instance StallSignal_eq_dec : EqDecision StallSignal.
Proof. solve_decision. Defined.

Definition NANOS_PER_SEC : Z := 1000000000.
Definition DEFAULT_WINDOW : Z := 30 * NANOS_PER_SEC.
Definition DEFAULT_THRESHOLD : Z := 3.

Definition new_tracker (window threshold : Z) : EgressStallTracker :=
  MkTracker window (Z.max threshold 1) ∅.
Definition with_defaults : EgressStallTracker := new_tracker DEFAULT_WINDOW DEFAULT_THRESHOLD.

(** [now.duration_since(t)], which saturates at zero. *)
Definition duration_since (now t : Z) : Z := Z.max 0 (now - t).

(** The [while let Some(&front)] loop. *)
Fixpoint prune (window now : Z) (l : list Z) : list Z :=
  match l with
  | front :: l' => if (window <? duration_since now front)%Z then prune window now l' else l
  | [] => []
  end.

Definition re_arm (window now : Z) (last : option Z) : option Z :=
  match last with
  | Some emitted_at => if (window <? duration_since now emitted_at)%Z then None else Some emitted_at
  | None => None
  end.

Definition record_denial (now : Z) (key : StallKey) (t : EgressStallTracker)
    : StallSignal * EgressStallTracker :=
  let bucket := default (MkBucket [] None) (t.(buckets) !! key) in
  let last := re_arm t.(window) now bucket.(last_emit_at) in
  let ds := prune t.(window) now bucket.(denials) ++ [now] in
  let count := (Z.of_nat (length ds) mod 2^32)%Z in
  let put last := MkTracker t.(window) t.(threshold) (<[key := MkBucket ds last]> t.(buckets)) in
  if (count <? t.(threshold))%Z then (Quiet, put last)
  else match last with
       | Some _ => (Quiet, put last)
       | None =>
           (Detected (MkEmission key count ((t.(window) / NANOS_PER_SEC) mod 2^32)), put (Some now))
       end.

Definition forget_session (session_id : string) (t : EgressStallTracker) : EgressStallTracker :=
  MkTracker t.(window) t.(threshold)
    (filter (λ kb, kb.1.(key_session_id) ≠ session_id) t.(buckets)).

(** ** Runs *)

(** A denial with its signal. *)
Record Observed := MkObserved { seen_at : Z; seen_key : StallKey; seen_signal : StallSignal }.

Definition observe (st : list Observed * EgressStallTracker) (d : Z * StallKey)
    : list Observed * EgressStallTracker :=
  let '(sig, t) := record_denial d.1 d.2 st.2 in (st.1 ++ [MkObserved d.1 d.2 sig], t).

Definition run_denials (ds : list (Z * StallKey)) (t : EgressStallTracker) :=
  foldl observe ([], t) ds.

(** The denials of a key, and its alerts, oldest first. *)
Definition times (key : StallKey) (ds : list (Z * StallKey)) : list Z :=
  (filter (λ d, d.2 = key) ds).*1.
Definition is_alert (key : StallKey) (o : Observed) : Prop := o.(seen_key) = key ∧ o.(seen_signal) ≠ Quiet.
#[export] Instance is_alert_dec key o : Decision (is_alert key o).
Proof. unfold is_alert. apply _. Defined.
Definition alerts (key : StallKey) (log : list Observed) : list Z :=
  seen_at <$> filter (is_alert key) log.

(** The times of [l] no more than [w] before [now]. *)
Definition recent (w now : Z) (l : list Z) : list Z := filter (λ t, now - t ≤ w)%Z l.

Definition in_order (ds : list (Z * StallKey)) : Prop := StronglySorted Z.le ds.*1.

(** ** Facts *)

Lemma recent_app w now l l' : recent w now (l ++ l') = recent w now l ++ recent w now l'.
Proof. apply filter_app. Qed.

Lemma recent_all w now l : Forall (λ t, now - t ≤ w)%Z l → recent w now l = l.
Proof.
  unfold recent. induction 1 as [|t l Ht _ IH]; [done |]. rewrite filter_cons_True by done. by f_equal.
Qed.

Lemma prune_recent w now l :
  (0 ≤ w)%Z → StronglySorted Z.le l → Forall (λ t, t ≤ now)%Z l → prune w now l = recent w now l.
Proof.
  intros Hw. induction l as [|t l IH]; intros Hs Hle; [done |].
  apply StronglySorted_inv in Hs as [Hs Ht]. apply Forall_cons in Hle as [Hnow Hle].
  cbn [prune]. unfold duration_since. rewrite Z.max_r by lia.
  destruct (Z.ltb_spec w (now - t)).
  - rewrite IH by done. unfold recent. rewrite filter_cons_False; [done | lia].
  - symmetry. apply recent_all. constructor; [done |].
    eapply Forall_impl; [exact Ht |]. simpl. lia.
Qed.

Lemma recent_recent w now now' l :
  (now ≤ now')%Z → recent w now' (recent w now l) = recent w now' l.
Proof. intros H. unfold recent. apply list_filter_filter_l. intros t. lia. Qed.

Lemma times_snoc key ds d :
  times key (ds ++ [d]) = times key ds ++ (if decide (d.2 = key) then [d.1] else []).
Proof.
  unfold times. rewrite filter_app, fmap_app. f_equal. destruct (decide _) as [H|H].
  - by rewrite filter_cons_True.
  - by rewrite filter_cons_False.
Qed.

Lemma alerts_snoc key log o :
  alerts key (log ++ [o]) = alerts key log ++ (if decide (is_alert key o) then [o.(seen_at)] else []).
Proof.
  unfold alerts. rewrite filter_app, fmap_app. f_equal. destruct (decide _) as [H|H].
  - by rewrite filter_cons_True.
  - by rewrite filter_cons_False.
Qed.

Lemma Forall_filter {A} (P Q : A → Prop) `{∀ x, Decision (P x)} l : Forall Q l → Forall Q (filter P l).
Proof. rewrite !Forall_forall. intros HQ x [_ Hx]%list_elem_of_filter. by apply HQ. Qed.

Lemma StronglySorted_fmap_filter {A} (f : A → Z) (P : A → Prop) `{∀ x, Decision (P x)} l :
  StronglySorted Z.le (f <$> l) → StronglySorted Z.le (f <$> filter P l).
Proof.
  induction l as [|x l IH]; intros Hl; [done |]. rewrite fmap_cons in Hl.
  apply StronglySorted_inv in Hl as [Hs Hx].
  destruct (decide (P x)); [| rewrite filter_cons_False by done; auto].
  rewrite filter_cons_True, fmap_cons by done. constructor; [auto |].
  rewrite Forall_fmap in *. by apply Forall_filter.
Qed.

Lemma StronglySorted_snoc (l : list Z) x :
  StronglySorted Z.le (l ++ [x]) ↔ StronglySorted Z.le l ∧ Forall (λ t, t ≤ x)%Z l.
Proof.
  induction l as [|y l IH]; simpl; [split; [intros _; split; constructor | intros _; repeat constructor] |].
  split.
  - intros [Hs Hy]%StronglySorted_inv. apply IH in Hs as [Hs Hl].
    apply Forall_app in Hy as [Hy Hx]. apply Forall_cons in Hx as [Hx _].
    split; by constructor.
  - intros [[Hs Hy]%StronglySorted_inv [Hyx Hl]%Forall_cons].
    constructor; [by apply IH |]. apply Forall_app. by repeat constructor.
Qed.

Lemma in_order_snoc ds d :
  in_order (ds ++ [d]) ↔ in_order ds ∧ Forall (λ e, e.1 ≤ d.1)%Z ds.
Proof. unfold in_order. rewrite fmap_app. simpl. rewrite StronglySorted_snoc, Forall_fmap. done. Qed.

(** ** The tracker against the history

    After the denials [ds] with the log [log]: at any later instant, pruning a
    bucket leaves the denials of its key in the window, and its marker is armed
    exactly when no alert of the key is in the window. *)

Definition bucket_of (t : EgressStallTracker) (key : StallKey) : Bucket :=
  default (MkBucket [] None) (t.(buckets) !! key).
Definition up_to (ds : list (Z * StallKey)) (now : Z) : Prop := Forall (λ d, d.1 ≤ now)%Z ds.

Record tracks (w th : Z) (ds : list (Z * StallKey)) (log : list Observed) (t : EgressStallTracker)
    : Prop := {
  tracks_window : t.(window) = w;
  tracks_threshold : t.(threshold) = th;
  tracks_denials key now : up_to ds now →
    prune w now (bucket_of t key).(denials) = recent w now (times key ds);
  tracks_marker key now : up_to ds now →
    re_arm w now (bucket_of t key).(last_emit_at) = None ↔
    Forall (λ e, w < now - e)%Z (alerts key log);
  tracks_alerts key : alerts key log ⊆ times key ds;
}.

Lemma tracks_new w th : tracks w (Z.max th 1) [] [] (new_tracker w th).
Proof. split; try done; intros; unfold bucket_of; simpl; by rewrite lookup_empty. Qed.

Lemma re_arm_re_arm w now now' last :
  (now ≤ now')%Z → re_arm w now' (re_arm w now last) = re_arm w now' last.
Proof.
  intros H. destruct last as [e|]; [| done]. cbn [re_arm]. unfold duration_since.
  destruct (Z.ltb_spec w (Z.max 0 (now - e))); [| done]. cbn [re_arm].
  destruct (Z.ltb_spec w (Z.max 0 (now' - e))); [done | lia].
Qed.

Lemma times_up_to key ds now : up_to ds now → Forall (λ t, t ≤ now)%Z (times key ds).
Proof. intros H. unfold times. rewrite Forall_fmap. by apply Forall_filter. Qed.

Lemma times_sorted key ds : in_order ds → StronglySorted Z.le (times key ds).
Proof. apply StronglySorted_fmap_filter. Qed.

(** What a denial sees, from the history alone. *)
Definition expected_signal (w th : Z) (ds : list (Z * StallKey)) (log : list Observed)
    (now : Z) (key : StallKey) : StallSignal :=
  let count := Z.of_nat (length (recent w now (times key ds ++ [now]))) in
  if decide (th ≤ count ∧ Forall (λ e, w < now - e) (alerts key log))%Z
  then Detected (MkEmission key count ((w / NANOS_PER_SEC) mod 2^32))
  else Quiet.

Section Step.
Context (w th : Z) (Hw : (0 ≤ w)%Z).
Variables (ds : list (Z * StallKey)) (log : list Observed) (t : EgressStallTracker).
Variables (now : Z) (key : StallKey).
Hypothesis Ht : tracks w th ds log t.
Hypothesis Hlen : (Z.of_nat (length ds) < 2^32 - 1)%Z.
Hypothesis Hord : in_order ds.
Hypothesis Hup : up_to ds now.

Lemma recent_now : recent w now (times key ds ++ [now]) = recent w now (times key ds) ++ [now].
Proof. rewrite recent_app. f_equal. apply recent_all. constructor; [lia | done]. Qed.

Lemma count_exact :
  (Z.of_nat (length (prune w now (bucket_of t key).(denials) ++ [now])) mod 2^32)%Z
  = Z.of_nat (length (recent w now (times key ds ++ [now]))).
Proof.
  rewrite (tracks_denials _ _ _ _ _ Ht), <-recent_now by done. apply Z.mod_small.
  split; [lia |]. rewrite recent_now, length_app. simpl. unfold recent, times.
  pose proof (length_filter (λ t, now - t ≤ w)%Z ((filter (λ d, d.2 = key) ds).*1)).
  rewrite length_fmap in *. pose proof (length_filter (λ d : Z * StallKey, d.2 = key) ds). lia.
Qed.

Lemma record_denial_signal :
  (record_denial now key t).1 = expected_signal w th ds log now key.
Proof.
  unfold record_denial, expected_signal. fold (bucket_of t key).
  rewrite (tracks_window _ _ _ _ _ Ht), (tracks_threshold _ _ _ _ _ Ht), count_exact.
  pose proof (tracks_marker _ _ _ _ _ Ht key now Hup) as Hm.
  destruct (Z.ltb_spec (Z.of_nat (length (recent w now (times key ds ++ [now])))) th).
  - rewrite decide_False by lia. done.
  - destruct (re_arm _ _ _) as [e|].
    + rewrite decide_False; [done |]. intros [_ H']. by apply Hm in H'.
    + rewrite decide_True; [done |]. split; [done | by apply Hm].
Qed.

Lemma record_denial_bucket k :
  let b := bucket_of (record_denial now key t).2 k in
  if decide (k = key)
  then b.(denials) = recent w now (times key ds) ++ [now] ∧
       b.(last_emit_at) = (if decide ((record_denial now key t).1 = Quiet)
                           then re_arm w now (bucket_of t key).(last_emit_at) else Some now)
  else b = bucket_of t k.
Proof.
  pose proof (tracks_denials _ _ _ _ _ Ht key now Hup) as Hd.
  unfold record_denial. fold (bucket_of t key). rewrite (tracks_window _ _ _ _ _ Ht), Hd.
  cbn zeta. unfold bucket_of at 2 3.
  destruct (decide (k = key)) as [->|Hne]; repeat case_match; simpl;
    unfold bucket_of; simpl; rewrite ?lookup_insert_eq, ?lookup_insert_ne by done; simpl;
    rewrite ?decide_True by done; rewrite ?decide_False by done; done.
Qed.
End Step.

Lemma record_denial_params now key t :
  (record_denial now key t).2.(window) = t.(window) ∧ (record_denial now key t).2.(threshold) = t.(threshold).
Proof. unfold record_denial. by repeat case_match. Qed.

Lemma times_other k ds d : d.2 ≠ k → times k (ds ++ [d]) = times k ds.
Proof. intros H. by rewrite times_snoc, decide_False, app_nil_r. Qed.

Lemma record_denial_tracks w th ds log t now key :
  (0 ≤ w)%Z → tracks w th ds log t → in_order ds → up_to ds now →
  tracks w th (ds ++ [(now, key)]) (log ++ [MkObserved now key (record_denial now key t).1])
    (record_denial now key t).2.
Proof.
  intros Hw Ht Hord Hup. destruct (record_denial_params now key t) as [Hpw Hpt].
  assert (∀ (k : StallKey) now', up_to (ds ++ [(now, key)]) now' → up_to ds now' ∧ (now ≤ now')%Z) as Hlater.
  { intros _ now' [H [H' _]%Forall_cons]%Forall_app. by split. }
  pose proof (λ k, record_denial_bucket w th ds log t now key Ht Hup k) as Hb. cbn zeta in Hb.
  split; [by rewrite Hpw; apply Ht | by rewrite Hpt; apply Ht | | |]; intros k.
  - intros now' [Hup' Hle]%(Hlater k). specialize (Hb k). rewrite times_snoc. cbn [fst snd].
    destruct (decide (k = key)) as [->|Hne].
    + destruct Hb as [-> _]. rewrite decide_True by done.
      rewrite prune_recent; [| done | |].
      * by rewrite !recent_app, recent_recent.
      * apply StronglySorted_snoc. split.
        -- unfold recent. rewrite <-(list_fmap_id (filter _ _)).
           apply StronglySorted_fmap_filter. rewrite list_fmap_id. by apply times_sorted.
        -- apply Forall_filter. by apply times_up_to.
      * apply Forall_app. split; [| by repeat constructor].
        apply Forall_filter, times_up_to, Hup'.
    + rewrite Hb, decide_False, app_nil_r by done. by apply (tracks_denials _ _ _ _ _ Ht).
  - intros now' [Hup' Hle]%(Hlater k). specialize (Hb k). rewrite alerts_snoc. cbn [seen_at].
    pose proof (tracks_marker _ _ _ _ _ Ht k now' Hup') as Hm.
    destruct (decide (k = key)) as [->|Hne].
    + destruct Hb as [_ ->]. destruct (decide ((record_denial now key t).1 = Quiet)) as [Hq|Hq].
      * rewrite decide_False by by intros [_ ?]. by rewrite app_nil_r, re_arm_re_arm.
      * rewrite decide_True by done. rewrite Forall_app, Forall_singleton.
        cbn [re_arm]. unfold duration_since.
        destruct (Z.ltb_spec w (Z.max 0 (now' - now))); (split; [intros ?; try done | intros [? ?]; try done; lia]).
        split; [| lia]. apply Forall_forall. intros e He%(tracks_alerts _ _ _ _ _ Ht).
        pose proof (times_up_to key ds now Hup) as Ho. rewrite Forall_forall in Ho.
        specialize (Ho e He). lia.
    + rewrite Hb, decide_False, app_nil_r by by intros [? _]. done.
  - rewrite alerts_snoc, times_snoc. cbn [seen_at fst snd].
    pose proof (tracks_alerts _ _ _ _ _ Ht k) as Ha.
    destruct (decide (is_alert k _)) as [[Hk _]|_].
    + simpl in Hk. rewrite decide_True by done. set_solver.
    + set_solver.
Qed.

(** ** Properties *)

Lemma run_denials_snoc ds d t :
  run_denials (ds ++ [d]) t = observe (run_denials ds t) d.
Proof. unfold run_denials. by rewrite foldl_app. Qed.

Lemma run_denials_tracks w th ds :
  (0 ≤ w)%Z → in_order ds →
  tracks w (Z.max th 1) ds (run_denials ds (new_tracker w th)).1 (run_denials ds (new_tracker w th)).2.
Proof.
  intros Hw. induction ds as [|[now key] ds IH] using rev_ind; intros Hord; [apply tracks_new |].
  apply in_order_snoc in Hord as [Hord Hup]. specialize (IH Hord).
  rewrite run_denials_snoc. destruct (run_denials ds _) as [log t]. simpl in *.
  pose proof (record_denial_tracks w _ ds log t now key Hw IH Hord Hup) as H.
  unfold observe. simpl. destruct (record_denial now key t) as [sig t']. exact H.
Qed.

(** The tracker reports a stall exactly when the history calls for one: the
    denials of the key in the window, this one included, reach the threshold and
    no alert of the key is still in the window; the report carries that count. *)
Theorem stall_detection_exact w th ds now key :
  (0 ≤ w)%Z → (Z.of_nat (length ds) < 2^32 - 1)%Z → in_order (ds ++ [(now, key)]) →
  let '(log, t) := run_denials ds (new_tracker w th) in
  (record_denial now key t).1 = expected_signal w (Z.max th 1) ds log now key.
Proof.
  intros Hw Hlen [Hord Hup]%in_order_snoc. pose proof (run_denials_tracks w th ds Hw Hord) as Ht.
  destruct (run_denials ds _) as [log t]. simpl in Ht. by apply record_denial_signal.
Qed.

Fixpoint spaced (w : Z) (l : list Z) : Prop :=
  match l with
  | [] => True
  | x :: l' => Forall (λ y, w < y - x)%Z l' ∧ spaced w l'
  end.

Lemma spaced_snoc w l x : spaced w l → Forall (λ e, w < x - e)%Z l → spaced w (l ++ [x]).
Proof.
  induction l as [|y l IH]; [by repeat constructor |]. intros [Hy Hl] [Hx Hr]%Forall_cons.
  split; [| by apply IH]. apply Forall_app. by repeat constructor.
Qed.

(** Alerts of one key are always more than a window apart. *)
Theorem stall_alerts_spaced w th ds key :
  (0 ≤ w)%Z → (Z.of_nat (length ds) < 2^32)%Z → in_order ds →
  spaced w (alerts key (run_denials ds (new_tracker w th)).1).
Proof.
  intros Hw. induction ds as [|[now k] ds IH] using rev_ind; intros Hlen Hord; [done |].
  rewrite length_app in Hlen. simpl in Hlen. apply in_order_snoc in Hord as [Hord Hup].
  pose proof (run_denials_tracks w th ds Hw Hord) as Ht. specialize (IH ltac:(lia) Hord).
  rewrite run_denials_snoc. destruct (run_denials ds _) as [log t]. simpl in *.
  pose proof (record_denial_signal w _ Hw ds log t now k Ht ltac:(lia) Hup) as Hs.
  unfold observe. simpl. destruct (record_denial now k t) as [sig t']. simpl in *.
  rewrite alerts_snoc. destruct (decide _) as [[Hk Hq]|_]; [| by rewrite app_nil_r].
  simpl in *. subst k sig. apply spaced_snoc; [done |]. unfold expected_signal in Hq.
  by case_decide as Hd; [apply Hd |].
Qed.

(** A threshold of one, which the constructor's clamp allows, reports the very
    first denial. *)
Theorem threshold_one_alerts_at_once w th now key :
  (th ≤ 1)%Z →
  (record_denial now key (new_tracker w th)).1
  = Detected (MkEmission key 1 ((w / NANOS_PER_SEC) mod 2^32)).
Proof.
  intros H. unfold record_denial, new_tracker. cbn [buckets window threshold].
  rewrite lookup_empty. simpl. rewrite Z.max_r by lia. done.
Qed.

(** ** Witness *)

Lemma stall_detection_exact_witness :
  let k := MkStallKey "s" (Some "db.internal") 5432 "host_not_in_allowlist" in
  let ds := [(0, k); (1000, k)]%Z in
  let st := run_denials ds with_defaults in
  (record_denial 2000 k st.2).1 = expected_signal DEFAULT_WINDOW 3 ds st.1 2000 k ∧
  (record_denial 2000 k st.2).1 = Detected (MkEmission k 3 30).
Proof.
  split; [| vm_compute; reflexivity].
  refine (stall_detection_exact DEFAULT_WINDOW DEFAULT_THRESHOLD
            [(0, MkStallKey "s" (Some "db.internal") 5432 "host_not_in_allowlist");
             (1000, MkStallKey "s" (Some "db.internal") 5432 "host_not_in_allowlist")]%Z
            2000 (MkStallKey "s" (Some "db.internal") 5432 "host_not_in_allowlist") _ _ _).
  - vm_compute. discriminate.
  - vm_compute. reflexivity.
  - repeat constructor; simpl; lia.
Defined.
