(* ===== verification/Wire.v ===== *)
(** * Length-prefixed frames

    [crates/tproxy-protocol/src/lib.rs] (the admission channel: big-endian prefix,
    16 MiB) and [crates/ipc/src/frame.rs], [json_frame.rs] (the planner, gateway
    and operator sockets: little-endian prefix, 64 MiB).  The body is produced and
    read by a codec (bincode or serde_json) of which only the round trip is
    assumed.  A stream is the list of the bytes still to be read before its end. *)

From S2P Require Import Prelude Bytes.

(** ** Codecs *)

Class Codec (T : Type) := {
  encode_to_vec : T → result string (list byte);
  decode_from_slice : list byte → result string (T * nat);  (* the value, and the bytes consumed *)
}.

(** What is encoded is decoded back, to the last byte. *)
Class LawfulCodec (T : Type) `{Codec T} : Prop :=
  codec_round_trip v b : encode_to_vec v = Ok b → decode_from_slice b = Ok (v, length b).

(** ** Big-endian integers *)

Definition be_bytes (n : nat) (z : Z) : list byte := reverse (le_bytes n z).
Definition be_value (l : list byte) : Z := le_value (reverse l).

Lemma be_bytes_length n z : length (be_bytes n z) = n.
Proof. unfold be_bytes. by rewrite length_reverse, le_bytes_length. Qed.

Lemma be_value_bytes n z : (0 ≤ z < 256 ^ Z.of_nat n)%Z → be_value (be_bytes n z) = z.
Proof. intros H. unfold be_value, be_bytes. by rewrite reverse_involutive, le_value_bytes. Qed.

Lemma be_value_range l : (0 ≤ be_value l < 256 ^ Z.of_nat (length l))%Z.
Proof. unfold be_value. rewrite <-length_reverse. apply le_value_range. Qed.

(** ** The admission frames *)

Module Admission.

Definition MAX_FRAME_BYTES : Z := 16 * 1024 * 1024.

(** The texts of the [Decode] errors, before formatting. *)
Inductive DecodeReason :=
  | ShortPrefix
  | BodyTruncated (have want : Z)
  | Codec_ (e : string)
  | Unconsumed (consumed len : Z).
Inductive AdmissionFrameError :=
  | TooLarge (len max : Z)
  | Decode (why : DecodeReason)
  | Encode (e : string).

Section Frames.
Context {T : Type} `{Codec T}.

Definition encode_frame (value : T) : result AdmissionFrameError (list byte) :=
  body ← map_err Encode (encode_to_vec value);
  let len := Z.of_nat (length body) in
  if (MAX_FRAME_BYTES <? len)%Z then Err (TooLarge len MAX_FRAME_BYTES)
  else Ok (be_bytes 4 (len mod 2^32) ++ body).

Definition decode_frame (bytes : list byte) : result AdmissionFrameError (T * Z) :=
  if length bytes <? 4 then Err (Decode ShortPrefix)
  else
    let len := be_value (take 4 bytes) in
    if (MAX_FRAME_BYTES <? len)%Z then Err (TooLarge len MAX_FRAME_BYTES)
    else if (Z.of_nat (length bytes) <? 4 + len)%Z
    then Err (Decode (BodyTruncated (Z.of_nat (length bytes) - 4) len))
    else
      '(value, consumed) ← map_err (λ e, Decode (Codec_ e))
                             (decode_from_slice (take (Z.to_nat len) (drop 4 bytes)));
      if negb (Z.of_nat consumed =? len)%Z
      then Err (Decode (Unconsumed (Z.of_nat consumed) len))
      else Ok (value, 4 + len)%Z.
End Frames.
End Admission.

(** ** The IPC frames *)

(** [read_exact(&mut [0u8; n])] on the rest of a stream: too few bytes is the
    error [UnexpectedEof], and they are consumed. *)
Definition read_exact (n : nat) (stream : list byte) : option (list byte) * list byte :=
  if n <=? length stream then (Some (take n stream), drop n stream) else (None, []).

Module Ipc.

Definition MAX_FRAME_BODY_BYTES : Z := 64 * 1024 * 1024.

Inductive FrameError :=
  | UnexpectedEof                     (* Io *)
  | TooLarge (n : Z)
  | Encode (e : string)
  | Decode (e : string)
  | Eof.

Definition read_body (stream : list byte) : result FrameError (list byte) * list byte :=
  match read_exact 4 stream with
  | (None, rest) => (Err Eof, rest)
  | (Some len_buf, rest) =>
      let body_len := le_value len_buf in
      if (MAX_FRAME_BODY_BYTES <? body_len)%Z then (Err (TooLarge body_len), rest)
      else match read_exact (Z.to_nat body_len) rest with
           | (None, rest') => (Err UnexpectedEof, rest')
           | (Some body, rest') => (Ok body, rest')
           end
  end.

Section Frames.
Context {T : Type} `{Codec T}.

(** The bytes written; the length is cast to [u32] before it is checked. *)
Definition write_frame (msg : T) : result FrameError (list byte) :=
  body ← map_err Encode (encode_to_vec msg);
  let body_len := (Z.of_nat (length body) mod 2^32)%Z in
  if (MAX_FRAME_BODY_BYTES <? body_len)%Z then Err (TooLarge body_len)
  else Ok (le_bytes 4 body_len ++ body).

(** The number of bytes the codec consumed is dropped. *)
Definition read_frame (stream : list byte) : result FrameError T * list byte :=
  match read_body stream with
  | (Ok body, rest) =>
      (match decode_from_slice body with
       | Ok (v, _consumed) => Ok v
       | Err e => Err (Decode e)
       end, rest)
  | (Err e, rest) => (Err e, rest)
  end.

Definition write_json_frame (msg : T) : result FrameError (list byte) :=
  body ← map_err Encode (encode_to_vec msg);
  let body_len := Z.of_nat (length body) in
  if (MAX_FRAME_BODY_BYTES <? body_len)%Z then Err (TooLarge (body_len mod 2^32))
  else Ok (le_bytes 4 (body_len mod 2^32) ++ body).
End Frames.

(** [read_json_frame]: [serde_json::from_slice] rejects what follows the value. *)
Definition read_json_frame {T} `{Codec T} (stream : list byte) : result FrameError T * list byte :=
  match read_body stream with
  | (Ok body, rest) =>
      (match decode_from_slice body with
       | Ok (v, consumed) => if consumed =? length body then Ok v else Err (Decode "trailing characters")
       | Err e => Err (Decode e)
       end, rest)
  | (Err e, rest) => (Err e, rest)
  end.

(** [read_json_frame_raw]: the body as text. *)
Definition read_json_frame_raw (stream : list byte) : result FrameError string * list byte :=
  match read_body stream with
  | (Ok body, rest) =>
      (let s := String.string_of_list_ascii body in
       if utf8_valid s then Ok s else Err (Decode "non-UTF-8 frame body"), rest)
  | (Err e, rest) => (Err e, rest)
  end.
End Ipc.

(** ** Facts *)

Lemma map_err_ok {E F A} (f : E → F) (r : result E A) a : map_err f r = Ok a ↔ r = Ok a.
Proof. destruct r; simpl; split; congruence. Qed.

Lemma read_exact_app n u v : length u = n → read_exact n (u ++ v) = (Some u, v).
Proof.
  intros <-. unfold read_exact. rewrite length_app, (proj2 (Nat.leb_le _ _)) by lia.
  by rewrite take_app_length, drop_app_length.
Qed.

Lemma read_exact_short n s : length s < n → read_exact n s = (None, []).
Proof. intros H. unfold read_exact. by rewrite (proj2 (Nat.leb_gt _ _)). Qed.

Lemma read_body_frame body rest :
  (Z.of_nat (length body) ≤ Ipc.MAX_FRAME_BODY_BYTES)%Z →
  Ipc.read_body (le_bytes 4 (Z.of_nat (length body)) ++ body ++ rest) = (Ok body, rest).
Proof.
  intros H. unfold Ipc.MAX_FRAME_BODY_BYTES in H. unfold Ipc.read_body.
  rewrite read_exact_app by apply le_bytes_length. rewrite le_value_bytes by lia.
  rewrite (proj2 (Z.ltb_ge _ _)) by done. rewrite read_exact_app by lia. done.
Qed.

Section Facts.
Context {T : Type} `{LawfulCodec T}.

Lemma encode_frame_inv v f :
  Admission.encode_frame v = Ok f →
  ∃ body, encode_to_vec v = Ok body ∧ (Z.of_nat (length body) ≤ Admission.MAX_FRAME_BYTES)%Z ∧
          f = be_bytes 4 (Z.of_nat (length body)) ++ body.
Proof.
  unfold Admission.encode_frame. destruct (encode_to_vec v) as [body|e]; [| done]. simpl.
  destruct (Z.ltb_spec Admission.MAX_FRAME_BYTES (Z.of_nat (length body))); [done |].
  intros [= <-]. exists body. split_and!; [done | done |].
  unfold Admission.MAX_FRAME_BYTES in *. by rewrite Z.mod_small by lia.
Qed.

Lemma decode_frame_app v f rest :
  Admission.encode_frame v = Ok f →
  Admission.decode_frame (f ++ rest) = Ok (v, Z.of_nat (length f)).
Proof.
  intros (body & He & Hlen & ->)%encode_frame_inv. unfold Admission.decode_frame.
  assert (0 ≤ Z.of_nat (length body) < 256 ^ Z.of_nat 4)%Z as Hr
    by (unfold Admission.MAX_FRAME_BYTES in Hlen; lia).
  rewrite <-app_assoc, !length_app, be_bytes_length.
  replace (4 + (length body + length rest) <? 4) with false by (symmetry; apply Nat.ltb_ge; lia).
  rewrite take_app_length' by by rewrite be_bytes_length. rewrite be_value_bytes by done.
  rewrite (proj2 (Z.ltb_ge _ _)) by done. rewrite (proj2 (Z.ltb_ge _ _)) by lia.
  rewrite drop_app_length' by by rewrite be_bytes_length.
  rewrite Nat2Z.id, take_app_length. rewrite (codec_round_trip v) by done.
  cbn [map_err mbind result_bind]. rewrite Z.eqb_refl. simpl. do 2 f_equal. lia.
Qed.

Lemma write_frame_inv v f :
  Ipc.write_frame v = Ok f →
  ∃ body, encode_to_vec v = Ok body ∧
          f = le_bytes 4 (Z.of_nat (length body) mod 2^32) ++ body ∧
          (Z.of_nat (length body) mod 2^32 ≤ Ipc.MAX_FRAME_BODY_BYTES)%Z.
Proof.
  unfold Ipc.write_frame. destruct (encode_to_vec v) as [body|e]; [| done]. simpl.
  destruct (Z.ltb_spec Ipc.MAX_FRAME_BODY_BYTES (Z.of_nat (length body) mod 2^32)); [done |].
  intros [= <-]. by exists body.
Qed.

Lemma read_frame_app v f rest :
  Ipc.write_frame v = Ok f → (Z.of_nat (length f) < 2^32)%Z → Ipc.read_frame (f ++ rest) = (Ok v, rest).
Proof.
  intros (body & He & -> & Hm)%write_frame_inv Hlen.
  rewrite length_app, le_bytes_length in Hlen. rewrite Z.mod_small in * by lia.
  unfold Ipc.read_frame. rewrite <-app_assoc, read_body_frame by done.
  by rewrite (codec_round_trip v).
Qed.
End Facts.

(** ** Streams *)

(** What a reader gets that reads frames until an error. *)
Fixpoint read_all {T} `{Codec T} (reads : nat) (stream : list byte) : list T * option Ipc.FrameError :=
  match reads with
  | O => ([], None)
  | S n =>
      match Ipc.read_frame stream with
      | (Ok v, rest) => let '(vs, e) := read_all n rest in (v :: vs, e)
      | (Err e, _) => ([], Some e)
      end
  end.

(** [frames] are the frames of [msgs], one each. *)
Definition framed {T} `{Codec T} (msgs : list T) (frames : list (list byte)) : Prop :=
  Forall2 (λ v f, Ipc.write_frame v = Ok f ∧ (Z.of_nat (length f) < 2^32)%Z) msgs frames.

(** The frames written to a stream are read back in order; what remains is
    reported as a clean end of the connection, also when it is one, two or three
    bytes of an interrupted length prefix. *)
Theorem ipc_stream_round_trip {T} `{LawfulCodec T} (msgs : list T) frames tail :
  framed msgs frames → length tail < 4 →
  read_all (S (length msgs)) (concat frames ++ tail) = (msgs, Some Ipc.Eof).
Proof.
  intros Hf Ht. induction Hf as [|v f msgs frames [Hw Hl] _ IH].
  - simpl. unfold Ipc.read_frame, Ipc.read_body. by rewrite read_exact_short.
  - cbn [length concat]. change (read_all (S (S (length msgs))) ?s) with
      (match Ipc.read_frame s with
       | (Ok v, rest) => let '(vs, e) := read_all (T := T) (S (length msgs)) rest in (v :: vs, e)
       | (Err e, _) => ([], Some e)
       end).
    by rewrite <-app_assoc, (read_frame_app v), IH.
Qed.

(** A message of four GiB or more passes the size check when its length modulo
    [2^32] does; its frame announces that remainder, so a reader takes a prefix of
    the body for the message and the rest for the next frames.  The JSON writer,
    which checks before the cast, refuses it. *)
Theorem oversized_body_desynchronizes {T} `{Codec T} (v : T) body rest :
  let n := (Z.of_nat (length body) mod 2^32)%Z in
  encode_to_vec v = Ok body → (2^32 ≤ Z.of_nat (length body))%Z → (n ≤ Ipc.MAX_FRAME_BODY_BYTES)%Z →
  (∃ f, Ipc.write_frame v = Ok f ∧
        Ipc.read_body (f ++ rest)
          = (Ok (take (Z.to_nat n) body), drop (Z.to_nat n) body ++ rest)) ∧
  Ipc.write_json_frame v = Err (Ipc.TooLarge n).
Proof.
  intros n He Hlen Hn. pose proof (Z.mod_pos_bound (Z.of_nat (length body)) (2^32) ltac:(lia)) as Hb.
  fold n in Hb. split.
  - exists (le_bytes 4 n ++ body). unfold Ipc.write_frame. rewrite He. cbn [map_err mbind result_bind].
    fold n. rewrite (proj2 (Z.ltb_ge _ _)) by done. split; [done |].
    rewrite <-app_assoc, <-(take_drop (Z.to_nat n) body) at 1. rewrite <-!app_assoc.
    assert (n = Z.of_nat (length (take (Z.to_nat n) body))) as Hn'.
    { rewrite length_take_le; [lia |]. lia. }
    rewrite Hn' at 1. apply read_body_frame. lia.
  - unfold Ipc.write_json_frame. rewrite He. cbn [map_err mbind result_bind]. fold n.
    unfold Ipc.MAX_FRAME_BODY_BYTES. by rewrite (proj2 (Z.ltb_lt _ _)) by lia.
Qed.

(** ** Witnesses *)

(** Bytes as messages, one byte each. *)
#[local] Instance byte_codec : Codec byte :=
  { encode_to_vec b := Ok [b];
    decode_from_slice l := match l with b :: _ => Ok (b, 1) | [] => Err "end" end }.
#[local] Instance byte_codec_lawful : LawfulCodec byte.
Proof. intros v b [= <-]. reflexivity. Qed.

Lemma ipc_stream_round_trip_witness :
  read_all 3 ((le_bytes 4 1 ++ [NUL]) ++ (le_bytes 4 1 ++ [byte_of 7]) ++ [NUL; NUL])
  = ([NUL; byte_of 7], Some Ipc.Eof).
Proof.
  change (_ ++ _ ++ _) with (concat [le_bytes 4 1 ++ [NUL]; le_bytes 4 1 ++ [byte_of 7]] ++ [NUL; NUL]).
  apply (ipc_stream_round_trip (T := byte) [NUL; byte_of 7]); [| simpl; lia].
  repeat constructor.
Defined.
