(* ===== verification/Sni.v ===== *)
(** * Reading the host a connection names

    The two parsers of [crates/tproxy-protocol/src/lib.rs]: the server name of a
    TLS ClientHello, read through a cursor over the buffer, and the [Host] header
    of an HTTP request.  A read or a slice outside the buffer is the error
    [Panicked]; the two loops take fuel and [OutOfFuel] is its end.  The facts
    show that neither occurs. *)

From S2P Require Import Prelude Bytes Policy Hosts Wire.
From Stdlib Require Import Ascii.

Inductive SniParseError :=
  | Malformed (why : string)
  | Panicked
  | OutOfFuel.

(** ** The cursor *)

Abbreviation Parse := (SE nat SniParseError).

Section Cursor.
Variable buf : list byte.

Definition cursor : Parse nat := gets id.
Definition index (i : nat) : Parse Z :=
  match buf !! i with
  | Some b => mret (byte_value b)
  | None => throw Panicked
  end.
Definition advance (n : nat) : Parse unit := modify (λ c, c + n).
Definition bounded (n : nat) (why : string) : Parse unit :=
  c ← cursor; guard_or (c + n <=? length buf) (Malformed why).

(** [self.buf.len() - self.cursor] *)
Definition remaining : Parse nat :=
  c ← cursor; if c <=? length buf then mret (length buf - c) else throw Panicked.

Definition read_u8 : Parse Z :=
  _ ← bounded 1 "u8 read past EOF";
  c ← cursor; v ← index c; _ ← advance 1; mret v.

Definition read_u16 : Parse Z :=
  _ ← bounded 2 "u16 read past EOF";
  c ← cursor; a ← index c; b ← index (c + 1); _ ← advance 2; mret (a * 256 + b)%Z.

Definition read_u24 : Parse Z :=
  _ ← bounded 3 "u24 read past EOF";
  c ← cursor; a ← index c; b ← index (c + 1); d ← index (c + 2);
  _ ← advance 3;
  mret (Z.lor (Z.lor (Z.shiftl a 16) (Z.shiftl b 8)) d).

Definition skip (n : Z) : Parse unit :=
  _ ← bounded (Z.to_nat n) "skip past EOF"; advance (Z.to_nat n).

(** [&buf[a..b]] *)
Definition slice (a b : nat) : Parse (list byte) :=
  if (a <=? b) && (b <=? length buf) then mret (take (b - a) (drop a buf)) else throw Panicked.

(** ** The ClientHello *)

Definition sni_name (from : nat) (name_length : Z) : Parse (option string) :=
  name_bytes ← slice from (from + Z.to_nat name_length);
  let name := String.string_of_list_ascii name_bytes in
  if utf8_valid name then mret (Some name) else throw (Malformed "SNI not valid UTF-8").

Fixpoint server_names (fuel : nat) (body_end : nat) : Parse (option string) :=
  match fuel with
  | O => throw OutOfFuel
  | S fuel =>
      c ← cursor;
      if c <? body_end then
        name_type ← read_u8;
        name_length ← read_u16;
        c ← cursor;
        if body_end <? c + Z.to_nat name_length then throw (Malformed "ServerName name truncated")
        else if (name_type =? 0)%Z then sni_name c name_length
        else _ ← skip name_length; server_names fuel body_end
      else mret None
  end.

Fixpoint extensions (fuel : nat) (extensions_end : nat) : Parse (option string) :=
  match fuel with
  | O => throw OutOfFuel
  | S fuel =>
      c ← cursor;
      if c + 4 <=? extensions_end then
        ext_type ← read_u16;
        ext_len ← read_u16;
        c ← cursor;
        if extensions_end <? c + Z.to_nat ext_len then throw (Malformed "extension body truncated")
        else if (ext_type =? 0)%Z then
          _ ← read_u16;
          server_names fuel (c + Z.to_nat ext_len)
        else _ ← skip ext_len; extensions fuel extensions_end
      else mret None
  end.

Definition client_hello_body (record_end : nat) : Parse (option string) :=
  _ ← read_u16;
  _ ← skip 32;
  session_id_len ← read_u8; _ ← skip session_id_len;
  cipher_suites_len ← read_u16; _ ← skip cipher_suites_len;
  compression_methods_len ← read_u8; _ ← skip compression_methods_len;
  c ← cursor;
  if record_end <=? c then mret None
  else
    extensions_len ← read_u16;
    r ← remaining;
    if r <? Z.to_nat extensions_len then throw (Malformed "extensions truncated")
    else c ← cursor; extensions (S (length buf)) (c + Z.to_nat extensions_len).

Definition client_hello : Parse (option string) :=
  content_type ← read_u8;
  _ ← guard_or (content_type =? 22)%Z (Malformed "not a handshake record");
  _ ← read_u16;
  record_length ← read_u16;
  r ← remaining;
  _ ← guard_or (Z.to_nat record_length <=? r) (Malformed "record body truncated");
  c ← cursor;
  let record_end := c + Z.to_nat record_length in
  handshake_type ← read_u8;
  _ ← guard_or (handshake_type =? 1)%Z (Malformed "handshake is not a ClientHello");
  _ ← read_u24;
  client_hello_body record_end.

Definition extract_sni_from_client_hello : result SniParseError (option string) :=
  (client_hello 0).1.
End Cursor.

(** ** The Host header *)

Inductive HostParseError := Truncated | NotUtf8 | Missing | Empty.
#[export] Instance HostParseError_eq_dec : EqDecision HostParseError.
Proof. solve_decision. Defined.

Definition CRLF : string := String (ascii_of_nat 13) (String (ascii_of_nat 10) "").

Definition HEADER_END : string := CRLF +:+ CRLF.

(** [s.split(sep)] for a separator that is not empty. *)
Fixpoint split_str (fuel : nat) (sep s : string) : list string :=
  match fuel with
  | O => [s]
  | S fuel =>
      match split_once sep s with
      | Some (u, v) => u :: split_str fuel sep v
      | None => [s]
      end
  end.

(** The loop over the header lines. *)
Fixpoint host_of_lines (lines : list string) : result HostParseError string :=
  match lines with
  | [] => Err Missing
  | line :: lines =>
      match split_once ":" line with
      | Some (name, value) =>
          if eq_ignore_ascii_case name "host" then
            let host := str_trim (first_piece ":"%char (str_trim value)) in
            if String.eqb host "" then Err Empty else Ok (to_ascii_lowercase host)
          else host_of_lines lines
      | None => host_of_lines lines
      end
  end.

Definition extract_host_header_from_http_request_line_block (buf : string) : result HostParseError string :=
  match split_once HEADER_END buf with
  | None => Err Truncated
  | Some (head, _) =>
      if utf8_valid head then host_of_lines (List.tl (split_str (S (String.length head)) CRLF head))
      else Err NotUtf8
  end.

(** ** Safety of the cursor

    [runs m c Q]: from a cursor inside the buffer, [m] stays inside it and ends in
    [Q], or rejects the input; it never panics nor runs out of fuel. *)

Section Safety.
Variable buf : list byte.

Definition runs {A} (m : Parse A) (c : nat) (Q : A → nat → Prop) : Prop :=
  match m c with
  | (Ok a, c') => c' ≤ length buf ∧ Q a c'
  | (Err (Malformed _), _) => True
  | (Err _, _) => False
  end.

Lemma runs_bind {A B} (m : Parse A) (f : A → Parse B) c Q :
  runs m c (λ a c', c' ≤ length buf → runs (f a) c' Q) → runs (m ≫= f) c Q.
Proof.
  unfold runs. unfold mbind, se_bind. destruct (m c) as [[a|[]] c']; try done. intros [Hc H]. by apply H.
Qed.

Lemma runs_ret {A} (a : A) c (Q : A → nat → Prop) : c ≤ length buf → Q a c → runs (mret a) c Q.
Proof. done. Qed.
Lemma runs_malformed {A} why c (Q : A → nat → Prop) : runs (throw (Malformed why)) c Q.
Proof. done. Qed.
Lemma runs_cursor c (Q : nat → nat → Prop) : c ≤ length buf → Q c c → runs cursor c Q.
Proof. done. Qed.
Lemma runs_guard b why c (Q : unit → nat → Prop) :
  c ≤ length buf → (b = true → Q tt c) → runs (guard_or b (Malformed why)) c Q.
Proof. intros Hc H. unfold runs, guard_or. destruct b; [| done]. auto. Qed.

Lemma runs_remaining c (Q : nat → nat → Prop) :
  c ≤ length buf → Q (length buf - c) c → runs (remaining buf) c Q.
Proof.
  intros Hc HQ. unfold remaining. apply runs_bind, runs_cursor; [done |]. intros _.
  rewrite (proj2 (Nat.leb_le _ _)) by done. by apply runs_ret.
Qed.

Lemma runs_bounded n why c (Q : unit → nat → Prop) :
  c ≤ length buf → (c + n ≤ length buf → Q tt c) → runs (bounded buf n why) c Q.
Proof.
  intros Hc HQ. unfold bounded. apply runs_bind, runs_cursor; [done |]. intros _.
  apply runs_guard; [done |]. intros H. by apply HQ, Nat.leb_le.
Qed.

Lemma runs_index i c (Q : Z → nat → Prop) :
  i < length buf → c ≤ length buf → (∀ v, (0 ≤ v < 256)%Z → Q v c) → runs (index buf i) c Q.
Proof.
  intros Hi Hc HQ. unfold index. apply lookup_lt_is_Some_2 in Hi as [b ->].
  apply runs_ret; [done |]. apply HQ, byte_value_range.
Qed.

Lemma runs_advance n c (Q : unit → nat → Prop) :
  c + n ≤ length buf → Q tt (c + n) → runs (advance n) c Q.
Proof. done. Qed.

Lemma runs_u8 c (Q : Z → nat → Prop) :
  c ≤ length buf → (∀ v, (0 ≤ v < 256)%Z → Q v (c + 1)) → runs (read_u8 buf) c Q.
Proof.
  intros Hc HQ. unfold read_u8. apply runs_bind, runs_bounded; [done |]. intros H _.
  apply runs_bind, runs_cursor; [done |]. intros _.
  apply runs_bind, runs_index; [lia | done |]. intros v Hv _.
  apply runs_bind, runs_advance; [done |]. intros _. apply runs_ret; [done |]. by apply HQ.
Qed.

Lemma runs_u16 c (Q : Z → nat → Prop) :
  c ≤ length buf → (∀ v, (0 ≤ v < 65536)%Z → Q v (c + 2)) → runs (read_u16 buf) c Q.
Proof.
  intros Hc HQ. unfold read_u16. apply runs_bind, runs_bounded; [done |]. intros H _.
  apply runs_bind, runs_cursor; [done |]. intros _.
  apply runs_bind, runs_index; [lia | done |]. intros a Ha _.
  apply runs_bind, runs_index; [lia | done |]. intros b Hb _.
  apply runs_bind, runs_advance; [done |]. intros _. apply runs_ret; [done |]. apply HQ. lia.
Qed.

Lemma runs_u24 c (Q : Z → nat → Prop) :
  c ≤ length buf → (∀ v, Q v (c + 3)) → runs (read_u24 buf) c Q.
Proof.
  intros Hc HQ. unfold read_u24. apply runs_bind, runs_bounded; [done |]. intros H _.
  apply runs_bind, runs_cursor; [done |]. intros _.
  apply runs_bind, runs_index; [lia | done |]. intros a Ha _.
  apply runs_bind, runs_index; [lia | done |]. intros b Hb _.
  apply runs_bind, runs_index; [lia | done |]. intros d Hd _.
  apply runs_bind, runs_advance; [done |]. intros _. by apply runs_ret.
Qed.

Lemma runs_skip n c (Q : unit → nat → Prop) :
  c ≤ length buf → (c + Z.to_nat n ≤ length buf → Q tt (c + Z.to_nat n)) → runs (skip buf n) c Q.
Proof.
  intros Hc HQ. unfold skip. apply runs_bind, runs_bounded; [done |]. intros H _.
  apply runs_advance; auto.
Qed.

Lemma runs_slice a b c (Q : list byte → nat → Prop) :
  a ≤ b ≤ length buf → c ≤ length buf → (∀ l, Q l c) → runs (slice buf a b) c Q.
Proof.
  intros [Hab Hb] Hc HQ. unfold slice.
  rewrite !(proj2 (Nat.leb_le _ _)) by done. by apply runs_ret.
Qed.
End Safety.

(** One step of a parser: peel a bind and run its first reader. *)
Ltac read_step :=
  lazymatch goal with
  | |- runs _ (mbind _ _) _ _ => apply runs_bind; read_step
  | |- runs _ cursor _ _ => apply runs_cursor; [done |]
  | |- runs _ (remaining _) _ _ => apply runs_remaining; [done |]
  | |- runs _ (guard_or _ _) _ _ => apply runs_guard; [done |]; intros ?
  | |- runs _ (read_u8 _) _ _ => apply runs_u8; [done |]; intros ? ?
  | |- runs _ (read_u16 _) _ _ => apply runs_u16; [done |]; intros ? ?
  | |- runs _ (read_u24 _) _ _ => apply runs_u24; [done |]; intros ?
  | |- runs _ (skip _ _) _ _ => apply runs_skip; [done |]; intros ?
  | |- runs _ (mret _) _ _ => apply runs_ret; [done |]
  | |- runs _ (throw _) _ _ => apply runs_malformed
  end.
Ltac read_next := read_step; intros ?.

Section Total.
Variable buf : list byte.
Abbreviation any := (λ (_ : option string) (_ : nat), True).

Lemma server_names_runs fuel c body_end :
  c ≤ length buf → body_end ≤ length buf → length buf < fuel + c →
  runs buf (server_names buf fuel body_end) c any.
Proof.
  revert c. induction fuel as [|fuel IH]; intros c Hc Hb Hf; [lia |]. cbn [server_names].
  read_next. destruct (Nat.ltb_spec c body_end); [| by read_step].
  read_next. read_next. read_next.
  destruct (Nat.ltb_spec body_end (c + 1 + 2 + Z.to_nat v0)); [read_step |].
  destruct (v =? 0)%Z.
  - unfold sni_name. apply runs_bind, runs_slice; [lia | done |]. intros l _.
    case_match; [by read_step | read_step].
  - read_next. apply IH; [done | done | lia].
Qed.

Lemma extensions_runs fuel c extensions_end :
  c ≤ length buf → extensions_end ≤ length buf → length buf < fuel + c →
  runs buf (extensions buf fuel extensions_end) c any.
Proof.
  revert c. induction fuel as [|fuel IH]; intros c Hc Hb Hf; [lia |]. cbn [extensions].
  read_next. destruct (Nat.leb_spec (c + 4) extensions_end); [| by read_step].
  read_next. read_next. read_next.
  destruct (Nat.ltb_spec extensions_end (c + 2 + 2 + Z.to_nat v0)); [read_step |].
  destruct (v =? 0)%Z.
  - read_next. apply server_names_runs; [done | lia | lia].
  - read_next. apply IH; [done | done | lia].
Qed.

Lemma client_hello_runs : runs buf (client_hello buf) 0 any.
Proof.
  unfold client_hello, client_hello_body. pose proof (Nat.le_0_l (length buf)).
  cbn zeta. repeat read_next. case_match; [by read_step |].
  repeat read_next. case_match eqn:Hr; [read_step |]. read_next.
  apply Nat.ltb_ge in Hr. apply extensions_runs; [done | lia | lia].
Qed.
End Total.

(** ** Reading what was written

    [at_rest c rest]: the bytes from the cursor on. *)

Section Reading.
Variable buf : list byte.

Definition at_rest (c : nat) (rest : list byte) : Prop := c ≤ length buf ∧ drop c buf = rest.

Lemma at_rest_length c rest : at_rest c rest → length buf = c + length rest.
Proof. intros [Hc <-]. rewrite length_drop. lia. Qed.

Lemma at_rest_app c u v : at_rest c (u ++ v) → at_rest (c + length u) v.
Proof.
  intros H. pose proof (at_rest_length _ _ H) as Hl. destruct H as [Hc H].
  rewrite length_app in Hl. split; [lia |]. by rewrite <-drop_drop, H, drop_app_length.
Qed.

Lemma at_rest_cons c b v : at_rest c (b :: v) → at_rest (c + 1) v.
Proof. apply (at_rest_app c [b] v). Qed.

Lemma at_rest_lookup c b v : at_rest c (b :: v) → buf !! c = Some b.
Proof. intros [_ H]. replace c with (c + 0) by lia. by rewrite <-lookup_drop, H. Qed.

Lemma cursor_ok c : cursor c = (Ok c, c).
Proof. done. Qed.

Lemma guard_ok b (why : SniParseError) (c : nat) : b = true → guard_or b why c = (Ok tt, c).
Proof. by intros ->. Qed.

Lemma bounded_ok n why c rest : at_rest c rest → n ≤ length rest → bounded buf n why c = (Ok tt, c).
Proof.
  intros H%at_rest_length Hn. unfold bounded, cursor, gets, guard_or, mbind, se_bind. cbn [id]. by rewrite (proj2 (Nat.leb_le _ _)) by lia.
Qed.

Lemma index_ok c b v s : at_rest c (b :: v) → index buf c s = (Ok (byte_value b), s).
Proof. intros H. unfold index. by rewrite (at_rest_lookup _ _ _ H). Qed.

Lemma remaining_ok c rest : at_rest c rest → remaining buf c = (Ok (length rest), c).
Proof.
  intros H%at_rest_length. unfold remaining, cursor, gets, mbind, se_bind. cbn [id]. rewrite (proj2 (Nat.leb_le _ _)) by lia.
  by replace (length buf - c) with (length rest) by lia.
Qed.

Lemma read_u8_ok c b v : at_rest c (b :: v) → read_u8 buf c = (Ok (byte_value b), c + 1).
Proof.
  intros H. unfold read_u8, mbind, se_bind.
  erewrite bounded_ok; [| exact H | simpl; lia]. cbn. by erewrite index_ok.
Qed.

Lemma be_value_2 a b : (be_value [a; b] = byte_value a * 256 + byte_value b)%Z.
Proof. unfold be_value. cbn. lia. Qed.

Lemma read_u16_ok c n v :
  (0 ≤ n < 65536)%Z → at_rest c (be_bytes 2 n ++ v) → read_u16 buf c = (Ok n, c + 2).
Proof.
  intros Hn H. pose proof (be_bytes_length 2 n) as Hl.
  destruct (be_bytes 2 n) as [|a [|b [|? ?]]] eqn:E; try done.
  assert (n = byte_value a * 256 + byte_value b)%Z as Hv.
  { rewrite <-be_value_2, <-E. by rewrite be_value_bytes by lia. }
  unfold read_u16, mbind, se_bind. erewrite bounded_ok; [| exact H | simpl; lia]. cbn.
  erewrite index_ok by exact H. erewrite index_ok by exact (at_rest_cons _ _ _ H). cbn. by rewrite Hv.
Qed.

Lemma read_u24_ok c a b d v : at_rest c (a :: b :: d :: v) → ∃ n, read_u24 buf c = (Ok n, c + 3).
Proof.
  intros H. unfold read_u24, mbind, se_bind. erewrite bounded_ok; [| exact H | simpl; lia]. cbn.
  erewrite index_ok by exact H. erewrite index_ok by exact (at_rest_cons _ _ _ H).
  replace (c + 2) with (c + 1 + 1) by lia.
  erewrite index_ok by exact (at_rest_cons _ _ _ (at_rest_cons _ _ _ H)). cbn. eauto.
Qed.

Lemma skip_ok c u v n :
  Z.to_nat n = length u → at_rest c (u ++ v) → skip buf n c = (Ok tt, c + length u).
Proof.
  intros Hn H. unfold skip, mbind, se_bind. rewrite Hn.
  erewrite bounded_ok; [| exact H | rewrite length_app; lia]. done.
Qed.

Lemma slice_ok c u v s : at_rest c (u ++ v) → slice buf c (c + length u) s = (Ok u, s).
Proof.
  intros H. pose proof (at_rest_length _ _ H) as Hl. rewrite length_app in Hl. destruct H as [_ H].
  unfold slice. rewrite !(proj2 (Nat.leb_le _ _)) by lia. cbn.
  replace (c + length u - c) with (length u) by lia. by rewrite H, take_app_length.
Qed.
End Reading.

(** ** Well-formed ClientHellos *)

Definition extension (e : Z * list byte) : list byte :=
  be_bytes 2 e.1 ++ be_bytes 2 (Z.of_nat (length e.2)) ++ e.2.
Definition extension_list (l : list (Z * list byte)) : list byte := concat (extension <$> l).

(** RFC 6066: a list of one entry of type [host_name]. *)
Definition server_name_body (name : string) : list byte :=
  be_bytes 2 (Z.of_nat (length (chars name)) + 3) ++ NUL ::
  be_bytes 2 (Z.of_nat (length (chars name))) ++ chars name.

(** The parts of a hello: the extensions before the server name, the name if
    there is one, and the extensions after it. *)
Record Hello := MkHello {
  version : Z;
  random : list byte;
  session_id : list byte;
  cipher_suites : list byte;
  compression_methods : list byte;
  ext_before : list (Z * list byte);
  server_name : option string;
  ext_after : list (Z * list byte);
}.

Definition sni_extension (name : option string) : list (Z * list byte) :=
  match name with Some n => [(0%Z, server_name_body n)] | None => [] end.
Definition hello_extensions (h : Hello) : list byte :=
  extension_list (h.(ext_before) ++ sni_extension h.(server_name) ++ h.(ext_after)).

Definition sized8 (l : list byte) : list byte := byte_of (Z.of_nat (length l)) :: l.
Definition sized16 (l : list byte) : list byte := be_bytes 2 (Z.of_nat (length l)) ++ l.

Definition hello_body (h : Hello) : list byte :=
  be_bytes 2 h.(version) ++ h.(random) ++ sized8 h.(session_id) ++ sized16 h.(cipher_suites)
    ++ sized8 h.(compression_methods) ++ sized16 (hello_extensions h).
Definition handshake (h : Hello) : list byte :=
  byte_of 1 :: be_bytes 3 (Z.of_nat (length (hello_body h))) ++ hello_body h.
Definition client_hello_record (h : Hello) : list byte :=
  byte_of 22 :: be_bytes 2 h.(version) ++ be_bytes 2 (Z.of_nat (length (handshake h))) ++ handshake h.

Definition well_formed_ext (e : Z * list byte) : Prop := (0 < e.1 < 65536 ∧ Z.of_nat (length e.2) < 65536)%Z.
Definition well_formed_hello (h : Hello) : Prop :=
  (0 ≤ h.(version) < 65536)%Z ∧ length h.(random) = 32 ∧ length h.(session_id) < 256 ∧
  (Z.of_nat (length h.(cipher_suites)) < 65536)%Z ∧ length h.(compression_methods) < 256 ∧
  Forall well_formed_ext (h.(ext_before) ++ h.(ext_after)) ∧
  (Z.of_nat (length (handshake h)) < 65536)%Z ∧
  match h.(server_name) with
  | Some n => utf8_valid n = true
  | None => True
  end.

Lemma length_extension e : length (extension e) = 4 + length e.2.
Proof. unfold extension. rewrite !length_app, !be_bytes_length. lia. Qed.

Lemma length_sized8 l : length (sized8 l) = S (length l).
Proof. done. Qed.
Lemma length_sized16 l : length (sized16 l) = 2 + length l.
Proof. unfold sized16. by rewrite length_app, be_bytes_length. Qed.
Lemma byte_value_small n : (0 ≤ n < 256)%Z → byte_value (byte_of n) = n.
Proof. intros H. rewrite byte_value_of. by apply Z.mod_small. Qed.

Section Hello.
Variable buf : list byte.

(** A field with its length is read and skipped. *)
Lemma skip_sized8 {B} c l v (f : Parse B) :
  length l < 256 → at_rest buf c (sized8 l ++ v) →
  (n ← read_u8 buf; _ ← skip buf n; f) c = f (c + length (sized8 l)).
Proof.
  intros Hl H. erewrite se_bind_ok; [| eapply read_u8_ok; exact H].
  rewrite byte_value_small by lia. erewrite se_bind_ok.
  2: { eapply skip_ok; [| exact (at_rest_cons _ _ _ _ H)]. lia. }
  f_equal. simpl. lia.
Qed.

Lemma skip_sized16 {B} c l v (f : Parse B) :
  (Z.of_nat (length l) < 65536)%Z → at_rest buf c (sized16 l ++ v) →
  (n ← read_u16 buf; _ ← skip buf n; f) c = f (c + length (sized16 l)).
Proof.
  intros Hl H. unfold sized16 in H. rewrite <-app_assoc in H.
  erewrite se_bind_ok; [| eapply read_u16_ok; [| exact H]; lia].
  apply at_rest_app in H. rewrite be_bytes_length in H.
  erewrite se_bind_ok; [| eapply skip_ok; [| exact H]; lia].
  f_equal. rewrite length_sized16. lia.
Qed.

Lemma read_ext_header c e v :
  (0 ≤ e.1 < 65536)%Z → (Z.of_nat (length e.2) < 65536)%Z → at_rest buf c (extension e ++ v) →
  read_u16 buf c = (Ok e.1, c + 2) ∧ read_u16 buf (c + 2) = (Ok (Z.of_nat (length e.2)), c + 2 + 2) ∧
  at_rest buf (c + 2 + 2) (e.2 ++ v).
Proof.
  intros Ht Hl H. unfold extension in H. rewrite <-!app_assoc in H.
  pose proof (at_rest_app _ _ _ _ H) as H2. rewrite be_bytes_length in H2.
  pose proof (at_rest_app _ _ _ _ H2) as H4. rewrite be_bytes_length in H4.
  split_and!; [by eapply read_u16_ok | eapply read_u16_ok; [lia | exact H2] | exact H4].
Qed.

Lemma extensions_skip fuel l c v ext_end :
  Forall well_formed_ext l → at_rest buf c (extension_list l ++ v) →
  c + length (extension_list l) ≤ ext_end →
  extensions buf (length l + fuel) ext_end c
  = extensions buf fuel ext_end (c + length (extension_list l)) ∧
  at_rest buf (c + length (extension_list l)) v.
Proof.
  intros Hl. revert c. induction Hl as [|e l [Ht Hle] Hl IH]; intros c H He.
  { simpl. by rewrite Nat.add_0_r. }
  change (extension_list (e :: l)) with (extension e ++ extension_list l) in *.
  rewrite <-app_assoc in H. rewrite length_app, length_extension in *.
  destruct (read_ext_header c e (extension_list l ++ v)) as (E1 & E2 & H4); [lia | done | done |].
  destruct (IH (c + 2 + 2 + length e.2)) as [IH1 IH2]; [by apply at_rest_app in H4 | lia |].
  replace (c + (4 + length e.2 + length (extension_list l)))
    with (c + 2 + 2 + length e.2 + length (extension_list l)) by lia.
  split; [| done]. rewrite <-IH1. change (length (e :: l) + fuel) with (S (length l + fuel)).
  cbn [extensions].
  rewrite (se_bind_ok _ _ _ _ _ (cursor_ok _)).
  rewrite (proj2 (Nat.leb_le _ _)) by lia.
  erewrite se_bind_ok by exact E1. erewrite se_bind_ok by exact E2.
  rewrite (se_bind_ok _ _ _ _ _ (cursor_ok _)). rewrite Nat2Z.id.
  rewrite (proj2 (Nat.ltb_ge _ _)) by lia. rewrite (proj2 (Z.eqb_neq _ _)) by lia.
  erewrite se_bind_ok; [done |]. eapply skip_ok; [lia | exact H4].
Qed.

Lemma extensions_end fuel c ext_end : ext_end < c + 4 → (extensions buf (S fuel) ext_end c).1 = Ok None.
Proof.
  intros H. cbn [extensions]. rewrite (se_bind_ok _ _ _ _ _ (cursor_ok _)).
  by rewrite (proj2 (Nat.leb_gt _ _)).
Qed.

Lemma extensions_server_name fuel c name v ext_end :
  utf8_valid name = true → (Z.of_nat (length (server_name_body name)) < 65536)%Z →
  at_rest buf c (extension (0%Z, server_name_body name) ++ v) →
  c + length (extension (0%Z, server_name_body name)) ≤ ext_end →
  (extensions buf (S (S fuel)) ext_end c).1 = Ok (Some name).
Proof.
  intros Hu Hlen H He. rewrite length_extension in He. cbn [fst snd] in He.
  destruct (read_ext_header c (0%Z, server_name_body name) v) as (E1 & E2 & H4);
    [simpl; lia | exact Hlen | exact H |].
  cbn [fst snd] in E1, E2, H4. cbn [extensions].
  rewrite (se_bind_ok _ _ _ _ _ (cursor_ok _)). rewrite (proj2 (Nat.leb_le _ _)) by lia.
  erewrite se_bind_ok by exact E1. erewrite se_bind_ok by exact E2.
  rewrite (se_bind_ok _ _ _ _ _ (cursor_ok _)). rewrite Nat2Z.id.
  rewrite (proj2 (Nat.ltb_ge _ _)) by lia. change (0 =? 0)%Z with true. cbn iota.
  pose proof (at_rest_app _ _ _ _ H4) as _. unfold server_name_body in H4, Hlen, He |- *.
  set (n := chars name) in *. rewrite !length_app, be_bytes_length in *. cbn [length] in *.
  rewrite !length_app, be_bytes_length in *. rewrite <-app_assoc in H4.
  erewrite se_bind_ok; [| eapply read_u16_ok; [| exact H4]; lia].
  apply at_rest_app in H4. rewrite be_bytes_length in H4. cbn [server_names].
  rewrite (se_bind_ok _ _ _ _ _ (cursor_ok _)). rewrite (proj2 (Nat.ltb_lt _ _)) by lia.
  rewrite <-app_comm_cons in H4. erewrite se_bind_ok; [| eapply read_u8_ok; exact H4].
  apply at_rest_cons in H4. rewrite <-app_assoc in H4.
  erewrite se_bind_ok; [| eapply read_u16_ok; [| exact H4]; lia].
  apply at_rest_app in H4. rewrite be_bytes_length in H4.
  rewrite (se_bind_ok _ _ _ _ _ (cursor_ok _)). rewrite Nat2Z.id.
  rewrite (proj2 (Nat.ltb_ge _ _)) by lia.
  change (byte_value NUL =? 0)%Z with true. cbn iota. unfold sni_name. rewrite Nat2Z.id.
  erewrite se_bind_ok; [| eapply slice_ok; exact H4]. cbn zeta. subst n. unfold chars.
  by rewrite String.string_of_list_ascii_of_string, Hu.
Qed.
End Hello.

Section RoundTrip.
Variables (h : Hello) (trailing : list byte).
Let buf : list byte := client_hello_record h ++ trailing.
Hypothesis Hwf : well_formed_hello h.

Lemma lengths_in_range :
  (Z.of_nat (length (hello_body h)) < 65536)%Z ∧ (Z.of_nat (length (hello_extensions h)) < 65536)%Z ∧
  length (hello_body h)
    = 2 + (32 + (length (sized8 h.(session_id)) + (length (sized16 h.(cipher_suites))
        + (length (sized8 h.(compression_methods)) + (2 + length (hello_extensions h)))))).
Proof.
  destruct Hwf as (_ & Hr & _ & _ & _ & _ & Hh & _). unfold handshake in Hh. cbn [length] in Hh.
  rewrite length_app, be_bytes_length in Hh. unfold hello_body in *.
  rewrite !length_app, be_bytes_length, (length_sized16 (hello_extensions h)) in *. lia.
Qed.

(** What the fixed part of the hello leaves to the extension loop. *)
Lemma client_hello_prefix :
  ∃ c, at_rest buf c (hello_extensions h ++ trailing) ∧
       c + length (hello_extensions h) = length (client_hello_record h) ∧
       client_hello buf 0 = extensions buf (S (length buf)) (c + length (hello_extensions h)) c.
Proof.
  destruct lengths_in_range as (Hb & He & Hlb).
  destruct Hwf as (Hv & Hr & Hsi & Hcs & Hcm & _ & Hh & _).
  assert (at_rest buf 0 buf) as H by (split; [lia | done]).
  unfold buf in H at 2. unfold client_hello_record in H. rewrite <-app_comm_cons, <-!app_assoc in H.
  unfold client_hello. erewrite se_bind_ok; [| eapply read_u8_ok; exact H].
  apply at_rest_cons in H. rewrite byte_value_small by lia.
  erewrite se_bind_ok; [| by apply guard_ok].
  erewrite se_bind_ok; [| by eapply read_u16_ok].
  apply at_rest_app in H. rewrite be_bytes_length in H.
  erewrite se_bind_ok; [| eapply read_u16_ok; [| exact H]; lia].
  apply at_rest_app in H. rewrite be_bytes_length in H.
  erewrite se_bind_ok; [| eapply remaining_ok; exact H].
  erewrite se_bind_ok; [| apply guard_ok, Nat.leb_le; rewrite Nat2Z.id, length_app; lia].
  rewrite (se_bind_ok _ _ _ _ _ (cursor_ok _)). cbn zeta.
  unfold handshake in H. rewrite <-app_comm_cons, <-app_assoc in H.
  erewrite se_bind_ok; [| eapply read_u8_ok; exact H]. apply at_rest_cons in H.
  rewrite byte_value_small by lia. erewrite se_bind_ok; [| by apply guard_ok].
  pose proof (be_bytes_length 3 (Z.of_nat (length (hello_body h)))) as Hl3.
  destruct (be_bytes 3 (Z.of_nat (length (hello_body h)))) as [|a [|b [|d [|? ?]]]] eqn:E3; try done.
  destruct (read_u24_ok buf _ a b d _ H) as [n E].
  erewrite se_bind_ok by exact E. apply at_rest_app in H. cbn [length] in H. clear E.
  unfold client_hello_body. unfold hello_body in H. rewrite <-!app_assoc in H.
  erewrite se_bind_ok; [| by eapply read_u16_ok].
  apply at_rest_app in H. rewrite be_bytes_length in H.
  erewrite se_bind_ok; [| eapply skip_ok; [| exact H]; lia].
  apply at_rest_app in H. rewrite Hr in *.
  erewrite skip_sized8; [| exact Hsi | exact H]. apply at_rest_app in H.
  erewrite skip_sized16; [| exact Hcs | exact H]. apply at_rest_app in H.
  erewrite skip_sized8; [| exact Hcm | exact H]. apply at_rest_app in H.
  rewrite (se_bind_ok _ _ _ _ _ (cursor_ok _)).
  assert (length (handshake h) = 4 + length (hello_body h)) as Hlh.
  { unfold handshake. cbn [length]. rewrite length_app, be_bytes_length. lia. }
  rewrite Nat2Z.id, Hlh, Hlb, (proj2 (Nat.leb_gt _ _)) by lia.
  unfold sized16 in H. rewrite <-app_assoc in H.
  erewrite se_bind_ok; [| eapply read_u16_ok; [| exact H]; lia].
  apply at_rest_app in H. rewrite be_bytes_length in H.
  erewrite se_bind_ok; [| eapply remaining_ok; exact H].
  rewrite Nat2Z.id, length_app, (proj2 (Nat.ltb_ge _ _)) by lia.
  rewrite (se_bind_ok _ _ _ _ _ (cursor_ok _)).
  eexists. split; [exact H |]. split; [| done].
  unfold client_hello_record. cbn [length]. rewrite !length_app, !be_bytes_length, Hlh, Hlb, length_sized16. lia.
Qed.

Lemma extension_list_app l1 l2 : extension_list (l1 ++ l2) = extension_list l1 ++ extension_list l2.
Proof. unfold extension_list. by rewrite fmap_app, concat_app. Qed.

Lemma length_extension_list l : length l ≤ length (extension_list l).
Proof.
  induction l as [|e l IH]; [done |].
  change (extension_list (e :: l)) with (extension e ++ extension_list l).
  rewrite length_app, length_extension. simpl. lia.
Qed.

Lemma parsed_extensions :
  extract_sni_from_client_hello buf = Ok h.(server_name).
Proof.
  unfold extract_sni_from_client_hello. destruct client_hello_prefix as (c & H & Hc & ->).
  destruct lengths_in_range as (_ & He & _).
  destruct Hwf as (_ & _ & _ & _ & _ & Hext & _ & Hname). apply Forall_app in Hext as [Hb Ha].
  assert (length (client_hello_record h) ≤ length buf) as Hbuf by (unfold buf; rewrite length_app; lia).
  unfold hello_extensions in *. rewrite extension_list_app in *. rewrite length_app in *.
  pose proof (length_extension_list h.(ext_before)) as Hlb.
  rewrite <-app_assoc in H.
  set (rest := extension_list (sni_extension h.(server_name) ++ h.(ext_after))) in *.
  replace (S (length buf)) with (length h.(ext_before) + (S (length buf) - length h.(ext_before))) by lia.
  destruct (extensions_skip buf (S (length buf) - length h.(ext_before)) h.(ext_before) c (rest ++ trailing)
    (c + (length (extension_list h.(ext_before)) + length rest))) as [-> Hr]; [done | done | lia |].
  subst rest. destruct h.(server_name) as [name|]; cbn [sni_extension app] in *.
  - change (extension_list (?e :: ?l)) with (extension e ++ extension_list l) in *.
    rewrite <-app_assoc in Hr. rewrite length_app, length_extension in *. cbn [snd] in *.
    destruct (S (length buf) - length h.(ext_before)) as [|[|fuel]] eqn:Ef; [lia | lia |].
    eapply extensions_server_name; [done | lia | exact Hr |]. rewrite length_extension. cbn [snd]. lia.
  - pose proof (length_extension_list h.(ext_after)) as Hla.
    destruct (extensions_skip buf (S (length buf) - length h.(ext_before) - length h.(ext_after)) h.(ext_after)
      (c + length (extension_list h.(ext_before))) trailing
      (c + (length (extension_list h.(ext_before)) + length (extension_list h.(ext_after))))) as [E Hr'];
      [done | done | lia |].
    replace (length h.(ext_after) + (S (length buf) - length h.(ext_before) - length h.(ext_after)))
      with (S (length buf) - length h.(ext_before)) in E by lia.
    rewrite E. destruct (_ - length h.(ext_after)) as [|fuel] eqn:Ef; [lia |].
    apply extensions_end. lia.
Qed.
End RoundTrip.

(** ** Splitting a header block *)

Definition CR : Ascii.ascii := ascii_of_nat 13.

Fixpoint join_lines (l : list string) : string :=
  match l with
  | [] => ""
  | [x] => x
  | x :: l' => x +:+ CRLF +:+ join_lines l'
  end.

Definition clean (l : string) : Prop := free_of CR l = true.

Lemma split_once_skip a sep u s :
  free_of a u = true →
  split_once (String a sep) (u +:+ s)
  = match split_once (String a sep) s with Some (x, y) => Some (u +:+ x, y) | None => None end.
Proof.
  induction u as [|x u IH]; intros H.
  { change ("" +:+ s) with s. by destruct (split_once _ s) as [[]|]. }
  apply free_of_cons in H as [Hne Hu]. rewrite string_app_cons. cbn [split_once strip_prefix].
  rewrite (proj2 (Ascii.eqb_neq a x)) by done. rewrite (IH Hu).
  by destruct (split_once _ s) as [[]|].
Qed.

Lemma split_once_none a sep u : free_of a u = true → split_once (String a sep) u = None.
Proof.
  intros H. rewrite <-(str_app_nil_r u), split_once_skip by done. done.
Qed.

Lemma split_lines fuel l x :
  Forall clean (x :: l) → length l < fuel → split_str fuel CRLF (join_lines (x :: l)) = x :: l.
Proof.
  revert fuel x. induction l as [|y l IH]; intros [|fuel] x [Hx Hl]%Forall_cons Hf;
    [simpl in Hf; lia | | simpl in Hf; lia |].
  - cbn [split_str join_lines]. unfold CRLF at 1. by rewrite split_once_none.
  - change (join_lines (x :: y :: l)) with (x +:+ CRLF +:+ join_lines (y :: l)). cbn [split_str].
    unfold CRLF at 1 2. rewrite split_once_app by done. f_equal. apply IH; [done |]. simpl in Hf. lia.
Qed.

Lemma header_end_eq : HEADER_END = String CR (String (ascii_of_nat 10) CRLF).
Proof. done. Qed.

Lemma join_lines_cons x y l : join_lines (x :: y :: l) = x +:+ CRLF +:+ join_lines (y :: l).
Proof. done. Qed.

(** A line break before a character that is no CR is no blank line. *)
Lemma split_header_step c t :
  c ≠ CR →
  split_once HEADER_END (CRLF +:+ String c t)
  = match split_once HEADER_END (String c t) with Some (x, y) => Some (CRLF +:+ x, y) | None => None end.
Proof.
  intros Hc. rewrite header_end_eq.
  change (CRLF +:+ String c t) with (String CR (String (ascii_of_nat 10) (String c t))).
  remember (String c t) as s eqn:Hs.
  assert (strip_prefix (String CR (String (ascii_of_nat 10) CRLF))
            (String CR (String (ascii_of_nat 10) s)) = None) as Hn.
  { subst s. cbn [strip_prefix]. rewrite !Ascii.eqb_refl. unfold CRLF. cbn [strip_prefix]. fold CR.
    by rewrite (proj2 (Ascii.eqb_neq CR c)). }
  cbn [split_once]. rewrite Hn. change (strip_prefix _ (String (ascii_of_nat 10) s)) with (@None string).
  by destruct (split_once _ s) as [[x y]|].
Qed.

(** The blank line after the last header is the first one. *)
Lemma split_head l x rest :
  Forall clean (x :: l) → Forall (λ y, y ≠ "") l →
  split_once HEADER_END (join_lines (x :: l) +:+ HEADER_END +:+ rest) = Some (join_lines (x :: l), rest).
Proof.
  revert x. induction l as [|y l IH]; intros x [Hx Hl]%Forall_cons Hne.
  - by apply (split_once_app CR).
  - apply Forall_cons in Hne as [Hy Hne]. rewrite join_lines_cons, !str_app_assoc.
    rewrite header_end_eq at 1. rewrite split_once_skip by done. rewrite <-header_end_eq.
    specialize (IH y Hl Hne). destruct y as [|c y]; [done |].
    assert (c ≠ CR) as Hc by by apply Forall_cons in Hl as [[? _]%free_of_cons _].
    assert (∃ t, join_lines (String c y :: l) = String c t) as [t Ht].
    { destruct l as [|z l]; [by exists y |]. rewrite join_lines_cons, string_app_cons. by eexists. }
    rewrite Ht in *. rewrite string_app_cons in *. by rewrite split_header_step, IH.
Qed.

(** ** Properties *)

(** Whatever the bytes, the ClientHello parser answers: it reads nothing
    outside the buffer, takes no slice out of range and its loops end. *)
Theorem sni_parser_total buf :
  match extract_sni_from_client_hello buf with
  | Ok _ | Err (Malformed _) => True
  | Err _ => False
  end.
Proof.
  pose proof (client_hello_runs buf) as H. unfold runs in H. unfold extract_sni_from_client_hello.
  by destruct (client_hello buf 0) as [[|[]] ?].
Qed.

(** C25: The name a well-formed ClientHello carries is the name read, wherever its
    extension stands; a hello without one is read as naming nobody.  Bytes after
    the record do not matter. *)
Theorem sni_round_trip h trailing :
  well_formed_hello h →
  extract_sni_from_client_hello (client_hello_record h ++ trailing) = Ok h.(server_name).
Proof. apply parsed_extensions. Qed.

(** A header line other than [Host]. *)
Definition other_header (line : string) : Prop :=
  match split_once ":" line with
  | Some (name, _) => eq_ignore_ascii_case name "host" = false
  | None => True
  end.

Lemma host_of_lines_skip before lines :
  Forall other_header before → host_of_lines (before ++ lines) = host_of_lines lines.
Proof.
  induction 1 as [|line before Hline _ IH]; [done |]. unfold other_header in Hline. simpl.
  destruct (split_once ":" line) as [[name value]|]; [by rewrite Hline | done].
Qed.

(** The host of a request is the value of its first [Host] line, in any case,
    trimmed, without its port and in lower case; what follows the blank line does
    not matter. *)
Theorem host_header_found request_line before name value after rest :
  let lines := before ++ (name +:+ ":" +:+ value) :: after in
  let host := str_trim (first_piece ":"%char (str_trim value)) in
  Forall clean (request_line :: lines) → Forall (λ l, l ≠ "") lines →
  utf8_valid (join_lines (request_line :: lines)) = true →
  Forall other_header before → eq_ignore_ascii_case name "host" = true →
  free_of ":"%char name = true → host ≠ "" →
  extract_host_header_from_http_request_line_block
    (join_lines (request_line :: lines) +:+ HEADER_END +:+ rest) = Ok (to_ascii_lowercase host).
Proof.
  intros lines host Hc Hne Hu Hb Hn Hf Hh. unfold extract_host_header_from_http_request_line_block.
  rewrite split_head by done. rewrite Hu, split_lines.
  - cbn [List.tl]. unfold lines. rewrite host_of_lines_skip by done. cbn [host_of_lines].
    rewrite split_once_app by done. rewrite Hn. fold host. by rewrite (proj2 (String.eqb_neq host "")).
  - done.
  - clear -Hne. generalize request_line. induction Hne as [|y l Hy Hl IH]; intros x; [simpl; lia |].
    rewrite join_lines_cons, !str_length_app. specialize (IH y).
    change (String.length CRLF) with 2. cbn [length]. lia.
Qed.

(** ** Witnesses *)

Definition demo_hello : Hello :=
  MkHello 771 (replicate 32 (byte_of 9)) [byte_of 1] [byte_of 19; byte_of 1] [NUL]
    [(10%Z, [byte_of 0; byte_of 29])] (Some "api.anthropic.com") [(43%Z, [byte_of 3])].

Lemma sni_round_trip_witness :
  extract_sni_from_client_hello (client_hello_record demo_hello ++ [byte_of 20]) = Ok (Some "api.anthropic.com").
Proof.
  apply (sni_round_trip demo_hello). unfold well_formed_hello. cbn [ext_before ext_after demo_hello app].
  split_and!; try (vm_compute; (reflexivity || congruence)); try (apply Nat.ltb_lt; vm_compute; reflexivity).
  repeat constructor; vm_compute; congruence.
Defined.

Lemma host_header_found_witness :
  extract_host_header_from_http_request_line_block
    (join_lines ["GET / HTTP/1.1"; "Accept: x"; "HOST:  Api.Example.COM:8080 "] +:+ HEADER_END +:+ "body")
  = Ok "api.example.com".
Proof.
  apply (host_header_found "GET / HTTP/1.1" ["Accept: x"] "HOST" "  Api.Example.COM:8080 " [] "body");
    try (repeat constructor; vm_compute; (reflexivity || discriminate)); vm_compute; discriminate.
Defined.
