(* ===== verification/Gateway.v ===== *)
(** * The gateway process

    The process that calls the model providers: the policy it reads
    ([gateway/src/policy_view.rs]), the handling of one request
    ([gateway/src/dispatch.rs]) and the outbound call
    ([gateway/src/http_backend.rs]) with the types of [crates/gateway-substrate]
    and [crates/ipc/src/message.rs].  The HTTP client, the credential store, the
    TOML reader and the constant-time comparison are parameters; a backend is a
    class, whose answers may depend on the calls made before. *)

From S2P Require Import Prelude Bytes Policy Hosts Providers.
From Stdlib Require Import Ascii.

(** ** Messages *)

Inductive FetchKind := Inference | DataFetch.
#[export] Instance FetchKind_eq_dec : EqDecision FetchKind.
Proof. solve_decision. Defined.

Record FetchRequest := MkFetchRequest {
  gateway_token : string;
  fetch_id : Uuid;
  fetch_kind : FetchKind;
  url : string;
  method : string;
  headers : list (string * string);
  body_bytes : list byte;
  timeout_ms : Z;
  fetch_session_id : option Uuid;
  fetch_task_id : option string;
}.

Record FetchResponse := MkFetchResponse {
  response_fetch_id : Uuid;
  status_code : option Z;
  response_headers : list (string * string);
  response_body : option (list byte);
  latency_ms : Z;
  error : option string;
}.

Inductive GatewayMessage :=
  | FetchRequestMsg (r : FetchRequest)
  | EpochAdvanced (new_epoch_id : Z)
  | FetchResponseMsg (r : FetchResponse)
  | GatewayReady (token : string).

(** ** The policy view *)

Record ProviderCredentials := MkCredentials {
  api_key : string;
  auth_header : string;
  auth_prefix : string;
}.

Record ProviderEntryView := MkProviderView {
  view_provider_id : string;
  view_kind : string;
  view_inference_timeout_ms : Z;
  view_data_fetch_timeout_ms : Z;
  view_max_response_bytes : Z;
  view_stream_idle_timeout_ms : option Z;
  view_sidecar_endpoint : option string;
  credentials : ProviderCredentials;
}.

Record PolicyView := MkPolicyView {
  view_epoch : Z;
  view_egress_domains : list string;
  view_egress_patterns : list string;
  view_providers : gmap string ProviderEntryView;
  provider_order : list string;
}.

Definition is_url_allowed (v : PolicyView) (u : string) : bool :=
  match extract_host u with
  | None => false
  | Some host => domain_allowed v.(view_egress_domains) v.(view_egress_patterns) host
  end.

Inductive ProviderResolveError := ResolveBackend (e : string) | NotUtf8 | ResolveParse (e : string) | EmptyApiKey.
Inductive PolicyViewError :=
  | PolicyLoad (e : string)
  | CredentialsRead (provider_id file : string)
  | CredentialsBackend (provider_id e : string)
  | CredentialsParse (provider_id file e : string)
  | CredentialsEmpty (provider_id file : string).

(** The part of a loaded policy the view reads. *)
Record LoadedPolicy := MkLoadedPolicy {
  loaded_epoch : Z;
  loaded_providers : list ProviderEntry;
  loaded_egress : EgressSection;
}.

Definition credentials_filename_to_name (file : string) : string :=
  "providers." +:+ default file (strip_suffix ".toml" file).

Section Load.
(** [backend.resolve(name, consumer)] and [toml::from_str]. *)
Variable resolve : string → string → result string (list byte).
Variable parse_credentials : string → result string ProviderCredentials.

Definition resolve_provider_credentials_via_backend (name consumer : string)
    : result ProviderResolveError ProviderCredentials :=
  value ← map_err ResolveBackend (resolve name consumer);
  let text := String.string_of_list_ascii value in
  if negb (utf8_valid text) then Err NotUtf8
  else
    creds ← map_err ResolveParse (parse_credentials text);
    if String.eqb creds.(api_key) "" then Err EmptyApiKey else Ok creds.

Definition provider_view_error (p : ProviderEntry) (e : ProviderResolveError) : PolicyViewError :=
  match e with
  | ResolveBackend src => CredentialsBackend p.(provider_id) src
  | ResolveParse parse => CredentialsParse p.(provider_id) p.(credentials_file) parse
  | EmptyApiKey => CredentialsEmpty p.(provider_id) p.(credentials_file)
  | NotUtf8 => CredentialsRead p.(provider_id) p.(credentials_file)
  end.

Definition provider_view (p : ProviderEntry) (creds : ProviderCredentials) : ProviderEntryView :=
  MkProviderView p.(provider_id) p.(provider_kind) p.(inference_timeout_ms) p.(data_fetch_timeout_ms)
    p.(max_response_bytes) p.(stream_idle_timeout_ms) p.(sidecar_endpoint) creds.

(** The loop over [bundle.providers()]. *)
Fixpoint load_providers (ps : list ProviderEntry) (st : gmap string ProviderEntryView * list string)
    : result PolicyViewError (gmap string ProviderEntryView * list string) :=
  match ps with
  | [] => Ok st
  | p :: ps =>
      creds ← map_err (provider_view_error p)
        (resolve_provider_credentials_via_backend (credentials_filename_to_name p.(credentials_file))
           p.(provider_id));
      load_providers ps (<[p.(provider_id) := provider_view p creds]> st.1, st.2 ++ [p.(provider_id)])
  end.

Definition load_policy_view_with_credential_backend (policy : result string LoadedPolicy)
    : result PolicyViewError PolicyView :=
  bundle ← map_err PolicyLoad policy;
  st ← load_providers bundle.(loaded_providers) (∅, []);
  Ok (MkPolicyView bundle.(loaded_epoch)
        (effective_egress_domains bundle.(loaded_providers) bundle.(loaded_egress))
        (effective_egress_patterns bundle.(loaded_egress)) st.1 st.2).
End Load.

(** ** Backends *)

(** A reason only reaches the gateway's own log; its text is abbreviated. *)
Inductive BackendError :=
  | Upstream (reason : string)
  | Timeout (timeout_ms : Z)
  | TooLarge (got limit : Z).

(** Durations are milliseconds. *)
Record BackendRequest := MkBackendRequest {
  br_provider : ProviderEntryView;
  br_url : string;
  br_method : string;
  br_headers : list (string * string);
  br_body : list byte;
  br_timeout : Z;
  br_stream_idle_timeout : option Z;
}.

Record BackendResponse := MkBackendResponse {
  br_status_code : Z;
  br_resp_headers : list (string * string);
  br_resp_body : list byte;
  br_latency_ms : Z;
}.

Class Backend (B : Type) := backend_call : B → list BackendRequest → BackendRequest → result BackendError BackendResponse.

(** What dispatch relies on: the response cap of the provider is enforced. *)
Class BoundedBackend (B : Type) `{Backend B} : Prop :=
  backend_bounded b log q resp :
    (0 ≤ q.(br_provider).(view_max_response_bytes))%Z → backend_call b log q = Ok resp →
    (Z.of_nat (length resp.(br_resp_body)) ≤ q.(br_provider).(view_max_response_bytes))%Z.

(** ** Dispatch *)

Inductive DispatchError :=
  | InvalidToken
  | DomainNotAllowed (host : string)
  | UnknownProviderForHost (host : string)
  | TimeoutAboveCap (requested_ms cap_ms : Z)
  | BackendFailed (e : BackendError)
  | PolicyReloadFailed.

Definition as_wire_string (e : DispatchError) : string :=
  match e with
  | InvalidToken => "InvalidToken"
  | DomainNotAllowed _ => "DomainNotAllowed"
  | UnknownProviderForHost _ => "UnknownProviderForHost"
  | TimeoutAboveCap _ _ => "TimeoutExceeded"
  | BackendFailed (Timeout _) => "TimeoutExceeded"
  | BackendFailed (TooLarge _ _) => "ResponseTooLarge"
  | BackendFailed (Upstream _) => "NetworkError"
  | PolicyReloadFailed => "PolicyReloadFailed"
  end.

Definition STREAM_IDLE_TIMEOUT_DEFAULT : Z := 30000.

Definition provider_kind_matches_host (kind host_lower : string) : bool :=
  if String.eqb kind "Anthropic" then
    String.eqb host_lower "anthropic.com" || ends_with_str ".anthropic.com" host_lower
  else if String.eqb kind "OpenAI" then
    String.eqb host_lower "openai.com" || ends_with_str ".openai.com" host_lower
  else if String.eqb kind "Gemini" then String.eqb host_lower "generativelanguage.googleapis.com"
  else if String.eqb kind "Bedrock" then
    starts_with "bedrock-runtime." host_lower && ends_with_str ".amazonaws.com" host_lower
  else false.

Definition provider_entry_matches_host (entry : ProviderEntryView) (host_lower : string) : bool :=
  if String.eqb entry.(view_kind) "http_sidecar" then
    match entry.(view_sidecar_endpoint) ≫= extract_host with
    | Some h => eq_ignore_ascii_case h host_lower
    | None => false
    end
  else provider_kind_matches_host entry.(view_kind) host_lower.

Definition error_response (id : Uuid) (e : DispatchError) : GatewayMessage :=
  FetchResponseMsg (MkFetchResponse id None [] None 0 (Some (as_wire_string e))).

Definition NIL_FETCH_ID : Uuid := replicate 16 (byte_of 0).

Section Dispatch.
(** [subtle]'s comparison of byte strings and [str::to_lowercase]. *)
Variable ct_eq : list byte → list byte → bool.
Variable to_lowercase : string → string.
Context {B : Type} `{Backend B} (backend : B).

(** The walk of [provider_order]. *)
Fixpoint first_provider (providers : gmap string ProviderEntryView) (order : list string)
    (host_lower : string) : option ProviderEntryView :=
  match order with
  | [] => None
  | id :: order =>
      match providers !! id with
      | None => first_provider providers order host_lower
      | Some entry =>
          if provider_entry_matches_host entry host_lower then Some entry
          else first_provider providers order host_lower
      end
  end.

Definition provider_for_host (v : PolicyView) (host : string) : option ProviderEntryView :=
  first_provider v.(view_providers) v.(provider_order) (to_lowercase host).

Definition call_backend (q : BackendRequest) : SE (list BackendRequest) DispatchError BackendResponse :=
  λ log, (map_err BackendFailed (backend_call backend log q), log ++ [q]).

Definition provider_cap_ms (kind : FetchKind) (p : ProviderEntryView) : Z :=
  match kind with
  | Inference => p.(view_inference_timeout_ms)
  | DataFetch => p.(view_data_fetch_timeout_ms)
  end.

Definition stream_idle_timeout (kind : FetchKind) (p : ProviderEntryView) : option Z :=
  match kind with
  | Inference => Some (default STREAM_IDLE_TIMEOUT_DEFAULT p.(view_stream_idle_timeout_ms))
  | DataFetch => None
  end.

Definition backend_request (r : FetchRequest) (p : ProviderEntryView) : BackendRequest :=
  MkBackendRequest p r.(url) r.(method) r.(headers) r.(body_bytes) r.(timeout_ms)
    (stream_idle_timeout r.(fetch_kind) p).

Definition success_response (id : Uuid) (resp : BackendResponse) : GatewayMessage :=
  FetchResponseMsg (MkFetchResponse id (Some resp.(br_status_code)) resp.(br_resp_headers)
    (Some resp.(br_resp_body)) (Z.min resp.(br_latency_ms) u32_max) None).

Definition dispatch (r : FetchRequest) (expected_token : string) (policy_view : option PolicyView)
    : SE (list BackendRequest) DispatchError GatewayMessage :=
  if negb (ct_eq (chars expected_token) (chars r.(gateway_token))) then throw InvalidToken
  else match policy_view with
  | None => throw PolicyReloadFailed
  | Some view =>
      if negb (is_url_allowed view r.(url))
      then throw (DomainNotAllowed (default "<unparsed>" (extract_host r.(url))))
      else match extract_host r.(url) with
      | None => throw (DomainNotAllowed "<unparsed>")
      | Some host =>
          match provider_for_host view host with
          | None => throw (UnknownProviderForHost host)
          | Some provider =>
              let cap := provider_cap_ms r.(fetch_kind) provider in
              if (cap <? r.(timeout_ms))%Z then throw (TimeoutAboveCap r.(timeout_ms) cap)
              else resp ← call_backend (backend_request r provider);
                   mret (success_response r.(fetch_id) resp)
          end
      end
  end.

Definition handle_fetch_request (request : GatewayMessage) (expected_token : string)
    (policy_view : option PolicyView) (log : list BackendRequest) : GatewayMessage * list BackendRequest :=
  match request with
  | FetchRequestMsg r =>
      match dispatch r expected_token policy_view log with
      | (Ok resp, log) => (resp, log)
      | (Err e, log) => (error_response r.(fetch_id) e, log)
      end
  | _ => (error_response NIL_FETCH_ID
            (BackendFailed (Upstream "handle_fetch_request received non-FetchRequest variant")), log)
  end.
End Dispatch.

(** ** The HTTP backend *)

Definition ascii_upper (c : Ascii.ascii) : Ascii.ascii :=
  let n := nat_of_ascii c in
  if (97 <=? n) && (n <=? 122) then ascii_of_nat (n - 32) else c.
Fixpoint to_ascii_uppercase (s : string) : string :=
  match s with
  | EmptyString => EmptyString
  | String c s' => String (ascii_upper c) (to_ascii_uppercase s')
  end.

Definition parse_method (m : string) : result BackendError string :=
  let u := to_ascii_uppercase m in
  if bool_decide (u ∈ ["GET"; "POST"; "PUT"; "PATCH"; "DELETE"; "HEAD"; "OPTIONS"]) then Ok u
  else Err (Upstream ("unsupported HTTP method " +:+ u)).

(** The calls of [builder.header], in order. *)
Definition request_headers (q : BackendRequest) : list (string * string) :=
  let c := q.(br_provider).(credentials) in
  q.(br_headers) ++ [(c.(auth_header), c.(auth_prefix) +:+ c.(api_key))]
  ++ (if eq_ignore_ascii_case q.(br_provider).(view_kind) "Anthropic"
      then [("anthropic-version", "2023-06-01")] else []).

Record HttpRequest := MkHttpRequest {
  http_method : string;
  http_url : string;
  http_timeout : Z;
  http_body : list byte;
  http_headers : list (string * string);
}.

Inductive SendError := SendTimeout | SendFailed (e : string).

(** One [resp.chunk()]: how long it took, and a chunk, the end or a failure. *)
Record ChunkRead := MkChunkRead {
  waited_ms : Z;
  chunk : result string (option (list byte));
}.

Record HttpHead := MkHttpHead {
  head_status : Z;
  head_headers : list (string * list byte);
  head_chunks : list ChunkRead;
  elapsed_ms : Z;
}.

(** The client: what a request is answered after the calls already made.  A list
    of chunks that ends without an end marker ends there. *)
Record HttpBackend := MkHttpBackend {
  send : list BackendRequest → HttpRequest → result SendError HttpHead;
  to_str : list byte → option string;
}.

Fixpoint read_body_capped (limit : Z) (idle : option Z) (reads : list ChunkRead) (body : list byte)
    : result BackendError (list byte) :=
  match reads with
  | [] => Ok body
  | r :: reads =>
      let stalled := match idle with Some d => (d <? r.(waited_ms))%Z | None => false end in
      if stalled then Err (Timeout (Z.min (default 0%Z idle) u32_max))
      else match r.(chunk) with
           | Err e => Err (Upstream ("body stream error: " +:+ e))
           | Ok None => Ok body
           | Ok (Some bytes) =>
               let next_total := (Z.of_nat (length body) + Z.of_nat (length bytes))%Z in
               if (limit <? next_total)%Z then Err (TooLarge next_total limit)
               else read_body_capped limit idle reads (body ++ bytes)
           end
  end.

Definition header_hex_digit (n : nat) : Ascii.ascii := ascii_of_nat (if n <? 10 then 48 + n else 87 + n).
(** [format!("\\x{:02x}", b)] *)
Definition escaped_byte (b : byte) : string :=
  let n := nat_of_ascii b in
  String (ascii_of_nat 92) ("x" +:+ String (header_hex_digit (n / 16)) (String (header_hex_digit (n mod 16)) "")).

Definition header_text (to_str : list byte → option string) (h : string * list byte) : string * string :=
  (h.1, match to_str h.2 with
        | Some s => s
        | None => foldr String.append "" (escaped_byte <$> h.2)
        end).

Definition http_call (b : HttpBackend) (log : list BackendRequest) (q : BackendRequest)
    : result BackendError BackendResponse :=
  meth ← parse_method q.(br_method);
  match b.(send) log (MkHttpRequest meth q.(br_url) q.(br_timeout) q.(br_body) (request_headers q)) with
  | Err SendTimeout => Err (Timeout (Z.min q.(br_timeout) u32_max))
  | Err (SendFailed e) => Err (Upstream ("send failed: " +:+ e))
  | Ok head =>
      body ← read_body_capped q.(br_provider).(view_max_response_bytes) q.(br_stream_idle_timeout)
               head.(head_chunks) [];
      Ok (MkBackendResponse head.(head_status) (header_text b.(to_str) <$> head.(head_headers)) body
            (Z.min head.(elapsed_ms) u64_max))
  end.

#[export] Instance http_backend : Backend HttpBackend := http_call.

Lemma read_body_capped_bounded limit idle reads body body' :
  read_body_capped limit idle reads body = Ok body' →
  (Z.of_nat (length body) ≤ limit)%Z → (Z.of_nat (length body') ≤ limit)%Z.
Proof.
  revert body. induction reads as [|r reads IH]; simpl; intros body; [by intros [= <-] |].
  destruct (match idle with Some d => _ | None => false end); [done |].
  destruct (chunk r) as [[bytes|]|e]; [| by intros [= <-] | done].
  destruct (Z.ltb_spec limit (Z.of_nat (length body) + Z.of_nat (length bytes))); [done |].
  intros Hr _. apply (IH _ Hr). rewrite length_app. lia.
Qed.

#[export] Instance http_backend_bounded : BoundedBackend HttpBackend.
Proof.
  intros b log q resp H0. unfold backend_call, http_backend, http_call.
  destruct (parse_method _) as [meth|e]; [| done]. simpl.
  destruct (send b log _) as [head|[]]; [| done | done]. simpl.
  destruct (read_body_capped _ _ _ _) as [body|e] eqn:E; [| done].
  intros [= <-]. by apply read_body_capped_bounded in E.
Qed.

(** ** The loaded view *)

Lemma NoDup_fmap_unique {A K} (f : A → K) (l : list A) a b :
  NoDup (f <$> l) → a ∈ l → b ∈ l → f a = f b → a = b.
Proof.
  intros Hnd [i Ha]%list_elem_of_lookup [j Hb]%list_elem_of_lookup Hf.
  assert (i = j) as <-; [| congruence].
  eapply NoDup_lookup; [done | by rewrite list_lookup_fmap, Ha | by rewrite list_lookup_fmap, Hb, Hf].
Qed.

Lemma load_providers_ok resolve parse ps st st' :
  load_providers resolve parse ps st = Ok st' → NoDup (provider_id <$> ps) →
  (∀ p, p ∈ ps → st.1 !! p.(provider_id) = None) →
  st'.2 = st.2 ++ (provider_id <$> ps) ∧
  (∀ id v, st'.1 !! id = Some v → st.1 !! id = Some v ∨
    ∃ p creds, p ∈ ps ∧ p.(provider_id) = id ∧ v = provider_view p creds ∧
      resolve_provider_credentials_via_backend resolve parse
        (credentials_filename_to_name p.(credentials_file)) id = Ok creds) ∧
  (∀ id, is_Some (st.1 !! id) ∨ id ∈ provider_id <$> ps ↔ is_Some (st'.1 !! id)).
Proof.
  revert st. induction ps as [|p ps IH]; simpl; intros st.
  { intros [= <-] _ _. rewrite app_nil_r. split_and!; [done | by left |].
    intros id. rewrite elem_of_nil. naive_solver. }
  destruct (resolve_provider_credentials_via_backend _ _ _ _) as [creds|e] eqn:E; [| done]. simpl.
  intros Hl [Hn Hnd]%NoDup_cons Hfresh.
  apply IH in Hl as (Hord & Hv & Hdom); [| done |].
  - cbn [fst snd] in *. split_and!.
    + by rewrite Hord, <-app_assoc.
    + intros id v [Hi|(q & c & Hq & Hid & Hvw & Hr)]%Hv; [| right; exists q, c; split_and!; try done; by right].
      apply lookup_insert_Some in Hi as [[<- <-]|[_ Hi]]; [| by left].
      right. exists p, creds. split_and!; try done. left.
    + intros id. rewrite <-Hdom, elem_of_cons, lookup_insert_is_Some'. clear. split; intros [?|?]; intuition eauto.
  - intros q Hq. cbn [fst]. rewrite lookup_insert_ne; [apply Hfresh; by right |].
    intros Heq. apply Hn. apply list_elem_of_fmap. by exists q.
Qed.

Lemma resolved_credentials resolve parse name consumer creds :
  resolve_provider_credentials_via_backend resolve parse name consumer = Ok creds →
  ∃ value, resolve name consumer = Ok value ∧
    parse (String.string_of_list_ascii value) = Ok creds ∧ creds.(api_key) ≠ "".
Proof.
  unfold resolve_provider_credentials_via_backend. destruct (resolve name consumer) as [value|e]; [| done].
  simpl. destruct (utf8_valid _); [| done]. simpl. destruct (parse _) as [c|e] eqn:E; [| done]. simpl.
  destruct (String.eqb_spec (api_key c) ""); [done |]. intros [= <-]. by exists value.
Qed.

(** ** The provider of a host *)

(** [p] is the first entry, in policy order, that serves the host. *)
Definition serves_first (providers : gmap string ProviderEntryView) (order : list string) (h : string)
    (p : ProviderEntryView) : Prop :=
  ∃ before id after, order = before ++ id :: after ∧ providers !! id = Some p ∧
    provider_entry_matches_host p h = true ∧
    ∀ id' p', id' ∈ before → providers !! id' = Some p' → provider_entry_matches_host p' h = false.

Lemma serves_first_later providers i order h p :
  (∀ p', providers !! i = Some p' → provider_entry_matches_host p' h = false) →
  serves_first providers (i :: order) h p ↔ serves_first providers order h p.
Proof.
  intros Hi. split.
  - intros ([|j b] & id & a & [= -> ->] & Hp & Hm & Hb); [by rewrite (Hi p Hp) in Hm |].
    exists b, id, a. split_and!; try done. intros id' p' Hin. apply Hb. by right.
  - intros (b & id & a & -> & Hp & Hm & Hb). exists (i :: b), id, a. split_and!; try done.
    intros id' p' [->|Hin]%elem_of_cons; [apply Hi | by apply Hb].
Qed.

Lemma first_provider_Some providers order h p :
  first_provider providers order h = Some p ↔ serves_first providers order h p.
Proof.
  induction order as [|i order IH]; simpl.
  { split; [done |]. by intros ([] & ? & ? & ? & _). }
  destruct (providers !! i) as [e|] eqn:E; [| by rewrite serves_first_later, IH by congruence].
  destruct (provider_entry_matches_host e h) eqn:Em.
  - split.
    + intros [= <-]. exists [], i, order. split_and!; try done. by intros ? ? Hn%elem_of_nil.
    + intros ([|j b] & id & a & [= -> ->] & Hp & Hm & Hb); [congruence |].
      by rewrite (Hb j e (list_elem_of_here _ _) E) in Em.
  - rewrite serves_first_later, IH; [done |]. intros p'. congruence.
Qed.

(** ** One request *)

(** The conditions under which a request may leave the process: the host read off
    its URL is on a list, the provider is the first in policy order that serves
    it, and the provider's time limit admits the request. *)
Record permitted (to_lowercase : string → string) (v : PolicyView) (r : FetchRequest) (host : string)
    (p : ProviderEntryView) : Prop := {
  permitted_host : extract_host r.(url) = Some host;
  permitted_domain : domain_allowed v.(view_egress_domains) v.(view_egress_patterns) host = true;
  permitted_provider : provider_for_host to_lowercase v host = Some p;
  permitted_time : (r.(timeout_ms) ≤ provider_cap_ms r.(fetch_kind) p)%Z;
}.

(** The conditions can be decided. *)
Lemma permitted_or_not to_lowercase r token view :
  (∃ v host p, view = Some v ∧ r.(gateway_token) = token ∧ permitted to_lowercase v r host p) ∨
  (∀ v host p, view = Some v → r.(gateway_token) = token → ¬ permitted to_lowercase v r host p).
Proof.
  destruct view as [v|]; [| by right]. destruct (decide (r.(gateway_token) = token)) as [Ht|]; [| naive_solver].
  destruct (extract_host (url r)) as [host|] eqn:Eh; [| right; intros ? ? ? _ _ []; congruence].
  assert (∀ q, ¬ permitted to_lowercase v r host q →
    ∀ v' h', Some v = Some v' → ¬ permitted to_lowercase v' r h' q) as Hsame.
  { intros q Hq v' h' [= <-] Hp. apply Hq. pose proof (permitted_host _ _ _ _ _ Hp). by simplify_eq. }
  destruct (domain_allowed v.(view_egress_domains) v.(view_egress_patterns) host) eqn:Ed;
    [| right; intros v' h q Hv _; apply Hsame; [| done]; intros []; congruence].
  destruct (provider_for_host to_lowercase v host) as [p|] eqn:Ep;
    [| right; intros v' h q Hv _; apply Hsame; [| done]; intros []; congruence].
  destruct (decide (timeout_ms r ≤ provider_cap_ms (fetch_kind r) p)%Z) as [Hc|Hc];
    [left; by exists v, host, p | right].
  intros v' h q Hv _. apply Hsame; [| done]. intros [_ _ Hq Hle]. rewrite Ep in Hq. by injection Hq as <-.
Qed.

Section Facts.
Variable ct_eq : list byte → list byte → bool.
Hypothesis ct_eq_spec : ∀ a b, ct_eq a b = true ↔ a = b.
Variable to_lowercase : string → string.
Context {B : Type} `{Backend B} (backend : B).

Lemma ct_eq_text a b : ct_eq (chars a) (chars b) = true ↔ a = b.
Proof. rewrite ct_eq_spec. split; [apply chars_inj | by intros ->]. Qed.

Lemma dispatch_permitted r token v host p log :
  r.(gateway_token) = token → permitted to_lowercase v r host p →
  dispatch ct_eq to_lowercase backend r token (Some v) log =
  (match backend_call backend log (backend_request r p) with
   | Ok resp => Ok (success_response r.(fetch_id) resp)
   | Err e => Err (BackendFailed e)
   end, log ++ [backend_request r p]).
Proof.
  intros Ht [Hh Hd Hp Hc]. unfold dispatch, is_url_allowed.
  rewrite (proj2 (ct_eq_text token r.(gateway_token))) by done. simpl. rewrite Hh, Hd. simpl. rewrite Hp.
  destruct (Z.ltb_spec (provider_cap_ms (fetch_kind r) p) (timeout_ms r)); [lia |].
  unfold call_backend. se_unfold. by destruct (backend_call _ _ _).
Qed.

Lemma dispatch_refused r token view log :
  (∀ v host p, view = Some v → r.(gateway_token) = token → ¬ permitted to_lowercase v r host p) →
  ∃ e, dispatch ct_eq to_lowercase backend r token view log = (Err e, log).
Proof.
  intros Hno. unfold dispatch, is_url_allowed, throw.
  destruct (ct_eq (chars token) _) eqn:Ec; [apply ct_eq_text in Ec | eauto]. simpl.
  destruct view as [v|]; [| eauto].
  destruct (extract_host (url r)) as [host|] eqn:Eh; [| eauto].
  destruct (domain_allowed _ _ _) eqn:Ed; [| eauto]. simpl.
  destruct (provider_for_host _ v host) as [p|] eqn:Ep; [| eauto].
  destruct (Z.ltb_spec (provider_cap_ms (fetch_kind r) p) (timeout_ms r)); [eauto |].
  exfalso. by eapply (Hno v host p).
Qed.
End Facts.

(** *** Shared facts *)

Lemma served_resolved resolve parse b view h p :
  validate_providers b.(loaded_providers) = Ok tt →
  load_policy_view_with_credential_backend resolve parse (Ok b) = Ok view →
  first_provider view.(view_providers) view.(provider_order) h = Some p →
  ∃ entry creds, entry ∈ b.(loaded_providers) ∧ p = provider_view entry creds ∧
    resolve_provider_credentials_via_backend resolve parse
      (credentials_filename_to_name entry.(credentials_file)) entry.(provider_id) = Ok creds.
Proof.
  intros [Hnd _]%validate_providers_iff Hl Hf. unfold load_policy_view_with_credential_backend in Hl. simpl in Hl.
  destruct (load_providers _ _ _ _) as [st|e] eqn:E; [| done]. injection Hl as <-. simpl in Hf.
  apply load_providers_ok in E as (_ & Hv & _); [| done | done].
  apply first_provider_Some in Hf as (_ & id & _ & _ & Hp & _ & _).
  destruct (Hv _ _ Hp) as [Hn|(entry & creds & Hin & <- & -> & Hr)]; [by cbn in Hn; rewrite lookup_empty in Hn |].
  by exists entry, creds.
Qed.

Lemma served_entry resolve parse b view h p :
  validate_providers b.(loaded_providers) = Ok tt →
  load_policy_view_with_credential_backend resolve parse (Ok b) = Ok view →
  first_provider view.(view_providers) view.(provider_order) h = Some p →
  ∃ entry, entry ∈ b.(loaded_providers) ∧ p = provider_view entry p.(credentials).
Proof. intros H1 H2 H3. destruct (served_resolved _ _ _ _ _ _ H1 H2 H3) as (e & c & ? & -> & _). by exists e. Qed.

Lemma gateway_shape {B} `{Backend B} (backend : B) ct_eq (Hct : ∀ a b, ct_eq a b = true ↔ a = b) to_lowercase
    r token view log :
  (∃ e, (handle_fetch_request ct_eq to_lowercase backend (FetchRequestMsg r) token view log).1
          = error_response r.(fetch_id) e) ∨
  (∃ v host p answer, view = Some v ∧ permitted to_lowercase v r host p ∧
     backend_call backend log (backend_request r p) = Ok answer ∧
     (handle_fetch_request ct_eq to_lowercase backend (FetchRequestMsg r) token view log).1
       = success_response r.(fetch_id) answer).
Proof.
  unfold handle_fetch_request.
  destruct (permitted_or_not to_lowercase r token view) as [(v & host & p & -> & Ht & Hp)|Hno].
  - rewrite (dispatch_permitted ct_eq Hct to_lowercase backend r token v host p log Ht Hp).
    destruct (backend_call backend log (backend_request r p)) as [answer|e] eqn:E;
      [right; by exists v, host, p, answer | left; by eexists].
  - destruct (dispatch_refused ct_eq Hct to_lowercase backend r token view log Hno) as [e ->].
    left. by eexists.
Qed.

(** ** Properties *)


(** A URL whose user information is the name of an allowed host. *)
Definition smuggled_url (allowed evil path : string) : string :=
  "https" +:+ "://" +:+ (allowed +:+ String ":"%char ("x" +:+ String "@"%char evil)) +:+ String "/"%char path.

Lemma smuggled_hosts allowed evil path :
  plain allowed = true → plain evil = true → allowed ≠ "" → evil ≠ "" →
  extract_host (smuggled_url allowed evil path) = Some allowed ∧
  url_host (smuggled_url allowed evil path) = Some evil.
Proof.
  intros Ha He Hna Hne. unfold extract_host, url_host, url_authority, smuggled_url.
  rewrite (split_once_app ":"%char "//") by done. cbn [mbind option_bind].
  set (auth := allowed +:+ String ":"%char ("x" +:+ String "@"%char evil)).
  assert (∀ c, c ∈ ["/"%char; "?"%char; "#"%char] → free_of c auth = true) as Hfree.
  { intros c Hc. unfold auth.
    assert (c ∈ ["/"%char; "?"%char; "#"%char; "@"%char; ":"%char]) as Hc' by set_solver.
    rewrite free_of_app, (plain_free c allowed Hc' Ha). simpl.
    apply free_of_cons. split; [set_solver |]. change ("x" +:+ String "@"%char evil) with (String "x"%char (String "@"%char evil)).
    repeat (apply free_of_cons; split; [set_solver |]). by apply plain_free. }
  rewrite first_piece_app by (apply Hfree; set_solver). rewrite (first_piece_until "/"%char).
  2: set_solver.
  2: { intros a Hin Hne'. rewrite first_piece_app by (apply Hfree; set_solver). by apply Hfree. }
  rewrite first_piece_app by (apply Hfree; set_solver). split.
  - unfold auth. rewrite first_piece_app by (apply plain_free; [set_solver | done]).
    by rewrite (proj2 (String.eqb_neq _ _) Hna).
  - assert (after_last "@"%char auth = evil) as ->.
    { unfold auth. change (allowed +:+ String ":"%char ("x" +:+ String "@"%char evil))
        with (allowed +:+ (":x" +:+ String "@"%char evil)).
      rewrite <-str_app_assoc. apply after_last_app, plain_free; [set_solver | done]. }
    rewrite first_piece_free by (apply plain_free; [set_solver | done]).
    by rewrite (proj2 (String.eqb_neq _ _) Hne).
Qed.

(** When nothing in front of the path of a URL is unknown to the gateway's
    parser, a request that leaves goes to a host of the policy's lists, under the
    first provider in policy order that serves this very host. *)
Theorem simple_fetches_stay_in_policy {B} `{Backend B} (backend : B) ct_eq to_lowercase r token view log resp q :
  (∀ a b, ct_eq a b = true ↔ a = b) → simple_url r.(url) →
  handle_fetch_request ct_eq to_lowercase backend (FetchRequestMsg r) token view log = (resp, log ++ [q]) →
  ∃ v host, view = Some v ∧ url_host q.(br_url) = Some host ∧
    (host ∈ v.(view_egress_domains) ∨ ∃ pat, pat ∈ v.(view_egress_patterns) ∧ host_matches pat host) ∧
    serves_first v.(view_providers) v.(provider_order) (to_lowercase host) q.(br_provider).
Proof.
  intros Hct Hs Hr.
  destruct (permitted_or_not to_lowercase r token view) as [(v & host & p & -> & Ht & Hp)|Hno];
    unfold handle_fetch_request in Hr.
  - rewrite (dispatch_permitted ct_eq Hct to_lowercase backend r token v host p log Ht Hp) in Hr.
    assert (q = backend_request r p) as ->.
    { destruct (backend_call _ _ _); injection Hr as _ Hl; by apply app_inj_2 in Hl as [_ [= ->]]. }
    destruct Hp as [Hh Hd Hf _]. exists v, host. split_and!; [done | | by apply domain_allowed_iff |].
    + simpl. by rewrite <-extract_host_simple.
    + by apply first_provider_Some.
  - destruct (dispatch_refused ct_eq Hct to_lowercase backend r token view log Hno) as [e E].
    rewrite E in Hr. injection Hr as _ Hl. apply (f_equal length) in Hl. rewrite length_app in Hl. simpl in Hl. lia.
Qed.

(** C29: In general it need not: a request of the right token for the URL
    [https://<allowed>:x@<evil>/...] passes the allowlist and the provider lookup
    as a request for the allowed host, and is handed to the client, which connects
    to [evil], with the provider's key in its headers. *)
Theorem userinfo_smuggles_credentials {B} `{Backend B} (backend : B) ct_eq to_lowercase r token v allowed evil path p log :
  (∀ a b, ct_eq a b = true ↔ a = b) →
  plain allowed = true → plain evil = true → allowed ≠ "" → evil ≠ "" →
  r.(gateway_token) = token → r.(url) = smuggled_url allowed evil path →
  allowed ∈ v.(view_egress_domains) → provider_for_host to_lowercase v allowed = Some p →
  (r.(timeout_ms) ≤ provider_cap_ms r.(fetch_kind) p)%Z →
  ∃ resp q, handle_fetch_request ct_eq to_lowercase backend (FetchRequestMsg r) token (Some v) log
              = (resp, log ++ [q]) ∧
    url_host q.(br_url) = Some evil ∧
    (p.(credentials).(auth_header), p.(credentials).(auth_prefix) +:+ p.(credentials).(api_key))
      ∈ request_headers q.
Proof.
  intros Hct Ha He Hna Hne Ht Hu Hd Hp Hc.
  destruct (smuggled_hosts allowed evil path Ha He Hna Hne) as [Hx Hh]. rewrite <-Hu in Hx, Hh.
  assert (permitted to_lowercase v r allowed p) as Hperm.
  { split; try done. apply domain_allowed_iff. by left. }
  unfold handle_fetch_request.
  rewrite (dispatch_permitted ct_eq Hct to_lowercase backend r token v allowed p log Ht Hperm).
  destruct (backend_call _ _ _) as [answer|e]; eexists _, _; (split; [done |]); (split; [done |]);
    unfold request_headers; set_solver.
Qed.

(** The credentials a request carries are the ones of the provider that serves
    it: with distinct provider identifiers, as validation demands, every entry of a
    loaded view is an entry of the policy with the key its own credentials file
    resolves to, and no key is empty. *)
Theorem credentials_are_the_providers resolve parse b view h p :
  validate_providers b.(loaded_providers) = Ok tt →
  load_policy_view_with_credential_backend resolve parse (Ok b) = Ok view →
  first_provider view.(view_providers) view.(provider_order) h = Some p →
  ∃ entry value, entry ∈ b.(loaded_providers) ∧ p = provider_view entry p.(credentials) ∧
    resolve (credentials_filename_to_name entry.(credentials_file)) entry.(provider_id) = Ok value ∧
    parse (String.string_of_list_ascii value) = Ok p.(credentials) ∧
    p.(credentials).(api_key) ≠ "" ∧
    (∀ other, other ∈ b.(loaded_providers) → other.(provider_id) = entry.(provider_id) → other = entry).
Proof.
  intros Hval Hl Hf. destruct (served_resolved _ _ _ _ _ _ Hval Hl Hf) as (entry & creds & Hin & -> & Hr).
  apply resolved_credentials in Hr as (value & Hv & Hparse & Hk).
  exists entry, value. split_and!; try done. intros other Ho Hid. apply validate_providers_iff in Hval as [Hnd _].
  by apply (NoDup_fmap_unique provider_id b.(loaded_providers)).
Qed.

(** Under a validated policy every answer has one of two shapes: a status and a
    body no larger than the ceiling of the policy, or one of the documented error
    strings and nothing else. *)
Theorem answers_well_formed {B} `{BoundedBackend B} (backend : B) ct_eq to_lowercase resolve parse b r token view log :
  (∀ a b, ct_eq a b = true ↔ a = b) →
  validate_providers b.(loaded_providers) = Ok tt →
  Forall (λ p, 0 ≤ p.(max_response_bytes))%Z b.(loaded_providers) →
  load_policy_view_with_credential_backend resolve parse (Ok b) = Ok view →
  ∃ f, (handle_fetch_request ct_eq to_lowercase backend (FetchRequestMsg r) token (Some view) log).1
         = FetchResponseMsg f ∧ f.(response_fetch_id) = r.(fetch_id) ∧ (f.(latency_ms) ≤ u32_max)%Z ∧
    ((f.(error) = None ∧ is_Some f.(status_code) ∧
      ∃ body, f.(response_body) = Some body ∧ (Z.of_nat (length body) ≤ MAX_RESPONSE_BYTES_CEILING)%Z) ∨
     (∃ s, f.(error) = Some s ∧ f.(status_code) = None ∧ f.(response_body) = None ∧
        s ∈ ["InvalidToken"; "DomainNotAllowed"; "UnknownProviderForHost"; "TimeoutExceeded";
             "ResponseTooLarge"; "NetworkError"; "PolicyReloadFailed"])).
Proof.
  intros Hct Hval Hnn Hl.
  assert (∀ e, ∃ f, error_response r.(fetch_id) e = FetchResponseMsg f ∧
    f.(response_fetch_id) = r.(fetch_id) ∧ (f.(latency_ms) ≤ u32_max)%Z ∧ f.(status_code) = None ∧
    f.(response_body) = None ∧ f.(error) = Some (as_wire_string e)) as Herr.
  { intros e. eexists. split_and!; try done. }
  assert (∀ e, as_wire_string e ∈ ["InvalidToken"; "DomainNotAllowed"; "UnknownProviderForHost"; "TimeoutExceeded";
    "ResponseTooLarge"; "NetworkError"; "PolicyReloadFailed"]) as Hwire by (intros [| | | | []|]; set_solver).
  pose proof (gateway_shape backend ct_eq Hct to_lowercase r token (Some view) log) as [(e & ->)|Hok].
  { destruct (Herr e) as (f & ? & ? & ? & ? & ? & ?). exists f. split_and!; try done. right. eauto 6. }
  destruct Hok as (v & host & p & answer & [= <-] & Hp & Hcall & ->).
  eexists. split; [done |]. simpl. split_and!; [done | apply Z.le_min_r |]. left. split_and!; [done | done |].
  eexists. split; [done |]. pose proof (permitted_provider _ _ _ _ _ Hp) as Hf.
  destruct (served_entry resolve parse b view _ p Hval Hl Hf) as (entry & Hin & Hpe).
  assert (view_max_response_bytes p = max_response_bytes entry) as Hcap by by rewrite Hpe.
  apply validate_providers_iff in Hval as [_ Hwf]. rewrite Forall_forall in Hwf, Hnn.
  apply backend_bounded in Hcall; simpl in *; rewrite Hcap in *; [| by apply Hnn].
  pose proof (limited_bytes _ (wf_limited _ (Hwf _ Hin))). lia.
Qed.

(** ** Witnesses *)

Definition demo_provider : ProviderEntry :=
  MkProviderEntry "anthropic" "Anthropic" "anthropic.toml" 30000 10000 16777216 None None None None None.
Definition demo_loaded : LoadedPolicy := MkLoadedPolicy 1 [demo_provider] (MkEgressSection [] [] true []).
Definition demo_resolve (name _consumer : string) : result string (list byte) :=
  if String.eqb name "providers.anthropic" then Ok (chars "sk-1") else Err "missing".
Definition demo_parse (text : string) : result string ProviderCredentials :=
  Ok (MkCredentials text "x-api-key" "").
Definition demo_credentials : ProviderCredentials := MkCredentials "sk-1" "x-api-key" "".
Definition demo_view : PolicyView :=
  MkPolicyView 1 ["api.anthropic.com"] [] {["anthropic" := provider_view demo_provider demo_credentials]}
    ["anthropic"].
Definition demo_backend : HttpBackend :=
  MkHttpBackend (λ _ _, Ok (MkHttpHead 200 [] [MkChunkRead 5 (Ok (Some (chars "hello")))] 40)) (λ _, None).
Definition demo_fetch (u : string) : FetchRequest :=
  MkFetchRequest "tok" (replicate 16 (byte_of 7)) Inference u "POST" [] [] 20000 None None.
Definition demo_ct_eq (a b : list byte) : bool := bool_decide (a = b).

Lemma demo_ct_eq_spec a b : demo_ct_eq a b = true ↔ a = b.
Proof. apply bool_decide_eq_true. Qed.


Lemma simple_fetches_stay_in_policy_witness :
  ∃ resp q, handle_fetch_request demo_ct_eq to_ascii_lowercase demo_backend
      (FetchRequestMsg (demo_fetch "https://api.anthropic.com/v1/messages")) "tok" (Some demo_view) []
    = (resp, [] ++ [q]) ∧
  ∃ v host, Some demo_view = Some v ∧ url_host q.(br_url) = Some host ∧
    (host ∈ v.(view_egress_domains) ∨ ∃ pat, pat ∈ v.(view_egress_patterns) ∧ host_matches pat host) ∧
    serves_first v.(view_providers) v.(provider_order) (to_ascii_lowercase host) q.(br_provider).
Proof.
  eexists _, _. split; [vm_compute; reflexivity |].
  eapply (simple_fetches_stay_in_policy demo_backend demo_ct_eq to_ascii_lowercase
            (demo_fetch "https://api.anthropic.com/v1/messages") "tok" (Some demo_view) []);
    [exact demo_ct_eq_spec | | vm_compute; reflexivity].
  exists "https", "api.anthropic.com/v1/messages". split; [reflexivity |].
  intros c Hc. repeat (apply elem_of_cons in Hc as [->|Hc]; [reflexivity |]). by apply elem_of_nil in Hc.
Defined.

Lemma userinfo_smuggles_credentials_witness :
  let r := demo_fetch (smuggled_url "api.anthropic.com" "attacker.example" "v1") in
  ∃ resp q, handle_fetch_request demo_ct_eq to_ascii_lowercase demo_backend (FetchRequestMsg r) "tok"
              (Some demo_view) [] = (resp, [] ++ [q]) ∧
    url_host q.(br_url) = Some "attacker.example" ∧ ("x-api-key", "" +:+ "sk-1") ∈ request_headers q.
Proof.
  refine (userinfo_smuggles_credentials demo_backend demo_ct_eq to_ascii_lowercase
            (demo_fetch (smuggled_url "api.anthropic.com" "attacker.example" "v1")) "tok" demo_view
            "api.anthropic.com" "attacker.example" "v1" (provider_view demo_provider demo_credentials) []
            demo_ct_eq_spec _ _ _ _ _ _ _ _ _);
    try (vm_compute; reflexivity); try discriminate.
  left.
Defined.

Lemma credentials_are_the_providers_witness :
  let p := provider_view demo_provider demo_credentials in
  load_policy_view_with_credential_backend demo_resolve demo_parse (Ok demo_loaded) = Ok demo_view ∧
  ∃ entry value, entry ∈ demo_loaded.(loaded_providers) ∧ p = provider_view entry p.(credentials) ∧
    demo_resolve (credentials_filename_to_name entry.(credentials_file)) entry.(provider_id) = Ok value ∧
    demo_parse (String.string_of_list_ascii value) = Ok p.(credentials) ∧
    p.(credentials).(api_key) ≠ "" ∧
    (∀ other, other ∈ demo_loaded.(loaded_providers) → other.(provider_id) = entry.(provider_id) → other = entry).
Proof.
  split; [vm_compute; reflexivity |].
  refine (credentials_are_the_providers demo_resolve demo_parse demo_loaded demo_view "api.anthropic.com"
            (provider_view demo_provider demo_credentials) _ _ _); vm_compute; reflexivity.
Defined.

Lemma answers_well_formed_witness :
  ∃ f, (handle_fetch_request demo_ct_eq to_ascii_lowercase demo_backend
          (FetchRequestMsg (demo_fetch "https://api.anthropic.com/v1")) "tok" (Some demo_view) []).1
         = FetchResponseMsg f ∧ f.(response_fetch_id) = replicate 16 (byte_of 7) ∧ (f.(latency_ms) ≤ u32_max)%Z ∧
    ((f.(error) = None ∧ is_Some f.(status_code) ∧
      ∃ body, f.(response_body) = Some body ∧ (Z.of_nat (length body) ≤ MAX_RESPONSE_BYTES_CEILING)%Z) ∨
     (∃ s, f.(error) = Some s ∧ f.(status_code) = None ∧ f.(response_body) = None ∧
        s ∈ ["InvalidToken"; "DomainNotAllowed"; "UnknownProviderForHost"; "TimeoutExceeded";
             "ResponseTooLarge"; "NetworkError"; "PolicyReloadFailed"])).
Proof.
  refine (answers_well_formed demo_backend demo_ct_eq to_ascii_lowercase demo_resolve demo_parse demo_loaded
            (demo_fetch "https://api.anthropic.com/v1") "tok" demo_view [] demo_ct_eq_spec _ _ _).
  - vm_compute. reflexivity.
  - repeat constructor. vm_compute. discriminate.
  - vm_compute. reflexivity.
Defined.
