(* ===== verification/GatewayClient.v ===== *)
(** * The kernel's gateway client

    [kernel/src/gateway/client.rs]: the pump that owns the gateway's socket,
    multiplexes the fetches of all callers over it and routes each answer to the
    caller that waits for it.  The events the pump's [select!] may take next come
    in any order; what a write or a read does is part of its event.  A reply
    channel is a number; a sender dropped unused is a delivery too, since the
    caller observes it. *)

From S2P Require Import Prelude Bytes Policy Hosts Providers Gateway.

Inductive GatewayCallError :=
  | Unavailable
  | Dropped
  | CallTimeout (timeout_ms : Z)
  | GatewayError (s : string)
  | UnexpectedReply.

Definition category (e : GatewayCallError) : string :=
  match e with
  | Unavailable => "unavailable"
  | Dropped => "dropped"
  | CallTimeout _ => "timeout"
  | GatewayError _ => "gateway_error"
  | UnexpectedReply => "unexpected_reply"
  end.

(** Durations are milliseconds. *)
Definition GATEWAY_REPLY_TIMEOUT_GRACE_MS : Z := 5000.
Definition GATEWAY_FRAME_WRITE_TIMEOUT : Z := 10000.
Definition GATEWAY_PUMP_QUEUE_CAP : nat := 1024.

Record FetchResult := MkFetchResult {
  result_fetch_id : Uuid;
  result_status : option Z;
  result_headers : list (string * string);
  result_body : option (list byte);
  result_latency_ms : Z;
}.

Record Pending := MkPending {
  payload : FetchRequest;
  reply_tx : nat;
  pending_task_id : option string;
  pending_session_id : option Uuid;
  request_body : option (list byte);
  agent_role : option string;
  provider_id_meta : option string;
  model_id_meta : option string;
}.

Inductive PumpJob :=
  | FetchJob (p : Pending)
  | CancelJob (id : Uuid)
  | SignalJob (m : GatewayMessage) (ack_tx : nat).

(** What the observer is told about one answered fetch. *)
Record Observation := MkObservation {
  obs_task_id : string;
  obs_slot : Pending;
  obs_response : FetchResponse;
}.

Inductive Delivery :=
  | Reply (tx : nat) (r : result GatewayCallError FetchResult)
  | SenderDropped (tx : nat)
  | Ack (tx : nat) (r : result GatewayCallError unit).

(** The slot of a fetch in flight keeps what is pending of it. *)
Record PumpState := MkPump {
  running : bool;
  queue : list PumpJob;
  inflight : gmap Uuid Pending;
  written : list GatewayMessage;
  observations : list Observation;
  deliveries : list Delivery;
}.

Inductive WriteOutcome := Written | WriteFailed | WriteTimedOut.

Inductive PumpEvent :=
  | Submitted (j : PumpJob)
  | JobReceived (w : WriteOutcome)
  | QueueClosed
  | FrameReceived (m : GatewayMessage)
  | ReadEof
  | ReadFailed.

(** The frame [w] was written, or not. *)
Definition write_error (w : WriteOutcome) : GatewayCallError :=
  match w with
  | WriteTimedOut => CallTimeout (Z.min GATEWAY_FRAME_WRITE_TIMEOUT u32_max)
  | _ => Dropped
  end.

Definition dropped_by (j : PumpJob) : list Delivery :=
  match j with
  | FetchJob p => [SenderDropped p.(reply_tx)]
  | CancelJob _ => []
  | SignalJob _ tx => [SenderDropped tx]
  end.

Definition slot_callers (m : gmap Uuid Pending) : list nat := (λ kv, kv.2.(reply_tx)) <$> map_to_list m.

(** On exit the queue and the slots are dropped, and every sender in them. *)
Definition pump_exit (st : PumpState) : PumpState :=
  MkPump false [] ∅ st.(written) st.(observations)
    (st.(deliveries) ++ flat_map dropped_by st.(queue) ++ (SenderDropped <$> slot_callers st.(inflight))).

Definition deliver (l : list Delivery) (st : PumpState) : PumpState :=
  MkPump st.(running) st.(queue) st.(inflight) st.(written) st.(observations) (st.(deliveries) ++ l).
Definition set_inflight (m : gmap Uuid Pending) (st : PumpState) : PumpState :=
  MkPump st.(running) st.(queue) m st.(written) st.(observations) st.(deliveries).
Definition write (m : GatewayMessage) (st : PumpState) : PumpState :=
  MkPump st.(running) st.(queue) st.(inflight) (st.(written) ++ [m]) st.(observations) st.(deliveries).

(** [inflight.remove(id)] with what becomes of the sender. *)
Definition release_slot (id : Uuid) (d : nat → Delivery) (st : PumpState) : PumpState :=
  match st.(inflight) !! id with
  | Some slot => deliver [d slot.(reply_tx)] (set_inflight (delete id st.(inflight)) st)
  | None => st
  end.

(** [PumpJob::Fetch]: a slot that was there under the same identifier is dropped. *)
Definition start_fetch (p : Pending) (st : PumpState) : PumpState :=
  let id := p.(payload).(fetch_id) in
  let displaced := match st.(inflight) !! id with Some s => [SenderDropped s.(reply_tx)] | None => [] end in
  deliver displaced (set_inflight (<[id := p]> st.(inflight)) st).

Definition run_job (w : WriteOutcome) (j : PumpJob) (st : PumpState) : PumpState :=
  match j with
  | FetchJob p =>
      let st := start_fetch p st in
      match w with
      | Written => write (FetchRequestMsg p.(payload)) st
      | _ => pump_exit (release_slot p.(payload).(fetch_id) (λ tx, Reply tx (Err (write_error w))) st)
      end
  | CancelJob id => release_slot id SenderDropped st
  | SignalJob m tx =>
      match w with
      | Written => deliver [Ack tx (Ok tt)] (write m st)
      | _ => pump_exit (deliver [Ack tx (Err (write_error w))] st)
      end
  end.

Definition outcome_of (f : FetchResponse) : result GatewayCallError FetchResult :=
  match f.(error) with
  | Some s => Err (GatewayError s)
  | None => Ok (MkFetchResult f.(response_fetch_id) f.(status_code) f.(response_headers) f.(response_body)
                  f.(latency_ms))
  end.

Section Pump.
(** Whether an observer was installed when the connection was. *)
Variable observer : bool.

Definition observe_response (f : FetchResponse) (st : PumpState) : PumpState :=
  match st.(inflight) !! f.(response_fetch_id) with
  | Some slot =>
      match observer, slot.(pending_task_id) with
      | true, Some tid =>
          MkPump st.(running) st.(queue) st.(inflight) st.(written)
            (st.(observations) ++ [MkObservation tid slot f]) st.(deliveries)
      | _, _ => st
      end
  | None => st
  end.

Definition receive_frame (m : GatewayMessage) (st : PumpState) : PumpState :=
  match m with
  | FetchResponseMsg f =>
      release_slot f.(response_fetch_id) (λ tx, Reply tx (outcome_of f)) (observe_response f st)
  | _ => st
  end.

Definition pump_step (st : PumpState) (e : PumpEvent) : PumpState :=
  if negb st.(running) then st
  else match e with
  | Submitted j =>
      if length st.(queue) <? GATEWAY_PUMP_QUEUE_CAP
      then MkPump true (st.(queue) ++ [j]) st.(inflight) st.(written) st.(observations) st.(deliveries)
      else st
  | JobReceived w =>
      match st.(queue) with
      | [] => st
      | j :: q => run_job w j (MkPump true q st.(inflight) st.(written) st.(observations) st.(deliveries))
      end
  | QueueClosed => pump_exit st
  | FrameReceived m => receive_frame m st
  | ReadEof | ReadFailed => pump_exit st
  end.

(** [install_connection]: a fresh pump. *)
Definition pump_start : PumpState := MkPump true [] ∅ [] [] [].
Definition pump : list PumpEvent → PumpState := foldl pump_step pump_start.
End Pump.

(** ** The caller *)

(** How the submission and the wait for the reply end. *)
Inductive Submission := NotConnected | QueueGone | QueueFull | Accepted.
Inductive Wait := Replied (r : result GatewayCallError FetchResult) | ChannelBroken | Elapsed.

Definition reply_deadline (timeout_ms : Z) : Z :=
  (sat_add_u64 timeout_ms GATEWAY_REPLY_TIMEOUT_GRACE_MS).

(** The result of a fetch, and the job it leaves behind for the pump. *)
Definition fetch_with_observer_metadata (r : FetchRequest) (s : Submission) (w : Wait)
    : result GatewayCallError FetchResult * option PumpJob :=
  match s with
  | NotConnected | QueueGone => (Err Unavailable, None)
  | QueueFull => (Err (CallTimeout (Z.min GATEWAY_FRAME_WRITE_TIMEOUT u32_max)), None)
  | Accepted =>
      match w with
      | Replied res => (res, None)
      | ChannelBroken => (Err Dropped, None)
      | Elapsed =>
          (Err (CallTimeout (Z.min (reply_deadline r.(timeout_ms)) u32_max)), Some (CancelJob r.(fetch_id)))
      end
  end.

(** [notify_epoch_advanced]: the wait is for the acknowledgement. *)
Definition notify_epoch_advanced (s : Submission) (ack : option (result GatewayCallError unit)) (elapsed : bool)
    : result GatewayCallError unit :=
  match s with
  | NotConnected | QueueGone => Err Unavailable
  | QueueFull => Err (CallTimeout (Z.min GATEWAY_FRAME_WRITE_TIMEOUT u32_max))
  | Accepted =>
      if elapsed then Err (CallTimeout (Z.min GATEWAY_FRAME_WRITE_TIMEOUT u32_max))
      else default (Err Dropped) ack
  end.

(** ** Every caller is resolved once

    The callers whose job entered the queue are, at any moment, the ones queued,
    the ones in flight and the ones whose channel has been used or dropped. *)

Definition queued_caller (j : PumpJob) : list nat :=
  match j with FetchJob p => [p.(reply_tx)] | SignalJob _ tx => [tx] | CancelJob _ => [] end.
Definition resolved_caller (d : Delivery) : nat :=
  match d with Reply tx _ | SenderDropped tx | Ack tx _ => tx end.

Definition outstanding (st : PumpState) : list nat :=
  flat_map queued_caller st.(queue) ++ slot_callers st.(inflight).
Definition resolved_callers (st : PumpState) : list nat := resolved_caller <$> st.(deliveries).
Definition balance (st : PumpState) : list nat := outstanding st ++ resolved_callers st.

(** The callers an event brings in. *)
Definition newcomers (st : PumpState) (e : PumpEvent) : list nat :=
  match e with
  | Submitted j => if st.(running) && (length st.(queue) <? GATEWAY_PUMP_QUEUE_CAP) then queued_caller j else []
  | _ => []
  end.

Fixpoint accepted_callers (observer : bool) (st : PumpState) (es : list PumpEvent) : list nat :=
  match es with
  | [] => []
  | e :: es => newcomers st e ++ accepted_callers observer (pump_step observer st e) es
  end.

Lemma slot_callers_insert m id p :
  m !! id = None → slot_callers (<[id := p]> m) ≡ₚ p.(reply_tx) :: slot_callers m.
Proof. intros H. unfold slot_callers. by rewrite map_to_list_insert. Qed.

Lemma slot_callers_delete m id p :
  m !! id = Some p → slot_callers m ≡ₚ p.(reply_tx) :: slot_callers (delete id m).
Proof. intros H. unfold slot_callers. by rewrite <-(map_to_list_delete m id p H). Qed.

Lemma resolved_dropped q : resolved_caller <$> flat_map dropped_by q = flat_map queued_caller q.
Proof. induction q as [|j q IH]; [done |]. simpl. rewrite fmap_app, IH. by destruct j. Qed.

Lemma balance_exit st : balance (pump_exit st) ≡ₚ balance st.
Proof.
  unfold balance, outstanding, resolved_callers, pump_exit. cbn [queue inflight deliveries flat_map].
  unfold slot_callers at 1. rewrite map_to_list_empty, !fmap_app, resolved_dropped, <-list_fmap_compose.
  rewrite (list_fmap_ext (resolved_caller ∘ SenderDropped) id _), list_fmap_id by done.
  simpl. solve_Permutation.
Qed.

Lemma balance_deliver l st : balance (deliver l st) ≡ₚ (resolved_caller <$> l) ++ balance st.
Proof. unfold balance, resolved_callers, deliver, outstanding. simpl. rewrite fmap_app. solve_Permutation. Qed.

Lemma balance_release id d st :
  (∀ tx, resolved_caller (d tx) = tx) → balance (release_slot id d st) ≡ₚ balance st.
Proof.
  intros Hd. unfold release_slot. destruct (inflight st !! id) as [slot|] eqn:E; [| done].
  rewrite balance_deliver. unfold balance, outstanding, resolved_callers. cbn.
  rewrite Hd, (slot_callers_delete _ _ _ E). solve_Permutation.
Qed.

Lemma balance_start p st : balance (start_fetch p st) ≡ₚ p.(reply_tx) :: balance st.
Proof.
  unfold start_fetch. rewrite balance_deliver. unfold balance, outstanding, resolved_callers. cbn.
  destruct (inflight st !! fetch_id (payload p)) as [slot|] eqn:E; cbn.
  - rewrite <-insert_delete_eq, slot_callers_insert by apply lookup_delete_eq.
    rewrite (slot_callers_delete _ _ _ E). solve_Permutation.
  - rewrite slot_callers_insert by done. solve_Permutation.
Qed.

Lemma balance_job w j st : balance (run_job w j st) ≡ₚ queued_caller j ++ balance st.
Proof.
  destruct j as [p|id|m tx]; cbn [run_job queued_caller].
  - destruct w; [apply balance_start | |]; by rewrite balance_exit, balance_release, balance_start.
  - by rewrite balance_release.
  - destruct w; [by rewrite balance_deliver | |]; by rewrite balance_exit, balance_deliver.
Qed.

Lemma balance_step observer st e :
  balance (pump_step observer st e) ≡ₚ newcomers st e ++ balance st.
Proof.
  unfold pump_step, newcomers. destruct (running st) eqn:Er; [| by destruct e]. simpl.
  destruct e as [j|w| |m| |]; try apply balance_exit.
  - destruct (length (queue st) <? GATEWAY_PUMP_QUEUE_CAP); [| done].
    unfold balance, outstanding, resolved_callers. cbn. rewrite flat_map_app. cbn. solve_Permutation.
  - destruct (queue st) as [|j q] eqn:Eq; [done |]. rewrite balance_job.
    unfold balance, outstanding, resolved_callers. rewrite Eq. cbn. solve_Permutation.
  - destruct m; try done. cbn [receive_frame]. rewrite balance_release by done.
    unfold observe_response. by repeat case_match.
Qed.

Lemma stopped_step observer st e :
  (st.(running) = false → outstanding st = []) →
  (pump_step observer st e).(running) = false → outstanding (pump_step observer st e) = [].
Proof.
  intros IH. unfold pump_step. destruct (running st) eqn:Er; [| intros _; exact (IH eq_refl)]. simpl.
  assert (∀ s, outstanding (pump_exit s) = []) as Hexit by done.
  assert (∀ id d s, (release_slot id d s).(running) = s.(running)) as Hfin by (intros; unfold release_slot; by case_match).
  destruct e as [j|w| |m| |]; try done.
  - destruct (length (queue st) <? GATEWAY_PUMP_QUEUE_CAP); [done | congruence].
  - destruct (queue st) as [|j q]; [congruence |].
    destruct j as [p|id|m tx], w; cbn [run_job]; try (intros _; apply Hexit); try (rewrite Hfin); done.
  - destruct m as [| |f|]; cbn [receive_frame]; try congruence. rewrite Hfin. unfold observe_response.
    repeat case_match; cbn; congruence.
Qed.


(** ** What a step adds *)

Lemma release_deliveries id d st tx r :
  Reply tx r ∈ (release_slot id d st).(deliveries) →
  Reply tx r ∈ st.(deliveries) ∨ ∃ slot, st.(inflight) !! id = Some slot ∧ Reply tx r = d slot.(reply_tx).
Proof.
  unfold release_slot. destruct (inflight st !! id) as [slot|]; [| by left]. cbn.
  intros [H|H%list_elem_of_singleton]%elem_of_app; [by left | right; by exists slot].
Qed.

Lemma exit_deliveries st tx r :
  Reply tx r ∈ (pump_exit st).(deliveries) → Reply tx r ∈ st.(deliveries).
Proof.
  cbn. rewrite !elem_of_app. intros [H|[H|H]]; [done | exfalso ..].
  - apply list_elem_of_In, in_flat_map in H as ([p|i|m t] & _ & H%list_elem_of_In); cbn in H;
      [by apply list_elem_of_singleton in H | by apply elem_of_nil in H | by apply list_elem_of_singleton in H].
  - by apply list_elem_of_fmap in H as (? & ? & _).
Qed.

Lemma start_deliveries p st tx r :
  Reply tx r ∈ (start_fetch p st).(deliveries) → Reply tx r ∈ st.(deliveries).
Proof.
  unfold start_fetch. cbn. intros [H|H]%elem_of_app; [done | exfalso].
  destruct (inflight st !! _); [by apply list_elem_of_singleton in H | by apply elem_of_nil in H].
Qed.

(** Where a reply comes from: a frame that could not be written, or the response
    to the request in flight under its identifier. *)
Definition failed_write (r : result GatewayCallError FetchResult) : Prop :=
  ∃ w, w ≠ Written ∧ r = Err (write_error w).

Lemma job_deliveries w j st tx r :
  Reply tx r ∈ (run_job w j st).(deliveries) → Reply tx r ∈ st.(deliveries) ∨ failed_write r.
Proof.
  destruct j as [p|id|m t]; cbn [run_job].
  - assert (∀ w', w' ≠ Written →
      Reply tx r ∈ (pump_exit (release_slot p.(payload).(fetch_id) (λ tx, Reply tx (Err (write_error w'))) (start_fetch p st))).(deliveries) →
      Reply tx r ∈ st.(deliveries) ∨ failed_write r) as Hfail.
    { intros w' Hw [H%start_deliveries|(slot & _ & [= _ ->])]%exit_deliveries%release_deliveries; [by left |].
      right. by exists w'. }
    destruct w; [| by apply Hfail ..]. cbn [write deliveries]. intros H%start_deliveries. by left.
  - intros [H|(slot & _ & [=])]%release_deliveries. by left.
  - assert (∀ l, Reply tx r ∈ (deliver [Ack t l] st).(deliveries) → Reply tx r ∈ st.(deliveries)) as Hack
      by (intros l; cbn; intros [H|H%list_elem_of_singleton]%elem_of_app; done).
    destruct w; [intros H; left; by apply (Hack (Ok tt)) | intros H%exit_deliveries; left; by eapply Hack ..].
Qed.

Lemma release_observations id d st : (release_slot id d st).(observations) = st.(observations).
Proof. unfold release_slot. by case_match. Qed.

Lemma step_reply observer st e tx r :
  Reply tx r ∈ (pump_step observer st e).(deliveries) →
  Reply tx r ∈ st.(deliveries) ∨ failed_write r ∨
  ∃ p f, e = FrameReceived (FetchResponseMsg f) ∧ st.(inflight) !! f.(response_fetch_id) = Some p ∧
    p.(reply_tx) = tx ∧ r = outcome_of f ∧
    (observer = true → ∀ tid, p.(pending_task_id) = Some tid →
       MkObservation tid p f ∈ (pump_step observer st e).(observations)).
Proof.
  unfold pump_step. destruct (running st); [| by left]. cbn [negb].
  destruct e as [j|w| |m| |]; try (intros H%exit_deliveries; by left).
  - case_match; by left.
  - destruct (queue st) as [|j q]; [by left |]. intros [H|H]%job_deliveries; [by left | by right; left].
  - destruct m as [| |f|]; cbn [receive_frame]; try by left.
    intros H%release_deliveries. rewrite release_observations.
    assert ((observe_response observer f st).(deliveries) = st.(deliveries) ∧
      (observe_response observer f st).(inflight) = st.(inflight)) as [Hd Hi]
      by (unfold observe_response; by repeat case_match).
    rewrite Hd, Hi in H. destruct H as [H|(p & Hp & [= -> ->])]; [by left |]. right. right.
    exists p, f. split_and!; try done. intros -> tid Ht. unfold observe_response. rewrite Hp, Ht. cbn.
    apply elem_of_app. right. by apply list_elem_of_singleton.
Qed.

Lemma step_observations observer st e o :
  o ∈ st.(observations) → o ∈ (pump_step observer st e).(observations).
Proof.
  intros Ho. unfold pump_step. destruct (running st); [| done]. cbn [negb].
  destruct e as [j|w| |m| |]; try done.
  - by case_match.
  - destruct (queue st) as [|[p|id|m t] q]; [done | | |]; cbn [run_job].
    + destruct w; cbn; by rewrite ?release_observations.
    + by rewrite release_observations.
    + by destruct w.
  - destruct m as [| |f|]; cbn [receive_frame]; try done. rewrite release_observations.
    unfold observe_response. repeat case_match; try done. cbn. apply elem_of_app. by left.
Qed.

(** What the pump writes for a job. *)
Definition message_of (j : PumpJob) : option GatewayMessage :=
  match j with
  | FetchJob p => Some (FetchRequestMsg p.(payload))
  | CancelJob _ => None
  | SignalJob m _ => Some m
  end.

Lemma release_written id d st : (release_slot id d st).(written) = st.(written).
Proof. unfold release_slot. by case_match. Qed.

Lemma step_written observer st e :
  ∃ l, (pump_step observer st e).(written) = st.(written) ++ l ∧
    ∀ m, m ∈ l → ∃ j, j ∈ st.(queue) ∧ message_of j = Some m.
Proof.
  assert (∀ st', st'.(written) = st.(written) → ∃ l, st'.(written) = st.(written) ++ l ∧
    ∀ m, m ∈ l → ∃ j, j ∈ st.(queue) ∧ message_of j = Some m) as Hsame.
  { intros st' ->. exists []. rewrite app_nil_r. split; [done | by intros m Hm%elem_of_nil]. }
  unfold pump_step. destruct (running st); [| by apply Hsame]. cbn [negb].
  destruct e as [j|w| |m| |]; try by apply Hsame.
  - case_match; by apply Hsame.
  - destruct (queue st) as [|j q]; [by apply Hsame |].
    assert (∀ m, message_of j = Some m → ∀ m', m' ∈ [m] → ∃ i, i ∈ j :: q ∧ message_of i = Some m') as Hone
      by (intros m Hm m' ->%list_elem_of_singleton; exists j; split; [by left | done]).
    destruct j as [p|id|m tx]; cbn [run_job].
    + destruct w; [eexists; split; [done | by apply Hone] | |]; apply Hsame; cbn; by rewrite release_written.
    + apply Hsame. by rewrite release_written.
    + destruct w; [eexists; split; [done | by apply Hone] | |]; by apply Hsame.
  - apply Hsame. destruct m; cbn [receive_frame]; try done. rewrite release_written.
    unfold observe_response. by repeat case_match.
Qed.

(** What is queued was submitted; what is in flight was submitted and written, and
    stands under its own identifier. *)
Record pump_inv (es : list PumpEvent) (st : PumpState) : Prop := {
  inv_queue j : j ∈ st.(queue) → Submitted j ∈ es;
  inv_slot id p : st.(inflight) !! id = Some p →
    p.(payload).(fetch_id) = id ∧ Submitted (FetchJob p) ∈ es ∧ FetchRequestMsg p.(payload) ∈ st.(written);
}.

Lemma inv_exit es st : pump_inv es (pump_exit st).
Proof. split; [intros j H; by apply elem_of_nil in H | by intros id p H; cbn in H; rewrite lookup_empty in H]. Qed.

Lemma inv_release es id d st : pump_inv es st → pump_inv es (release_slot id d st).
Proof.
  intros [Hq Hs]. unfold release_slot. destruct (inflight st !! id); [| done]. split; [done |].
  cbn. intros i p' [_ Hp]%lookup_delete_Some. by apply Hs.
Qed.

Lemma inv_more es e st : pump_inv es st → pump_inv (es ++ [e]) st.
Proof.
  intros [Hq Hs]. split; [intros j Hj; apply elem_of_app; left; by apply Hq |].
  intros id p Hp. destruct (Hs id p Hp) as (? & ? & ?). split_and!; try done. apply elem_of_app. by left.
Qed.

Lemma inv_step observer es st e : pump_inv es st → pump_inv (es ++ [e]) (pump_step observer st e).
Proof.
  intros Hi. pose proof (inv_more es e st Hi) as Hm. destruct Hi as [Hq _].
  unfold pump_step. destruct (running st); [| done]. cbn [negb].
  destruct e as [j|w| |m| |]; try apply inv_exit.
  - case_match; [| done]. destruct Hm as [Hq' Hs]. split; [| done]. cbn.
    intros j' [Hj|Hj%list_elem_of_singleton]%elem_of_app; [by apply Hq' |].
    subst. apply elem_of_app. right. by apply list_elem_of_singleton.
  - destruct (queue st) as [|j q] eqn:Eq; [done |]. destruct Hm as [Hq' Hs]. rewrite Eq in *.
    assert (Submitted j ∈ es ++ [JobReceived w]) as Hj by (apply Hq'; by left).
    assert (pump_inv (es ++ [JobReceived w])
      (MkPump true q st.(inflight) st.(written) st.(observations) st.(deliveries))) as Hpop.
    { split; [| done]. cbn. intros j' Hj'. apply Hq'. by right. }
    destruct j as [p|id|m t]; cbn [run_job].
    + destruct w; try apply inv_exit. split; cbn; [intros j' Hj'; apply Hq'; by right |].
      intros id p' [[<- <-]|[_ Hp]]%lookup_insert_Some.
      * split_and!; [done | done |]. apply elem_of_app. right. by apply list_elem_of_singleton.
      * destruct (Hs id p' Hp) as (? & ? & ?). split_and!; try done. apply elem_of_app. by left.
    + by apply inv_release.
    + destruct w; try apply inv_exit. split; cbn; [intros j' Hj'; apply Hq'; by right |].
      intros id p' Hp. destruct (Hs id p' Hp) as (? & ? & ?). split_and!; try done. apply elem_of_app. by left.
  - destruct m as [| |f|]; cbn [receive_frame]; try done. apply inv_release.
    unfold observe_response. destruct Hm as [Hq' Hs]. by repeat case_match.
Qed.

Lemma pump_snoc observer es e : pump observer (es ++ [e]) = pump_step observer (pump observer es) e.
Proof. unfold pump. by rewrite foldl_app. Qed.

Lemma pump_inv_run observer es : pump_inv es (pump observer es).
Proof.
  induction es as [|e es IH] using rev_ind; [| rewrite pump_snoc; by apply inv_step].
  split; [intros j H; by apply elem_of_nil in H | by intros id p H; cbn in H; rewrite lookup_empty in H].
Qed.

Lemma written_submitted observer es m :
  m ∈ (pump observer es).(written) → ∃ j, Submitted j ∈ es ∧ message_of j = Some m.
Proof.
  induction es as [|e es IH] using rev_ind; [by intros H%elem_of_nil |]. rewrite pump_snoc.
  destruct (step_written observer (pump observer es) e) as (l & -> & Hl).
  intros [(j & Hj & Hm)%IH|(j & Hj & Hm)%Hl]%elem_of_app; exists j; (split; [apply elem_of_app; left | done]); [done |].
  by apply (inv_queue _ _ (pump_inv_run observer es)).
Qed.

(** ** Properties *)

Lemma accepted_balance observer es st :
  accepted_callers observer st es ++ balance st ≡ₚ balance (foldl (pump_step observer) st es).
Proof.
  revert st. induction es as [|e es IH]; intros st; [done |]. cbn [accepted_callers foldl].
  rewrite <-IH, balance_step. solve_Permutation.
Qed.

(** Over any run of the pump, the callers whose job entered the queue are
    exactly the ones queued, the ones in flight and the ones resolved, each counted
    once; once the pump has stopped all of them are resolved, and no caller is
    resolved twice. *)
Theorem callers_resolved_once observer es :
  let st := pump observer es in
  accepted_callers observer pump_start es ≡ₚ outstanding st ++ resolved_callers st ∧
  (st.(running) = false → accepted_callers observer pump_start es ≡ₚ resolved_callers st) ∧
  (NoDup (accepted_callers observer pump_start es) → NoDup (resolved_callers st)).
Proof.
  cbn zeta. assert (accepted_callers observer pump_start es ≡ₚ balance (pump observer es)) as Hb.
  { rewrite <-(app_nil_r (accepted_callers _ _ _)). exact (accepted_balance observer es pump_start). }
  assert ((pump observer es).(running) = false → outstanding (pump observer es) = []) as Hstop.
  { induction es as [|e es IH] using rev_ind; [done |]. rewrite pump_snoc. apply stopped_step. apply IH.
    rewrite <-(app_nil_r (accepted_callers _ _ _)). exact (accepted_balance observer es pump_start). }
  unfold balance in Hb. split; [done |]. split.
  - intros Hr. by rewrite Hb, (Hstop Hr).
  - rewrite Hb. intros (_ & _ & ?)%NoDup_app. done.
Qed.

(** A reply is either the failure to write the caller's request, or the
    gateway's response that carries the identifier of the caller's own request,
    read while that request, written before, was in flight; if the fetch belongs to
    a task and an observer is installed, it was told. *)
Lemma replies_answer_their_request observer es tx r :
  Reply tx r ∈ (pump observer es).(deliveries) →
  failed_write r ∨
  ∃ p f before after, es = before ++ FrameReceived (FetchResponseMsg f) :: after ∧
    Submitted (FetchJob p) ∈ before ∧ FetchRequestMsg p.(payload) ∈ (pump observer before).(written) ∧
    p.(reply_tx) = tx ∧ f.(response_fetch_id) = p.(payload).(fetch_id) ∧ r = outcome_of f ∧
    (observer = true → ∀ tid, p.(pending_task_id) = Some tid →
       MkObservation tid p f ∈ (pump observer es).(observations)).
Proof.
  induction es as [|e es IH] using rev_ind; [intros H; by apply elem_of_nil in H |].
  rewrite pump_snoc. intros [H|[H|(p & f & -> & Hp & Ht & Hr & Ho)]]%step_reply; [| by left |].
  - destruct (IH H) as [?|(p & f & b & a & -> & ? & ? & ? & ? & ? & Ho)]; [by left | right].
    exists p, f, b, (a ++ [e]). rewrite <-app_assoc. split_and!; try done.
    intros Hobs tid Htid. apply step_observations. by apply Ho.
  - right. destruct (inv_slot _ _ (pump_inv_run observer es) _ _ Hp) as (Hid & Hs & Hw).
    by exists p, f, es, [].
Qed.
