(* ===== verification/GatewayRuntime.v ===== *)
(** * The gateway's request loop, and the kernel and the gateway together

    [gateway/src/runtime.rs]: requests are read from the kernel's socket, served by
    concurrent tasks up to a limit and answered in the order the tasks end, through
    a writer task.  A task's answer and its calls are one step, the one in which it
    hands the answer over.  The second half connects this loop with the pump of
    [GatewayClient] over the two directions of their socket. *)

From S2P Require Import Prelude Bytes Policy Hosts Providers Wire Gateway GatewayClient.

Definition MAX_CONCURRENT_FETCH_REQUESTS : nat := 512.
Definition MAX_PENDING_KERNEL_RESPONSES : nat := MAX_CONCURRENT_FETCH_REQUESTS * 2.

(** A spawned dispatch holds the view of the moment it was spawned. *)
Record Task := MkTask { task_request : FetchRequest; view_snapshot : option PolicyView }.

Record Runtime := MkRuntime {
  rt_running : bool;
  view_slot : option PolicyView;
  tasks : list Task;
  response_queue : list GatewayMessage;
  responses_sent : list GatewayMessage;
  backend_calls : list BackendRequest;
}.

Ltac rt_cbn := cbn [tasks response_queue responses_sent rt_running view_slot backend_calls].

Inductive RuntimeEvent :=
  | Receive (m : GatewayMessage) (reload : result PolicyViewError PolicyView)
  | ReceiveEnd
  | FinishTask (i : nat)
  | WriteResponse (transport_ok : bool).

Definition overload_response (r : FetchRequest) : GatewayMessage :=
  FetchResponseMsg (MkFetchResponse r.(fetch_id) None [] None 0 (Some "NetworkError")).

Section Runtime.
Context {B : Type} `{Backend B} (backend : B) `{Codec GatewayMessage}.
Variable ct_eq : list byte → list byte → bool.
Variable to_lowercase : string → string.
Variable env_gateway_token : string.

(** The task of a request: what it answers, and the calls made by then. *)
Definition run_task (t : Task) (log : list BackendRequest) : GatewayMessage * list BackendRequest :=
  handle_fetch_request ct_eq to_lowercase backend (FetchRequestMsg t.(task_request)) env_gateway_token
    t.(view_snapshot) log.

(** [None]: the event must wait, since a send to the full response queue blocks. *)
Definition runtime_step (st : Runtime) (e : RuntimeEvent) : option Runtime :=
  if negb st.(rt_running) then None
  else match e with
  | Receive (FetchRequestMsg r) _ =>
      if length st.(tasks) <? MAX_CONCURRENT_FETCH_REQUESTS then
        Some (MkRuntime true st.(view_slot) (st.(tasks) ++ [MkTask r st.(view_slot)]) st.(response_queue)
                st.(responses_sent) st.(backend_calls))
      else if length st.(response_queue) <? MAX_PENDING_KERNEL_RESPONSES then
        Some (MkRuntime true st.(view_slot) st.(tasks) (st.(response_queue) ++ [overload_response r])
                st.(responses_sent) st.(backend_calls))
      else None
  | Receive (EpochAdvanced _) reload =>
      let view := match reload with Ok v => Some v | Err _ => None end in
      Some (MkRuntime true view st.(tasks) st.(response_queue) st.(responses_sent) st.(backend_calls))
  | Receive _ _ => Some st
  | ReceiveEnd =>
      Some (MkRuntime false st.(view_slot) st.(tasks) st.(response_queue) st.(responses_sent) st.(backend_calls))
  | FinishTask i =>
      match st.(tasks) !! i with
      | Some t =>
          if length st.(response_queue) <? MAX_PENDING_KERNEL_RESPONSES then
            let '(resp, calls) := run_task t st.(backend_calls) in
            Some (MkRuntime true st.(view_slot) (delete i st.(tasks)) (st.(response_queue) ++ [resp])
                    st.(responses_sent) calls)
          else None
      | None => None
      end
  | WriteResponse transport_ok =>
      match st.(response_queue) with
      | [] => None
      | resp :: rest =>
          match Ipc.write_frame resp, transport_ok with
          | Ok _, true =>
              Some (MkRuntime true st.(view_slot) st.(tasks) rest (st.(responses_sent) ++ [resp])
                      st.(backend_calls))
          | _, _ =>
              Some (MkRuntime false st.(view_slot) st.(tasks) rest st.(responses_sent) st.(backend_calls))
          end
      end
  end.

(** An event that must wait leaves the process as it is. *)
Definition runtime_run (st : Runtime) (es : list RuntimeEvent) : Runtime :=
  foldl (λ st e, default st (runtime_step st e)) st es.
Definition runtime_start (view : PolicyView) : Runtime := MkRuntime true (Some view) [] [] [] [].

(** The requests the loop has taken from the socket. *)
Fixpoint received_requests (st : Runtime) (es : list RuntimeEvent) : list FetchRequest :=
  match es with
  | [] => []
  | e :: es =>
      match e, runtime_step st e with
      | Receive (FetchRequestMsg r) _, Some _ => [r]
      | _, _ => []
      end ++ received_requests (default st (runtime_step st e)) es
  end.

(** ** Concurrency and answers *)

(** An answer to a request: the handler's, for some view and history of calls, or
    the one for an overloaded process. *)
Definition answers (r : FetchRequest) (m : GatewayMessage) : Prop :=
  (∃ view log, m = (handle_fetch_request ct_eq to_lowercase backend (FetchRequestMsg r) env_gateway_token view log).1)
  ∨ m = overload_response r.

(** The requests served, answered and written, each once. *)
Record accounted (rs : list FetchRequest) (st : Runtime) : Prop := {
  acc_width : length st.(tasks) ≤ MAX_CONCURRENT_FETCH_REQUESTS;
  acc_queue : length st.(response_queue) ≤ MAX_PENDING_KERNEL_RESPONSES;
  acc_split : ∃ written queued lost,
    rs ≡ₚ (task_request <$> st.(tasks)) ++ written ++ queued ++ lost ∧
    Forall2 answers written st.(responses_sent) ∧ Forall2 answers queued st.(response_queue) ∧
    (length lost ≤ 1 ∧ (st.(rt_running) = true → lost = []));
}.

Lemma accounted_step rs st e st' :
  accounted rs st → runtime_step st e = Some st' →
  accounted (rs ++ match e with Receive (FetchRequestMsg r) _ => [r] | _ => [] end) st'.
Proof.
  intros [Hw Hq (written & queued & lost & Hp & Hws & Hqs & Hl & Hr)]. unfold runtime_step.
  destruct (rt_running st); [| done]. cbn [negb]. specialize (Hr eq_refl) as ->. rewrite app_nil_r in Hp.
  destruct e as [m reload| |i|ok].
  - destruct m as [r|n|f|t]; rewrite ?app_nil_r.
    + destruct (Nat.ltb_spec (length (tasks st)) MAX_CONCURRENT_FETCH_REQUESTS).
      { intros [= <-]. split; rt_cbn; [rewrite length_app; cbn [length]; lia | done |].
        exists written, queued, []. rewrite fmap_app, Hp, app_nil_r. split_and!; try done. cbn. solve_Permutation. }
      destruct (Nat.ltb_spec (length (response_queue st)) MAX_PENDING_KERNEL_RESPONSES); [| done].
      intros [= <-]. split; rt_cbn; [done | rewrite length_app; cbn [length]; lia |].
      exists written, (queued ++ [r]), []. rewrite Hp, app_nil_r. split_and!; try done; [solve_Permutation |].
      apply Forall2_app; [done |]. constructor; [by right | constructor].
    + intros [= <-]. split; [done | done |]. exists written, queued, []. by rewrite app_nil_r.
    + intros [= <-]. split; [done | done |]. exists written, queued, []. by rewrite app_nil_r.
    + intros [= <-]. split; [done | done |]. exists written, queued, []. by rewrite app_nil_r.
  - intros [= <-]. rewrite app_nil_r. split; [done | done |]. exists written, queued, []. by rewrite app_nil_r.
  - rewrite app_nil_r. destruct (tasks st !! i) as [t|] eqn:Et; [| done].
    destruct (Nat.ltb_spec (length (response_queue st)) MAX_PENDING_KERNEL_RESPONSES); [| done].
    destruct (run_task t (backend_calls st)) as [resp calls] eqn:Erun. intros [= <-]. split; rt_cbn.
    + pose proof (length_delete (tasks st) i (ltac:(by exists t))). lia.
    + rewrite length_app. cbn [length]. lia.
    + exists written, (queued ++ [t.(task_request)]), []. rewrite app_nil_r. split_and!; try done.
      * rewrite Hp. pose proof (delete_Permutation (tasks st) i t Et) as Hd.
        rewrite Hd at 1. cbn. solve_Permutation.
      * apply Forall2_app; [done |]. constructor; [| constructor]. left.
        exists t.(view_snapshot), st.(backend_calls). unfold run_task in Erun. by rewrite Erun.
  - rewrite app_nil_r. destruct (response_queue st) as [|resp rest] eqn:Eq; [done |].
    apply Forall2_cons_inv_r in Hqs as (r & queued' & Ha & Hqs & ->). cbn [length] in Hq.
    destruct (Ipc.write_frame resp) as [bytes|e]; [destruct ok |]; intros [= <-]; split; rt_cbn; try lia; try done.
    + exists (written ++ [r]), queued', []. rewrite app_nil_r. split_and!; try done.
      * rewrite Hp. solve_Permutation.
      * apply Forall2_app; [done |]. constructor; [done | constructor].
    + exists written, queued', [r]. split_and!; try done. rewrite Hp. solve_Permutation.
    + exists written, queued', [r]. split_and!; try done. rewrite Hp. solve_Permutation.
Qed.

Lemma accounted_run es rs st :
  accounted rs st → accounted (rs ++ received_requests st es) (runtime_run st es).
Proof.
  revert rs st. induction es as [|e es IH]; intros rs st Ha; [by rewrite app_nil_r |].
  cbn [received_requests]. unfold runtime_run. cbn [foldl]. fold (runtime_run (default st (runtime_step st e)) es).
  destruct (runtime_step st e) as [st'|] eqn:E; cbn [default].
  - rewrite app_assoc. apply IH. pose proof (accounted_step rs st e st' Ha E) as Hs.
    destruct e as [[]| | |]; rewrite ?E; exact Hs.
  - destruct e as [[]| | |]; rewrite ?E; by apply IH.
Qed.

Lemma accounted_start view : accounted [] (runtime_start view).
Proof.
  split; rt_cbn; [apply Nat.le_0_l | apply Nat.le_0_l |]. exists [], [], []. by split_and!; [| constructor | constructor | apply Nat.le_0_l |].
Qed.
End Runtime.

Lemma stopped_run {B} `{Backend B} (backend : B) `{Codec GatewayMessage} ct_eq to_lowercase token st es :
  st.(rt_running) = false → runtime_run backend ct_eq to_lowercase token st es = st.
Proof.
  intros Hs. unfold runtime_run. induction es as [|e es IH]; [done |]. cbn [foldl].
  unfold runtime_step at 2. by rewrite Hs.
Qed.

(** ** The kernel and the gateway

    The kernel's pump and the gateway's loop over one connection.  The gateway's
    loop reads one frame after the other, so what reaches it are the messages
    written, in order; [to_gateway] counts them.  The pump reads inside a [select!]:
    a job that arrives while a frame is being read abandons the read, and the bytes
    it had consumed are gone.  So the other direction is a stream of bytes, of
    which the pump has consumed the first [consumed]. *)

Record System := MkSystem {
  kernel_side : PumpState;
  gateway_side : Runtime;
  to_gateway : nat;
  consumed : nat;
}.

(** A job is taken with the number of bytes of the read it abandons; a delivery to
    the gateway comes with what a reload of the policy would give then. *)
Inductive SystemEvent :=
  | KernelEvent (e : PumpEvent)
  | TakeJob (w : WriteOutcome) (lost : nat)
  | ReadResponse
  | GatewayEvent (e : RuntimeEvent)
  | DeliverToGateway (reload : result PolicyViewError PolicyView).

Definition kernel_local (e : PumpEvent) : bool :=
  match e with FrameReceived _ | JobReceived _ => false | _ => true end.
Definition gateway_local (e : RuntimeEvent) : bool := match e with Receive _ _ => false | _ => true end.

Section System.
Context {B : Type} `{Backend B} (backend : B) `{Codec GatewayMessage}.
Variable ct_eq : list byte → list byte → bool.
Variable to_lowercase : string → string.
Variable token : string.
Variable observer : bool.

Definition frame_bytes (m : GatewayMessage) : list byte :=
  match Ipc.write_frame m with Ok f => f | Err _ => [] end.
Definition sent_bytes (ms : list GatewayMessage) : list byte := concat (frame_bytes <$> ms).
Definition kernel_input (s : System) : list byte :=
  drop s.(consumed) (sent_bytes s.(gateway_side).(responses_sent)).

Definition incomplete (e : Ipc.FrameError) : bool :=
  match e with Ipc.Eof | Ipc.UnexpectedEof => true | _ => false end.

(** The bytes are there, and no frame ends within them. *)
Definition abandons (s : System) (lost : nat) : bool :=
  (lost <=? length (kernel_input s)) &&
  match Ipc.read_body (take lost (kernel_input s)) with (Err e, _) => incomplete e | _ => false end.

(** The event of the pump, and what it has consumed then. *)
Definition kernel_event (s : System) (e : SystemEvent) : option (PumpEvent * nat) :=
  match e with
  | KernelEvent e => if kernel_local e then Some (e, s.(consumed)) else None
  | TakeJob w lost => if abandons s lost then Some (JobReceived w, s.(consumed) + lost) else None
  | ReadResponse =>
      let input := kernel_input s in
      match Ipc.read_frame input with
      | (Ok m, rest) => Some (FrameReceived m, s.(consumed) + (length input - length rest))
      | (Err e, rest) =>
          if incomplete e then None else Some (ReadFailed, s.(consumed) + (length input - length rest))
      end
  | _ => None
  end.
Definition gateway_event (s : System) (e : SystemEvent) : option RuntimeEvent :=
  match e with
  | GatewayEvent e => if gateway_local e then Some e else None
  | DeliverToGateway reload => (λ m, Receive m reload) <$> s.(kernel_side).(written) !! s.(to_gateway)
  | _ => None
  end.

Definition system_step (s : System) (e : SystemEvent) : System :=
  match kernel_event s e, gateway_event s e with
  | Some (k, n), _ => MkSystem (pump_step observer s.(kernel_side) k) s.(gateway_side) s.(to_gateway) n
  | None, Some g =>
      match runtime_step backend ct_eq to_lowercase token s.(gateway_side) g with
      | Some g' =>
          MkSystem s.(kernel_side) g' (match g with Receive _ _ => S s.(to_gateway) | _ => s.(to_gateway) end)
            s.(consumed)
      | None => s
      end
  | None, None => s
  end.

Definition system_start (view : PolicyView) : System := MkSystem pump_start (runtime_start view) 0 0.
Definition system_run (view : PolicyView) (es : list SystemEvent) : System :=
  foldl system_step (system_start view) es.

(** The jobs handed to the pump. *)
Definition submits (j : PumpJob) (es : list SystemEvent) : Prop := KernelEvent (Submitted j) ∈ es.

(** No job arrives while a frame is being read. *)
Definition uninterrupted (es : list SystemEvent) : Prop := ∀ w lost, TakeJob w lost ∈ es → lost = 0.

(** [fetch_with_observer_metadata] draws a fresh identifier for each fetch, and the
    only signal the kernel sends is [notify_epoch_advanced]'s. *)
Record submissions_ok (es : list SystemEvent) : Prop := {
  fresh_ids p q : submits (FetchJob p) es → submits (FetchJob q) es →
    p.(payload).(fetch_id) = q.(payload).(fetch_id) → p.(payload) = q.(payload);
  only_epochs m tx : submits (SignalJob m tx) es → ∃ n, m = EpochAdvanced n;
}.

(** *** Where a message comes from *)

Lemma answers_id r f :
  answers backend ct_eq to_lowercase token r (FetchResponseMsg f) → f.(response_fetch_id) = r.(fetch_id).
Proof.
  intros [(view & log & Hf)|[= ->]]; [| done]. unfold handle_fetch_request, error_response in Hf.
  destruct (dispatch _ _ _ _ _ _ _) as [[resp|e] log'] eqn:E; cbn [fst] in Hf; [| by injection Hf as ->].
  subst resp. unfold dispatch, throw in E. repeat case_match; try discriminate.
  unfold call_backend in E. se_unfold. destruct (map_err _ _); [| done].
  injection E as <- _. done.
Qed.

Lemma runtime_sent st e st' :
  runtime_step backend ct_eq to_lowercase token st e = Some st' →
  st'.(responses_sent) = st.(responses_sent) ∨
  ∃ m f, Ipc.write_frame m = Ok f ∧ st'.(responses_sent) = st.(responses_sent) ++ [m].
Proof.
  unfold runtime_step. intros Hs.
  repeat (case_match; try discriminate); injection Hs as <-; rt_cbn; first [by left | right; by eauto].
Qed.

(** The kernel has read whole frames so far. *)
Definition frame_aligned (s : System) : Prop :=
  ∃ n, n ≤ length s.(gateway_side).(responses_sent) ∧
    s.(consumed) = length (sent_bytes (take n s.(gateway_side).(responses_sent))).

Record system_inv (es : list SystemEvent) (s : System) : Prop := {
  inv_kernel : ∃ kes, s.(kernel_side) = pump observer kes ∧ (∀ j, Submitted j ∈ kes → submits j es) ∧
    (∀ m, FrameReceived m ∈ kes → m ∈ s.(gateway_side).(responses_sent));
  inv_gateway : ∃ rs, accounted backend ct_eq to_lowercase token rs s.(gateway_side) ∧
    ∀ r, r ∈ rs → FetchRequestMsg r ∈ s.(kernel_side).(written);
  inv_sent : Forall (λ m, ∃ f, Ipc.write_frame m = Ok f) s.(gateway_side).(responses_sent);
  inv_aligned : frame_aligned s;
}.
End System.

(** *** Every step keeps it *)

Section Invariant.
Context {B : Type} `{Backend B} (backend : B) `{LawfulCodec GatewayMessage}.
Variable ct_eq : list byte → list byte → bool.
Variable to_lowercase : string → string.
Variable token : string.
Variable observer : bool.
Hypothesis frames_small : ∀ (m : GatewayMessage) f, Ipc.write_frame m = Ok f → (Z.of_nat (length f) < 2^32)%Z.
#[local] Abbreviation invariant := (system_inv backend ct_eq to_lowercase token observer).

Lemma sent_bytes_app a b : sent_bytes (a ++ b) = sent_bytes a ++ sent_bytes b.
Proof. unfold sent_bytes. by rewrite fmap_app, concat_app. Qed.

(** What an aligned reader finds: the next message, or nothing. *)
Lemma aligned_input s n :
  s.(consumed) = length (sent_bytes (take n s.(gateway_side).(responses_sent))) →
  kernel_input s = sent_bytes (drop n s.(gateway_side).(responses_sent)).
Proof.
  intros Hc. unfold kernel_input. rewrite Hc.
  rewrite <-(take_drop n (responses_sent _)) at 2. by rewrite sent_bytes_app, drop_app_length.
Qed.

Lemma aligned_read s :
  Forall (λ m, ∃ f, Ipc.write_frame m = Ok f) s.(gateway_side).(responses_sent) → frame_aligned s →
  kernel_event s ReadResponse = None ∨
  ∃ n m, s.(gateway_side).(responses_sent) !! n = Some m ∧
    kernel_event s ReadResponse
      = Some (FrameReceived m, length (sent_bytes (take (S n) s.(gateway_side).(responses_sent)))).
Proof.
  intros Hok (n & Hn & Hc). pose proof (aligned_input s n Hc) as Hin. unfold kernel_event. rewrite Hin.
  destruct (drop n (responses_sent (gateway_side s))) as [|m rest] eqn:Ed; [by left |]. right.
  assert (responses_sent (gateway_side s) !! n = Some m) as Hm
    by (rewrite <-(Nat.add_0_r n), <-lookup_drop, Ed; done).
  exists n, m. split; [done |]. rewrite Forall_lookup in Hok. destruct (Hok n m Hm) as [f Hf].
  change (sent_bytes (m :: rest)) with (frame_bytes m ++ sent_bytes rest).
  assert (frame_bytes m = f) as -> by (unfold frame_bytes; by rewrite Hf).
  rewrite (read_frame_app m f) by eauto. do 2 f_equal.
  rewrite (take_S_r _ _ m), sent_bytes_app, !length_app, Hc by done.
  assert (sent_bytes [m] = f) as -> by (unfold sent_bytes, frame_bytes; cbn; by rewrite Hf, app_nil_r). lia.
Qed.

Lemma inv_kernel_step es e s k n :
  (∀ j, k = Submitted j → e = KernelEvent (Submitted j)) →
  (∀ m, k = FrameReceived m → m ∈ s.(gateway_side).(responses_sent)) →
  (∃ i, i ≤ length s.(gateway_side).(responses_sent) ∧
    n = length (sent_bytes (take i s.(gateway_side).(responses_sent)))) →
  invariant es s →
  invariant (es ++ [e]) (MkSystem (pump_step observer s.(kernel_side) k) s.(gateway_side) s.(to_gateway) n).
Proof.
  intros Hk Hf Hn [(kes & Hkes & Hs & Hr) (rs & Ha & Hreq) Hok _]. split; cbn; [| | done | done].
  - exists (kes ++ [k]). rewrite pump_snoc, Hkes. split; [done |]. split.
    + intros j [Hj|<-%list_elem_of_singleton]%elem_of_app; apply elem_of_app; [left; by apply Hs | right].
      rewrite (Hk j eq_refl). by apply list_elem_of_singleton.
    + intros m [Hm|<-%list_elem_of_singleton]%elem_of_app; [by apply Hr | by apply Hf].
  - exists rs. split; [done |]. intros r Hin.
    destruct (step_written observer s.(kernel_side) k) as (l & -> & _). apply elem_of_app. left. by apply Hreq.
Qed.

Lemma inv_gateway_step es e s g g' c :
  runtime_step backend ct_eq to_lowercase token s.(gateway_side) g = Some g' →
  (∀ m reload, g = Receive m reload → m ∈ s.(kernel_side).(written)) →
  invariant es s → invariant (es ++ [e]) (MkSystem s.(kernel_side) g' c s.(consumed)).
Proof.
  intros Hg Hw [(kes & Hkes & Hs & Hr) (rs & Ha & Hreq) Hok (n & Hn & Hc)].
  destruct (runtime_sent _ _ _ _ _ _ _ Hg) as [Hsame|(m & f & Hm & Hsent)].
  - split; cbn; rewrite ?Hsame.
    + exists kes. split_and!; try done. intros j Hj. apply elem_of_app. left. by apply Hs.
    + eexists. split; [by eapply accounted_step |]. intros r [Hin|Hin]%elem_of_app; [by apply Hreq |].
      destruct g as [[q| | |] reload| | |]; try by apply elem_of_nil in Hin.
      apply list_elem_of_singleton in Hin as ->. by eapply Hw.
    + done.
    + exists n. cbn. by rewrite Hsame.
  - split; cbn; rewrite ?Hsent.
    + exists kes. split_and!; try done.
      * intros j Hj. apply elem_of_app. left. by apply Hs.
      * intros m' Hm'. apply elem_of_app. left. by apply Hr.
    + eexists. split; [by eapply accounted_step |]. intros r [Hin|Hin]%elem_of_app; [by apply Hreq |].
      destruct g as [[q| | |] reload| | |]; try by apply elem_of_nil in Hin.
      apply list_elem_of_singleton in Hin as ->. by eapply Hw.
    + apply Forall_app. split; [done |]. apply Forall_singleton. by exists f.
    + exists n. cbn. rewrite Hsent, length_app, take_app_le by done. split; [lia | done].
Qed.

Lemma system_inv_step es e s :
  uninterrupted (es ++ [e]) → invariant es s →
  invariant (es ++ [e]) (system_step backend ct_eq to_lowercase token observer s e).
Proof.
  intros Hu Hi. pose proof Hi as [_ _ Hok Hal].
  assert (invariant (es ++ [e]) s) as Hsame.
  { destruct Hi as [(kes & Hkes & Hs & Hr) Hg _ _]. split; try done. exists kes. split_and!; try done.
    intros j Hj. apply elem_of_app. left. by apply Hs. }
  unfold system_step. destruct e as [k|w lost| |g|reload]; cbn [kernel_event gateway_event].
  - destruct (kernel_local k) eqn:Ek; [| done].
    apply inv_kernel_step; [by intros j -> | by intros m -> | done | done].
  - destruct (abandons s lost); [| done].
    assert (lost = 0) as -> by (apply (Hu w), elem_of_app; right; by apply list_elem_of_singleton).
    apply inv_kernel_step; [done | done | | done]. destruct Hal as (n & ? & ?). exists n. by rewrite Nat.add_0_r.
  - change (match Ipc.read_frame (kernel_input s) with (Ok m, rest) => _ | _ => _ end)
      with (kernel_event s ReadResponse).
    destruct (aligned_read s Hok Hal) as [->|(n & m & Hm & ->)]; [done |].
    apply inv_kernel_step; [done | | | done].
    + intros m' [= <-]. by eapply list_elem_of_lookup_2.
    + exists (S n). split; [by apply lookup_lt_Some in Hm | done].
  - destruct (gateway_local g) eqn:Eg; [| done]. destruct (runtime_step _ _ _ _ _ g) as [g'|] eqn:Es; [| done].
    eapply inv_gateway_step; [done | by intros m reload -> | done].
  - destruct (written (kernel_side s) !! to_gateway s) as [m|] eqn:Em; [| done]. cbn [fmap option_fmap option_map].
    destruct (runtime_step _ _ _ _ _ _) as [g'|] eqn:Es; [| done].
    eapply inv_gateway_step; [done | | done]. intros m' ? [= <- _]. by eapply list_elem_of_lookup_2.
Qed.

Lemma system_inv_run view es :
  uninterrupted es → invariant es (system_run backend ct_eq to_lowercase token observer view es).
Proof.
  unfold system_run. induction es as [|e es IH] using rev_ind; intros Hu.
  - split; cbn.
    + exists []. split_and!; [done | |]; intros ? Hin; by apply elem_of_nil in Hin.
    + exists []. split; [apply accounted_start | intros ? Hin; by apply elem_of_nil in Hin].
    + constructor.
    + by exists 0.
  - rewrite foldl_app. apply system_inv_step; [done |]. apply IH. intros w lost Hin.
    apply (Hu w), elem_of_app. by left.
Qed.
End Invariant.

(** ** Properties *)

(** What a codec does with a response: the body is written as it is, after its
    length. *)
Definition body_in_frame `{Codec GatewayMessage} : Prop := ∀ f body bytes,
  encode_to_vec (FetchResponseMsg f) = Ok bytes → f.(response_body) = Some body → length body < length bytes.

(** However the requests, the ends of the tasks and the writes interleave, at most
    512 requests are served at once and at most 1024 answers wait; every request taken
    from the socket is being served, or has one answer, of its own, waiting or written,
    in order; only the answer whose write stopped the process is lost. *)
Theorem requests_answered_once {B} `{Backend B} (backend : B) `{Codec GatewayMessage} ct_eq to_lowercase token view es :
  let st := runtime_run backend ct_eq to_lowercase token (runtime_start view) es in
  length st.(tasks) ≤ MAX_CONCURRENT_FETCH_REQUESTS ∧
  length st.(response_queue) ≤ MAX_PENDING_KERNEL_RESPONSES ∧
  ∃ written queued lost,
    received_requests backend ct_eq to_lowercase token (runtime_start view) es
      ≡ₚ (task_request <$> st.(tasks)) ++ written ++ queued ++ lost ∧
    Forall2 (answers backend ct_eq to_lowercase token) written st.(responses_sent) ∧
    Forall2 (answers backend ct_eq to_lowercase token) queued st.(response_queue) ∧
    length lost ≤ 1 ∧ (st.(rt_running) = true → lost = []).
Proof.
  destruct (accounted_run backend ct_eq to_lowercase token es [] (runtime_start view)) as [Hw Hq Hs];
    [apply accounted_start |].
  cbn [app] in Hs. by split_and!.
Qed.


(** C27: When a job is taken just after the length of an answer was read, the next read
    takes the answer's first bytes for a length.  If they exceed the frame limit (and
    four arbitrary bytes mostly do) the pump stops: every caller that waits loses its
    channel, and none gets an answer. *)
Theorem interrupted_read_drops_everyone {B} `{Backend B} (backend : B) `{Codec GatewayMessage} ct_eq to_lowercase token
    observer s j q body rest :
  s.(kernel_side).(running) = true → s.(kernel_side).(queue) = j :: q →
  kernel_input s = le_bytes 4 (Z.of_nat (length body)) ++ body ++ rest →
  4 ≤ length body → (Z.of_nat (length body) ≤ Ipc.MAX_FRAME_BODY_BYTES)%Z →
  (Ipc.MAX_FRAME_BODY_BYTES < le_value (take 4 body))%Z →
  let step := system_step backend ct_eq to_lowercase token observer in
  let s' := step (step s (TakeJob Written 4)) ReadResponse in
  s'.(kernel_side).(running) = false ∧ outstanding s'.(kernel_side) = [] ∧
  ∀ tx r, Reply tx r ∈ s'.(kernel_side).(deliveries) → Reply tx r ∈ s.(kernel_side).(deliveries).
Proof.
  intros Hrun Hq Hin Hlen Hmax Hval step.
  assert (step s (TakeJob Written 4) =
    MkSystem (pump_step observer s.(kernel_side) (JobReceived Written)) s.(gateway_side) s.(to_gateway) (s.(consumed) + 4))
    as Htake.
  { unfold step, system_step. cbn [kernel_event]. assert (abandons s 4 = true) as ->; [| done].
    unfold abandons. rewrite Hin, take_app_length' by by rewrite le_bytes_length.
    rewrite length_app, le_bytes_length. cbn [andb Nat.leb Nat.add]. unfold Ipc.read_body.
    rewrite <-(app_nil_r (le_bytes 4 _)), read_exact_app by apply le_bytes_length.
    unfold Ipc.MAX_FRAME_BODY_BYTES in *. rewrite le_value_bytes by lia.
    rewrite (proj2 (Z.ltb_ge _ _)), read_exact_short by (cbn [length]; lia). done. }
  set (k := pump_step observer (kernel_side s) (JobReceived Written)) in *.
  set (s1 := MkSystem k _ _ _) in Htake.
  assert (kernel_input s1 = body ++ rest) as Hin1.
  { unfold kernel_input, s1. cbn [consumed gateway_side]. rewrite <-drop_drop.
    change (drop (consumed s) (sent_bytes (responses_sent (gateway_side s)))) with (kernel_input s).
    rewrite Hin. apply drop_app_length'. by rewrite le_bytes_length. }
  assert (∃ n, step s1 ReadResponse = MkSystem (pump_step observer k ReadFailed) s.(gateway_side) s.(to_gateway) n)
    as [n Hread].
  { unfold step, system_step. cbn [kernel_event]. rewrite Hin1. unfold Ipc.read_frame, Ipc.read_body.
    assert (read_exact 4 (body ++ rest) = (Some (take 4 body), drop 4 body ++ rest)) as ->.
    { rewrite <-(read_exact_app 4 (take 4 body)) by (rewrite length_take; lia). by rewrite app_assoc, take_drop. }
    rewrite (proj2 (Z.ltb_lt _ _) Hval). cbn [incomplete]. by eexists. }
  cbn zeta. rewrite Htake, Hread. cbn [kernel_side].
  assert (k.(running) = true ∧ ∀ tx r, Reply tx r ∈ k.(deliveries) → Reply tx r ∈ s.(kernel_side).(deliveries))
    as [Hk Hreplies].
  { subst k. unfold pump_step. rewrite Hrun, Hq. cbn [negb]. destruct j as [p|id|m t]; cbn [run_job]; split.
    - done.
    - intros tx r. cbn [write deliveries]. by intros ?%start_deliveries.
    - unfold release_slot. by case_match.
    - intros tx r [?|(slot & _ & [=])]%release_deliveries. done.
    - done.
    - intros tx r. cbn. by intros [?|?%list_elem_of_singleton]%elem_of_app. }
  unfold pump_step. rewrite Hk. cbn [negb]. split_and!; [done | done |].
  intros tx r Hr%exit_deliveries. by apply Hreplies.
Qed.

(** A provider's response limit may be the frame limit, and then a response of
    that size is an answer no frame can carry: the handler accepts it, writing it fails
    and the process stops, with the answers of every other request in it. *)
Theorem full_size_answer_stops_gateway {B} `{Backend B} (backend : B) `{Codec GatewayMessage} ct_eq to_lowercase token
    st i t v host p answer bytes :
  (∀ a b, ct_eq a b = true ↔ a = b) → body_in_frame →
  st.(rt_running) = true → st.(tasks) !! i = Some t → st.(response_queue) = [] →
  t.(view_snapshot) = Some v → t.(task_request).(gateway_token) = token →
  permitted to_lowercase v t.(task_request) host p →
  backend_call backend st.(backend_calls) (backend_request t.(task_request) p) = Ok answer →
  Z.of_nat (length answer.(br_resp_body)) = MAX_RESPONSE_BYTES_CEILING →
  encode_to_vec (success_response t.(task_request).(fetch_id) answer) = Ok bytes →
  (Z.of_nat (length bytes) < 2^32)%Z →
  let st' := runtime_run backend ct_eq to_lowercase token st [FinishTask i; WriteResponse true] in
  st'.(rt_running) = false ∧ st'.(responses_sent) = st.(responses_sent) ∧
  ∀ es, runtime_run backend ct_eq to_lowercase token st' es = st'.
Proof.
  intros Hct Hbody Hrun Ht Hq Hv Htok Hp Hcall Hlen Henc Hsmall.
  assert (run_task backend ct_eq to_lowercase token t st.(backend_calls) =
    (success_response t.(task_request).(fetch_id) answer, st.(backend_calls) ++ [backend_request t.(task_request) p])) as Hrt.
  { unfold run_task, handle_fetch_request. rewrite Hv.
    by rewrite (dispatch_permitted ct_eq Hct to_lowercase backend _ token v host p _ Htok Hp), Hcall. }
  assert (Ipc.write_frame (success_response t.(task_request).(fetch_id) answer)
    = Err (Ipc.TooLarge (Z.of_nat (length bytes)))) as Hfail.
  { unfold Ipc.write_frame. rewrite Henc. cbn [map_err mbind result_bind].
    pose proof (Hbody _ _ _ Henc eq_refl) as Hlt. rewrite Z.mod_small by lia.
    unfold MAX_RESPONSE_BYTES_CEILING in Hlen. unfold Ipc.MAX_FRAME_BODY_BYTES.
    destruct (Z.ltb_spec (64 * 1024 * 1024) (Z.of_nat (length bytes))); [done | lia]. }
  set (ans := success_response (fetch_id (task_request t)) answer) in *.
  set (calls := backend_calls st ++ [backend_request (task_request t) p]) in *.
  assert (runtime_step backend ct_eq to_lowercase token st (FinishTask i) =
    Some (MkRuntime true st.(view_slot) (delete i st.(tasks)) [ans] st.(responses_sent) calls)) as H1
    by (unfold runtime_step; by rewrite Hrun, Ht, Hq, Hrt).
  assert (runtime_step backend ct_eq to_lowercase token
      (MkRuntime true st.(view_slot) (delete i st.(tasks)) [ans] st.(responses_sent) calls) (WriteResponse true) =
    Some (MkRuntime false st.(view_slot) (delete i st.(tasks)) [] st.(responses_sent) calls)) as H2
    by (unfold runtime_step; rt_cbn; by rewrite Hfail).
  cbn zeta. unfold runtime_run at 1 2 4 5. cbn [foldl]. rewrite H1. cbn [default id]. rewrite H2.
  cbn [default id]. split_and!; [done | done |]. intros es. by apply stopped_run.
Qed.

(** ** Witnesses *)

(** A codec that writes the body only. *)
Definition body_codec : Codec GatewayMessage := {|
  encode_to_vec m := Ok (NUL :: match m with FetchResponseMsg f => default [] f.(response_body) | _ => [] end);
  decode_from_slice _ := Err "";
|}.
Definition demo_request : FetchRequest := demo_fetch "https://api.anthropic.com/v1/messages".
Definition demo_job : PumpJob := FetchJob (MkPending demo_request 3 None None None None None None).

#[local] Instance FetchRequest_eq_dec : EqDecision FetchRequest.
Proof. solve_decision. Defined.
#[local] Instance FetchResponse_eq_dec : EqDecision FetchResponse.
Proof. solve_decision. Defined.
#[local] Instance GatewayMessage_eq_dec : EqDecision GatewayMessage.
Proof. solve_decision. Defined.

(** A codec that knows one message. *)
Definition demo_response : GatewayMessage :=
  FetchResponseMsg (MkFetchResponse (replicate 16 (byte_of 7)) (Some 200%Z) [] (Some (chars "hello")) 40 None).
Definition one_message_codec (bytes : list byte) : Codec GatewayMessage := {|
  encode_to_vec m := if decide (m = demo_response) then Ok bytes else Err "";
  decode_from_slice b := Ok (demo_response, length b);
|}.
Lemma one_message_lawful bytes : @LawfulCodec _ (one_message_codec bytes).
Proof. intros v b. unfold encode_to_vec, one_message_codec. destruct (decide _) as [->|]; [| done]. done. Qed.

Definition demo_exchange : list SystemEvent :=
  [KernelEvent (Submitted demo_job); TakeJob Written 0; DeliverToGateway (Err (PolicyLoad ""));
   GatewayEvent (FinishTask 0); GatewayEvent (WriteResponse true); ReadResponse].


Lemma interrupted_read_drops_everyone_witness :
  let codec := one_message_codec (replicate 4 (byte_of 255)) in
  let s := @system_run _ _ demo_backend codec demo_ct_eq to_ascii_lowercase "tok" true demo_view
             [KernelEvent (Submitted demo_job); TakeJob Written 0; DeliverToGateway (Err (PolicyLoad ""));
              GatewayEvent (FinishTask 0); GatewayEvent (WriteResponse true);
              KernelEvent (Submitted (CancelJob NIL_FETCH_ID))] in
  let step := @system_step _ _ demo_backend codec demo_ct_eq to_ascii_lowercase "tok" true in
  let s' := step (step s (TakeJob Written 4)) ReadResponse in
  outstanding s.(kernel_side) = [3] ∧
  s'.(kernel_side).(running) = false ∧ outstanding s'.(kernel_side) = [] ∧
  ∀ tx r, Reply tx r ∈ s'.(kernel_side).(deliveries) → Reply tx r ∈ s.(kernel_side).(deliveries).
Proof.
  intros codec s. split; [vm_compute; reflexivity |].
  refine (@interrupted_read_drops_everyone _ _ demo_backend codec demo_ct_eq to_ascii_lowercase "tok" true s
            (CancelJob NIL_FETCH_ID) [] (replicate 4 (byte_of 255)) [] _ _ _ _ _ _);
    try (vm_compute; reflexivity); vm_compute; first [discriminate | repeat constructor].
Defined.

(** A provider that sends as much as its limit admits. *)
Definition ceiling_provider : ProviderEntry :=
  MkProviderEntry "anthropic" "Anthropic" "anthropic.toml" 30000 10000 MAX_RESPONSE_BYTES_CEILING
    None None None None None.
Definition ceiling_view : PolicyView :=
  MkPolicyView 1 ["api.anthropic.com"] [] {["anthropic" := provider_view ceiling_provider demo_credentials]}
    ["anthropic"].
Definition ceiling_body : list byte := replicate (Z.to_nat MAX_RESPONSE_BYTES_CEILING) NUL.
Lemma ceiling_body_length : Z.of_nat (length ceiling_body) = MAX_RESPONSE_BYTES_CEILING.
Proof. unfold ceiling_body. rewrite length_replicate. apply Z2Nat.id. discriminate. Qed.
#[global] Opaque ceiling_body.
Definition ceiling_answer : BackendResponse := MkBackendResponse 200 [] ceiling_body 40.
Definition ceiling_backend : Backend unit := λ _ _ _, Ok ceiling_answer.

Lemma full_size_answer_stops_gateway_witness :
  let st := MkRuntime true (Some ceiling_view) [MkTask demo_request (Some ceiling_view)] [] [] [] in
  let st' := @runtime_run _ ceiling_backend tt body_codec demo_ct_eq to_ascii_lowercase "tok" st
               [FinishTask 0; WriteResponse true] in
  validate_providers [ceiling_provider] = Ok tt ∧
  st'.(rt_running) = false ∧ st'.(responses_sent) = [] ∧
  ∀ es, @runtime_run _ ceiling_backend tt body_codec demo_ct_eq to_ascii_lowercase "tok" st' es = st'.
Proof.
  intros st st'. split; [vm_compute; reflexivity |].
  refine (@full_size_answer_stops_gateway _ ceiling_backend tt body_codec demo_ct_eq to_ascii_lowercase "tok" st 0
    (MkTask demo_request (Some ceiling_view)) ceiling_view "api.anthropic.com"
    (provider_view ceiling_provider demo_credentials) ceiling_answer (NUL :: ceiling_body)
    demo_ct_eq_spec _ eq_refl eq_refl eq_refl eq_refl eq_refl _ eq_refl ceiling_body_length eq_refl _).
  - intros f body bytes [= <-] Hb. rewrite Hb. cbn. lia.
  - split; try (vm_compute; reflexivity). vm_compute. discriminate.
  - pose proof ceiling_body_length as Hlen. unfold MAX_RESPONSE_BYTES_CEILING in Hlen. cbn [length]. lia.
Defined.
