(* ===== verification/Egress.v ===== *)
(** * Egress admission

    [crates/egress-admission/src/lib.rs] with the messages of
    [crates/tproxy-protocol/src/lib.rs]: the decision on one connection and the
    loop that answers the transparent proxy of one session over its byte stream.
    The audit sink and the writer may fail: [emit_ok] and [write_ok] say whether
    they accept the next row or response, given what has been sent so far, and
    [clock] is the tracker's clock.  A transport error of the reader other than
    the end of the stream is not modelled. *)

From S2P Require Import Prelude Bytes Policy Hosts StallTracker Wire.

(** ** Messages *)

Inductive AdmissionProtocol := Https | Http | Tcp.
#[export] Instance AdmissionProtocol_eq_dec : EqDecision AdmissionProtocol.
Proof. solve_decision. Defined.
Definition protocol_as_str (p : AdmissionProtocol) : string :=
  match p with Https => "https" | Http => "http" | Tcp => "tcp" end.

Record ProxyAdmissionRequest := MkProxyRequest {
  connection_id : Z;
  original_dst_ip : string;
  original_dst_port : Z;
  host_or_sni : option string;
  protocol : AdmissionProtocol;
}.

Inductive DenyReason :=
  HostNotInAllowlist | ProxyTargetBypass | ProtocolNotPermitted | PortNotRedirected | Unknown.
#[export] Instance DenyReason_eq_dec : EqDecision DenyReason.
Proof. solve_decision. Defined.
Definition deny_reason_as_str (r : DenyReason) : string :=
  match r with
  | HostNotInAllowlist => "host_not_in_allowlist"
  | ProxyTargetBypass => "proxy_target_bypass"
  | ProtocolNotPermitted => "protocol_not_permitted"
  | PortNotRedirected => "port_not_redirected"
  | Unknown => "unknown"
  end.

Inductive ProxyAdmissionResponse :=
  | AdmitResponse (connection_id : Z)
  | DenyResponse (connection_id : Z) (reason : DenyReason).

(** ** The decision *)

Inductive AdmissionVerdict := Admit | Deny (reason : DenyReason).
#[export] Instance AdmissionVerdict_eq_dec : EqDecision AdmissionVerdict.
Proof. solve_decision. Defined.

Record AdmissionDecision := MkDecision { decision_id : Z; verdict : AdmissionVerdict }.

Definition to_response (d : AdmissionDecision) : ProxyAdmissionResponse :=
  match d.(verdict) with
  | Admit => AdmitResponse d.(decision_id)
  | Deny reason => DenyResponse d.(decision_id) reason
  end.

(** The trait: a decision on a request of a session, about that request. *)
Class AdmissionService (S : Type) := service_admit : S → string → ProxyAdmissionRequest → AdmissionDecision.
Class EchoingService (S : Type) `{AdmissionService S} : Prop :=
  service_echoes s session_id req : (service_admit s session_id req).(decision_id) = req.(connection_id).

Record PolicyAdmissionService := MkService {
  allowlist : EgressAllowlist;
  redirected_ports : gset Z;
}.

Definition default_redirected_ports : gset Z := {[80; 443; 5432; 3306; 1433; 27017; 6379]}%Z.
Definition new_service (a : EgressAllowlist) : PolicyAdmissionService :=
  MkService a default_redirected_ports.

Definition admit_request (s : PolicyAdmissionService) (_session_id : string) (request : ProxyAdmissionRequest)
    : AdmissionDecision :=
  if bool_decide (request.(original_dst_port) ∉ s.(redirected_ports))
  then MkDecision request.(connection_id) (Deny PortNotRedirected)
  else
    let host_for_check := default request.(original_dst_ip) request.(host_or_sni) in
    if is_credential_proxy_real_target s.(allowlist) host_for_check request.(original_dst_port)
    then MkDecision request.(connection_id) (Deny ProxyTargetBypass)
    else
      let host_match :=
        match request.(protocol), request.(host_or_sni) with
        | Tcp, None => false
        | _, Some host => host_is_allowed s.(allowlist) host
        | _, None => false
        end in
      if host_match then MkDecision request.(connection_id) Admit
      else MkDecision request.(connection_id) (Deny HostNotInAllowlist).

#[export] Instance policy_admission : AdmissionService PolicyAdmissionService := admit_request.
#[export] Instance policy_admission_echoes : EchoingService PolicyAdmissionService.
Proof. intros s i req. unfold service_admit, policy_admission, admit_request. by repeat case_match. Qed.

(** ** Audit rows *)

Inductive AuditKind :=
  | TransparentProxyAdmitted (session_id : string) (host : option string) (ip : string) (port : Z)
      (protocol : string)
  | TransparentProxyDenied (session_id : string) (host : option string) (ip : string) (port : Z)
      (protocol reason : string)
  | SessionEgressStallDetected (e : StallEmission) (source : string).

Record AuditRow := MkAuditRow {
  audit_kind : AuditKind;
  audit_session : option string;
  audit_initiative : option string;
}.

(** ** The loop *)

Inductive LoopError :=
  | Io
  | Frame (e : Admission.AdmissionFrameError)
  | Audit
  | OutOfFuel.

Inductive Output :=
  | Response (bytes : list byte)
  | Audited (row : AuditRow).

Record LoopState := MkLoop { outputs : list Output; tracker : option EgressStallTracker }.

Section Loop.
Context {S : Type} `{AdmissionService S} `{Codec ProxyAdmissionRequest} `{Codec ProxyAdmissionResponse}.
Variable service : S.
Variables (session_id : string) (initiative_id : option string).
Variable write_ok : list Output → bool.
Variable emit_ok : list Output → bool.
Variable clock : list Output → Z.

Definition write_all (bytes : list byte) : SE LoopState LoopError unit := λ st,
  if write_ok st.(outputs) then (Ok tt, MkLoop (st.(outputs) ++ [Response bytes]) st.(tracker))
  else (Err Io, st).

Definition emit (kind : AuditKind) : SE LoopState LoopError unit := λ st,
  if emit_ok st.(outputs)
  then (Ok tt, MkLoop (st.(outputs) ++ [Audited (MkAuditRow kind (Some session_id) initiative_id)])
                 st.(tracker))
  else (Err Audit, st).

(** A failure of the supplementary event is logged. *)
Definition ignore_err (m : SE LoopState LoopError unit) : SE LoopState LoopError unit := λ st,
  (Ok tt, (m st).2).

Definition verdict_event (req : ProxyAdmissionRequest) (v : AdmissionVerdict) : AuditKind :=
  match v with
  | Admit => TransparentProxyAdmitted session_id req.(host_or_sni) req.(original_dst_ip)
               req.(original_dst_port) (protocol_as_str req.(protocol))
  | Deny reason => TransparentProxyDenied session_id req.(host_or_sni) req.(original_dst_ip)
               req.(original_dst_port) (protocol_as_str req.(protocol)) (deny_reason_as_str reason)
  end.

(** The tracker is fed with a denial. *)
Definition feed_tracker (req : ProxyAdmissionRequest) (v : AdmissionVerdict)
    : SE LoopState LoopError unit := λ st,
  match st.(tracker), v with
  | Some t, Deny reason =>
      let key := MkStallKey session_id req.(host_or_sni) req.(original_dst_port)
                   (deny_reason_as_str reason) in
      let '(signal, t') := record_denial (clock st.(outputs)) key t in
      let st' := MkLoop st.(outputs) (Some t') in
      match signal with
      | Detected e => ignore_err (emit (SessionEgressStallDetected e "tproxy")) st'
      | Quiet => (Ok tt, st')
      end
  | _, _ => (Ok tt, st)
  end.

(** The body of the loop once a request is decoded. *)
Definition serve_one (req : ProxyAdmissionRequest) : SE LoopState LoopError unit :=
  let decision := service_admit service session_id req in
  response_bytes ← lift_result (map_err Frame (Admission.encode_frame (to_response decision)));
  _ ← write_all response_bytes;
  _ ← emit (verdict_event req decision.(verdict));
  feed_tracker req decision.(verdict).

(** The head of the loop: one frame, [None] at the end of the stream. *)
Definition read_request (input : list byte)
    : result LoopError (option (ProxyAdmissionRequest * list byte)) :=
  match read_exact 4 input with
  | (None, _) => Ok None
  | (Some len_buf, rest) =>
      let body_len := be_value len_buf in
      if (Admission.MAX_FRAME_BYTES <? body_len)%Z
      then Err (Frame (Admission.TooLarge body_len Admission.MAX_FRAME_BYTES))
      else match read_exact (Z.to_nat body_len) rest with
           | (None, _) => Err Io
           | (Some body, rest') =>
               '(req, _) ← map_err Frame (Admission.decode_frame (len_buf ++ body));
               Ok (Some (req, rest'))
           end
  end.

Fixpoint run_admission_loop_with_context (fuel : nat) (input : list byte) : SE LoopState LoopError unit :=
  match fuel with
  | O => throw OutOfFuel
  | Datatypes.S fuel =>
      next ← lift_result (read_request input);
      match next with
      | None => mret tt
      | Some (req, rest) => _ ← serve_one req; run_admission_loop_with_context fuel rest
      end
  end.
End Loop.

(** ** The decision, branch by branch *)

Lemma admit_cases s i req :
  (admit_request s i req).(decision_id) = req.(connection_id) ∧
  match (admit_request s i req).(verdict) with
  | Admit =>
      req.(original_dst_port) ∈ s.(redirected_ports) ∧
      ∃ host, req.(host_or_sni) = Some host ∧
        is_credential_proxy_real_target s.(allowlist) host req.(original_dst_port) = false ∧
        host_is_allowed s.(allowlist) host = true
  | Deny PortNotRedirected => req.(original_dst_port) ∉ s.(redirected_ports)
  | Deny ProxyTargetBypass =>
      req.(original_dst_port) ∈ s.(redirected_ports) ∧
      is_credential_proxy_real_target s.(allowlist) (default req.(original_dst_ip) req.(host_or_sni))
        req.(original_dst_port) = true
  | Deny HostNotInAllowlist =>
      req.(original_dst_port) ∈ s.(redirected_ports) ∧
      is_credential_proxy_real_target s.(allowlist) (default req.(original_dst_ip) req.(host_or_sni))
        req.(original_dst_port) = false ∧
      ∀ host, req.(host_or_sni) = Some host → host_is_allowed s.(allowlist) host = false
  | Deny _ => False
  end.
Proof.
  unfold admit_request. case_bool_decide as Hp; [done |].
  destruct (is_credential_proxy_real_target _ _ _) eqn:Ht; [done |].
  destruct (protocol req), (host_or_sni req) as [h|] eqn:Eh; simpl;
    try (destruct (host_is_allowed _ h) eqn:Ea); simpl in *; split_and!; try done;
    try (by exists h); intros ? [= <-]; done.
Qed.

(** ** Transcripts *)

Section Transcript.
Context {S : Type} `{AdmissionService S} `{Codec ProxyAdmissionRequest} `{Codec ProxyAdmissionResponse}.
Variable service : S.
Variables (session_id : string) (initiative_id : option string).
Variable write_ok : list Output → bool.
Variable emit_ok : list Output → bool.
Variable clock : list Output → Z.

Definition answer_of (req : ProxyAdmissionRequest) (bytes : list byte) : Prop :=
  Admission.encode_frame (to_response (service_admit service session_id req)) = Ok bytes.

Definition verdict_row (req : ProxyAdmissionRequest) : AuditRow :=
  MkAuditRow (verdict_event session_id req (service_admit service session_id req).(verdict))
    (Some session_id) initiative_id.

(** What serving one request sends: its answer, then the row of its verdict, then
    possibly a stall report, for a denial only. *)
Inductive exchange (req : ProxyAdmissionRequest) : list Output → Prop :=
  | exchange_plain bytes :
      answer_of req bytes → exchange req [Response bytes; Audited (verdict_row req)]
  | exchange_stall bytes e reason :
      answer_of req bytes → (service_admit service session_id req).(verdict) = Deny reason →
      exchange req [Response bytes; Audited (verdict_row req);
        Audited (MkAuditRow (SessionEgressStallDetected e "tproxy") (Some session_id) initiative_id)].

Abbreviation serve := (serve_one service session_id initiative_id write_ok emit_ok clock).
Abbreviation loop := (run_admission_loop_with_context service session_id initiative_id write_ok emit_ok clock).

Lemma feed_tracker_outputs req v st :
  ∃ st' extra, feed_tracker session_id initiative_id emit_ok clock req v st = (Ok tt, st') ∧
    st'.(outputs) = st.(outputs) ++ extra ∧
    (extra = [] ∨ ∃ e reason, v = Deny reason ∧
       extra = [Audited (MkAuditRow (SessionEgressStallDetected e "tproxy") (Some session_id) initiative_id)]).
Proof.
  unfold feed_tracker. destruct (tracker st) as [t|], v as [|reason];
    try (exists st, []; rewrite app_nil_r; by auto).
  destruct (record_denial _ _ _) as [[|e] t']; simpl.
  - eexists _, []. rewrite app_nil_r. by auto.
  - unfold ignore_err, emit. simpl. destruct (emit_ok (outputs st)); simpl.
    + eexists _, _. split; [done |]. split; [done |]. right. by exists e, reason.
    + eexists _, []. rewrite app_nil_r. by auto.
Qed.

Lemma serve_one_transcript req st :
  match serve req st with
  | (Ok _, st') => ∃ chunk, exchange req chunk ∧ st'.(outputs) = st.(outputs) ++ chunk
  | (Err Audit, st') => ∃ bytes, answer_of req bytes ∧ st'.(outputs) = st.(outputs) ++ [Response bytes]
  | (Err OutOfFuel, _) => False
  | (Err _, st') => st' = st
  end.
Proof.
  unfold serve_one, lift_result, write_all, emit, mbind, se_bind.
  destruct (Admission.encode_frame _) as [bytes|e] eqn:Eb; simpl; [| done].
  destruct (write_ok (outputs st)); simpl; [| done].
  destruct (emit_ok _); simpl; [| by exists bytes].
  fold (verdict_row req). set (st2 := MkLoop _ _).
  destruct (feed_tracker_outputs req (service_admit service session_id req).(verdict) st2)
    as (st' & extra & E & Ho & Hx).
  unfold feed_tracker in E |- *. rewrite E. simpl in Ho. rewrite <-!app_assoc in Ho.
  eexists. split; [| exact Ho].
  destruct Hx as [->|(e & reason & Hv & ->)]; [by constructor | by econstructor].
Qed.

Lemma loop_transcript_from fuel input st :
  let '(r, st') := loop fuel input st in
  ∃ reqs chunks last,
    Forall2 exchange reqs chunks ∧ st'.(outputs) = st.(outputs) ++ concat chunks ++ last ∧
    match r with
    | Err Audit => ∃ req bytes, answer_of req bytes ∧ last = [Response bytes]
    | _ => last = []
    end.
Proof.
  revert input st. induction fuel as [|fuel IH]; intros input st.
  { exists [], [], []. simpl. rewrite app_nil_r. split_and!; by try constructor. }
  cbn [run_admission_loop_with_context]. unfold lift_result, mbind, se_bind.
  destruct (read_request input) as [[[req rest]|]|e] eqn:Er.
  - pose proof (serve_one_transcript req st) as Hs.
    destruct (serve req st) as [[[]|e] st1].
    + destruct Hs as (chunk & Hc & Ho). specialize (IH rest st1).
      destruct (loop fuel rest st1) as [r st'].
      destruct IH as (reqs & chunks & last & Hf & Ho' & Hl).
      exists (req :: reqs), (chunk :: chunks), last. split_and!; [by constructor | | done].
      simpl. by rewrite Ho', Ho, <-!app_assoc.
    + exists [], []. destruct e; try done.
      * subst st1. exists []. by rewrite app_nil_r.
      * subst st1. exists []. by rewrite app_nil_r.
      * destruct Hs as (bytes & Ha & Ho). exists [Response bytes]. split_and!; [done | done |]. eauto.
  - exists [], [], []. simpl. rewrite app_nil_r. split_and!; by try constructor.
  - exists [], [], []. simpl. rewrite app_nil_r. split_and!; [constructor | done |].
    destruct e; try done. exfalso. unfold read_request in Er. repeat case_match; try done.
    by destruct (Admission.decode_frame _) as [[]|].
Qed.

(** ** The end of the loop *)

Lemma read_exact_length n s u v : read_exact n s = (Some u, v) → length s = n + length v ∧ length u = n.
Proof.
  unfold read_exact. destruct (Nat.leb_spec n (length s)); [| done]. intros [= <- <-].
  rewrite length_take, length_drop. lia.
Qed.

Lemma read_request_shorter input req rest :
  read_request input = Ok (Some (req, rest)) → length rest + 4 ≤ length input.
Proof.
  unfold read_request. destruct (read_exact 4 input) as [[len_buf|] rest0] eqn:E1; [| done].
  apply read_exact_length in E1 as [E1 _]. case_match; [done |].
  destruct (read_exact _ rest0) as [[body|] rest'] eqn:E2; [| done].
  apply read_exact_length in E2 as [E2 _].
  destruct (Admission.decode_frame _) as [[v n]|]; [| done]. simpl. intros [= -> ->]. lia.
Qed.

Lemma loop_in_fuel fuel input st : length input < fuel → (loop fuel input st).1 ≠ Err OutOfFuel.
Proof.
  revert input st. induction fuel as [|fuel IH]; intros input st Hf; [lia |].
  cbn [run_admission_loop_with_context]. unfold lift_result, mbind, se_bind.
  destruct (read_request input) as [[[req rest]|]|e] eqn:Er; [| done |].
  - pose proof (serve_one_transcript req st) as Hs.
    destruct (serve req st) as [[[]|e] st1]; [| by destruct e].
    apply IH. apply read_request_shorter in Er. lia.
  - intros [= ->]. unfold read_request in Er. repeat case_match; try done.
    by destruct (Admission.decode_frame _) as [[]|].
Qed.
End Transcript.

Lemma read_request_frame `{Codec ProxyAdmissionResponse} `{LawfulCodec ProxyAdmissionRequest} req f rest :
  Admission.encode_frame req = Ok f → read_request (f ++ rest) = Ok (Some (req, rest)).
Proof.
  intros Hf. pose proof (decode_frame_app req f [] Hf) as Hd. rewrite app_nil_r in Hd.
  apply encode_frame_inv in Hf as (body & _ & Hlen & ->). unfold read_request.
  rewrite <-app_assoc, read_exact_app by apply be_bytes_length.
  rewrite be_value_bytes by (unfold Admission.MAX_FRAME_BYTES in Hlen; lia).
  rewrite (proj2 (Z.ltb_ge _ _)) by done. rewrite read_exact_app by lia. by rewrite Hd.
Qed.

(** ** Properties *)

(** A connection is admitted exactly when its port is one the firewall
    redirects, the traffic names a host, the policy allows that host and it is no
    credential proxy's target on that port.  The address dialled plays no part. *)
Theorem admit_iff s session_id req :
  (admit_request s session_id req).(verdict) = Admit ↔
  req.(original_dst_port) ∈ s.(redirected_ports) ∧
  ∃ host, req.(host_or_sni) = Some host ∧
    (∀ d, (d, req.(original_dst_port)) ∈ s.(allowlist).(credential_proxy_real_targets) → ¬ same_host d host) ∧
    ((∃ d, d ∈ s.(allowlist).(exact_hosts) ∧ same_host d host) ∨
     (∃ p, p ∈ s.(allowlist).(patterns) ∧ host_matches p (to_ascii_lowercase host))).
Proof.
  assert (∀ host, is_credential_proxy_real_target s.(allowlist) host req.(original_dst_port) = false ↔
            ∀ d, (d, req.(original_dst_port)) ∈ s.(allowlist).(credential_proxy_real_targets) →
                 ¬ same_host d host) as Ht.
  { intros host. rewrite <-not_true_iff_false, real_target_iff. naive_solver. }
  setoid_rewrite <-Ht. setoid_rewrite <-host_is_allowed_iff.
  pose proof (admit_cases s session_id req) as [_ Hc]. split.
  - intros E. by rewrite E in Hc.
  - intros (Hp & host & Hh & Htgt & Ha). rewrite Hh in Hc. unfold default in Hc. cbn [from_option id] in Hc.
    destruct (verdict _) as [|[]]; [done | | | done | done | done].
    + destruct Hc as (_ & _ & Hc). specialize (Hc host eq_refl). congruence.
    + destruct Hc as [_ Hc]. congruence.
Qed.

(** The loop serves the requests of a stream in order and ends well at its end,
    and a stream that ends inside a length prefix ends well too. *)
Theorem admission_loop_serves {S} `{AdmissionService S} `{LawfulCodec ProxyAdmissionRequest}
    `{Codec ProxyAdmissionResponse} (service : S) sid iid write_ok emit_ok clock reqs frames tail st :
  Forall2 (λ req f, Admission.encode_frame req = Ok f) reqs frames → length tail < 4 →
  run_admission_loop_with_context service sid iid write_ok emit_ok clock
    (Datatypes.S (length (concat frames ++ tail))) (concat frames ++ tail) st
  = for_each (serve_one service sid iid write_ok emit_ok clock) reqs st.
Proof.
  intros Hf Ht. set (fuel := Datatypes.S _).
  assert (length reqs < fuel) as Hfuel.
  { subst fuel. rewrite length_app. clear -Hf. induction Hf as [|req f reqs frames Hreq _ IH]; simpl in *; [lia |].
    apply encode_frame_inv in Hreq as (body & _ & _ & ->). rewrite !length_app, be_bytes_length. lia. }
  clearbody fuel. revert fuel Hfuel st. induction Hf as [|req f reqs frames Hreq _ IH]; intros [|fuel] Hfuel st;
    [simpl in Hfuel; lia | | simpl in Hfuel; lia |].
  - cbn [concat app run_admission_loop_with_context]. unfold read_request. by rewrite read_exact_short.
  - cbn [concat length] in *. rewrite <-app_assoc. cbn [run_admission_loop_with_context for_each].
    rewrite (read_request_frame req) by done. unfold lift_result at 1, mbind, se_bind.
    destruct (serve_one _ _ _ _ _ _ req st) as [[[]|e] st1]; [| done]. rewrite IH by lia. done.
Qed.


(** ** Witnesses *)

Definition demo_request : ProxyAdmissionRequest :=
  MkProxyRequest 1 "10.0.0.1" 443 (Some "api.example.com") Https.
Definition demo_service : PolicyAdmissionService :=
  new_service (MkEgressAllowlist [] ["*.example.com"] ∅).

(** One byte stands for the demo request; an answer is a byte of its own. *)
#[local] Instance demo_request_codec : Codec ProxyAdmissionRequest :=
  { encode_to_vec req := if bool_decide (req.(connection_id) = 1%Z ∧ req.(original_dst_ip) = "10.0.0.1" ∧
                             req.(original_dst_port) = 443%Z ∧ req.(host_or_sni) = Some "api.example.com" ∧
                             req.(protocol) = Https)
                         then Ok [NUL] else Err "other";
    decode_from_slice l := match l with [b] => Ok (demo_request, 1) | _ => Err "other" end }.
#[local] Instance demo_request_lawful : LawfulCodec ProxyAdmissionRequest.
Proof.
  intros [] b. unfold encode_to_vec, demo_request_codec. case_bool_decide as H; [| done].
  simpl in H. destruct_and! H. subst. by intros [= <-].
Qed.
#[local] Instance demo_response_codec : Codec ProxyAdmissionResponse :=
  { encode_to_vec r := Ok [match r with AdmitResponse _ => NUL | DenyResponse _ _ => byte_of 1 end];
    decode_from_slice _ := Err "unused" }.

Lemma admission_loop_serves_witness :
  let frame := be_bytes 4 1 ++ [NUL] in
  run_admission_loop_with_context demo_service "s" None (λ _, true) (λ _, true) (λ _, 0%Z)
    (Datatypes.S (length (concat [frame; frame] ++ [NUL]))) (concat [frame; frame] ++ [NUL]) (MkLoop [] None)
  = for_each (serve_one demo_service "s" None (λ _, true) (λ _, true) (λ _, 0%Z))
      [demo_request; demo_request] (MkLoop [] None).
Proof.
  apply (admission_loop_serves demo_service); [by repeat constructor | simpl; lia].
Defined.
