(* ===== verification/A3.v ===== *)
(** * Mediated connections and name resolution

    The requests a guest sends over its control channel.
    [crates/session-spawn/src/lib.rs] ([handle_a3_tproxy_request],
    [handle_a3_dns_request], the tunnel registry and the handshake) answers them
    for a running session; [kernel/src/handlers/tproxy_admit.rs] and
    [dns_resolve.rs] are the kernel handlers of the same messages, which identify
    the session by its token.  The two registries have the same code and are one
    definition.  An address is its canonical text; the audit sink refuses rows as
    [emit_ok] says; instants, the random token, the fresh identifier and the
    resolver's answer are inputs of each call. *)

From S2P Require Import Prelude Bytes Fsm Store Session Policy Hosts StallTracker Wire Egress.

(** ** Messages *)

Inductive IpAddr := V4 (text : string) | V6 (text : string).
#[export] Instance IpAddr_eq_dec : EqDecision IpAddr.
Proof. solve_decision. Defined.
Definition ip_to_string (a : IpAddr) : string := match a with V4 s | V6 s => s end.
Record SocketAddr := MkAddr { ip : IpAddr; port : Z }.

Inductive TproxyProtocol := ProtoTcp | ProtoTls | ProtoHttp.
Definition tproxy_protocol_as_str (p : TproxyProtocol) : string :=
  match p with ProtoTcp => "tcp" | ProtoTls => "https" | ProtoHttp => "http" end.

Record TproxyAdmissionRequest := MkTproxyRequest {
  request_id : Uuid;
  session_token : string;
  sni : option string;
  host_header : option string;
  destination : SocketAddr;
  tproxy_protocol : TproxyProtocol;
}.

Inductive TproxyAdmissionResponse :=
  | TunnelAdmit (request_id tunnel_id : Uuid) (tunnel_token : list byte)
  | TunnelDeny (request_id : Uuid) (reason : string) (hint : option string).

Inductive DnsQueryType := QueryA | QueryAaaa.
#[export] Instance DnsQueryType_eq_dec : EqDecision DnsQueryType.
Proof. solve_decision. Defined.
Record DnsResolveRequest := MkDnsRequest {
  dns_request_id : Uuid;
  dns_session_token : string;
  hostname : string;
  query_type : DnsQueryType;
}.
Record DnsResolveResponse := MkDnsResponse {
  dns_response_id : Uuid;
  addresses : list IpAddr;
  ttl_secs : Z;
}.

(** ** The tunnel registry *)

Record RegisteredTunnel := MkTunnel {
  tunnel_destination : SocketAddr;
  tunnel_token : list byte;
  tunnel_session_id : string;
  tunnel_host_or_sni : option string;
}.
Record StoredTunnel := MkStoredTunnel { registered_at : Z; stored_tunnel : RegisteredTunnel }.
Abbreviation TunnelRegistry := (gmap Uuid StoredTunnel).

Definition TUNNEL_REGISTRY_TTL : Z := 30 * NANOS_PER_SEC.

Definition prune_expired_tunnels (by_id : TunnelRegistry) (now : Z) : TunnelRegistry :=
  filter (λ kv, duration_since now kv.2.(registered_at) ≤ TUNNEL_REGISTRY_TTL)%Z by_id.

(** [tunnel_id] is the fresh UUID; the clock is read for the pruning and again for
    the entry. *)
Definition register (tunnel_id : Uuid) (pruned_at stored_at : Z) (tunnel : RegisteredTunnel)
    (by_id : TunnelRegistry) : TunnelRegistry :=
  <[tunnel_id := MkStoredTunnel stored_at tunnel]> (prune_expired_tunnels by_id pruned_at).

Definition consume (tunnel_id : Uuid) (token : list byte) (now : Z) (by_id : TunnelRegistry)
    : option RegisteredTunnel * TunnelRegistry :=
  let by_id := prune_expired_tunnels by_id now in
  match by_id !! tunnel_id with
  | None => (None, by_id)
  | Some entry =>
      (if bool_decide (entry.(stored_tunnel).(tunnel_token) = token) then Some entry.(stored_tunnel) else None,
       delete tunnel_id by_id)
  end.

(** The 48 bytes of a handshake: the identifier and the token. *)
Definition handle_a3_tunnel_handshake (handshake : list byte) (now : Z) (by_id : TunnelRegistry)
    : option RegisteredTunnel * TunnelRegistry :=
  match read_exact 48 handshake with
  | (None, _) => (None, by_id)
  | (Some h, _) => consume (take 16 h) (take 32 (drop 16 h)) now by_id
  end.

(** ** Audit rows *)

Inductive A3Kind :=
  | TproxyAdmissionDenied (session_id : string) (host : option string) (ip : string) (port : Z)
      (protocol reason : string)
  | TproxyAdmissionGranted (session_id : string) (host : option string) (ip : string) (port : Z)
      (protocol : string) (tunnel_id : Uuid)
  | DnsResolveRequested (session_id hostname query_type : string) (resolved_count ttl_secs : Z).
Record A3Row := MkA3Row {
  row_kind : A3Kind;
  row_session : option string;
  row_initiative : option string;
}.

Record A3State := MkA3 { registry : TunnelRegistry; trail : list A3Row }.

Definition session_anchor (session_id : string) : option string :=
  if String.eqb session_id "" then None else Some session_id.

(** What one request finds: the random bytes, unless the generator fails, a fresh
    identifier, and the instants at which the registry is used. *)
Record Draws := MkDraws {
  rng : option (list byte);
  fresh_id : Uuid;
  pruned_at : Z;
  stored_at : Z;
  undone_at : Z;
}.

Section Emit.
Variable emit_ok : list A3Row → bool.

(** [audit.emit(..).is_ok()] *)
Definition emit_row (row : A3Row) (st : A3State) : bool * A3State :=
  if emit_ok st.(trail) then (true, MkA3 st.(registry) (st.(trail) ++ [row])) else (false, st).

Definition a3_host_or_sni_for_audit (req : TproxyAdmissionRequest) : option string :=
  match req.(sni) with Some s => Some s | None => req.(host_header) end.

Definition a3_emit_denied_audit (session_id : string) (initiative_id : option string)
    (req : TproxyAdmissionRequest) (reason : string) : A3State → bool * A3State :=
  emit_row (MkA3Row
    (TproxyAdmissionDenied session_id (a3_host_or_sni_for_audit req) (ip_to_string req.(destination).(ip))
       req.(destination).(port) (tproxy_protocol_as_str req.(tproxy_protocol)) reason)
    (session_anchor session_id) initiative_id).

Definition granted_row (session_id : string) (initiative_id : option string)
    (req : TproxyAdmissionRequest) (host : option string) (tunnel_id : Uuid) : A3Row :=
  MkA3Row
    (TproxyAdmissionGranted session_id host (ip_to_string req.(destination).(ip))
       req.(destination).(port) (tproxy_protocol_as_str req.(tproxy_protocol)) tunnel_id)
    (Some session_id) initiative_id.
Definition a3_emit_granted_audit (session_id : string) (initiative_id : option string)
    (req : TproxyAdmissionRequest) (host : option string) (tunnel_id : Uuid) : A3State → bool * A3State :=
  emit_row (granted_row session_id initiative_id req host tunnel_id).

(** ** The sessions' channel *)

Definition a3_session_is_active (store : option Db) (now : Z) (session_id : string) : bool :=
  match store with
  | None => true
  | Some d =>
      match d.(sessions) !! session_id with
      | Some r => negb r.(sess_revoked) && (now <? r.(sess_expires_at))%Z
      | None => false
      end
  end.

(** The first eight bytes of the request's identifier. *)
Definition a3_connection_id (request_id : Uuid) : Z := be_value (take 8 request_id).
Definition a3_protocol (p : TproxyProtocol) : AdmissionProtocol :=
  match p with ProtoTcp => Tcp | ProtoTls => Https | ProtoHttp => Http end.

Definition a3_hint_for_denied_host (host : option string) : option string :=
  match host with
  | Some h =>
      if String.eqb h "" then None
      else Some ("add `" +:+ h +:+ "` (or a matching `*.<suffix>` pattern) to "
                 +:+ "policy `[egress] domains` / `[egress] patterns`")
  | None => None
  end.

Definition proxy_request (req : TproxyAdmissionRequest) : ProxyAdmissionRequest :=
  MkProxyRequest (a3_connection_id req.(request_id)) (ip_to_string req.(destination).(ip))
    req.(destination).(port) (a3_host_or_sni_for_audit req) (a3_protocol req.(tproxy_protocol)).

Definition tunnel_for (session_id : string) (req : TproxyAdmissionRequest) (token : list byte)
    : RegisteredTunnel :=
  MkTunnel req.(destination) token session_id (a3_host_or_sni_for_audit req).

Definition handle_a3_tproxy_request {S} `{AdmissionService S} (admission_service : S) (active : bool)
    (session_id initiative_id : string) (req : TproxyAdmissionRequest) (draws : Draws) (st : A3State)
    : TproxyAdmissionResponse * A3State :=
  let deny reason hint := TunnelDeny req.(request_id) reason hint in
  if negb active then
    let '(_, st) := a3_emit_denied_audit "" None req "FAIL_SESSION_INACTIVE" st in
    (deny "FAIL_SESSION_INACTIVE" None, st)
  else
    let proxy_req := proxy_request req in
    match (service_admit admission_service session_id proxy_req).(verdict) with
    | Deny reason =>
        let '(ok, st) := a3_emit_denied_audit session_id (Some initiative_id) req (deny_reason_as_str reason) st in
        if negb ok then (deny "FAIL_AUDIT_EMIT" None, st)
        else (deny (deny_reason_as_str reason) (a3_hint_for_denied_host proxy_req.(host_or_sni)), st)
    | Admit =>
        match draws.(rng) with
        | None =>
            let '(_, st) := a3_emit_denied_audit session_id (Some initiative_id) req "protocol_not_permitted" st in
            (deny "protocol_not_permitted" None, st)
        | Some token =>
            let host := a3_host_or_sni_for_audit req in
            let st := MkA3 (register draws.(fresh_id) draws.(pruned_at) draws.(stored_at)
                              (tunnel_for session_id req token) st.(registry)) st.(trail) in
            let '(ok, st) := a3_emit_granted_audit session_id (Some initiative_id) req host draws.(fresh_id) st in
            if negb ok then
              (deny "FAIL_AUDIT_EMIT" None,
               MkA3 (consume draws.(fresh_id) token draws.(undone_at) st.(registry)).2 st.(trail))
            else (TunnelAdmit req.(request_id) draws.(fresh_id) token, st)
        end
    end.

(** ** The kernel's handler of the same message *)

Definition hint_for_denied_host (host : option string) : string :=
  let raw := "raw TCP without SNI or Host header is denied; declare a credential proxy for the upstream" in
  match host with
  | Some h =>
      if String.eqb h "" then raw
      else "add `" +:+ h +:+ "` (or a matching `*.<suffix>` pattern) to "
           +:+ "policy `[egress] domains` / `[egress] patterns`"
  | None => raw
  end.

(** Step 2: the policy lookup. *)
Definition host_permitted (ps : list ProviderEntry) (e : EgressSection) (req : TproxyAdmissionRequest) : bool :=
  match req.(tproxy_protocol), a3_host_or_sni_for_audit req with
  | ProtoTcp, None => false
  | _, Some host =>
      host_allowed_against_lists host (effective_egress_domains ps e) (effective_egress_patterns e)
  | _, None => false
  end.

Definition tproxy_handle (d : Db) (now : Z) (ps : list ProviderEntry) (e : EgressSection)
    (req : TproxyAdmissionRequest) (draws : Draws) (st : A3State) : TproxyAdmissionResponse * A3State :=
  let deny reason hint := TunnelDeny req.(request_id) reason hint in
  match (get_active_session_by_token now req.(session_token) d).1 with
  | Err _ =>
      let '(_, st) := a3_emit_denied_audit "" None req "FAIL_SESSION_TOKEN_MISMATCH" st in
      (deny "FAIL_SESSION_TOKEN_MISMATCH" None, st)
  | Ok session =>
      let sid := session.(sr_session_id) in
      let host := a3_host_or_sni_for_audit req in
      if negb (host_permitted ps e req) then
        let '(ok, st) := a3_emit_denied_audit sid None req "host_not_in_allowlist" st in
        if negb ok then (deny "FAIL_AUDIT_EMIT" None, st)
        else (deny "host_not_in_allowlist" (Some (hint_for_denied_host host)), st)
      else
        match draws.(rng) with
        | None =>
            let '(_, st) := a3_emit_denied_audit sid None req "protocol_not_permitted" st in
            (deny "protocol_not_permitted" None, st)
        | Some token =>
            let st := MkA3 (register draws.(fresh_id) draws.(pruned_at) draws.(stored_at)
                              (tunnel_for sid req token) st.(registry)) st.(trail) in
            let '(ok, st) := a3_emit_granted_audit sid None req host draws.(fresh_id) st in
            if negb ok then
              (deny "FAIL_AUDIT_EMIT" None,
               MkA3 (consume draws.(fresh_id) token draws.(undone_at) st.(registry)).2 st.(trail))
            else (TunnelAdmit req.(request_id) draws.(fresh_id) token, st)
        end
  end.

(** ** Name resolution *)

Definition DNS_DEFAULT_TTL_SECS : Z := 60.
Definition DNS_NEGATIVE_TTL_SECS : Z := 5.
Definition MAX_HOSTNAME_LEN : nat := 255.

Definition query_type_as_str (q : DnsQueryType) : string :=
  match q with QueryA => "A" | QueryAaaa => "AAAA" end.
Definition query_type_matches (q : DnsQueryType) (a : IpAddr) : bool :=
  match q, a with
  | QueryA, V4 _ | QueryAaaa, V6 _ => true
  | _, _ => false
  end.

(** The answer is returned whether or not its row is recorded. *)
Definition dns_audit_and_return (session_id : string) (initiative_id : option string)
    (req : DnsResolveRequest) (addresses : list IpAddr) (ttl : Z) (st : A3State)
    : DnsResolveResponse * A3State :=
  let row := MkA3Row
    (DnsResolveRequested session_id req.(hostname) (query_type_as_str req.(query_type))
       (Z.of_nat (length addresses) mod 2^32) ttl)
    (session_anchor session_id) initiative_id in
  (MkDnsResponse req.(dns_request_id) addresses ttl, (emit_row row st).2).

Definition bad_hostname (h : string) : bool :=
  String.eqb h "" || (MAX_HOSTNAME_LEN <? String.length h).

(** [lookup] is the resolver's answer within its deadline: [None] is a failure or
    a timeout. *)
Definition resolved (req : DnsResolveRequest) (lookup : option (list IpAddr)) : list IpAddr :=
  match lookup with
  | Some l => filter (λ a, query_type_matches req.(query_type) a = true) l
  | None => []
  end.
Definition ttl_for (l : list IpAddr) : Z :=
  match l with [] => DNS_NEGATIVE_TTL_SECS | _ => DNS_DEFAULT_TTL_SECS end.

Definition handle_a3_dns_request (active : bool) (session_id initiative_id : string)
    (lookup : string → option (list IpAddr)) (req : DnsResolveRequest) (st : A3State)
    : DnsResolveResponse * A3State :=
  let audit_session := if active then session_id else "" in
  if negb active || bad_hostname req.(hostname) then
    dns_audit_and_return audit_session (if active then Some initiative_id else None) req []
      DNS_NEGATIVE_TTL_SECS st
  else
    let addrs := resolved req (lookup (req.(hostname) +:+ ":0")) in
    dns_audit_and_return audit_session (Some initiative_id) req addrs (ttl_for addrs) st.

Definition dns_handle (d : Db) (now : Z) (lookup : string → option (list IpAddr))
    (req : DnsResolveRequest) (st : A3State) : DnsResolveResponse * A3State :=
  if bad_hostname req.(hostname) then dns_audit_and_return "" None req [] DNS_NEGATIVE_TTL_SECS st
  else match (get_active_session_by_token now req.(dns_session_token) d).1 with
       | Err _ => dns_audit_and_return "" None req [] DNS_NEGATIVE_TTL_SECS st
       | Ok session =>
           let addrs := resolved req (lookup (req.(hostname) +:+ ":0")) in
           dns_audit_and_return session.(sr_session_id) None req addrs (ttl_for addrs) st
       end.
End Emit.

(** ** The registry *)

Lemma pruned_lookup by_id now id s :
  prune_expired_tunnels by_id now !! id = Some s ↔
  by_id !! id = Some s ∧ (duration_since now s.(registered_at) ≤ TUNNEL_REGISTRY_TTL)%Z.
Proof. apply map_lookup_filter_Some. Qed.

Lemma pruned_subseteq by_id now : prune_expired_tunnels by_id now ⊆ by_id.
Proof. apply map_filter_subseteq. Qed.

Lemma consume_spec id token now by_id :
  (consume id token now by_id).2 = delete id (prune_expired_tunnels by_id now) ∧
  ∀ t, (consume id token now by_id).1 = Some t ↔
       ∃ s, by_id !! id = Some s ∧ (duration_since now s.(registered_at) ≤ TUNNEL_REGISTRY_TTL)%Z ∧
            s.(stored_tunnel) = t ∧ t.(tunnel_token) = token.
Proof.
  unfold consume. destruct (prune_expired_tunnels by_id now !! id) as [s|] eqn:E; cbn [fst snd].
  - apply pruned_lookup in E as E'. split; [done |]. intros t. case_bool_decide; split.
    + intros [= <-]. exists s. naive_solver.
    + intros (s' & Hs & _ & <- & _). naive_solver.
    + done.
    + intros (s' & Hs & _ & <- & Ht). naive_solver.
  - split; [by rewrite delete_id |]. intros t. split; [done |].
    intros (s & Hs & Hd & _). by rewrite (proj2 (pruned_lookup _ _ _ _) (conj Hs Hd)) in E.
Qed.

(** A handshake takes its entry out whatever the token. *)
Lemma consume_removes id token now by_id :
  (consume id token now by_id).2 !! id = None ∧ (consume id token now by_id).2 ⊆ by_id.
Proof.
  destruct (consume_spec id token now by_id) as [-> _]. split; [apply lookup_delete_eq |].
  etrans; [apply delete_subseteq | apply pruned_subseteq].
Qed.

Section Answers.
Variable emit_ok : list A3Row → bool.
Context {S : Type} `{AdmissionService S} (service : S).

Lemma emit_row_registry row st : (emit_row emit_ok row st).2.(registry) = st.(registry).
Proof. unfold emit_row. by case_match. Qed.

Lemma emit_row_trail row st :
  (emit_row emit_ok row st).2.(trail)
  = st.(trail) ++ (if (emit_row emit_ok row st).1 then [row] else []).
Proof. unfold emit_row. case_match; simpl; by rewrite ?app_nil_r. Qed.

Lemma emit_row_ok row st : (emit_row emit_ok row st).1 = emit_ok st.(trail).
Proof. unfold emit_row. by case_match. Qed.

(** What an answer leaves behind. *)
Definition granted_state (sid iid : string) (req : TproxyAdmissionRequest) (draws : Draws)
    (token : list byte) (st : A3State) : A3State :=
  MkA3 (register draws.(fresh_id) draws.(pruned_at) draws.(stored_at) (tunnel_for sid req token) st.(registry))
    (st.(trail) ++ [granted_row sid (Some iid) req (a3_host_or_sni_for_audit req) draws.(fresh_id)]).

Lemma a3_request_cases active sid iid req draws st :
  let '(resp, st') := handle_a3_tproxy_request emit_ok service active sid iid req draws st in
  match resp with
  | TunnelAdmit rid id token =>
      rid = req.(request_id) ∧ id = draws.(fresh_id) ∧ active = true ∧
      (service_admit service sid (proxy_request req)).(verdict) = Admit ∧
      draws.(rng) = Some token ∧ emit_ok st.(trail) = true ∧
      st' = granted_state sid iid req draws token st
  | TunnelDeny rid reason _ =>
      rid = req.(request_id) ∧
      (active = false ∨ (service_admit service sid (proxy_request req)).(verdict) ≠ Admit ∨
       draws.(rng) = None ∨ emit_ok st.(trail) = false) ∧
      st'.(registry) ⊆ st.(registry) ∧
      ∃ rows, st'.(trail) = st.(trail) ++ rows ∧
              rows = (if emit_ok st.(trail) then
                        [MkA3Row (TproxyAdmissionDenied (if active then sid else "")
                                    (a3_host_or_sni_for_audit req) (ip_to_string req.(destination).(ip))
                                    req.(destination).(port) (tproxy_protocol_as_str req.(tproxy_protocol)) reason)
                           (if active then session_anchor sid else None) (if active then Some iid else None)]
                      else [])
  end.
Proof.
  unfold handle_a3_tproxy_request, a3_emit_denied_audit, a3_emit_granted_audit, emit_row, granted_state.
  destruct active; cbn [negb]; [| destruct (emit_ok (trail st)); simpl; split_and!; try done; auto;
    eexists; split; try done; by rewrite app_nil_r].
  destruct (verdict _) as [|reason].
  2: { destruct (emit_ok (trail st)); simpl; split_and!; try done; auto;
       eexists; split; try done; by rewrite app_nil_r. }
  destruct (rng draws) as [token|].
  2: { destruct (emit_ok (trail st)); simpl; split_and!; try done; auto;
       eexists; split; try done; by rewrite app_nil_r. }
  cbn [trail registry]. destruct (emit_ok (trail st)) eqn:Ee; cbn [negb]; [done |].
  split_and!; try done; [by auto | | exists []; by rewrite app_nil_r].
  cbn [registry]. destruct (consume_spec draws.(fresh_id) token draws.(undone_at)
    (register draws.(fresh_id) draws.(pruned_at) draws.(stored_at) (tunnel_for sid req token) st.(registry)))
    as [-> _].
  apply map_subseteq_spec. intros k s [Hne Hk]%lookup_delete_Some.
  apply pruned_lookup in Hk as [Hk _]. unfold register in Hk. rewrite lookup_insert_ne in Hk by done.
  by apply pruned_lookup in Hk as [Hk _].
Qed.
End Answers.

(** ** Runs of one session's channels *)

Inductive A3Op :=
  | Ask (active : bool) (req : TproxyAdmissionRequest) (draws : Draws)
  | Handshake (bytes : list byte) (now : Z).

(** A granted request with the token it was given, and a claim with its instant. *)
Record Grant := MkGrantOf { grant_req : TproxyAdmissionRequest; grant_draws : Draws; grant_token : list byte }.
Record Claim := MkClaimOf { claim_id : Uuid; claim_at : Z; claim_tunnel : RegisteredTunnel }.

Record A3Run := MkRun { a3 : A3State; grants : list Grant; claims : list Claim }.

Definition fresh_ids (ops : list A3Op) : list Uuid :=
  flat_map (λ op, match op with Ask _ _ draws => [draws.(fresh_id)] | Handshake _ _ => [] end) ops.

Section Runs.
Variable emit_ok : list A3Row → bool.
Context {S : Type} `{AdmissionService S} (service : S).
Variables (sid iid : string).

Definition a3_step (r : A3Run) (op : A3Op) : A3Run :=
  match op with
  | Ask active req draws =>
      let '(resp, st) := handle_a3_tproxy_request emit_ok service active sid iid req draws r.(a3) in
      MkRun st
        (r.(grants) ++ match resp with TunnelAdmit _ _ token => [MkGrantOf req draws token] | _ => [] end)
        r.(claims)
  | Handshake bytes now =>
      let '(o, reg) := handle_a3_tunnel_handshake bytes now r.(a3).(registry) in
      MkRun (MkA3 reg r.(a3).(trail)) r.(grants)
        (r.(claims) ++ match o with Some t => [MkClaimOf (take 16 (take 48 bytes)) now t] | None => [] end)
  end.
Definition a3_start : A3Run := MkRun (MkA3 ∅ []) [] [].
Definition run_a3 (ops : list A3Op) : A3Run := foldl a3_step a3_start ops.

(** A tunnel that some grant of the run accounts for. *)
Record backed (r : A3Run) (id : Uuid) (at_ : Z) (t : RegisteredTunnel) (g : Grant) : Prop := {
  backed_in : g ∈ r.(grants);
  backed_id : g.(grant_draws).(fresh_id) = id;
  backed_at : g.(grant_draws).(stored_at) = at_;
  backed_tunnel : t = tunnel_for sid g.(grant_req) g.(grant_token);
  backed_audit : granted_row sid (Some iid) g.(grant_req) (a3_host_or_sni_for_audit g.(grant_req)) id
                   ∈ r.(a3).(trail);
  backed_verdict : (service_admit service sid (proxy_request g.(grant_req))).(verdict) = Admit;
}.

Record a3_inv (used : list Uuid) (r : A3Run) : Prop := {
  inv_registry id s : r.(a3).(registry) !! id = Some s →
    id ∈ used ∧ ∃ g, backed r id s.(registered_at) s.(stored_tunnel) g;
  inv_claims c : c ∈ r.(claims) →
    c.(claim_id) ∈ used ∧ r.(a3).(registry) !! c.(claim_id) = None ∧
    ∃ g at_, backed r c.(claim_id) at_ c.(claim_tunnel) g ∧
             (duration_since c.(claim_at) at_ ≤ TUNNEL_REGISTRY_TTL)%Z;
  inv_once : NoDup (claim_id <$> r.(claims));
}.

Lemma backed_mono r r' id at_ t g :
  backed r id at_ t g → r.(grants) ⊆ r'.(grants) → r.(a3).(trail) ⊆ r'.(a3).(trail) →
  backed r' id at_ t g.
Proof. intros [] Hg Ht. split; auto. Qed.

Lemma a3_inv_ask used r active req draws :
  a3_inv used r → draws.(fresh_id) ∉ used →
  a3_inv (used ++ [draws.(fresh_id)]) (a3_step r (Ask active req draws)).
Proof.
  intros Hi Hfresh. pose proof (a3_request_cases emit_ok service active sid iid req draws r.(a3)) as Hc.
  unfold a3_step. destruct (handle_a3_tproxy_request _ _ _ _ _ _ _ _) as [resp st'].
  destruct resp as [rid id token|rid reason hint].
  - destruct Hc as (_ & -> & _ & Hv & _ & _ & ->).
    set (r' := MkRun _ _ _).
    assert (∀ id at_ t g, backed r id at_ t g → backed r' id at_ t g) as Hm.
    { intros ? ? ? ? Hb. eapply backed_mono; [exact Hb | set_solver | set_solver]. }
    split; simpl; [| | apply Hi].
    + intros id s. unfold register. rewrite lookup_insert_Some. intros [[<- <-]|[Hne Hs]].
      * split; [set_solver |]. exists (MkGrantOf req draws token). split; simpl; try done; set_solver.
      * apply pruned_lookup in Hs as [Hs _]. apply (inv_registry _ _ Hi) in Hs as [Hu [g Hg]].
        split; [set_solver |]. eauto.
    + intros c Hin. apply (inv_claims _ _ Hi) in Hin as (Hu & Hr & g & at_ & Hb & Ht).
      split_and!; [set_solver | | eauto]. unfold register. rewrite lookup_insert_ne by congruence.
      eapply lookup_weaken_None; [exact Hr | apply pruned_subseteq].
  - destruct Hc as (_ & _ & Hsub & rows & Ht & _). rewrite app_nil_r. set (r' := MkRun _ _ _).
    assert (∀ id at_ t g, backed r id at_ t g → backed r' id at_ t g) as Hm.
    { intros ? ? ? ? Hb. eapply backed_mono; [exact Hb | set_solver |]. simpl. rewrite Ht. set_solver. }
    split; simpl; [| | apply Hi].
    + intros id s Hs. eapply lookup_weaken in Hs; [| exact Hsub].
      apply (inv_registry _ _ Hi) in Hs as [Hu [g Hg]]. split; [set_solver |]. eauto.
    + intros c Hin. apply (inv_claims _ _ Hi) in Hin as (Hu & Hr & g & at_ & Hb & Hd).
      split_and!; [set_solver | by eapply lookup_weaken_None | eauto].
Qed.

Lemma a3_inv_handshake used r bytes now :
  a3_inv used r → a3_inv used (a3_step r (Handshake bytes now)).
Proof.
  intros Hi. unfold a3_step, handle_a3_tunnel_handshake. unfold read_exact.
  destruct (48 <=? length bytes); cbn [fst snd].
  2: { rewrite app_nil_r. destruct r as [[reg tr] g c]. exact Hi. }
  set (id := take 16 (take 48 bytes)). set (token := take 32 _).
  destruct (consume_spec id token now r.(a3).(registry)) as [_ Hs].
  destruct (consume_removes id token now r.(a3).(registry)) as [Hnone Hsub].
  destruct (consume id token now r.(a3).(registry)) as [o reg]. cbn [fst snd] in *.
  set (r' := MkRun _ _ _).
  assert (∀ id at_ t g, backed r id at_ t g → backed r' id at_ t g) as Hm.
  { intros ? ? ? ? Hb. eapply backed_mono; [exact Hb | set_solver | set_solver]. }
  assert (∀ c, c ∈ r.(claims) → c.(claim_id) ∈ used ∧ reg !! c.(claim_id) = None ∧
    ∃ g at_, backed r' c.(claim_id) at_ c.(claim_tunnel) g ∧
             (duration_since c.(claim_at) at_ ≤ TUNNEL_REGISTRY_TTL)%Z) as Hold.
  { intros c Hin. apply (inv_claims _ _ Hi) in Hin as (Hu & Hr & g & at_ & Hb & Hd).
    split_and!; [done | by eapply lookup_weaken_None | eauto]. }
  split; simpl.
  - intros k s Hk. eapply lookup_weaken in Hk; [| exact Hsub].
    apply (inv_registry _ _ Hi) in Hk as [Hu [g Hg]]. eauto.
  - intros c [Hin|Hin]%elem_of_app; [by apply Hold |].
    destruct o as [t|]; [| by apply elem_of_nil in Hin]. apply list_elem_of_singleton in Hin as ->. simpl.
    destruct (proj1 (Hs t) eq_refl) as (s & Hk & Hd & <- & _).
    apply (inv_registry _ _ Hi) in Hk as [Hu [g Hg]]. split_and!; [done | done | eauto].
  - rewrite fmap_app. destruct o as [t|]; [| rewrite app_nil_r; apply Hi].
    apply NoDup_app. split_and!; [apply Hi | | apply NoDup_singleton].
    intros k (c & -> & Hin)%list_elem_of_fmap Hk%list_elem_of_singleton. simpl in Hk.
    destruct (proj1 (Hs t) eq_refl) as (s & Hk' & _). apply (inv_claims _ _ Hi) in Hin as (_ & Hn & _).
    rewrite Hk in Hn. fold id in Hn. congruence.
Qed.

Lemma run_a3_inv ops : NoDup (fresh_ids ops) → a3_inv (fresh_ids ops) (run_a3 ops).
Proof.
  induction ops as [|op ops IH] using rev_ind; intros Hnd.
  { split; simpl; [intros ? ? Hl; by rewrite lookup_empty in Hl | intros c Hc; by apply elem_of_nil in Hc | constructor]. }
  unfold run_a3, fresh_ids in *. rewrite foldl_app, flat_map_app in *. simpl in *.
  apply NoDup_app in Hnd as (Hnd & Hdis & _). specialize (IH Hnd).
  destruct op as [active req draws|bytes now]; simpl.
  - apply a3_inv_ask; [done |]. intros Hin. apply (Hdis _ Hin). set_solver.
  - rewrite app_nil_r. by apply a3_inv_handshake.
Qed.
End Runs.

(** ** Properties *)


(** A request is admitted exactly when the session is active, the service
    admits it, a token could be drawn and the grant is on the audit trail; a
    refused request leaves no entry in the registry, and its row is recorded
    exactly when the sink takes it. *)
Theorem a3_admission_exact {S} `{AdmissionService S} emit_ok (service : S) active sid iid req draws st :
  let '(resp, st') := handle_a3_tproxy_request emit_ok service active sid iid req draws st in
  ((∃ id token, resp = TunnelAdmit req.(request_id) id token) ↔
   active = true ∧ (service_admit service sid (proxy_request req)).(verdict) = Admit ∧
   is_Some draws.(rng) ∧ emit_ok st.(trail) = true) ∧
  (∀ id token, resp = TunnelAdmit req.(request_id) id token →
     st' = granted_state sid iid req draws token st ∧ id = draws.(fresh_id) ∧ draws.(rng) = Some token) ∧
  (∀ reason hint, resp = TunnelDeny req.(request_id) reason hint →
     st'.(registry) ⊆ st.(registry) ∧
     length st'.(trail) = length st.(trail) + (if emit_ok st.(trail) then 1 else 0)).
Proof.
  pose proof (a3_request_cases emit_ok service active sid iid req draws st) as Hc.
  destruct (handle_a3_tproxy_request _ _ _ _ _ _ _ _) as [[rid id token|rid reason hint] st'].
  - destruct Hc as (-> & -> & Ha & Hv & Hr & He & ->). split_and!; [| | done].
    + split; [intros _ | intros _; by eauto]. rewrite Hr. by eauto.
    + by intros id tok [= <- <-].
  - destruct Hc as (-> & Hno & Hsub & rows & Ht & Hrows). split_and!; [| done |].
    + split; [by intros (? & ? & ?) |]. intros (Ha & Hv & [tok Hr] & He).
      destruct Hno as [?|[?|[?|?]]]; congruence.
    + intros _ _ _. split; [done |]. rewrite Ht, length_app, Hrows. f_equal. by case_match.
Qed.

(** The kernel's handler and the session's handler decide alike on the host;
    the latter also wants a redirected port. *)
Theorem kernel_and_a3_agree ps e sid req :
  (admit_request (new_service (session_allowlist ps e)) sid (proxy_request req)).(verdict) = Admit ↔
  req.(destination).(port) ∈ default_redirected_ports ∧ host_permitted ps e req = true.
Proof.
  unfold admit_request, host_permitted. cbn [allowlist redirected_ports new_service proxy_request
    original_dst_port host_or_sni original_dst_ip protocol].
  assert (∀ h p, is_credential_proxy_real_target (session_allowlist ps e) h p = false) as Ht.
  { intros h p. apply not_true_iff_false. rewrite real_target_iff. intros (d & Hd & _). set_solver. }
  rewrite Ht. case_bool_decide as Hp; [split; [done | by intros [? _]] |].
  change (host_is_allowed (session_allowlist ps e)) with
    (λ h, host_allowed_against_lists h (effective_egress_domains ps e) (effective_egress_patterns e)).
  destruct (tproxy_protocol req), (a3_host_or_sni_for_audit req) as [h|]; simpl;
    try destruct (host_allowed_against_lists _ _ _); simpl; split; try done; by intros [_ ?].
Qed.

(** A refusal of an unknown session, or for want of random bytes, is answered
    under its own reason also when its audit row could not be written. *)
Theorem unrecorded_refusals emit_ok d now ps e req draws st :
  emit_ok st.(trail) = false →
  (∀ session, (get_active_session_by_token now req.(session_token) d).1 = Ok session →
     host_permitted ps e req = true ∧ draws.(rng) = None) →
  ∃ reason, reason ≠ "FAIL_AUDIT_EMIT" ∧
    tproxy_handle emit_ok d now ps e req draws st = (TunnelDeny req.(request_id) reason None, st).
Proof.
  intros He Hs. unfold tproxy_handle, a3_emit_denied_audit, emit_row. rewrite He.
  destruct (get_active_session_by_token _ _ _).1 as [session|err].
  - destruct (Hs session eq_refl) as [-> ->]. cbn [negb]. eexists. split; [| reflexivity]. discriminate.
  - eexists. split; [| reflexivity]. discriminate.
Qed.

(** A name is resolved only for an active session and a name of admissible
    length; the answer holds addresses of the family asked for, all those the
    resolver gave, with the long lifetime exactly when there is one, and its row
    counts them. *)
Theorem dns_answer_exact emit_ok active sid iid lookup req st :
  let '(resp, st') := handle_a3_dns_request emit_ok active sid iid lookup req st in
  resp.(dns_response_id) = req.(dns_request_id) ∧
  (∀ a, a ∈ resp.(addresses) ↔
     active = true ∧ req.(hostname) ≠ "" ∧ String.length req.(hostname) ≤ 255 ∧
     query_type_matches req.(query_type) a = true ∧
     ∃ l, lookup (req.(hostname) +:+ ":0") = Some l ∧ a ∈ l) ∧
  resp.(ttl_secs) = (if decide (resp.(addresses) = []) then 5 else 60)%Z ∧
  st'.(registry) = st.(registry) ∧
  (emit_ok st.(trail) = true → ∃ row, st'.(trail) = st.(trail) ++ [row] ∧
     row.(row_kind) = DnsResolveRequested (if active then sid else "") req.(hostname)
       (query_type_as_str req.(query_type)) (Z.of_nat (length resp.(addresses)) mod 2^32) resp.(ttl_secs)).
Proof.
  unfold handle_a3_dns_request, dns_audit_and_return, emit_row.
  assert (bad_hostname req.(hostname) = false ↔ req.(hostname) ≠ "" ∧ String.length req.(hostname) ≤ 255) as Hb.
  { unfold bad_hostname, MAX_HOSTNAME_LEN. rewrite orb_false_iff, String.eqb_neq, Nat.ltb_ge. done. }
  destruct (negb active || bad_hostname (hostname req)) eqn:E.
  - split_and!; [done | | done | by destruct (emit_ok _) | intros ->; by eexists].
    intros a. simpl. split; [intros Ha; by apply elem_of_nil in Ha |].
    intros (-> & Hn & Hl & _). rewrite (proj2 Hb (conj Hn Hl)) in E. done.
  - apply orb_false_iff in E as [Ea Eb]. apply negb_false_iff in Ea as ->. apply Hb in Eb as [Hn Hl].
    split_and!; [done | | | by destruct (emit_ok _) | intros ->; by eexists].
    + intros a. simpl. unfold resolved. destruct (lookup _) as [l|].
      * rewrite list_elem_of_filter. naive_solver.
      * split; [intros Ha; by apply elem_of_nil in Ha | naive_solver].
    + simpl. unfold ttl_for. destruct (resolved req _); [by rewrite decide_True | by rewrite decide_False].
Qed.

(** ** Witnesses *)

Definition demo_tproxy_request : TproxyAdmissionRequest :=
  MkTproxyRequest [NUL] "" (Some "api.example.com") None (MkAddr (V4 "10.0.0.1") 443) ProtoTls.
Definition demo_token : list byte := replicate 32 (byte_of 5).
Definition demo_tunnel_id : Uuid := replicate 16 (byte_of 3).
Definition demo_ops : list A3Op :=
  [Ask true demo_tproxy_request (MkDraws (Some demo_token) demo_tunnel_id 0 0 0);
   Handshake (demo_tunnel_id ++ demo_token) NANOS_PER_SEC;
   Handshake (demo_tunnel_id ++ demo_token) NANOS_PER_SEC].


Lemma unrecorded_refusals_witness :
  ∃ reason, reason ≠ "FAIL_AUDIT_EMIT" ∧
    tproxy_handle (λ _, false) empty_db 0 [] (MkEgressSection [] [] true []) demo_tproxy_request
      (MkDraws None [] 0 0 0) (MkA3 ∅ []) = (TunnelDeny [NUL] reason None, MkA3 ∅ []).
Proof.
  apply (unrecorded_refusals (λ _, false) empty_db 0 [] (MkEgressSection [] [] true []) demo_tproxy_request
    (MkDraws None [] 0 0 0) (MkA3 ∅ [])); [reflexivity |].
  intros session H. by vm_compute in H.
Defined.
