(* ===== verification/Json.v ===== *)
(** * JSON values

    The part of [serde_json::Value] the kernel reads: the constructors, object
    lookup and the typed accessors.  Parsing text into a value is a parameter of
    the definitions that need it. *)

From S2P Require Import Prelude.

(** [serde_json::Value]; the keys of an object are distinct. *)
#[warnings="-register-all"]
Inductive Value :=
  | JsonNull
  | JsonBool (b : bool)
  | JsonNumber (text : string)
  | JsonString (s : string)
  | JsonArray (l : list Value)
  | JsonObject (fields : list (string * Value)).

Definition json_get (key : string) (v : Value) : option Value :=
  match v with
  | JsonObject fields => snd <$> List.find (λ f, String.eqb f.1 key) fields
  | _ => None
  end.
Definition json_as_str (v : Value) : option string := match v with JsonString s => Some s | _ => None end.

Definition decimal_digit (c : Ascii.ascii) : option Z :=
  let n := Z.of_nat (Ascii.nat_of_ascii c) in
  if bool_decide (48 ≤ n ≤ 57)%Z then Some (n - 48)%Z else None.

Fixpoint decimal_from (acc : Z) (s : string) : option Z :=
  match s with
  | EmptyString => Some acc
  | String c s' => match decimal_digit c with Some k => decimal_from (10 * acc + k) s' | None => None end
  end.

(** An integer without sign, fraction or exponent that fits 64 bits. *)
Definition json_as_u64 (v : Value) : option Z :=
  match v with
  | JsonNumber text =>
      if String.eqb text "" then None
      else match decimal_from 0 text with
           | Some z => if bool_decide (z ≤ u64_max)%Z then Some z else None
           | None => None
           end
  | _ => None
  end.

(** A signed integer without fraction or exponent that fits 64 bits. *)
Definition json_as_i64 (v : Value) : option Z :=
  match v with
  | JsonNumber text =>
      let '(sign, digits) := match text with
                             | String c s => if Ascii.eqb c (Ascii.ascii_of_nat 45) then ((-1)%Z, s) else (1%Z, text)
                             | EmptyString => (1%Z, text)
                             end in
      if String.eqb digits "" then None
      else match decimal_from 0 digits with
           | Some z => if bool_decide (i64_min ≤ sign * z ≤ i64_max)%Z then Some (sign * z)%Z else None
           | None => None
           end
  | _ => None
  end.
