(* ===== verification/PlannerFetch.v ===== *)
(** * Fetches of planners

    [kernel/src/handlers/planner_fetch.rs]: the kernel's answer to a planner that
    asks for an HTTP call, between the session store, the gateway client and the
    stall tracker.  What the outside contributes to one call (clocks, a fresh
    identifier, how the submission to the pump and the wait for its reply end) is
    its [FetchEnv].  JSON parsing and UUID parsing are parameters. *)

From S2P Require Import Prelude Fsm Store Bytes Policy Session Hosts Providers StallTracker Wire Gateway GatewayClient Egress Json.
From Stdlib Require Import Ascii.

Inductive PlannerFetchKind := PlannerInference | PlannerDataFetch.
#[export] Instance PlannerFetchKind_eq_dec : EqDecision PlannerFetchKind.
Proof. solve_decision. Defined.

Record PlannerFetchRequest := MkPlannerFetch {
  pf_request_id : Uuid;
  pf_session_token : string;
  pf_fetch_kind : PlannerFetchKind;
  pf_url : string;
  pf_method : string;
  pf_headers : list (string * string);
  pf_body_bytes : list byte;
  pf_timeout_ms : Z;
}.

Record PlannerFetchResponse := MkPlannerResponse {
  pr_request_id : Uuid;
  pr_status_code : option Z;
  pr_headers : list (string * string);
  pr_body_bytes : option (list byte);
  pr_latency_ms : Z;
  pr_error : option string;
}.

Definition HARD_TIMEOUT_CEILING_MS : Z := 120000.
Definition HARD_TIMEOUT_FLOOR_MS : Z := 1000.

Definition SESSION_TOKEN_MISMATCH : string := "FAIL_SESSION_TOKEN_MISMATCH".
Definition PLANNER_FETCH_DENIED : string := "FAIL_PLANNER_FETCH_DENIED".
Definition REVIEWER_DENIED : string := "FAIL_PLANNER_FETCH_DENIED_REVIEWER".
Definition GATEWAY_UNAVAILABLE : string := "GatewayUnavailable".
Definition NETWORK_ERROR : string := "NetworkError".
Definition TIMEOUT_EXCEEDED : string := "TimeoutExceeded".

(** ** Labels *)

Definition gateway_failure_class (r : result GatewayCallError FetchResult) : string :=
  match r with
  | Ok fr =>
      match fr.(result_status) with
      | Some code =>
          if ((200 <=? code) && (code <? 400))%Z then "none"
          else if ((code =? 408) || (code =? 429))%Z then "provider_retryable_http"
          else if (500 <=? code)%Z then "provider_retryable_http"
          else if ((400 <=? code) && (code <? 500))%Z then "provider_client_http"
          else "provider_http_other"
      | None => "gateway_protocol"
      end
  | Err (GatewayError msg) =>
      if String.eqb msg "NetworkError" then "host_provider_network"
      else if String.eqb msg "TimeoutExceeded" then "host_provider_timeout"
      else if String.eqb msg "DomainNotAllowed" then "policy_denied"
      else if String.eqb msg "ResponseTooLarge" then "response_too_large"
      else if String.eqb msg "PolicyReloadFailed" then "policy_reload_failed"
      else "gateway_error_other"
  | Err Unavailable => "gateway_unavailable"
  | Err Dropped => "gateway_dropped"
  | Err (CallTimeout _) => "gateway_response_timeout"
  | Err UnexpectedReply => "gateway_protocol"
  end.

Definition gateway_outcome_label (r : result GatewayCallError FetchResult) : string :=
  match r with
  | Ok fr =>
      match fr.(result_status) with
      | Some code => if ((200 <=? code) && (code <? 400))%Z then "ok" else "error"
      | None => "error"
      end
  | Err _ => "error"
  end.

(** The milliseconds are those of the 128-bit count. *)
Definition elapsed_ms_clamped (elapsed : Z) : Z := Z.min elapsed u32_max.

(** ** URLs *)

Definition digit_value (c : Ascii.ascii) : option Z :=
  let n := nat_of_ascii c in if (48 <=? n) && (n <=? 57) then Some (Z.of_nat (n - 48)) else None.

Fixpoint parse_digits (s : string) (acc : Z) : option Z :=
  match s with
  | EmptyString => Some acc
  | String c s' =>
      match digit_value c with
      | Some d => if (65535 <? 10 * acc + d)%Z then None else parse_digits s' (10 * acc + d)%Z
      | None => None
      end
  end.

(** [str::parse::<u16>]: a plus sign is allowed in front of the digits. *)
Definition parse_u16 (s : string) : option Z :=
  match s with
  | EmptyString => None
  | String c s' =>
      if Ascii.eqb c "+"%char then (if String.eqb s' "" then None else parse_digits s' 0) else parse_digits s 0
  end.

(** [s.rsplit_once(c)] *)
Fixpoint rsplit_once (c : Ascii.ascii) (s : string) : option (string * string) :=
  match s with
  | EmptyString => None
  | String a s' =>
      match rsplit_once c s' with
      | Some (u, v) => Some (String a u, v)
      | None => if Ascii.eqb a c then Some ("", s') else None
      end
  end.

Definition extract_host_port (url : string) : option (string * Z) :=
  '(scheme, rest) ← split_once "://" url;
  let host_with_path := first_piece "/"%char rest in
  let '(host, port_str) :=
    match rsplit_once ":"%char host_with_path with
    | Some (h, p) => (h, Some p)
    | None => (host_with_path, None)
    end in
  if String.eqb host "" then None
  else
    let port := match port_str ≫= parse_u16 with
                | Some p => p
                | None => if String.eqb scheme "https" then 443%Z
                          else if String.eqb scheme "http" then 80%Z else 0%Z
                end in
    Some (host, port).

Definition endpoint_host (endpoint : string) : option string :=
  '(_, after_scheme) ← split_once "://" endpoint;
  let host := first_piece ":"%char (first_piece "/"%char after_scheme) in
  if String.eqb host "" then None else Some host.

Definition entry_matches_host (p : ProviderEntry) (host_lower : string) : bool :=
  let kind := p.(provider_kind) in
  if String.eqb kind "Anthropic" then
    String.eqb host_lower "anthropic.com" || ends_with_str ".anthropic.com" host_lower
  else if String.eqb kind "OpenAI" then
    String.eqb host_lower "openai.com" || ends_with_str ".openai.com" host_lower
  else if String.eqb kind "Gemini" then String.eqb host_lower "generativelanguage.googleapis.com"
  else if String.eqb kind "Bedrock" then
    starts_with "bedrock-runtime." host_lower && ends_with_str ".amazonaws.com" host_lower
  else if String.eqb kind "http_sidecar" then
    match p.(sidecar_endpoint) ≫= endpoint_host with
    | Some h => eq_ignore_ascii_case h host_lower
    | None => false
    end
  else false.

Definition provider_id_for_fetch_url (providers : list ProviderEntry) (url : string) : option string :=
  '(host, _) ← extract_host_port url;
  let host_lower := to_ascii_lowercase host in
  provider_id <$> List.find (λ p, entry_matches_host p host_lower) providers.

(** ** Models *)

Definition nonempty (s : string) : option string := if String.eqb s "" then None else Some s.

Definition model_id_from_url (url : string) : option string :=
  '(_, after_scheme) ← split_once "://" url;
  '(_, path) ← split_once "/" after_scheme;
  let in_models :=
    '(_, rest) ← split_once "models/" path;
    nonempty (str_trim (take_until_any [":"%char; "?"%char; "/"%char] rest)) in
  match in_models with
  | Some model => Some model
  | None =>
      '(_, rest) ← split_once "model/" path;
      nonempty (str_trim (take_until_any ["/"%char; "?"%char] rest))
  end.

Definition model_id_for_fetch_request (from_slice : list byte → option Value) (url : string) (body : list byte)
    : option string :=
  let in_body :=
    v ← from_slice body;
    field ← match json_get "model" v with Some f => Some f | None => json_get "model_id" v end;
    s ← json_as_str field;
    nonempty (str_trim s) in
  match in_body with
  | Some model => Some model
  | None => model_id_from_url url
  end.

(** ** The handler *)

Definition resolve_observer_task_id (active_task_id : option string) (agent_type : option SessionAgentType)
    (initiative_id : option string) : option string :=
  match active_task_id with
  | Some t => Some t
  | None =>
      match agent_type with
      | Some SessionAgentType.Orchestrator => initiative_id
      | _ => None
      end
  end.

Definition agent_role_label (agent_type : option SessionAgentType) : option string :=
  (λ t, match t with
        | SessionAgentType.Orchestrator => "Orchestrator"
        | SessionAgentType.Executor => "Executor"
        | SessionAgentType.Reviewer => "Reviewer"
        end) <$> agent_type.

(** [SELECT task_id .. WHERE session_id = ? AND activation_state = 'Active' LIMIT 1]:
    a partial index makes the row unique. *)
Definition lookup_active_task_id (session_id : string) (d : Db) : option string :=
  (λ kr, kr.2.(act_task_id)) <$>
    List.find (λ kr, bool_decide (kr.2.(act_session_id) = Some session_id) && String.eqb kr.2.(act_state) "Active")
      (map_to_list d.(activations)).

Definition map_fetch_kind (k : PlannerFetchKind) : FetchKind :=
  match k with PlannerInference => Inference | PlannerDataFetch => DataFetch end.

Definition failure_response (request_id : Uuid) (latency_ms : Z) (error : string) : PlannerFetchResponse :=
  MkPlannerResponse request_id None [] None latency_ms (Some error).

(** The columns [provider] and [model] of the sessions. *)
Abbreviation Observed := (gmap string (option string * option string)).

(** [COALESCE(column, value)] *)
Definition coalesce (old new : option string) : option string := match old with Some x => Some x | None => new end.
Definition set_session_provider_model_if_unset (d : Db) (session_id : string) (provider model : option string)
    (seen : Observed) : Observed :=
  match d.(sessions) !! session_id with
  | Some _ =>
      let old := default (None, None) (seen !! session_id) in
      <[session_id := (coalesce old.1 provider, coalesce old.2 model)]> seen
  | None => seen
  end.

Definition persist_observation (d : Db) (session_id : string) (provider model : option string)
    (seen : Observed) : Observed :=
  if String.eqb (default "" provider) "" && String.eqb (default "" model) "" then seen
  else set_session_provider_model_if_unset d session_id provider model seen.

Record FetchState := MkFetchState {
  fetch_db : Db;
  session_models : Observed;
  pump_jobs : list PumpJob;
  stall_tracker : EgressStallTracker;
  fetch_audit : list AuditRow;
}.

(** One call: the time of day, the clock of the tracker, the milliseconds spent when
    the handler answers, the token of the current gateway, whether the pump has an
    observer, the identifier and the channel drawn for the fetch, how the submission
    and the wait end, and whether the audit sink works. *)
Record FetchEnv := MkFetchEnv {
  env_now : Z;
  env_stall_now : Z;
  env_elapsed : Z;
  env_expected_token : option string;
  env_observer_enabled : bool;
  env_fetch_id : Uuid;
  env_reply_tx : nat;
  env_submission : Submission;
  env_wait : Wait;
  env_audit_ok : bool;
}.

(** The dispatch matrix. *)
Definition fetch_denied (agent_type : option SessionAgentType) (kind : PlannerFetchKind) : option string :=
  match agent_type, kind with
  | Some SessionAgentType.Reviewer, PlannerDataFetch => Some REVIEWER_DENIED
  | Some SessionAgentType.Reviewer, PlannerInference => None
  | Some SessionAgentType.Orchestrator, _ => None
  | Some SessionAgentType.Executor, _ => None
  | None, _ => Some PLANNER_FETCH_DENIED
  end.

Definition clamp_timeout (ms : Z) : Z :=
  if (ms <? HARD_TIMEOUT_FLOOR_MS)%Z then HARD_TIMEOUT_FLOOR_MS
  else if (HARD_TIMEOUT_CEILING_MS <? ms)%Z then HARD_TIMEOUT_CEILING_MS else ms.

Definition answer_for (request_id : Uuid) (latency_ms : Z) (r : result GatewayCallError FetchResult)
    : PlannerFetchResponse :=
  match r with
  | Ok fr =>
      MkPlannerResponse request_id fr.(result_status) fr.(result_headers) fr.(result_body)
        (Z.max fr.(result_latency_ms) latency_ms) None
  | Err Unavailable => failure_response request_id latency_ms GATEWAY_UNAVAILABLE
  | Err Dropped => failure_response request_id latency_ms NETWORK_ERROR
  | Err (CallTimeout _) => failure_response request_id latency_ms TIMEOUT_EXCEEDED
  | Err (GatewayError msg) => failure_response request_id latency_ms msg
  | Err UnexpectedReply => failure_response request_id latency_ms NETWORK_ERROR
  end.

Section Handler.
Variable from_slice : list byte → option Value.
Variable parse_uuid : string → option Uuid.
Variable providers : list ProviderEntry.

Definition feed_stall_tracker_for_domain_not_allowed (env : FetchEnv) (session_id url : string)
    (st : FetchState) : FetchState :=
  match extract_host_port url with
  | None => st
  | Some (host, port) =>
      let key := MkStallKey session_id (Some host) port "host_not_in_allowlist" in
      let '(signal, t) := record_denial env.(env_stall_now) key st.(stall_tracker) in
      let rows :=
        match signal with
        | Detected e =>
            if env.(env_audit_ok)
            then [MkAuditRow (SessionEgressStallDetected e "kernel_mediated_fetch") (Some session_id) None]
            else []
        | Quiet => []
        end in
      MkFetchState st.(fetch_db) st.(session_models) st.(pump_jobs) t (st.(fetch_audit) ++ rows)
  end.

(** The job [fetch_with_observer_metadata] hands to the pump. *)
Definition fetch_job (env : FetchEnv) (req : PlannerFetchRequest) (row : SessionRecord) (d : Db) : Pending :=
  let task_id := resolve_observer_task_id (lookup_active_task_id row.(sr_session_id) d)
                   row.(sr_session_agent_type) row.(sr_initiative_id) in
  let session := parse_uuid row.(sr_session_id) in
  MkPending
    (MkFetchRequest (default "" env.(env_expected_token)) env.(env_fetch_id) (map_fetch_kind req.(pf_fetch_kind))
       req.(pf_url) req.(pf_method) req.(pf_headers) req.(pf_body_bytes) (clamp_timeout req.(pf_timeout_ms))
       session task_id)
    env.(env_reply_tx) task_id session
    (if env.(env_observer_enabled) then Some req.(pf_body_bytes) else None)
    (agent_role_label row.(sr_session_agent_type))
    (provider_id_for_fetch_url providers req.(pf_url))
    (model_id_for_fetch_request from_slice req.(pf_url) req.(pf_body_bytes)).

(** The jobs a call leaves with the pump: the fetch itself when the queue took it, and
    the cancellation when the wait for its reply ran out. *)
Definition jobs_left (s : Submission) (p : Pending) (cancel : option PumpJob) : list PumpJob :=
  match s with
  | Accepted => FetchJob p :: match cancel with Some j => [j] | None => [] end
  | _ => []
  end.

(** The call once the session and the matrix admit it. *)
Definition forward (env : FetchEnv) (req : PlannerFetchRequest) (row : SessionRecord) (st : FetchState)
    : PlannerFetchResponse * FetchState :=
  let p := fetch_job env req row st.(fetch_db) in
  let seen := persist_observation st.(fetch_db) row.(sr_session_id) p.(provider_id_meta) p.(model_id_meta)
                st.(session_models) in
  let '(outcome, cancel) := fetch_with_observer_metadata p.(payload) env.(env_submission) env.(env_wait) in
  let st := MkFetchState st.(fetch_db) seen (st.(pump_jobs) ++ jobs_left env.(env_submission) p cancel)
              st.(stall_tracker) st.(fetch_audit) in
  let st := match outcome with
            | Err (GatewayError msg) =>
                if String.eqb msg "DomainNotAllowed"
                then feed_stall_tracker_for_domain_not_allowed env row.(sr_session_id) req.(pf_url) st else st
            | _ => st
            end in
  (answer_for req.(pf_request_id) (elapsed_ms_clamped env.(env_elapsed)) outcome, st).

Definition planner_fetch_handle (env : FetchEnv) (req : PlannerFetchRequest) (st : FetchState)
    : PlannerFetchResponse * FetchState :=
  let refuse error := (failure_response req.(pf_request_id) (elapsed_ms_clamped env.(env_elapsed)) error, st) in
  match get_active_session_by_token env.(env_now) req.(pf_session_token) st.(fetch_db) with
  | (Err _, _) => refuse SESSION_TOKEN_MISMATCH
  | (Ok row, _) =>
      match fetch_denied row.(sr_session_agent_type) req.(pf_fetch_kind) with
      | Some error => refuse error
      | None => forward env req row st
      end
  end.
End Handler.

(** What the gateway saw of the fetch metric. *)
Record FetchMetric := MkFetchMetric {
  metric_provider : string;
  metric_status : Z;
  metric_outcome : string;
  metric_class : string;
}.
Definition fetch_metric (url : string) (r : result GatewayCallError FetchResult) : FetchMetric :=
  MkFetchMetric (default "unknown" (fst <$> extract_host_port url))
    (match r with Ok fr => default 0%Z fr.(result_status) | Err _ => 0%Z end)
    (gateway_outcome_label r) (gateway_failure_class r).

(** ** Facts *)

(** Who may fetch what. *)
Inductive may_fetch : SessionAgentType → PlannerFetchKind → Prop :=
  | orchestrator_fetches k : may_fetch SessionAgentType.Orchestrator k
  | executor_fetches k : may_fetch SessionAgentType.Executor k
  | reviewer_infers : may_fetch SessionAgentType.Reviewer PlannerInference.

Lemma fetch_denied_None t k : fetch_denied t k = None ↔ ∃ a, t = Some a ∧ may_fetch a k.
Proof.
  split.
  - destruct t as [[]|], k; intros [=]; eexists; (split; [done | constructor]).
  - intros (a & -> & []); done.
Qed.

Lemma clamp_timeout_range ms : (HARD_TIMEOUT_FLOOR_MS ≤ clamp_timeout ms ≤ HARD_TIMEOUT_CEILING_MS)%Z.
Proof.
  unfold clamp_timeout, HARD_TIMEOUT_FLOOR_MS, HARD_TIMEOUT_CEILING_MS.
  destruct (Z.ltb_spec ms 1000); [lia |]. destruct (Z.ltb_spec 120000 ms); lia.
Qed.

Lemma clamp_timeout_id ms :
  (HARD_TIMEOUT_FLOOR_MS ≤ ms ≤ HARD_TIMEOUT_CEILING_MS)%Z → clamp_timeout ms = ms.
Proof.
  unfold clamp_timeout, HARD_TIMEOUT_FLOOR_MS, HARD_TIMEOUT_CEILING_MS. intros H.
  destruct (Z.ltb_spec ms 1000); [lia |]. destruct (Z.ltb_spec 120000 ms); lia.
Qed.

Lemma clamp_timeout_above ms c :
  (c < ms)%Z → (c < HARD_TIMEOUT_CEILING_MS)%Z → (c < clamp_timeout ms)%Z.
Proof.
  unfold clamp_timeout, HARD_TIMEOUT_FLOOR_MS, HARD_TIMEOUT_CEILING_MS. intros H H'.
  destruct (Z.ltb_spec ms 1000); [lia |]. destruct (Z.ltb_spec 120000 ms); lia.
Qed.

Lemma rsplit_once_free c s : free_of c s = true → rsplit_once c s = None.
Proof.
  induction s as [|a s IH]; [done |]. intros [Hne Hs]%free_of_cons. simpl. rewrite IH by done.
  by rewrite (proj2 (Ascii.eqb_neq a c) Hne).
Qed.

(** The kernel and the gateway test a provider against a host alike. *)
Lemma endpoint_host_eq e : endpoint_host e = extract_host e.
Proof. unfold endpoint_host, extract_host. by destruct (split_once "://" e) as [[? ?]|]. Qed.

Lemma entry_matches_view p creds h :
  provider_entry_matches_host (provider_view p creds) h = entry_matches_host p h.
Proof.
  unfold provider_entry_matches_host, entry_matches_host, provider_kind_matches_host. cbn [provider_view view_kind view_sidecar_endpoint].
  destruct (String.eqb_spec (provider_kind p) "http_sidecar") as [->|Hne].
  - repeat match goal with |- context [String.eqb "http_sidecar" ?s] =>
      let v := eval vm_compute in (String.eqb "http_sidecar" s) in change (String.eqb "http_sidecar" s) with v end.
    destruct (sidecar_endpoint p) as [e|]; [| done]. cbn [mbind option_bind]. by destruct (endpoint_host_eq e).
  - done.
Qed.

Lemma first_provider_find (m : gmap string ProviderEntryView) (ps : list ProviderEntry) h :
  (∀ p, p ∈ ps → ∃ creds, m !! p.(provider_id) = Some (provider_view p creds)) →
  view_provider_id <$> first_provider m (provider_id <$> ps) h
  = provider_id <$> List.find (λ p, entry_matches_host p h) ps.
Proof.
  induction ps as [|p ps IH]; intros Hm; [done |]. cbn.
  destruct (Hm p (list_elem_of_here _ _)) as [creds ->]. rewrite entry_matches_view.
  destruct (entry_matches_host p h); [done |]. apply IH. intros q Hq. apply Hm. by right.
Qed.

Lemma loaded_entries resolve parse b view :
  validate_providers b.(loaded_providers) = Ok tt →
  load_policy_view_with_credential_backend resolve parse (Ok b) = Ok view →
  view.(provider_order) = provider_id <$> b.(loaded_providers) ∧
  ∀ p, p ∈ b.(loaded_providers) →
    ∃ creds, view.(view_providers) !! p.(provider_id) = Some (provider_view p creds).
Proof.
  intros [Hnd _]%validate_providers_iff Hl. unfold load_policy_view_with_credential_backend in Hl. simpl in Hl.
  destruct (load_providers _ _ _ _) as [st|e] eqn:E; [| done]. injection Hl as <-. simpl.
  apply load_providers_ok in E as (Ho & Hv & Hdom); [| done | done]. split; [done |]. intros p Hp.
  destruct (proj1 (Hdom p.(provider_id))) as [v Hv']; [right; by apply list_elem_of_fmap_2 |].
  destruct (Hv _ _ Hv') as [Hn|(q & creds & Hq & Hid & -> & _)]; [by cbn in Hn; rewrite lookup_empty in Hn |].
  exists creds. rewrite Hv'. by rewrite (NoDup_fmap_unique provider_id _ q p Hnd Hq Hp Hid).
Qed.

(** ** Properties *)

(** The kernel forwards a planner's fetch exactly when its token names a session
    that is active and whose kind may fetch what is asked (reviewers only inference);
    the request that then goes to the pump carries the kernel's own gateway token and
    the planner's call, with a time limit between one second and two minutes.  Any
    other request is answered with one of three errors and leaves no trace.  Every
    answer carries the identifier of its request. *)
Theorem planner_fetch_gate from_slice parse_uuid providers env req st :
  let '(resp, st') := planner_fetch_handle from_slice parse_uuid providers env req st in
  let session := (get_active_session_by_token env.(env_now) req.(pf_session_token) st.(fetch_db)).1 in
  resp.(pr_request_id) = req.(pf_request_id) ∧ st'.(fetch_db) = st.(fetch_db) ∧
  ((∃ row t p cancel, session = Ok row ∧ row.(sr_session_agent_type) = Some t ∧ may_fetch t req.(pf_fetch_kind) ∧
      st'.(pump_jobs) = st.(pump_jobs) ++ jobs_left env.(env_submission) p cancel ∧
      p.(payload).(gateway_token) = default "" env.(env_expected_token) ∧
      p.(payload).(fetch_kind) = map_fetch_kind req.(pf_fetch_kind) ∧
      (p.(payload).(url), p.(payload).(method), p.(payload).(headers), p.(payload).(body_bytes))
        = (req.(pf_url), req.(pf_method), req.(pf_headers), req.(pf_body_bytes)) ∧
      (HARD_TIMEOUT_FLOOR_MS ≤ p.(payload).(timeout_ms) ≤ HARD_TIMEOUT_CEILING_MS)%Z ∧
      ((HARD_TIMEOUT_FLOOR_MS ≤ req.(pf_timeout_ms) ≤ HARD_TIMEOUT_CEILING_MS)%Z →
        p.(payload).(timeout_ms) = req.(pf_timeout_ms))) ∨
   ((∀ row t, session = Ok row → row.(sr_session_agent_type) = Some t → ¬ may_fetch t req.(pf_fetch_kind)) ∧
    st' = st ∧ ∃ e, e ∈ [SESSION_TOKEN_MISMATCH; PLANNER_FETCH_DENIED; REVIEWER_DENIED] ∧
      resp = failure_response req.(pf_request_id) (elapsed_ms_clamped env.(env_elapsed)) e)).
Proof.
  unfold planner_fetch_handle.
  destruct (get_active_session_by_token _ _ _) as [[row|e] d]; cbn [fst].
  2: { split; [done |]. split; [done |]. right. split; [done |]. split; [done |]. exists SESSION_TOKEN_MISMATCH. split; [| done]. by left. }
  destruct (fetch_denied (sr_session_agent_type row) (pf_fetch_kind req)) as [error|] eqn:Ed.
  - split; [done |]. split; [done |]. right. split_and!; [| done |].
    + intros row' t [= <-] Ht Hm. by rewrite (proj2 (fetch_denied_None _ _) (ex_intro _ t (conj Ht Hm))) in Ed.
    + exists error. split; [| done]. destruct (sr_session_agent_type row) as [[]|], (pf_fetch_kind req); set_solver.
  - apply fetch_denied_None in Ed as (t & Ht & Hm). unfold forward.
    set (p := fetch_job from_slice parse_uuid providers env req row st.(fetch_db)).
    destruct (fetch_with_observer_metadata (payload p) (env_submission env) (env_wait env)) as [outcome cancel] eqn:Ef.
    set (st1 := MkFetchState _ _ _ _ _).
    assert (∀ s, s = st1 ∨ s = feed_stall_tracker_for_domain_not_allowed env row.(sr_session_id) req.(pf_url) st1 →
      s.(fetch_db) = st.(fetch_db) ∧ s.(pump_jobs) = st.(pump_jobs) ++ jobs_left env.(env_submission) p cancel) as Hst.
    { intros s [->| ->]; [done |]. unfold feed_stall_tracker_for_domain_not_allowed.
      destruct (extract_host_port _) as [[host port]|]; [| done]. by destruct (record_denial _ _ _). }
    destruct (Hst (match outcome with
                   | Err (GatewayError msg) =>
                       if String.eqb msg "DomainNotAllowed"
                       then feed_stall_tracker_for_domain_not_allowed env row.(sr_session_id) req.(pf_url) st1 else st1
                   | _ => st1
                   end)) as [Hdb Hjobs]; [repeat case_match; eauto |].
    split; [unfold answer_for; by repeat case_match |]. split; [exact Hdb |].
    left. exists row, t, p, cancel. destruct (clamp_timeout_range (pf_timeout_ms req)).
      split_and!; try done. apply clamp_timeout_id.
Qed.

(** A limit a planner may ask for can be above what its provider serves: the kernel
    does not lower it, and the gateway refuses.  So under a validated policy no data
    fetch of more than a minute is served, and no call at all through a provider whose
    limit is under a second, whatever limit the planner asks for. *)
Theorem clamped_fetches_refused {B} `{Backend B} (backend : B) ct_eq to_lowercase resolve parse b view
    from_slice parse_uuid env req row d host p log token :
  (∀ a b, ct_eq a b = true ↔ a = b) →
  validate_providers b.(loaded_providers) = Ok tt →
  load_policy_view_with_credential_backend resolve parse (Ok b) = Ok view →
  env.(env_expected_token) = Some token →
  extract_host req.(pf_url) = Some host →
  domain_allowed view.(view_egress_domains) view.(view_egress_patterns) host = true →
  provider_for_host to_lowercase view host = Some p →
  (req.(pf_fetch_kind) = PlannerDataFetch ∧ (MAX_DATA_FETCH_TIMEOUT_MS < req.(pf_timeout_ms))%Z) ∨
  (provider_cap_ms (map_fetch_kind req.(pf_fetch_kind)) p < HARD_TIMEOUT_FLOOR_MS)%Z →
  let r := (fetch_job from_slice parse_uuid b.(loaded_providers) env req row d).(payload) in
  ∃ f, handle_fetch_request ct_eq to_lowercase backend (FetchRequestMsg r) token (Some view) log
         = (FetchResponseMsg f, log) ∧
    answer_for req.(pf_request_id) (elapsed_ms_clamped env.(env_elapsed)) (outcome_of f)
      = failure_response req.(pf_request_id) (elapsed_ms_clamped env.(env_elapsed)) TIMEOUT_EXCEEDED.
Proof.
  intros Hct Hval Hl Htok Hh Hd Hp Hcap r.
  assert (provider_cap_ms r.(fetch_kind) p < r.(timeout_ms))%Z as Hlt.
  { subst r. cbn [fetch_job payload fetch_kind timeout_ms]. destruct Hcap as [[Hk Hms]|Hms].
    - rewrite Hk. cbn [map_fetch_kind provider_cap_ms].
      destruct (served_entry _ _ _ _ _ _ Hval Hl Hp) as (e & Hin & ->). cbn [provider_view view_data_fetch_timeout_ms].
      apply validate_providers_iff in Hval as [_ Hwf]. rewrite Forall_forall in Hwf.
      pose proof (limited_fetch _ (wf_limited _ (Hwf _ Hin))) as [_ Hle].
      apply clamp_timeout_above; unfold MAX_DATA_FETCH_TIMEOUT_MS, HARD_TIMEOUT_CEILING_MS in *; lia.
    - pose proof (clamp_timeout_range (pf_timeout_ms req)). lia. }
  exists (MkFetchResponse r.(fetch_id) None [] None 0 (Some TIMEOUT_EXCEEDED)). split; [| done].
  assert (gateway_token r = token) as Hg by (subst r; cbn; by rewrite Htok).
  unfold handle_fetch_request, dispatch, is_url_allowed, throw.
  rewrite Hg, (proj2 (ct_eq_text ct_eq Hct token token)) by done. cbn [negb].
  replace (url r) with (pf_url req) by done. rewrite Hh, Hd. cbn [negb]. rewrite Hp.
  by rewrite (proj2 (Z.ltb_lt _ _) Hlt).
Qed.

(** For a URL without user information or port, the provider the kernel records for
    a call is the one whose credentials the gateway uses for it. *)
Theorem observer_names_the_serving_provider to_lowercase resolve parse b view scheme host path :
  validate_providers b.(loaded_providers) = Ok tt →
  load_policy_view_with_credential_backend resolve parse (Ok b) = Ok view →
  free_of ":"%char scheme = true → plain host = true → host ≠ "" →
  to_lowercase host = to_ascii_lowercase host →
  let url := scheme +:+ "://" +:+ host +:+ String "/"%char path in
  extract_host url = Some host ∧
  provider_id_for_fetch_url b.(loaded_providers) url
    = view_provider_id <$> provider_for_host to_lowercase view host.
Proof.
  intros Hval Hl Hs Hh Hne Hlow url.
  assert (free_of "/"%char host = true ∧ free_of ":"%char host = true) as [Hslash Hcolon]
    by (split; apply plain_free; [set_solver | done | set_solver | done]).
  assert (split_once "://" url = Some (scheme, host +:+ String "/"%char path)) as Hu by exact (split_once_app ":"%char "//" _ _ Hs).
  split.
  - unfold extract_host. rewrite Hu, first_piece_app, first_piece_free by done.
    by rewrite (proj2 (String.eqb_neq _ _) Hne).
  - unfold provider_id_for_fetch_url, extract_host_port. rewrite Hu. cbn [mbind option_bind].
    rewrite first_piece_app, rsplit_once_free by done. rewrite (proj2 (String.eqb_neq _ _) Hne). cbn [mbind option_bind].
    destruct (loaded_entries _ _ _ _ Hval Hl) as [Ho Hm]. unfold provider_for_host. rewrite Ho, Hlow.
    symmetry. by apply first_provider_find.
Qed.

(** ** Witnesses *)

Definition demo_env : FetchEnv :=
  MkFetchEnv 100 0 12 (Some "tok") true (replicate 16 (byte_of 7)) 3 Accepted Elapsed true.
Definition demo_planner_fetch (kind : PlannerFetchKind) (ms : Z) : PlannerFetchRequest :=
  MkPlannerFetch (replicate 16 (byte_of 1)) "t" kind "https://api.anthropic.com/v1" "POST" [] [] ms.
Definition demo_row : SessionRecord :=
  MkSessionRecord "s" "Planner" "t" 0 None None None "l" None 1000 (Some SessionAgentType.Executor) false None.

Lemma clamped_fetches_refused_witness :
  let req := demo_planner_fetch PlannerDataFetch 90000 in
  let r := (fetch_job (λ _, None) (λ _, None) demo_loaded.(loaded_providers) demo_env req demo_row empty_db).(payload) in
  r.(timeout_ms) = 90000%Z ∧
  ∃ f, handle_fetch_request demo_ct_eq to_ascii_lowercase demo_backend (FetchRequestMsg r) "tok" (Some demo_view) []
         = (FetchResponseMsg f, []) ∧
    answer_for req.(pf_request_id) 12 (outcome_of f) = failure_response req.(pf_request_id) 12 TIMEOUT_EXCEEDED.
Proof.
  intros req r. split; [reflexivity |].
  refine (clamped_fetches_refused demo_backend demo_ct_eq to_ascii_lowercase demo_resolve demo_parse demo_loaded
    demo_view (λ _, None) (λ _, None) demo_env req demo_row empty_db "api.anthropic.com"
    (provider_view demo_provider demo_credentials) [] "tok" demo_ct_eq_spec _ _ eq_refl _ _ _ _);
    try (vm_compute; reflexivity).
  left. split; reflexivity.
Defined.

Lemma observer_names_the_serving_provider_witness :
  provider_id_for_fetch_url demo_loaded.(loaded_providers) "https://api.anthropic.com/v1" = Some "anthropic" ∧
  let url := "https" +:+ "://" +:+ "api.anthropic.com" +:+ String "/"%char "v1" in
  extract_host url = Some "api.anthropic.com" ∧
  provider_id_for_fetch_url demo_loaded.(loaded_providers) url
    = view_provider_id <$> provider_for_host to_ascii_lowercase demo_view "api.anthropic.com".
Proof.
  split; [vm_compute; reflexivity |].
  refine (observer_names_the_serving_provider to_ascii_lowercase demo_resolve demo_parse demo_loaded demo_view
            "https" "api.anthropic.com" "v1" _ _ _ _ _ _); try (vm_compute; reflexivity); discriminate.
Defined.
