(* ===== verification/Recovery.v ===== *)
(** * Recovery at boot

    [kernel/src/recovery.rs] up to its git section: the structural check of the
    audit segment, the four sweeps that bring the store of a dead kernel to a
    state the new one may serve, and the resumption of swept tasks after a
    supervised restart.  A statement that fails in SQLite is the [fault] argument
    of a sweep (the text of the error, by statement); the clock readings are
    [BootClock]; the audit sink and its [emit] are parameters. *)

From S2P Require Import Prelude Fsm Store TaskTransitions AuditChain Json.

(** ** The tables *)

(** One row of [integration_merge_attempts] (migration 11), keyed by [id]. *)
Record AttemptRow := MkAttemptRow {
  att_initiative_id : string;
  att_orchestrator_session_id : string;
  att_requested_commit_sha : string;
  att_candidate_merge_sha : option string;
  att_state : string;
  att_discard_reason : option string;
  att_created_at : Z;
  att_finalized_at : option Z;
}.
#[export] Instance AttemptRow_eq_dec : EqDecision AttemptRow.
Proof. solve_decision. Defined.

Definition present {A} (o : option A) : bool := match o with Some _ => true | None => false end.

(** The table's cross-column CHECK. *)
Definition attempt_check (r : AttemptRow) : bool :=
  (String.eqb r.(att_state) "AwaitingPreMergeVerifiers"
     && negb (present r.(att_discard_reason)) && negb (present r.(att_finalized_at)))
  || (String.eqb r.(att_state) "PreMergeVerifiersPassed"
     && negb (present r.(att_discard_reason)) && negb (present r.(att_finalized_at))
     && present r.(att_candidate_merge_sha))
  || (String.eqb r.(att_state) "CompletedAdvanceApplied"
     && negb (present r.(att_discard_reason)) && present r.(att_finalized_at)
     && present r.(att_candidate_merge_sha))
  || (bool_decide (r.(att_state) ∈ ["BlockedByPreMergeVerifier"; "DiscardedCandidateOnly"; "DiscardedCrashRecovery"])
     && present r.(att_discard_reason) && present r.(att_finalized_at)).

(** What recovery reads and writes besides [Db]: the attempts and the set of
    initiatives with a row in [initiative_quarantines]. *)
Record Tables := MkTables {
  db : Db;
  merge_attempts : gmap string AttemptRow;
  initiative_quarantines : gset string;
}.

Definition on_tables_db (f : Db → Db) (s : Tables) : Tables :=
  MkTables (f s.(db)) s.(merge_attempts) s.(initiative_quarantines).
Definition on_merge_attempts (f : gmap string AttemptRow → gmap string AttemptRow) (s : Tables) : Tables :=
  MkTables s.(db) (f s.(merge_attempts)) s.(initiative_quarantines).

(** ** Reports *)

Record SweptTaskRecord := MkSwept {
  swept_task_id : string;
  swept_initiative_id : string;
  swept_prior_state : string;
}.
#[export] Instance SweptTaskRecord_eq_dec : EqDecision SweptTaskRecord.
Proof. solve_decision. Defined.

Record ReconciliationReport := MkReconciliationReport {
  rr_swept_tasks : nat;
  rr_expired_tokens : nat;
  rr_swept_tasks_detail : list SweptTaskRecord;
  rr_failures : list string;
}.

(** The reports of the other three sweeps: a row count and the failures. *)
Record SweepReport := MkSweepReport { sr_rows : nat; sr_failures : list string }.

Record ReconciliationResult := MkReconciliationResult {
  rec_swept_tasks : nat;
  rec_expired_tokens : nat;
  rec_folded_integration_merge_attempts : nat;
  rec_orphan_lane_reservations_freed : nat;
  rec_orphan_sessions_revoked : nat;
  rec_chain_ok : bool;
  rec_swept_tasks_detail : list SweptTaskRecord;
}.

(** ** The audit segment *)

(** [segment-000.jsonl] as the file system answers for it. *)
Inductive SegmentFile :=
  | SegmentAbsent
  | SegmentNoStat (e : string)
  | SegmentNoRead (len : nat) (e : string)
  | SegmentBytes (content : string).

(** The reasons of [KernelError::AuditChainBroken], one per message. *)
Inductive ChainBreak :=
  | SegmentMissing
  | CannotStat (e : string)
  | SegmentEmpty
  | CannotRead (e : string)
  | SegmentNoLines
  | FirstLineBlank
  | GenesisNotJson
  | SeqMissing
  | EventKindMissing
  | NotGenesis (seq : Z) (event_kind : string).
#[export] Instance ChainBreak_eq_dec : EqDecision ChainBreak.
Proof. solve_decision. Defined.

Inductive KernelError :=
  | AuditChainBroken (reason : ChainBreak)
  | RecoverySweepFailed (reason : string).

(** [str::lines().next()] *)
Definition first_line (content : string) : option string := lines_item <$> head (split_lines content).

Definition check_genesis_line (from_str : string → option Value) (line : string) : result ChainBreak bool :=
  if String.eqb (str_trim line) "" then Err FirstLineBlank
  else
    record ← ok_or (from_str line) GenesisNotJson;
    seq ← ok_or (json_get "seq" record ≫= json_as_u64) SeqMissing;
    kind ← ok_or (json_get "event_kind" record ≫= json_as_str) EventKindMissing;
    if negb (Z.eqb seq 0) || negb (String.eqb kind "GenesisRecord") then Err (NotGenesis seq kind)
    else Ok true.

Definition verify_audit_chain (from_str : string → option Value) (segment : SegmentFile) : result ChainBreak bool :=
  match segment with
  | SegmentAbsent => Err SegmentMissing
  | SegmentNoStat e => Err (CannotStat e)
  | SegmentNoRead len e => if Nat.eqb len 0 then Err SegmentEmpty else Err (CannotRead e)
  | SegmentBytes content =>
      if Nat.eqb (String.length content) 0 then Err SegmentEmpty
      else if negb (utf8_valid content) then Err (CannotRead "stream did not contain valid UTF-8")
      else match first_line content with
           | None => Err SegmentNoLines
           | Some line => check_genesis_line from_str line
           end
  end.

(** ** The sweeps *)

Definition terminal_task_states_sql : list string :=
  as_sql_str <$> [TaskState.Completed; TaskState.Failed; TaskState.Aborted; TaskState.Cancelled].

Definition non_terminal_row (r : TaskRow) : bool := negb (bool_decide (r.(task_state) ∈ terminal_task_states_sql)).
Definition blocked (r : TaskRow) : bool :=
  String.eqb r.(task_state) (as_sql_str TaskState.BlockedRecoveryPending).

Definition SWEEP_REASON : string :=
  "kernel restart recovery sweep: task was non-terminal at kernel shutdown; operator action required to resume (raxis task resume <task_id>) or abort (raxis task abort <task_id>). See INV-INIT-05 and INV-FAILURE-REASON-MANDATORY-01.".

(** The statements that can fail, sweep by sweep. *)
Inductive Statement :=
  | TasksBegin | TasksPrepare | TasksSelect | TasksDecode | TasksSweep | TasksExpire | TasksCommit
  | AttemptsBegin | AttemptsFold | AttemptsCommit
  | ReservationsBegin | ReservationsDelete | ReservationsCommit
  | SessionsBegin | SessionsRevoke | SessionsCommit.

Definition statement_failed (s : Statement) : string :=
  match s with
  | TasksBegin => "reconcile_tasks: BEGIN transaction failed: "
  | TasksPrepare => "reconcile_tasks: prepare pre-sweep SELECT failed: "
  | TasksSelect => "reconcile_tasks: pre-sweep SELECT execute failed: "
  | TasksDecode => "reconcile_tasks: pre-sweep row decode failed: "
  | TasksSweep => "reconcile_tasks: bulk sweep UPDATE failed: "
  | TasksExpire => "reconcile_tasks: bulk verifier-token expire UPDATE failed: "
  | TasksCommit => "reconcile_tasks: COMMIT failed: "
  | AttemptsBegin => "reconcile_integration_merge_attempts: BEGIN transaction failed: "
  | AttemptsFold => "reconcile_integration_merge_attempts: bulk fold UPDATE failed: "
  | AttemptsCommit => "reconcile_integration_merge_attempts: COMMIT failed: "
  | ReservationsBegin => "reconcile_orphan_lane_reservations: BEGIN transaction failed: "
  | ReservationsDelete => "reconcile_orphan_lane_reservations: bulk DELETE failed: "
  | ReservationsCommit => "reconcile_orphan_lane_reservations: COMMIT failed: "
  | SessionsBegin => "reconcile_orphan_sessions: BEGIN transaction failed: "
  | SessionsRevoke => "reconcile_orphan_sessions: bulk UPDATE failed: "
  | SessionsCommit => "reconcile_orphan_sessions: COMMIT failed: "
  end.

Record BootClock := MkBootClock { tasks_now : Z; attempts_now : Z; sessions_now : Z }.

Section sweeps.
Context (fault : Statement → option string).

(** A statement that may fail with the oracle's error. *)
Definition stmt {S} (s : Statement) : SE S string unit :=
  match fault s with None => mret tt | Some e => throw (statement_failed s +:+ e) end.

(** [SELECT task_id, initiative_id, state .. ORDER BY task_id] *)
Definition pre_sweep_select (d : Db) : list SweptTaskRecord :=
  omap (λ t, r ← d.(tasks) !! t;
             if non_terminal_row r then Some (MkSwept t r.(task_initiative_id) r.(task_state)) else None)
    (sort_strings (elements (dom d.(tasks)))).

Definition sweep_row (now : Z) (r : TaskRow) : TaskRow :=
  if non_terminal_row r
  then write_task_state (as_sql_str TaskState.BlockedRecoveryPending) now (Some SWEEP_REASON) r.(task_actor) r
  else r.

Definition live_token_of_blocked (d : Db) (v : VerifierTokenRow) : bool :=
  negb v.(vrt_consumed) &&
  match d.(tasks) !! v.(vrt_task_id) with Some r => blocked r | None => false end.

Definition expire_token (now : Z) (v : VerifierTokenRow) : VerifierTokenRow :=
  MkVerifierTokenRow v.(vrt_task_id) v.(vrt_gate_type) v.(vrt_evaluation_sha) v.(vrt_token_hash)
    v.(vrt_issued_at) v.(vrt_expires_at) true (Some now) v.(vrt_gate_source) v.(vrt_gate_hook)
    v.(vrt_image_alias) v.(vrt_command) v.(vrt_on_failure) v.(vrt_status) v.(vrt_failure_reason).

(** The number of rows a [WHERE] clause selects. *)
Definition count_rows {K A} `{Countable K} (p : A → bool) (m : gmap K A) : nat :=
  size (filter (λ kv, p kv.2 = true) m).

Definition sweep_tasks_tx (now : Z) : SE Db string (nat * nat * list SweptTaskRecord) :=
  _ ← stmt TasksBegin;
  _ ← stmt TasksPrepare;
  _ ← stmt TasksSelect;
  _ ← stmt TasksDecode;
  swept_detail ← gets pre_sweep_select;
  _ ← stmt TasksSweep;
  swept ← gets (λ d, count_rows non_terminal_row d.(tasks));
  _ ← modify (on_tasks (fmap (sweep_row now)));
  _ ← stmt TasksExpire;
  expired ← gets (λ d, count_rows (live_token_of_blocked d) d.(verifier_tokens));
  _ ← modify (λ d, on_verifier_tokens
         (fmap (λ v, if live_token_of_blocked d v then expire_token now v else v)) d);
  _ ← stmt TasksCommit;
  mret (swept, expired, swept_detail).

Definition reconcile_tasks (now : Z) (d : Db) : ReconciliationReport * Db :=
  match with_tx (sweep_tasks_tx now) d with
  | (Ok (swept, expired, detail), d') => (MkReconciliationReport swept expired detail [], d')
  | (Err msg, d') => (MkReconciliationReport 0 0 [] [msg], d')
  end.

(** A sweep of one bulk statement in its transaction: the rows it counts and
    what it does to them. *)
Definition bulk_sweep {S} (begin execute commit : Statement) (rows : S → nat) (effect : S → S)
    : SE S string nat :=
  _ ← stmt begin;
  _ ← stmt execute;
  n ← gets rows;
  _ ← modify effect;
  _ ← stmt commit;
  mret n.

Definition sweep_report {S} (m : SE S string nat) (s : S) : SweepReport * S :=
  match with_tx m s with
  | (Ok n, s') => (MkSweepReport n [], s')
  | (Err msg, s') => (MkSweepReport 0 [msg], s')
  end.

Definition open_attempt (r : AttemptRow) : bool :=
  bool_decide (r.(att_state) ∈
    [as_sql_str IntegrationMergeAttemptState.AwaitingPreMergeVerifiers;
     as_sql_str IntegrationMergeAttemptState.PreMergeVerifiersPassed])
  && negb (present r.(att_finalized_at)).

Definition fold_attempt (now : Z) (r : AttemptRow) : AttemptRow :=
  MkAttemptRow r.(att_initiative_id) r.(att_orchestrator_session_id) r.(att_requested_commit_sha)
    r.(att_candidate_merge_sha) (as_sql_str IntegrationMergeAttemptState.DiscardedCrashRecovery)
    (Some (as_sql_str IntegrationMergeAttemptDiscardReason.CrashRecovery)) r.(att_created_at) (Some now).

Definition attempts_folded (now : Z) (m : gmap string AttemptRow) : gmap string AttemptRow :=
  (λ r, if open_attempt r then fold_attempt now r else r) <$> m.

Definition reconcile_integration_merge_attempts (now : Z)
    : gmap string AttemptRow → SweepReport * gmap string AttemptRow :=
  sweep_report (bulk_sweep AttemptsBegin AttemptsFold AttemptsCommit
    (count_rows open_attempt) (attempts_folded now)).

(** The reservation's owner is in a terminal state. *)
Definition owner_terminal (d : Db) (k : string * string) : bool :=
  match d.(tasks) !! k.2 with Some r => negb (non_terminal_row r) | None => false end.

Definition orphan_reservations (d : Db) : nat :=
  size (filter (λ kv, owner_terminal d kv.1 = true) d.(reservations)).

Definition reservations_freed (d : Db) : Db :=
  on_reservations (filter (λ kv, owner_terminal d kv.1 = false)) d.

Definition reconcile_orphan_lane_reservations : Db → SweepReport * Db :=
  sweep_report (bulk_sweep ReservationsBegin ReservationsDelete ReservationsCommit
    orphan_reservations reservations_freed).

Definition live_session (r : SessionRow) : bool := negb r.(sess_revoked).

Definition revoke_orphan (now : Z) (r : SessionRow) : SessionRow :=
  MkSessionRow r.(sess_role_id) r.(sess_token) r.(sess_lineage_id) r.(sess_worktree_root)
    r.(sess_base_sha) r.(sess_base_tracking_ref) r.(sess_fetch_quota) r.(sess_sequence_number)
    r.(sess_created_at) r.(sess_expires_at) true (Some (default now r.(sess_revoked_at)))
    r.(sess_agent_type) r.(sess_can_delegate) r.(sess_initiative_id).

Definition sessions_revoked (now : Z) (d : Db) : Db :=
  on_sessions (fmap (λ r, if live_session r then revoke_orphan now r else r)) d.

Definition reconcile_orphan_sessions (now : Z) : Db → SweepReport * Db :=
  sweep_report (bulk_sweep SessionsBegin SessionsRevoke SessionsCommit
    (λ d, count_rows live_session d.(sessions)) (sessions_revoked now)).

(** [Vec::join] *)
Fixpoint join_text (sep : string) (l : list string) : string :=
  match l with
  | [] => ""
  | [s] => s
  | s :: l' => s +:+ sep +:+ join_text sep l'
  end.

Definition reconcile (from_str : string → option Value) (segment : SegmentFile) (clock : BootClock)
    : SE Tables KernelError ReconciliationResult := λ s,
  match verify_audit_chain from_str segment with
  | Err b => (Err (AuditChainBroken b), s)
  | Ok chain_ok =>
      let '(task_report, d1) := reconcile_tasks clock.(tasks_now) s.(db) in
      let '(imerge_report, attempts) :=
        reconcile_integration_merge_attempts clock.(attempts_now) s.(merge_attempts) in
      let '(lane_res_report, d2) := reconcile_orphan_lane_reservations d1 in
      let '(orphan_session_report, d3) := reconcile_orphan_sessions clock.(sessions_now) d2 in
      let s' := MkTables d3 attempts s.(initiative_quarantines) in
      match task_report.(rr_failures) ++ imerge_report.(sr_failures)
              ++ lane_res_report.(sr_failures) ++ orphan_session_report.(sr_failures) with
      | [] => (Ok (MkReconciliationResult task_report.(rr_swept_tasks) task_report.(rr_expired_tokens)
                     imerge_report.(sr_rows) lane_res_report.(sr_rows) orphan_session_report.(sr_rows)
                     chain_ok task_report.(rr_swept_tasks_detail)), s')
      | all_failures => (Err (RecoverySweepFailed (join_text "; " all_failures)), s')
      end
  end.
End sweeps.

(** ** Resumption after a supervised restart *)

Inductive AutoResumeEvent :=
  | StateChanged (e : TaskStateChanged)
  | TaskAutoResumedAfterSupervisorRestart (task_id initiative_id prior_state : string)
      (witness_count_preserved : Z) (supervisor_restart_id : string).

(** The text of [SkippedTransitionFailed], by the step that failed. *)
Inductive ResumeFailure :=
  | TransitionFailed (e : LifecycleError)
  | StateChangedEmitFailed (e : string)
  | ResumedEmitFailed (e : string).

Inductive AutoResumeOutcome :=
  | Resumed (task_id initiative_id prior_state : string) (witness_count_preserved : Z)
  | SkippedQuarantined (task_id initiative_id : string)
  | SkippedPreExistingBlock (task_id initiative_id : string)
  | SkippedTransitionFailed (task_id initiative_id : string) (reason : ResumeFailure).

Record AutoResumeReport := MkAutoResumeReport {
  ar_resumed : nat;
  ar_quarantined : nat;
  ar_pre_existing_block : nat;
  ar_transition_failed : nat;
  ar_outcomes : list AutoResumeOutcome;
  ar_supervisor_restart_id : string;
}.

Definition add_outcome (o : AutoResumeOutcome) (r : AutoResumeReport) : AutoResumeReport :=
  let k (b : bool) := if b then 1 else 0 in
  MkAutoResumeReport
    (r.(ar_resumed) + k (match o with Resumed _ _ _ _ => true | _ => false end))
    (r.(ar_quarantined) + k (match o with SkippedQuarantined _ _ => true | _ => false end))
    (r.(ar_pre_existing_block) + k (match o with SkippedPreExistingBlock _ _ => true | _ => false end))
    (r.(ar_transition_failed) + k (match o with SkippedTransitionFailed _ _ _ => true | _ => false end))
    (r.(ar_outcomes) ++ [o]) r.(ar_supervisor_restart_id).

Section resume.
Context {Sink : Type} (emit : AutoResumeEvent → Sink → result string unit * Sink).
(** The reads that SQLite may refuse, by key, and the clock. *)
Context (quarantine_fails witness_count_fails : string → bool) (now : Z).
Context (supervisor_restart_id : string).

Definition is_quarantined_or_unknown (s : Tables) (initiative_id : string) : bool :=
  quarantine_fails initiative_id || bool_decide (initiative_id ∈ s.(initiative_quarantines)).

(** [u32::try_from(n.max(0)).unwrap_or(u32::MAX)], 0 when the count fails. *)
Definition witness_count (d : Db) (task_id : string) : Z :=
  if witness_count_fails task_id then 0
  else Z.min (Z.of_nat (count_rows (λ w, String.eqb w.(wit_task_id) task_id) d.(witness_records))) u32_max.

Definition state_changed_event (r : TaskTransitionRecord) : AutoResumeEvent :=
  StateChanged (MkTaskStateChanged r.(rec_task_id) (as_sql_str r.(rec_from_state))
    (as_sql_str r.(rec_to_state)) (as_audit_string r.(rec_actor)) r.(rec_policy_epoch) None
    r.(rec_initiative_id)).

Definition resume_one (record : SweptTaskRecord) (w : Tables * Sink) : AutoResumeOutcome * (Tables * Sink) :=
  let '(s, k) := w in
  let t := record.(swept_task_id) in
  let i := record.(swept_initiative_id) in
  if String.eqb record.(swept_prior_state) (as_sql_str TaskState.BlockedRecoveryPending)
  then (SkippedPreExistingBlock t i, (s, k))
  else if is_quarantined_or_unknown s i then (SkippedQuarantined t i, (s, k))
  else match transition_task now t TaskState.Admitted_ None Kernel s.(db) with
       | (Err e, d') => (SkippedTransitionFailed t i (TransitionFailed e), (on_tables_db (λ _, d') s, k))
       | (Ok rec, d') =>
           let s' := on_tables_db (λ _, d') s in
           match emit (state_changed_event rec) k with
           | (Err e, k1) => (SkippedTransitionFailed t i (StateChangedEmitFailed e), (s', k1))
           | (Ok _, k1) =>
               let n := witness_count d' t in
               match emit (TaskAutoResumedAfterSupervisorRestart t i record.(swept_prior_state) n
                             supervisor_restart_id) k1 with
               | (Err e, k2) => (SkippedTransitionFailed t i (ResumedEmitFailed e), (s', k2))
               | (Ok _, k2) => (Resumed t i record.(swept_prior_state) n, (s', k2))
               end
           end
       end.

Definition resume_step (acc : AutoResumeReport * (Tables * Sink)) (record : SweptTaskRecord)
    : AutoResumeReport * (Tables * Sink) :=
  let '(o, w) := resume_one record acc.2 in (add_outcome o acc.1, w).

Definition reconcile_after_supervisor_restart (swept_tasks_detail : list SweptTaskRecord)
    (w : Tables * Sink) : AutoResumeReport * (Tables * Sink) :=
  foldl resume_step (MkAutoResumeReport 0 0 0 0 [] supervisor_restart_id, w) swept_tasks_detail.
End resume.

(** ** What the sweeps do *)

(** The statements of each sweep; a sweep commits when none of them fails. *)
Definition tasks_statements : list Statement :=
  [TasksBegin; TasksPrepare; TasksSelect; TasksDecode; TasksSweep; TasksExpire; TasksCommit].
Definition attempts_statements : list Statement := [AttemptsBegin; AttemptsFold; AttemptsCommit].
Definition reservations_statements : list Statement :=
  [ReservationsBegin; ReservationsDelete; ReservationsCommit].
Definition sessions_statements : list Statement := [SessionsBegin; SessionsRevoke; SessionsCommit].

Definition all_succeed (fault : Statement → option string) (l : list Statement) : bool :=
  forallb (λ s, negb (present (fault s))) l.

(** The committed effect of the task sweep. *)
Definition tasks_swept (now : Z) (d : Db) : Db :=
  let d1 := on_tasks (fmap (sweep_row now)) d in
  on_verifier_tokens (fmap (λ v, if live_token_of_blocked d1 v then expire_token now v else v)) d1.

(** All four of them, with the ones that failed left out. *)
Definition recovered_where (b1 b2 b3 b4 : bool) (clock : BootClock) (s : Tables) : Tables :=
  let d1 := if b1 then tasks_swept clock.(tasks_now) s.(db) else s.(db) in
  let d2 := if b3 then reservations_freed d1 else d1 in
  let d3 := if b4 then sessions_revoked clock.(sessions_now) d2 else d2 in
  MkTables d3 (if b2 then attempts_folded clock.(attempts_now) s.(merge_attempts) else s.(merge_attempts))
    s.(initiative_quarantines).

Definition recovered : BootClock → Tables → Tables := recovered_where true true true true.

Section runs.
Context (fault : Statement → option string).

Lemma reconcile_tasks_run now d :
  ∃ rep, reconcile_tasks fault now d
    = (rep, if all_succeed fault tasks_statements then tasks_swept now d else d) ∧
  (rep.(rr_failures) = [] ↔ all_succeed fault tasks_statements = true) ∧
  (all_succeed fault tasks_statements = true →
   rep.(rr_swept_tasks) = count_rows non_terminal_row d.(tasks) ∧
   rep.(rr_swept_tasks_detail) = pre_sweep_select d ∧
   rep.(rr_expired_tokens)
     = count_rows (live_token_of_blocked (on_tasks (fmap (sweep_row now)) d)) d.(verifier_tokens)).
Proof.
  unfold reconcile_tasks, with_tx, sweep_tasks_tx, stmt, all_succeed, tasks_statements. se_unfold. simpl.
  repeat (case_match; simpl; se_unfold; simplify_eq/=);
    eexists; split; try done; split; try done; intros; done.
Qed.

Lemma bulk_sweep_run {S} (a b c : Statement) (count : S → nat) (f : S → S) (s : S) :
  ∃ rep, sweep_report (bulk_sweep fault a b c count f) s
    = (rep, if all_succeed fault [a; b; c] then f s else s) ∧
  (rep.(sr_failures) = [] ↔ all_succeed fault [a; b; c] = true) ∧
  (all_succeed fault [a; b; c] = true → rep.(sr_rows) = count s).
Proof.
  unfold sweep_report, with_tx, bulk_sweep, stmt, all_succeed. se_unfold. simpl.
  repeat (case_match; simpl; se_unfold; simplify_eq/=);
    eexists; split; try done; split; try done; intros; done.
Qed.

Ltac next_sweep rep Hf Hr :=
  cbn beta iota;
  match goal with
  | |- context [sweep_report (bulk_sweep fault ?a ?b ?c ?n ?f) ?s] =>
      destruct (bulk_sweep_run a b c n f s) as (rep & -> & Hf & Hr)
  end.

(** [reconcile], by the segment check and the statements that fail. *)
Lemma reconcile_run from_str segment clock s :
  let ok1 := all_succeed fault tasks_statements in
  let ok2 := all_succeed fault attempts_statements in
  let ok3 := all_succeed fault reservations_statements in
  let ok4 := all_succeed fault sessions_statements in
  match verify_audit_chain from_str segment with
  | Err b => reconcile fault from_str segment clock s = (Err (AuditChainBroken b), s)
  | Ok _ =>
      ∃ res, reconcile fault from_str segment clock s
        = (res, recovered_where ok1 ok2 ok3 ok4 clock s) ∧
      (if ok1 && ok2 && ok3 && ok4
       then ∃ r, res = Ok r ∧
              r.(rec_swept_tasks) = count_rows non_terminal_row s.(db).(tasks) ∧
              r.(rec_swept_tasks_detail) = pre_sweep_select s.(db) ∧
              r.(rec_expired_tokens)
                = count_rows (live_token_of_blocked (on_tasks (fmap (sweep_row clock.(tasks_now))) s.(db)))
                    s.(db).(verifier_tokens) ∧
              r.(rec_folded_integration_merge_attempts) = count_rows open_attempt s.(merge_attempts) ∧
              r.(rec_orphan_sessions_revoked) = count_rows live_session s.(db).(sessions)
       else ∃ reason, res = Err (RecoverySweepFailed reason))
  end.
Proof.
  intros ok1 ok2 ok3 ok4. unfold reconcile.
  destruct (verify_audit_chain from_str segment) as [b|b]; [| done].
  destruct (reconcile_tasks_run clock.(tasks_now) s.(db)) as (rep1 & -> & Hf1 & Hr1).
  unfold reconcile_integration_merge_attempts, reconcile_orphan_lane_reservations, reconcile_orphan_sessions.
  next_sweep rep2 Hf2 Hr2.
  next_sweep rep3 Hf3 Hr3.
  next_sweep rep4 Hf4 Hr4.
  change (all_succeed fault tasks_statements) with ok1 in Hf1, Hr1 |- *.
  change (all_succeed fault [AttemptsBegin; AttemptsFold; AttemptsCommit]) with ok2 in Hf2, Hr2 |- *.
  change (all_succeed fault [ReservationsBegin; ReservationsDelete; ReservationsCommit]) with ok3 in Hf3, Hr3 |- *.
  change (all_succeed fault [SessionsBegin; SessionsRevoke; SessionsCommit]) with ok4 in Hf4, Hr4 |- *.
  destruct (ok1 && ok2 && ok3 && ok4) eqn:Hall.
  - apply andb_true_iff in Hall as [[[H1 H2]%andb_true_iff H3]%andb_true_iff H4].
    rewrite (proj2 Hf1 H1), (proj2 Hf2 H2), (proj2 Hf3 H3), (proj2 Hf4 H4). simpl.
    eexists. split; [reflexivity |]. eexists. split; [done |]. simpl.
    destruct (Hr1 H1) as (-> & -> & ->). rewrite Hr2, Hr4 by done. split_and!; try done.
    by repeat case_match.
  - assert (Hne : rr_failures rep1 ++ sr_failures rep2 ++ sr_failures rep3 ++ sr_failures rep4 ≠ []).
    { intros (E1 & (E2 & (E3 & E4)%app_eq_nil)%app_eq_nil)%app_eq_nil.
      rewrite (proj1 Hf1 E1), (proj1 Hf2 E2), (proj1 Hf3 E3), (proj1 Hf4 E4) in Hall. done. }
    destruct (rr_failures rep1 ++ _) as [|m ms]; [done |].
    eexists. split; [reflexivity |]. eauto.
Qed.
End runs.

(** ** Quiescence *)

(** No task is between states, and nothing in the store still acts for the
    process that died: no live token of a blocked task, no live session, no
    unfinished merge attempt, no reservation of a finished task. *)
Record quiescent (s : Tables) : Prop := {
  q_tasks : map_Forall (λ _ r, non_terminal_row r = false ∨ blocked r = true) s.(db).(tasks);
  q_tokens : map_Forall (λ _ v, live_token_of_blocked s.(db) v = false) s.(db).(verifier_tokens);
  q_sessions : map_Forall (λ _ r, r.(sess_revoked) = true) s.(db).(sessions);
  q_attempts : map_Forall (λ _ r, open_attempt r = false) s.(merge_attempts);
  q_reservations : map_Forall (λ k _, owner_terminal s.(db) k = false) s.(db).(reservations);
}.

(** The store without the four tables of [Db] that recovery writes. *)
Definition elsewhere (d : Db) : Db :=
  on_tasks (λ _, ∅) (on_verifier_tokens (λ _, ∅) (on_reservations (λ _, ∅) (on_sessions (λ _, ∅) d))).

Lemma sweep_row_terminal now r : non_terminal_row r = false → sweep_row now r = r.
Proof. unfold sweep_row. by intros ->. Qed.

Lemma blocked_in_flight r : blocked r = true → non_terminal_row r = true.
Proof. unfold blocked, non_terminal_row. by intros ->%String.eqb_eq. Qed.

Lemma sweep_row_blocked now r : non_terminal_row r = true → blocked (sweep_row now r) = true.
Proof. unfold sweep_row. by intros ->. Qed.

Lemma sweep_row_in_flight now r : non_terminal_row (sweep_row now r) = non_terminal_row r.
Proof.
  destruct (non_terminal_row r) eqn:E; [| by rewrite sweep_row_terminal].
  by apply blocked_in_flight, sweep_row_blocked.
Qed.

Lemma sweep_row_settled now r : non_terminal_row (sweep_row now r) = false ∨ blocked (sweep_row now r) = true.
Proof.
  destruct (non_terminal_row r) eqn:E; [right; by apply sweep_row_blocked | left; by rewrite sweep_row_in_flight].
Qed.

Lemma sweep_row_twice now r : sweep_row now (sweep_row now r) = sweep_row now r.
Proof.
  unfold sweep_row at 1 3. rewrite sweep_row_in_flight. destruct (non_terminal_row r) eqn:E; [| by rewrite sweep_row_terminal].
  unfold sweep_row. by rewrite E.
Qed.

Lemma fold_attempt_closed now r : open_attempt (if open_attempt r then fold_attempt now r else r) = false.
Proof. destruct (open_attempt r) eqn:E; [| done]. reflexivity. Qed.

Lemma fold_attempt_check now r : attempt_check (fold_attempt now r) = true.
Proof. reflexivity. Qed.

(** A checked attempt that is not open is in a terminal state. *)
Lemma closed_attempt_terminal r :
  attempt_check r = true → open_attempt r = false →
  ∃ st, from_sql_str r.(att_state) = Some st ∧ merge_attempt_is_terminal st = true.
Proof.
  unfold attempt_check, open_attempt. rewrite !orb_true_iff, !andb_true_iff, !String.eqb_eq.
  intros [[[[[Est _] Hf]|[[[Est _] Hf] _]]|[[[Est _] _] _]]|[[Est _] _]] Hopen.
  1,2: rewrite Hf, Est, andb_true_r in Hopen; vm_compute in Hopen; done.
  - rewrite Est. eexists. split; [reflexivity | done].
  - apply bool_decide_eq_true in Est.
    repeat (apply elem_of_cons in Est as [Est|Est];
      [rewrite Est; eexists; split; [reflexivity | done] |]).
    by apply elem_of_nil in Est.
Qed.

Lemma expired_not_live now d v :
  live_token_of_blocked d (if live_token_of_blocked d v then expire_token now v else v) = false.
Proof. by destruct (live_token_of_blocked d v) eqn:E. Qed.

Lemma live_token_tasks d d' v : d.(tasks) = d'.(tasks) → live_token_of_blocked d v = live_token_of_blocked d' v.
Proof. unfold live_token_of_blocked. by intros ->. Qed.

Lemma recovered_quiescent clock s : quiescent (recovered clock s).
Proof.
  split; unfold recovered, recovered_where, sessions_revoked, reservations_freed, tasks_swept, attempts_folded; simpl.
  - intros t r. rewrite lookup_fmap_Some. intros (r0 & <- & _). apply sweep_row_settled.
  - intros k v. rewrite lookup_fmap_Some. intros (v0 & <- & _).
    rewrite (live_token_tasks _ (on_tasks (fmap (sweep_row (tasks_now clock))) (db s))) by done.
    apply expired_not_live.
  - intros k r. rewrite lookup_fmap_Some. intros (r0 & <- & _).
    unfold live_session. by destruct (sess_revoked r0) eqn:E.
  - intros k r. rewrite lookup_fmap_Some. intros (r0 & <- & _). apply fold_attempt_closed.
  - intros k r [_ Hk]%map_lookup_filter_Some. exact Hk.
Qed.

Lemma on_verifier_tokens_id f d : f d.(verifier_tokens) = d.(verifier_tokens) → on_verifier_tokens f d = d.
Proof. destruct d; unfold on_verifier_tokens; simpl. by intros ->. Qed.
Lemma on_reservations_id f d : f d.(reservations) = d.(reservations) → on_reservations f d = d.
Proof. destruct d; unfold on_reservations; simpl. by intros ->. Qed.
Lemma on_sessions_id f d : f d.(sessions) = d.(sessions) → on_sessions f d = d.
Proof. destruct d; unfold on_sessions; simpl. by intros ->. Qed.

Lemma on_db_tasks_id f s : f s.(db).(tasks) = s.(db).(tasks) → on_tables_db (on_tasks f) s = s.
Proof. destruct s as [[]]; unfold on_tables_db, on_tasks; simpl. by intros ->. Qed.

Lemma fmap_rows_id `{Countable K} {A} (f : A → A) (m : gmap K A) :
  map_Forall (λ _ x, f x = x) m → f <$> m = m.
Proof. intros Hm. rewrite <- (map_fmap_id m) at 2. by apply map_fmap_ext. Qed.

Lemma live_token_after_sweep now d v :
  map_Forall (λ _ r, non_terminal_row r = false ∨ blocked r = true) d.(tasks) →
  live_token_of_blocked (on_tasks (fmap (sweep_row now)) d) v = live_token_of_blocked d v.
Proof.
  intros Ht. unfold live_token_of_blocked; simpl. rewrite lookup_fmap.
  destruct (tasks d !! vrt_task_id v) as [r|] eqn:E; [| done]. simpl.
  destruct (Ht _ _ E) as [Hf|Hb]; [by rewrite sweep_row_terminal |].
  by rewrite sweep_row_blocked, Hb by (by apply blocked_in_flight).
Qed.

Lemma owner_terminal_after_sweep now d k :
  owner_terminal (on_tasks (fmap (sweep_row now)) d) k = owner_terminal d k.
Proof.
  unfold owner_terminal; simpl. rewrite lookup_fmap.
  destruct (tasks d !! k.2); simpl; [by rewrite sweep_row_in_flight | done].
Qed.

(** A sweep finds nothing to do in a quiescent store but to stamp the blocked
    tasks again. *)
Lemma recovered_of_quiescent clock s :
  quiescent s → recovered clock s = on_tables_db (on_tasks (fmap (sweep_row clock.(tasks_now)))) s.
Proof.
  intros [Ht Hv Hs Ha Hr]. destruct s as [d m q]; simpl in *.
  assert (Et : tasks_swept (tasks_now clock) d = on_tasks (fmap (sweep_row (tasks_now clock))) d).
  { unfold tasks_swept. apply on_verifier_tokens_id, fmap_rows_id. intros k v Hk.
    rewrite live_token_after_sweep by done. by rewrite (Hv _ _ Hk). }
  unfold recovered, recovered_where, on_tables_db; simpl. rewrite Et. f_equal.
  - unfold reservations_freed. rewrite on_reservations_id.
    + apply on_sessions_id, fmap_rows_id. intros k r Hk. unfold live_session. by rewrite (Hs _ _ Hk).
    + apply map_filter_id. intros k r Hk. simpl. rewrite owner_terminal_after_sweep. eauto.
  - apply fmap_rows_id. intros k r Hk. by rewrite (Ha _ _ Hk).
Qed.

Lemma check_genesis_line_true from_str line b : check_genesis_line from_str line = Ok b → b = true.
Proof.
  unfold check_genesis_line, ok_or, mbind, result_bind.
  intros H. repeat (case_match; simplify_eq/=; try done).
Qed.

Lemma verify_audit_chain_true from_str segment b : verify_audit_chain from_str segment = Ok b → b = true.
Proof.
  unfold verify_audit_chain. destruct segment; try done; repeat (case_match; try done).
  apply check_genesis_line_true.
Qed.

Lemma reconcile_ok_inv fault from_str segment clock s r s' :
  reconcile fault from_str segment clock s = (Ok r, s') →
  verify_audit_chain from_str segment = Ok true ∧ s' = recovered clock s ∧
  r.(rec_swept_tasks_detail) = pre_sweep_select s.(db) ∧
  r.(rec_swept_tasks) = count_rows non_terminal_row s.(db).(tasks).
Proof.
  intros H. pose proof (reconcile_run fault from_str segment clock s) as Hrun. cbn zeta in Hrun.
  destruct (verify_audit_chain from_str segment) as [b|b] eqn:Hseg; [| simpl in Hrun; congruence].
  destruct Hrun as (res & Hres & Hif).
  repeat match type of Hif with context [all_succeed fault ?l] => destruct (all_succeed fault l) end;
    rewrite Hres in H; simpl in Hif; destruct Hif as (r' & Hif);
    try (rewrite Hif in H; discriminate H).
  destruct Hif as (-> & ? & ? & _). injection H as <- <-.
  split_and!; [f_equal; by eapply verify_audit_chain_true | done..].
Qed.

(** ** The captured tasks *)

Lemma elem_of_pre_sweep_select d x :
  x ∈ pre_sweep_select d ↔
  ∃ r, d.(tasks) !! x.(swept_task_id) = Some r ∧ non_terminal_row r = true ∧
    x = MkSwept x.(swept_task_id) r.(task_initiative_id) r.(task_state).
Proof.
  unfold pre_sweep_select. rewrite list_elem_of_omap. split.
  - intros (t & _ & Hx). destruct (tasks d !! t) as [r|] eqn:E; simpl in Hx; [| done].
    destruct (non_terminal_row r) eqn:Ei; [| done]. injection Hx as <-. simpl. eauto.
  - intros (r & Hr & Hi & ->). exists x.(swept_task_id). rewrite Hr. simpl. rewrite Hi. split; [| done].
    rewrite sort_strings_perm. apply elem_of_elements, elem_of_dom. eauto.
Qed.

Lemma pre_sweep_select_NoDup d : NoDup (swept_task_id <$> pre_sweep_select d).
Proof.
  unfold pre_sweep_select.
  assert (Hnd : NoDup (sort_strings (elements (dom d.(tasks))))) by (rewrite sort_strings_perm; apply NoDup_elements).
  induction Hnd as [|t l Hnotin _ IH]; [constructor |]. simpl.
  destruct (tasks d !! t) as [r|] eqn:E; simpl; [| done]. destruct (non_terminal_row r); simpl; [| done].
  constructor; [| done]. rewrite list_elem_of_fmap. intros (x & -> & Hx).
  apply list_elem_of_omap in Hx as (t' & Ht' & Hx).
  destruct (tasks d !! t') as [r'|]; simpl in Hx; [| done]. destruct (non_terminal_row r'); [| done].
  by injection Hx as <-.
Qed.

Lemma count_pre_sweep d : count_rows non_terminal_row d.(tasks) = length (pre_sweep_select d).
Proof.
  unfold count_rows. set (m := filter (λ kv, non_terminal_row kv.2 = true) d.(tasks)).
  assert (Hperm : swept_task_id <$> pre_sweep_select d ≡ₚ elements (dom m)).
  { apply NoDup_Permutation; [apply pre_sweep_select_NoDup | apply NoDup_elements |].
    intros t. rewrite elem_of_elements, elem_of_dom, list_elem_of_fmap. split.
    - intros (x & -> & (r & Hr & Hi & _)%elem_of_pre_sweep_select). exists r.
      by apply map_lookup_filter_Some.
    - intros [r [Hr Hi]%map_lookup_filter_Some]. exists (MkSwept t r.(task_initiative_id) r.(task_state)).
      split; [done |]. apply elem_of_pre_sweep_select. eauto. }
  apply Permutation_length in Hperm. rewrite length_fmap in Hperm. rewrite Hperm.
  by rewrite <- size_dom.
Qed.

(** ** The resumption *)

(** The row of a task that has been admitted again. *)
Definition admit_row (now : Z) (r : TaskRow) : TaskRow :=
  write_task_state (as_sql_str TaskState.Admitted_) now None (as_audit_string Kernel) r.

Section resume_facts.
Context {Sink : Type} (emit : AutoResumeEvent → Sink → result string unit * Sink).
Context (quarantine_fails witness_count_fails : string → bool) (now : Z) (rid : string).

Abbreviation resume_one := (resume_one emit quarantine_fails witness_count_fails now rid).
Abbreviation resume_step := (resume_step emit quarantine_fails witness_count_fails now rid).
Abbreviation resume_all := (reconcile_after_supervisor_restart emit quarantine_fails witness_count_fails now rid).

(** What the sweep decides on before it tries. *)
Definition resumable (s : Tables) (x : SweptTaskRecord) : bool :=
  negb (String.eqb x.(swept_prior_state) (as_sql_str TaskState.BlockedRecoveryPending))
  && negb (is_quarantined_or_unknown quarantine_fails s x.(swept_initiative_id)).

Definition is_resumed (o : AutoResumeOutcome) : bool := match o with Resumed _ _ _ _ => true | _ => false end.

Lemma resume_one_tasks x s k row :
  activations_ok s.(db) → s.(db).(tasks) !! x.(swept_task_id) = Some row → blocked row = true →
  ∃ o s' k', resume_one x (s, k) = (o, (s', k')) ∧
    s'.(merge_attempts) = s.(merge_attempts) ∧ s'.(initiative_quarantines) = s.(initiative_quarantines) ∧
    activations_ok s'.(db) ∧
    s'.(db).(tasks) = (if resumable s x then <[x.(swept_task_id) := admit_row now row]> s.(db).(tasks) else s.(db).(tasks)) ∧
    (resumable s x = false → is_resumed o = false) ∧
    ((∀ e k0, (emit e k0).1 = Ok tt) → is_resumed o = resumable s x).
Proof.
  intros Hact Hrow Hb. unfold Recovery.resume_one, resumable.
  destruct (String.eqb _ _); simpl; [by eauto 15 |].
  destruct (is_quarantined_or_unknown _ _ _); simpl; [by eauto 15 |].
  apply String.eqb_eq in Hb.
  rewrite transition_task_run, transition_task_in_tx_run by done.
  rewrite Hrow, Hb, from_as_sql_str. simpl.
  assert (Hact' := transitioned_activations_ok now x.(swept_task_id) TaskState.Admitted_ None Kernel row _ Hact).
  destruct (emit _ k) as [[[]|e1] k1] eqn:E1;
    [destruct (emit _ k1) as [[[]|e2] k2] eqn:E2 |]; do 3 eexists; split_and!; try done; intros Hk;
    match goal with E : emit ?e ?k0 = (Err _, _) |- _ => specialize (Hk e k0); by rewrite E in Hk end.
Qed.

(** The captured tasks the sweep goes on to admit. *)
Definition to_resume (s : Tables) (l : list SweptTaskRecord) : list SweptTaskRecord :=
  filter (λ x, resumable s x = true) l.

Lemma to_resume_cons s x l :
  to_resume s (x :: l) = (if resumable s x then [x] else []) ++ to_resume s l.
Proof.
  unfold to_resume. rewrite filter_cons.
  destruct (resumable s x); [by rewrite decide_True | by rewrite decide_False].
Qed.

Lemma to_resume_ids s x l :
  x.(swept_task_id) ∉ swept_task_id <$> l → x.(swept_task_id) ∉ swept_task_id <$> to_resume s l.
Proof.
  intros Hx (y & Hxy & Hy)%list_elem_of_fmap. apply Hx. rewrite Hxy. apply list_elem_of_fmap_2.
  by apply list_elem_of_filter in Hy as [_ Hy].
Qed.

Lemma to_resume_quarantines s s' l :
  s'.(initiative_quarantines) = s.(initiative_quarantines) → to_resume s' l = to_resume s l.
Proof.
  intros Hq. apply list_filter_ext. intros y _. unfold resumable, is_quarantined_or_unknown. by rewrite Hq.
Qed.

(** The rows after the sweep has gone through [l]. *)
Definition resumed_row (s : Tables) (l : list SweptTaskRecord) (t : string) : option TaskRow :=
  (λ r, if bool_decide (t ∈ swept_task_id <$> to_resume s l) then admit_row now r else r)
    <$> s.(db).(tasks) !! t.

Lemma resumed_row_cons s s1 x row l t :
  x.(swept_task_id) ∉ swept_task_id <$> l → s.(db).(tasks) !! x.(swept_task_id) = Some row →
  s1.(initiative_quarantines) = s.(initiative_quarantines) →
  s1.(db).(tasks) = (if resumable s x then <[x.(swept_task_id) := admit_row now row]> s.(db).(tasks) else s.(db).(tasks)) →
  resumed_row s1 l t = resumed_row s (x :: l) t.
Proof.
  intros Hx Hrow Hq Ht1. unfold resumed_row. rewrite (to_resume_quarantines s s1 l Hq), to_resume_cons, Ht1.
  pose proof (to_resume_ids s _ _ Hx) as Hx'.
  destruct (resumable s x); [| done]. destruct (decide (t = x.(swept_task_id))) as [->|Hne].
  - rewrite lookup_insert_eq, Hrow, bool_decide_eq_false_2, bool_decide_eq_true_2 by (done || constructor). done.
  - rewrite lookup_insert_ne by done.
    assert (E : bool_decide (t ∈ swept_task_id <$> to_resume s l) =
                bool_decide (t ∈ swept_task_id <$> [x] ++ to_resume s l)).
    { apply bool_decide_ext. rewrite fmap_app, elem_of_app, fmap_cons, elem_of_cons, fmap_nil, elem_of_nil. naive_solver. }
    by rewrite E.
Qed.

Definition outcomes_counted (r : AutoResumeReport) : nat :=
  r.(ar_resumed) + r.(ar_quarantined) + r.(ar_pre_existing_block) + r.(ar_transition_failed).

Lemma outcomes_counted_add o r : outcomes_counted (add_outcome o r) = S (outcomes_counted r).
Proof. unfold outcomes_counted. destruct o; simpl; lia. Qed.

Lemma ar_resumed_add o r : (add_outcome o r).(ar_resumed) = r.(ar_resumed) + (if is_resumed o then 1 else 0).
Proof. by destruct o. Qed.

Lemma resume_fold_tasks l : ∀ s k rep,
  activations_ok s.(db) → NoDup (swept_task_id <$> l) →
  Forall (λ x, ∃ row, s.(db).(tasks) !! x.(swept_task_id) = Some row ∧ blocked row = true) l →
  ∃ rep' s' k', foldl resume_step (rep, (s, k)) l = (rep', (s', k')) ∧
    (∀ t, s'.(db).(tasks) !! t = resumed_row s l t) ∧
    outcomes_counted rep' = outcomes_counted rep + length l ∧
    rep'.(ar_resumed) ≤ rep.(ar_resumed) + length (to_resume s l) ∧
    ((∀ e k0, (emit e k0).1 = Ok tt) → rep'.(ar_resumed) = rep.(ar_resumed) + length (to_resume s l)).
Proof.
  induction l as [|x l IH]; intros s k rep Hact Hnd Hl.
  - exists rep, s, k. split_and!; [done | | simpl; lia..]. intros t.
    unfold resumed_row. by destruct (tasks (db s) !! t).
  - apply NoDup_cons in Hnd as [Hx Hnd]. apply Forall_cons in Hl as [(row & Hrow & Hb) Hl].
    destruct (resume_one_tasks x s k row Hact Hrow Hb) as (o & s1 & k1 & Hone & _ & Hq & Hact1 & Ht1 & Hno & Hyes).
    edestruct (IH s1 k1 (add_outcome o rep) Hact1 Hnd) as (rep' & s' & k' & Hf & Ht' & Hsum & Hle & Heq).
    { apply Forall_forall. intros y Hy. destruct (proj1 (Forall_forall _ _) Hl y Hy) as (row' & Hrow' & Hb').
      exists row'. split; [| done]. rewrite Ht1. destruct (resumable s x); [| done].
      rewrite lookup_insert_ne; [done |]. intros E. apply Hx. rewrite E. by apply list_elem_of_fmap_2. }
    assert (Hstep : resume_step (rep, (s, k)) x = (add_outcome o rep, (s1, k1))).
    { unfold Recovery.resume_step. cbn [fst snd]. by rewrite Hone. }
    exists rep', s', k'. cbn [foldl]. rewrite Hstep.
    rewrite (to_resume_quarantines s s1 l Hq) in *. rewrite ar_resumed_add in *. rewrite outcomes_counted_add in Hsum.
    rewrite to_resume_cons, length_app. split_and!; [done | | simpl; lia | |].
    + intros t. rewrite Ht'. by eapply resumed_row_cons.
    + destruct (resumable s x) eqn:Er; [destruct (is_resumed o); simpl; lia |]. rewrite Hno in Hle by done. simpl; lia.
    + intros Hk. rewrite (Heq Hk), (Hyes Hk). destruct (resumable s x); simpl; lia.
Qed.
End resume_facts.

(** ** Runs over a recovered store *)

Lemma swept_ids_after_sweep clock s :
  swept_task_id <$> pre_sweep_select (recovered clock s).(db) = swept_task_id <$> pre_sweep_select s.(db).
Proof.
  unfold pre_sweep_select. simpl. rewrite dom_fmap_L. rewrite !list_fmap_omap.
  apply list_omap_ext, Forall_Forall2_diag, Forall_forall. intros t _. simpl.
  rewrite lookup_fmap. destruct (tasks (db s) !! t) as [row|]; [| done]. simpl.
  rewrite sweep_row_in_flight. by destruct (non_terminal_row row).
Qed.

Lemma all_blocked_after_sweep clock s :
  Forall (λ x, x.(swept_prior_state) = as_sql_str TaskState.BlockedRecoveryPending)
    (pre_sweep_select (recovered clock s).(db)).
Proof.
  apply Forall_forall. intros x (r & Hr & Hi & ->)%elem_of_pre_sweep_select. simpl.
  destruct (q_tasks _ (recovered_quiescent clock s) _ _ Hr) as [Hf|Hb]; [congruence |].
  by apply String.eqb_eq in Hb.
Qed.

Lemma swept_are_blocked clock s x :
  x ∈ pre_sweep_select s.(db) →
  ∃ row, (recovered clock s).(db).(tasks) !! x.(swept_task_id) = Some row ∧ blocked row = true.
Proof.
  intros (r & Hr & Hi & ->)%elem_of_pre_sweep_select. simpl. rewrite lookup_fmap, Hr. simpl.
  eexists. split; [done |]. by apply sweep_row_blocked.
Qed.

Lemma to_resume_iff quarantine_fails s t row :
  s.(db).(tasks) !! t = Some row →
  t ∈ swept_task_id <$> to_resume quarantine_fails s (pre_sweep_select s.(db)) ↔
  non_terminal_row row && negb (blocked row)
    && negb (is_quarantined_or_unknown quarantine_fails s row.(task_initiative_id)) = true.
Proof.
  intros Hrow. rewrite list_elem_of_fmap. unfold to_resume, resumable. rewrite !andb_true_iff. split.
  - intros (x & -> & [Hr Hx]%list_elem_of_filter). apply elem_of_pre_sweep_select in Hx as (r & Hr' & Hi & Hxe).
    rewrite Hxe in Hr. simpl in Hr. simplify_eq. by apply andb_true_iff in Hr as [? ?].
  - intros [[Hi Hb] Hq]. exists (MkSwept t row.(task_initiative_id) row.(task_state)). split; [done |].
    apply list_elem_of_filter. split; [by apply andb_true_iff |]. apply elem_of_pre_sweep_select. eauto.
Qed.

Lemma decision_bool {A} (P : Prop) `{Decision P} (b : bool) (x y : A) :
  (P ↔ b = true) → (if bool_decide P then x else y) = (if b then x else y).
Proof. intros HP. destruct b; [rewrite bool_decide_eq_true_2 | rewrite bool_decide_eq_false_2]; naive_solver. Qed.

(** Captured tasks that were already blocked are passed over. *)
Lemma resume_all_blocked {Sink} (emit : AutoResumeEvent → Sink → result string unit * Sink)
    quarantine_fails witness_count_fails now rid l : ∀ rep w,
  Forall (λ x, x.(swept_prior_state) = as_sql_str TaskState.BlockedRecoveryPending) l →
  foldl (resume_step emit quarantine_fails witness_count_fails now rid) (rep, w) l
  = (MkAutoResumeReport rep.(ar_resumed) rep.(ar_quarantined) (rep.(ar_pre_existing_block) + length l)
       rep.(ar_transition_failed)
       (rep.(ar_outcomes) ++ ((λ x, SkippedPreExistingBlock x.(swept_task_id) x.(swept_initiative_id)) <$> l))
       rep.(ar_supervisor_restart_id), w).
Proof.
  induction l as [|x l IH]; intros rep [s k] Hl.
  - simpl. rewrite app_nil_r, Nat.add_0_r. by destruct rep.
  - apply Forall_cons in Hl as [Hx Hl]. cbn [foldl].
    assert (Hstep : resume_step emit quarantine_fails witness_count_fails now rid (rep, (s, k)) x
      = (add_outcome (SkippedPreExistingBlock x.(swept_task_id) x.(swept_initiative_id)) rep, (s, k))).
    { unfold resume_step, resume_one. cbn [fst snd]. by rewrite Hx. }
    rewrite Hstep, IH by done. simpl. rewrite !Nat.add_0_r, <- app_assoc, <- Nat.add_assoc. done.
Qed.

Lemma admitted_rows {Sink} (emit : AutoResumeEvent → Sink → result string unit * Sink)
    quarantine_fails witness_count_fails now rid fault from_str segment clock s r s' k rep s'' k' :
  activations_ok s.(db) →
  reconcile fault from_str segment clock s = (Ok r, s') →
  reconcile_after_supervisor_restart emit quarantine_fails witness_count_fails now rid
    r.(rec_swept_tasks_detail) (s', k) = (rep, (s'', k')) →
  let resumes row := non_terminal_row row && negb (blocked row)
    && negb (is_quarantined_or_unknown quarantine_fails s row.(task_initiative_id)) in
  (∀ t, s''.(db).(tasks) !! t =
     (λ row, if resumes row then admit_row now (sweep_row clock.(tasks_now) row)
             else sweep_row clock.(tasks_now) row) <$> s.(db).(tasks) !! t) ∧
  outcomes_counted rep = length r.(rec_swept_tasks_detail) ∧
  rep.(ar_resumed) ≤ length (to_resume quarantine_fails s r.(rec_swept_tasks_detail)) ∧
  ((∀ e k0, (emit e k0).1 = Ok tt) →
   rep.(ar_resumed) = length (to_resume quarantine_fails s r.(rec_swept_tasks_detail))).
Proof.
  intros Hact (_ & -> & Hd & _)%reconcile_ok_inv Hrun resumes. rewrite Hd in *. clear Hd r.
  unfold reconcile_after_supervisor_restart in Hrun.
  edestruct (resume_fold_tasks emit quarantine_fails witness_count_fails now rid (pre_sweep_select s.(db))
    (recovered clock s) k) as (rep1 & s1 & k1 & Hf & Ht & Hsum & Hle & Heq);
    [exact Hact | apply pre_sweep_select_NoDup | apply Forall_forall, swept_are_blocked |].
  rewrite Hrun in Hf. simplify_eq.
  rewrite (to_resume_quarantines _ s (recovered clock s)) in Hle, Heq by done. split_and!; try done.
  intros t. rewrite Ht. unfold resumed_row.
  rewrite (to_resume_quarantines _ s (recovered clock s)) by done.
  simpl. rewrite lookup_fmap. destruct (tasks (db s) !! t) as [row|] eqn:Hrow; [| done]. simpl. f_equal.
  subst resumes. simpl. apply decision_bool. by apply to_resume_iff.
Qed.

(** ** Theorems *)

(** A broken audit segment stops recovery before it writes; otherwise each sweep
    is committed whole or not at all, according to whether one of its own
    statements fails, whatever happens to the others, and recovery succeeds
    exactly when none fails. *)
Theorem reconcile_outcome fault from_str segment clock s :
  let committed := all_succeed fault in
  let '(res, s') := reconcile fault from_str segment clock s in
  match verify_audit_chain from_str segment with
  | Err b => res = Err (AuditChainBroken b) ∧ s' = s
  | Ok _ =>
      s' = recovered_where (committed tasks_statements) (committed attempts_statements)
             (committed reservations_statements) (committed sessions_statements) clock s ∧
      (is_ok res = true ↔ ∀ st, fault st = None)
  end.
Proof.
  cbn zeta. pose proof (reconcile_run fault from_str segment clock s) as Hrun. cbn zeta in Hrun.
  destruct (reconcile fault from_str segment clock s) as [res s'].
  destruct (verify_audit_chain from_str segment) as [b|b]; [| by simplify_eq].
  destruct Hrun as (res' & E & Hif). simplify_eq. split; [done |].
  assert (Hall : all_succeed fault tasks_statements && all_succeed fault attempts_statements &&
    all_succeed fault reservations_statements && all_succeed fault sessions_statements = true ↔ ∀ st, fault st = None).
  { unfold all_succeed; simpl. rewrite !andb_true_iff, !negb_true_iff. split.
    - intros H st. assert (Hn : present (fault st) = false) by (destruct st; tauto). by destruct (fault st).
    - intros H. rewrite !H. done. }
  rewrite <- Hall. destruct (_ && _ && _ && _).
  - destruct Hif as (r & -> & _). done.
  - destruct Hif as (reason & ->). done.
Qed.

(** C30: When recovery succeeds the store is quiescent: every task is terminal or
    blocked, no live verifier token belongs to a blocked task, every session is
    revoked, every merge attempt is in a terminal state and satisfies the table's
    CHECK, and no reservation is held by a finished task; finished tasks keep
    their rows, no task appears or disappears, and no other table changes. *)
Theorem reconcile_quiesces fault from_str segment clock s r s' :
  map_Forall (λ _ a, attempt_check a = true) s.(merge_attempts) →
  reconcile fault from_str segment clock s = (Ok r, s') →
  quiescent s' ∧
  map_Forall (λ _ a, attempt_check a = true ∧
     ∃ st, from_sql_str a.(att_state) = Some st ∧ merge_attempt_is_terminal st = true) s'.(merge_attempts) ∧
  (∀ t row, s.(db).(tasks) !! t = Some row → non_terminal_row row = false → s'.(db).(tasks) !! t = Some row) ∧
  dom s'.(db).(tasks) = dom s.(db).(tasks) ∧
  elsewhere s'.(db) = elsewhere s.(db) ∧
  r.(rec_swept_tasks) = length r.(rec_swept_tasks_detail).
Proof.
  intros Hchk (_ & -> & Hd & Hn)%reconcile_ok_inv. pose proof (recovered_quiescent clock s) as Hq.
  split_and!; [done | | | | done |].
  - intros k a Ha. pose proof (q_attempts _ Hq _ _ Ha) as Hcl.
    assert (Hc : attempt_check a = true).
    { simpl in Ha. apply lookup_fmap_Some in Ha as (a0 & <- & Ha0).
      destruct (open_attempt a0); [apply fold_attempt_check | by eapply Hchk]. }
    split; [done |]. by apply closed_attempt_terminal.
  - intros t row Hrow Hf. simpl. rewrite lookup_fmap, Hrow. simpl. by rewrite sweep_row_terminal.
  - simpl. apply dom_fmap_L.
  - rewrite Hd, Hn. by apply count_pre_sweep.
Qed.

(** Recovery after recovery: a second boot, with no statement failing, finds the
    same tasks, each blocked, and nothing else to do; it re-stamps the blocked
    rows (their reason and time) and leaves every other table as it is. *)
Theorem reconcile_again fault fault' from_str segment clock clock' s r s' r' s'' :
  reconcile fault from_str segment clock s = (Ok r, s') →
  reconcile fault' from_str segment clock' s' = (Ok r', s'') →
  s'' = on_tables_db (on_tasks (fmap (sweep_row clock'.(tasks_now)))) s' ∧
  r'.(rec_swept_tasks_detail) = pre_sweep_select s'.(db) ∧
  swept_task_id <$> r'.(rec_swept_tasks_detail) = swept_task_id <$> r.(rec_swept_tasks_detail) ∧
  Forall (λ x, x.(swept_prior_state) = as_sql_str TaskState.BlockedRecoveryPending) r'.(rec_swept_tasks_detail) ∧
  (clock'.(tasks_now) = clock.(tasks_now) → s'' = s').
Proof.
  intros (_ & -> & Hd & _)%reconcile_ok_inv (_ & -> & Hd' & _)%reconcile_ok_inv.
  pose proof (recovered_quiescent clock s) as Hq.
  rewrite (recovered_of_quiescent clock' _ Hq). rewrite Hd, Hd'.
  split_and!; [done | done | by apply swept_ids_after_sweep | by apply all_blocked_after_sweep |].
  intros ->. apply on_db_tasks_id, map_eq. intros t. simpl. rewrite !lookup_fmap.
  destruct (tasks (db s) !! t); simpl; [by rewrite sweep_row_twice | done].
Qed.

(** C36: After a successful recovery, the resumption admits again exactly the
    tasks that were in flight, were not already blocked before this boot and whose
    initiative is not quarantined (a quarantine that cannot be read counts as
    one); every other task keeps the row recovery gave it.  This holds whatever
    the audit sink does; the sink only decides how many of the admitted tasks are
    reported as resumed, and reports all of them when it never fails. *)
Theorem auto_resume_admits_exactly {Sink} (emit : AutoResumeEvent → Sink → result string unit * Sink)
    quarantine_fails witness_count_fails now rid fault from_str segment clock s r s' k rep s'' k' :
  activations_ok s.(db) →
  reconcile fault from_str segment clock s = (Ok r, s') →
  reconcile_after_supervisor_restart emit quarantine_fails witness_count_fails now rid
    r.(rec_swept_tasks_detail) (s', k) = (rep, (s'', k')) →
  let resumes row := non_terminal_row row && negb (blocked row)
    && negb (is_quarantined_or_unknown quarantine_fails s row.(task_initiative_id)) in
  (∀ t, s''.(db).(tasks) !! t =
     (λ row, if resumes row then admit_row now (sweep_row clock.(tasks_now) row)
             else sweep_row clock.(tasks_now) row) <$> s.(db).(tasks) !! t) ∧
  outcomes_counted rep = length r.(rec_swept_tasks_detail) ∧
  rep.(ar_resumed) ≤ length (to_resume quarantine_fails s r.(rec_swept_tasks_detail)) ∧
  ((∀ e k0, (emit e k0).1 = Ok tt) →
   rep.(ar_resumed) = length (to_resume quarantine_fails s r.(rec_swept_tasks_detail))).
Proof. apply admitted_rows. Qed.

(** C39: If the kernel dies between the sweep of one boot and its resumption, the
    next boot resumes nothing: every task that was in flight is reported as a
    block that existed before, stays blocked, and nothing is emitted, although
    only the sweep ever blocks a task. *)
Theorem interrupted_boot_strands_tasks {Sink} (emit : AutoResumeEvent → Sink → result string unit * Sink)
    quarantine_fails witness_count_fails now rid fault fault' from_str segment clock clock' s r s' r' s'' k rep w :
  reconcile fault from_str segment clock s = (Ok r, s') →
  reconcile fault' from_str segment clock' s' = (Ok r', s'') →
  reconcile_after_supervisor_restart emit quarantine_fails witness_count_fails now rid
    r'.(rec_swept_tasks_detail) (s'', k) = (rep, w) →
  w = (s'', k) ∧ rep.(ar_resumed) = 0 ∧ rep.(ar_pre_existing_block) = length r.(rec_swept_tasks_detail) ∧
  (∀ t row, s.(db).(tasks) !! t = Some row → non_terminal_row row = true →
   ∃ row', s''.(db).(tasks) !! t = Some row' ∧ blocked row' = true) ∧
  (∀ st, is_legal_transition st TaskState.BlockedRecoveryPending = false).
Proof.
  intros H1 H2 Hrun.
  destruct (reconcile_again _ _ _ _ _ _ _ _ _ _ _ H1 H2) as (-> & _ & Hids & Hall & _).
  apply reconcile_ok_inv in H1 as (_ & -> & _ & _).
  unfold reconcile_after_supervisor_restart in Hrun.
  rewrite resume_all_blocked in Hrun by done. simplify_eq. simpl.
  split_and!; [done | done | | | by intros []].
  - by rewrite <- (length_fmap swept_task_id), Hids, length_fmap.
  - intros t row Hrow Hi. simpl. rewrite !lookup_fmap, Hrow. eexists. split; [done |].
    apply sweep_row_blocked. by rewrite sweep_row_in_flight.
Qed.

(** ** A concrete store *)
Module RecoveryExamples.

Definition row (st : string) : TaskRow :=
  MkTaskRow "i1" "lane" st None "kernel" 3 10 11 None None None None None 0 None None false None None 0.
Definition token : VerifierTokenRow :=
  MkVerifierTokenRow "t1" "Tests" "sha" "hash" 10 1000 false None "Plan" "PreMerge" None None None "Pending" None.
Definition session : SessionRow :=
  MkSessionRow "planner" "tok" "lin" None None None 5 0 10 1000 false None (Some "Executor") false (Some "i1").
Definition attempt : AttemptRow :=
  MkAttemptRow "i1" "s1" "sha" None "AwaitingPreMergeVerifiers" None 10 None.
Definition tables : Tables :=
  MkTables
    (on_tasks (λ _, list_to_map [("t1", row "Running"); ("t2", row "Completed"); ("t3", row "BlockedRecoveryPending")])
      (on_verifier_tokens (λ _, {["v1" := token]})
        (on_sessions (λ _, {["s1" := session]})
          (on_reservations (λ _, {[("lane", "t2") := MkReservationRow 7 10]}) empty_db))))
    {["a1" := attempt]} ∅.
Definition no_fault (_ : Statement) : option string := None.
Definition genesis (_ : string) : option Value :=
  Some (JsonObject [("seq", JsonNumber "0"); ("event_kind", JsonString "GenesisRecord")]).
Definition clock : BootClock := MkBootClock 100 101 102.
Definition accept (_ : AutoResumeEvent) (n : nat) : result string unit * nat := (Ok tt, S n).

Definition first_boot := reconcile no_fault genesis (SegmentBytes "{}") clock tables.
Definition second_boot := reconcile no_fault genesis (SegmentBytes "{}") clock first_boot.2.
Definition report_of (x : result KernelError ReconciliationResult) : ReconciliationResult :=
  match x with Ok r => r | Err _ => MkReconciliationResult 0 0 0 0 0 false [] end.

Example first_boot_counts :
  let r := report_of first_boot.1 in
  (r.(rec_swept_tasks), r.(rec_expired_tokens), r.(rec_folded_integration_merge_attempts),
   r.(rec_orphan_lane_reservations_freed), r.(rec_orphan_sessions_revoked),
   r.(rec_swept_tasks_detail)) =
  (2, 1, 1, 1, 1, [MkSwept "t1" "i1" "Running"; MkSwept "t3" "i1" "BlockedRecoveryPending"]).
Proof. vm_compute. reflexivity. Qed.

Definition resume_after (x : result KernelError ReconciliationResult * Tables) :=
  reconcile_after_supervisor_restart accept (λ _, false) (λ _, false) 200 "supervisor-restart-1-1"
    (report_of x.1).(rec_swept_tasks_detail) (x.2, 0).

Example resumed_counts :
  let '(rep, (s, n)) := resume_after first_boot in
  (rep.(ar_resumed), rep.(ar_pre_existing_block), n, task_state <$> s.(db).(tasks) !! "t1",
   task_state <$> s.(db).(tasks) !! "t3") = (1, 1, 2, Some "Admitted", Some "BlockedRecoveryPending").
Proof. vm_compute. reflexivity. Qed.

Lemma reconcile_quiesces_witness : quiescent first_boot.2.
Proof.
  eapply (reconcile_quiesces no_fault genesis (SegmentBytes "{}") clock tables (report_of first_boot.1)).
  - apply (bool_decide_unpack _). vm_compute. exact I.
  - vm_compute. reflexivity.
Defined.

Lemma auto_resume_admits_exactly_witness : (resume_after first_boot).1.(ar_resumed) = 1.
Proof.
  eapply (auto_resume_admits_exactly accept (λ _, false) (λ _, false) 200 "supervisor-restart-1-1" no_fault genesis
    (SegmentBytes "{}") clock tables (report_of first_boot.1) first_boot.2 0
    (resume_after first_boot).1 (resume_after first_boot).2.1 (resume_after first_boot).2.2).
  - apply (bool_decide_unpack _). vm_compute. exact I.
  - vm_compute. reflexivity.
  - vm_compute. reflexivity.
  - done.
Defined.

Lemma interrupted_boot_strands_tasks_witness : (resume_after second_boot).1.(ar_resumed) = 0.
Proof.
  eapply (interrupted_boot_strands_tasks accept (λ _, false) (λ _, false) 200 "supervisor-restart-1-1" no_fault no_fault
    genesis (SegmentBytes "{}") clock clock tables (report_of first_boot.1) first_boot.2 (report_of second_boot.1)
    second_boot.2 0 (resume_after second_boot).1 (resume_after second_boot).2).
  - vm_compute. reflexivity.
  - vm_compute. reflexivity.
  - vm_compute. reflexivity.
Defined.

Lemma reconcile_again_witness :
  swept_task_id <$> (report_of second_boot.1).(rec_swept_tasks_detail) = ["t1"; "t3"].
Proof.
  transitivity (swept_task_id <$> (report_of first_boot.1).(rec_swept_tasks_detail)); [| vm_compute; reflexivity].
  eapply (reconcile_again no_fault no_fault genesis (SegmentBytes "{}") clock clock tables (report_of first_boot.1)
    first_boot.2 (report_of second_boot.1) second_boot.2).
  - vm_compute. reflexivity.
  - vm_compute. reflexivity.
Defined.
End RecoveryExamples.
