(* ===== verification/RestartLifecycle.v ===== *)
(** * The restart context at boot

    [kernel/src/restart_lifecycle.rs] with the dump directory of
    [kernel/src/deadlock_dump.rs], and the steps of [kernel/src/main.rs] that run
    recovery, put the restart context in the audit chain and resume tasks.  The
    JSON codecs, the I/O failures and the audit sink are parameters. *)

From S2P Require Import Prelude Fsm Store TaskTransitions AuditChain Json Hosts Recovery.
From stdpp Require Import pretty.

Definition sat_add_u32 (x y : Z) : Z := Z.min (x + y) u32_max.

(** ** Deadlock dumps *)

Record DeadlockDump := MkDeadlockDump {
  dd_detected_at_unix_secs : Z;
  dd_thread_count : Z;
  dd_lock_count : Z;
}.

Definition is_ascii_digit (c : Ascii.ascii) : bool :=
  let n := Ascii.nat_of_ascii c in (48 <=? n) && (n <=? 57).

Definition is_dump_filename (name : string) : bool :=
  if negb (starts_with "deadlock_dump_" name) || negb (ends_with_str ".json" name) then false
  else
    let stem := String.substring 14 (String.length name - 5 - 14) name in
    negb (String.eqb stem "") && forallb is_ascii_digit (chars stem).

(** An entry of the data directory, with the content of a regular file. *)
Inductive Entry := RegularFile (content : string) | OtherEntry.

Record DataDir := MkDataDir {
  entries : gmap string Entry;
  consumed : gmap string string;
}.

Definition pending_dump (dir : DataDir) (name : string) : bool :=
  match dir.(entries) !! name with
  | Some (RegularFile _) => utf8_valid name && is_dump_filename name
  | _ => false
  end.

Definition scan_pending_dumps (dir : DataDir) : list string :=
  filter (λ name, pending_dump dir name = true) (sort_strings (elements (dom dir.(entries)))).

Definition dump_content (dir : DataDir) (name : string) : option string :=
  match dir.(entries) !! name with Some (RegularFile c) => Some c | _ => None end.

(** [fs::rename] into the consumed directory. *)
Definition move_to_consumed (name : string) (dir : DataDir) : DataDir :=
  match dump_content dir name with
  | Some c => MkDataDir (delete name dir.(entries)) (<[name := c]> dir.(consumed))
  | None => dir
  end.

(** ** The supervisor's sentinel *)

Record SentinelView := MkSentinelView {
  sv_status : string;
  sv_last_restart_reason : option string;
  sv_prev_run_exit_code : option Z;
  sv_attempt_n : option Z;
  sv_max_attempts : option Z;
  sv_last_restart_unix_ts : option Z;
  sv_sub_state : option string;
}.

Section sentinel.
(** [serde_json::from_slice] at the two types, and [to_vec_pretty]. *)
Context (view_from_slice : string → option SentinelView).
Context (value_from_slice : string → option Value) (to_vec_pretty : Value → option string).

(** The file's bytes, absent when it does not exist or cannot be read. *)
Definition read_sentinel_any_status (file : option string) : option SentinelView :=
  bytes ← file; view_from_slice bytes.

Definition read_sentinel_for_restart (file : option string) : option SentinelView :=
  match read_sentinel_any_status file with
  | Some v => if String.eqb v.(sv_status) "Restarting" then Some v else None
  | None => None
  end.

(** [value[key] = v] on an object. *)
Definition json_set (key : string) (x : Value) (v : Value) : Value :=
  match v with
  | JsonObject fields =>
      if existsb (λ f, String.eqb f.1 key) fields
      then JsonObject ((λ f, if String.eqb f.1 key then (key, x) else f) <$> fields)
      else JsonObject (fields ++ [(key, x)])
  | _ => v
  end.

Inductive MarkError := InvalidData (what : string) | WriteFailed.

Definition rehydrated_value (process_id now : Z) (v : Value) : Value :=
  json_set "updated_at_unix_secs" (JsonNumber (pretty now))
    (json_set "kernel_pid" (JsonNumber (pretty process_id))
      (json_set "sub_state" JsonNull
        (json_set "status" (JsonString "Healthy") v))).

(** The new content of the file; [write_fails] stands for any step between the
    temporary file and the rename. *)
Definition mark_restart_sentinel_rehydrated (write_fails : bool) (process_id now : Z) (file : option string)
    : result MarkError bool * option string :=
  match file with
  | None => (Ok false, file)
  | Some bytes =>
      match value_from_slice bytes with
      | None => (Err (InvalidData "deserialization"), file)
      | Some value =>
          match json_get "status" value ≫= json_as_str with
          | Some s =>
              if negb (String.eqb s "Restarting") then (Ok false, file)
              else match to_vec_pretty (rehydrated_value process_id now value) with
                   | None => (Err (InvalidData "serialization"), file)
                   | Some out => if write_fails then (Err WriteFailed, file) else (Ok true, Some out)
                   end
          | None => (Ok false, file)
          end
      end
  end.
End sentinel.

(** ** The restart context in the audit chain *)

Inductive LifecycleEvent :=
  | KernelDeadlockDetected (thread_count lock_count : Z) (dump_path : option string) (detected_at_unix_secs : Z)
  | KernelRestartInitiated (reason : string) (prev_run_exit_code attempt_n max_attempts : Z)
  | KernelRestartCompleted (prev_run_exit_code recovery_sweep_ms : Z) (dump_path : option string).

Record RehydrationOutcome := MkRehydrationOutcome {
  dumps_processed : Z;
  kernel_deadlock_detected_emits : Z;
  kernel_restart_initiated_emits : Z;
  kernel_restart_completed_emits : Z;
}.

Definition no_outcome : RehydrationOutcome := MkRehydrationOutcome 0 0 0 0.
Definition count_dump (o : RehydrationOutcome) : RehydrationOutcome :=
  MkRehydrationOutcome (sat_add_u32 o.(dumps_processed) 1) o.(kernel_deadlock_detected_emits)
    o.(kernel_restart_initiated_emits) o.(kernel_restart_completed_emits).
Definition count_detected (o : RehydrationOutcome) : RehydrationOutcome :=
  MkRehydrationOutcome o.(dumps_processed) (sat_add_u32 o.(kernel_deadlock_detected_emits) 1)
    o.(kernel_restart_initiated_emits) o.(kernel_restart_completed_emits).
Definition count_initiated (o : RehydrationOutcome) : RehydrationOutcome :=
  MkRehydrationOutcome o.(dumps_processed) o.(kernel_deadlock_detected_emits)
    (sat_add_u32 o.(kernel_restart_initiated_emits) 1) o.(kernel_restart_completed_emits).
Definition count_completed (o : RehydrationOutcome) : RehydrationOutcome :=
  MkRehydrationOutcome o.(dumps_processed) o.(kernel_deadlock_detected_emits)
    o.(kernel_restart_initiated_emits) (sat_add_u32 o.(kernel_restart_completed_emits) 1).

Section rehydrate.
Context {Sink : Type} (emit : LifecycleEvent → Sink → result string unit * Sink).
(** [serde_json::from_slice] of a dump, the dumps whose file cannot be read or
    moved, and whether the directory scan fails. *)
Context (parse_dump : string → option DeadlockDump) (read_fails move_fails : string → bool) (scan_fails : bool).
Context (data_dir : string).

Definition read_dump (dir : DataDir) (name : string) : option DeadlockDump :=
  if read_fails name then None else dump_content dir name ≫= parse_dump.

Definition path_of (name : string) : string := data_dir +:+ "/" +:+ name.

Record DumpPass := MkDumpPass {
  dp_outcome : RehydrationOutcome;
  dp_last_dump_path : option string;
  dp_dir : DataDir;
  dp_sink : Sink;
}.

(** One pending dump: its event, and its file out of the way once the chain has it. *)
Definition process_dump (p : DumpPass) (name : string) : DumpPass :=
  let path := path_of name in
  let o := count_dump p.(dp_outcome) in
  let moved := if move_fails name then p.(dp_dir) else move_to_consumed name p.(dp_dir) in
  match read_dump p.(dp_dir) name with
  | Some dump =>
      match emit (KernelDeadlockDetected dump.(dd_thread_count) dump.(dd_lock_count) (Some path)
                    dump.(dd_detected_at_unix_secs)) p.(dp_sink) with
      | (Ok _, k) => MkDumpPass (count_detected o) (Some path) moved k
      | (Err _, k) => MkDumpPass o p.(dp_last_dump_path) p.(dp_dir) k
      end
  | None =>
      match emit (KernelDeadlockDetected 0 0 (Some path) 0) p.(dp_sink) with
      | (Ok _, k) => MkDumpPass (count_detected o) p.(dp_last_dump_path) moved k
      | (Err _, k) => MkDumpPass o p.(dp_last_dump_path) p.(dp_dir) k
      end
  end.

Definition process_dumps (dir : DataDir) (k : Sink) : DumpPass :=
  foldl process_dump (MkDumpPass no_outcome None dir k) (if scan_fails then [] else scan_pending_dumps dir).

Definition emit_completed (exit_code recovery_sweep_ms : Z) (last : option string) (o : RehydrationOutcome) (k : Sink)
    : RehydrationOutcome * Sink :=
  match emit (KernelRestartCompleted exit_code recovery_sweep_ms last) k with
  | (Ok _, k') => (count_completed o, k')
  | (Err _, k') => (o, k')
  end.

Definition rehydrate_restart_context (sentinel : option SentinelView) (recovery_sweep_ms : Z) (dir : DataDir) (k : Sink)
    : RehydrationOutcome * (DataDir * Sink) :=
  let p := process_dumps dir k in
  let last := p.(dp_last_dump_path) in
  let '(o, k') :=
    match sentinel with
    | Some sup =>
        let sup_reason := default "PanicAbort" sup.(sv_last_restart_reason) in
        let prev_exit := default 0%Z sup.(sv_prev_run_exit_code) in
        let attempt_n := default 1%Z sup.(sv_attempt_n) in
        let max_attempts := default 3%Z sup.(sv_max_attempts) in
        let reason := if present last then "DeadlockDetected" else sup_reason in
        match emit (KernelRestartInitiated reason prev_exit attempt_n max_attempts) p.(dp_sink) with
        | (Ok _, k1) =>
            emit_completed prev_exit recovery_sweep_ms last (count_initiated p.(dp_outcome)) k1
        | (Err _, k1) => (p.(dp_outcome), k1)
        end
    | None =>
        if present last then emit_completed 70 recovery_sweep_ms last p.(dp_outcome) p.(dp_sink)
        else (p.(dp_outcome), p.(dp_sink))
    end in
  (o, (p.(dp_dir), k')).
End rehydrate.

(** ** The boot steps *)

Inductive BootEvent := Lifecycle (e : LifecycleEvent) | AutoResume (e : AutoResumeEvent).

(** What one boot takes from outside. *)
Record BootEnv (Sink : Type) := MkBootEnv {
  be_emit : BootEvent → Sink → result string unit * Sink;
  be_fault : Statement → option string;
  be_segment : SegmentFile;
  be_clock : BootClock;
  be_unix_now : Z;
  be_process_id : Z;
  be_recovery_sweep_ms : Z;
  be_read_fails : string → bool;
  be_move_fails : string → bool;
  be_scan_fails : bool;
  be_quarantine_fails : string → bool;
  be_witness_count_fails : string → bool;
  be_sentinel_write_fails : bool;
}.
Arguments be_emit {Sink}. Arguments be_fault {Sink}. Arguments be_segment {Sink}. Arguments be_clock {Sink}.
Arguments be_unix_now {Sink}. Arguments be_process_id {Sink}. Arguments be_recovery_sweep_ms {Sink}.
Arguments be_read_fails {Sink}. Arguments be_move_fails {Sink}. Arguments be_scan_fails {Sink}.
Arguments be_quarantine_fails {Sink}. Arguments be_witness_count_fails {Sink}. Arguments be_sentinel_write_fails {Sink}.

(** What survives a kernel: its tables, its data directory, the sentinel file
    and the audit sink. *)
Record Disk (Sink : Type) := MkDisk {
  dk_tables : Tables;
  dk_dir : DataDir;
  dk_sentinel : option string;
  dk_sink : Sink;
}.
Arguments MkDisk {Sink}. Arguments dk_tables {Sink}. Arguments dk_dir {Sink}. Arguments dk_sentinel {Sink}.
Arguments dk_sink {Sink}.

Record BootReport := MkBootReport {
  br_reconciliation : ReconciliationResult;
  br_rehydration : RehydrationOutcome;
  br_resume : option AutoResumeReport;
}.

Section boot.
Context {Sink : Type} (from_str : string → option Value).
Context (view_from_slice : string → option SentinelView).
Context (value_from_slice : string → option Value) (to_vec_pretty : Value → option string).
Context (parse_dump : string → option DeadlockDump) (data_dir : string).

Definition supervisor_restart_id (unix_now : Z) (sentinel : option SentinelView) : string :=
  match sentinel with
  | Some s =>
      let ts := default unix_now s.(sv_last_restart_unix_ts) in
      let attempt := Z.max (default 1%Z s.(sv_attempt_n)) 1 in
      "supervisor-restart-" +:+ pretty ts +:+ "-" +:+ pretty attempt
  | None => "supervisor-restart-" +:+ pretty unix_now +:+ "-1"
  end.

(** Steps 6, 8a'' and 8a''' of [main]. *)
Definition boot (env : BootEnv Sink) (d : Disk Sink) : result KernelError BootReport * Disk Sink :=
  match reconcile env.(be_fault) from_str env.(be_segment) env.(be_clock) d.(dk_tables) with
  | (Err e, s1) => (Err e, MkDisk s1 d.(dk_dir) d.(dk_sentinel) d.(dk_sink))
  | (Ok r, s1) =>
      let sentinel := read_sentinel_for_restart view_from_slice d.(dk_sentinel) in
      let '(outcome, (dir, k1)) :=
        rehydrate_restart_context (λ e, env.(be_emit) (Lifecycle e)) parse_dump env.(be_read_fails)
          env.(be_move_fails) env.(be_scan_fails) data_dir sentinel env.(be_recovery_sweep_ms) d.(dk_dir) d.(dk_sink) in
      if bool_decide (0 < outcome.(kernel_restart_completed_emits))%Z then
        let '(rep, (s2, k2)) :=
          reconcile_after_supervisor_restart (λ e, env.(be_emit) (AutoResume e)) env.(be_quarantine_fails)
            env.(be_witness_count_fails) env.(be_unix_now) (supervisor_restart_id env.(be_unix_now) sentinel)
            r.(rec_swept_tasks_detail) (s1, k1) in
        let '(_, file) := mark_restart_sentinel_rehydrated value_from_slice to_vec_pretty
          env.(be_sentinel_write_fails) env.(be_process_id) env.(be_unix_now) d.(dk_sentinel) in
        (Ok (MkBootReport r outcome (Some rep)), MkDisk s2 dir file k2)
      else (Ok (MkBootReport r outcome None), MkDisk s1 dir d.(dk_sentinel) k1)
  end.
End boot.

(** ** Facts *)

Lemma existsb_ext_in {A} (f g : A → bool) l : (∀ x, x ∈ l → f x = g x) → existsb f l = existsb g l.
Proof.
  induction l as [|x l IH]; intros H; [done |]. simpl. rewrite H by constructor. f_equal.
  apply IH. intros y Hy. apply H. by right.
Qed.

Lemma elem_of_scan dir name : name ∈ scan_pending_dumps dir ↔ pending_dump dir name = true.
Proof.
  unfold scan_pending_dumps. rewrite list_elem_of_filter, sort_strings_perm, elem_of_elements, elem_of_dom.
  unfold pending_dump. split; [by intros [? _] |]. intros Hp. split; [done |].
  by destruct (entries dir !! name).
Qed.

Lemma scan_NoDup dir : NoDup (scan_pending_dumps dir).
Proof. apply NoDup_filter. rewrite sort_strings_perm. apply NoDup_elements. Qed.

Lemma move_to_consumed_other name name' dir :
  name ≠ name' → (move_to_consumed name dir).(entries) !! name' = dir.(entries) !! name' ∧
  (move_to_consumed name dir).(consumed) !! name' = dir.(consumed) !! name'.
Proof.
  intros Hne. unfold move_to_consumed. destruct (dump_content dir name); [| done]. simpl.
  by rewrite lookup_delete_ne, lookup_insert_ne.
Qed.

Lemma move_to_consumed_same name c dir :
  dump_content dir name = Some c →
  (move_to_consumed name dir).(entries) !! name = None ∧
  (move_to_consumed name dir).(consumed) !! name = Some c.
Proof. intros Hc. unfold move_to_consumed. rewrite Hc. simpl. by rewrite lookup_delete_eq, lookup_insert_eq. Qed.

(** A file is where it was, or has been moved aside unchanged. *)
Definition kept_or_moved (dir dir' : DataDir) (name : string) : Prop :=
  (dir'.(entries) !! name = dir.(entries) !! name ∧ dir'.(consumed) !! name = dir.(consumed) !! name) ∨
  ∃ c, dump_content dir name = Some c ∧ dir'.(entries) !! name = None ∧ dir'.(consumed) !! name = Some c.

Section rehydrate_facts.
Context {Sink : Type} (emit : LifecycleEvent → Sink → result string unit * Sink).
Context (parse_dump : string → option DeadlockDump) (read_fails move_fails : string → bool) (scan_fails : bool).
Context (data_dir : string).

Abbreviation process_dump := (process_dump emit parse_dump read_fails move_fails data_dir).
Abbreviation read_dump := (read_dump parse_dump read_fails).

(** The sink records every event. *)
Definition accepting : Prop := ∀ e k, (emit e k).1 = Ok tt.
Definition refusing : Prop := ∀ e k, is_ok (emit e k).1 = false.

Lemma read_dump_entry dir dir' name :
  dir'.(entries) !! name = dir.(entries) !! name → read_dump dir' name = read_dump dir name.
Proof. unfold RestartLifecycle.read_dump, dump_content. by intros ->. Qed.

Lemma process_dump_run p name :
  let q := process_dump p name in
  (q.(dp_dir) = p.(dp_dir) ∨
   (move_fails name = false ∧ q.(dp_dir) = move_to_consumed name p.(dp_dir))) ∧
  (refusing → q.(dp_dir) = p.(dp_dir) ∧ q.(dp_last_dump_path) = p.(dp_last_dump_path) ∧
    q.(dp_outcome) = count_dump p.(dp_outcome)) ∧
  (accepting → (move_fails name = false → q.(dp_dir) = move_to_consumed name p.(dp_dir)) ∧
    q.(dp_outcome) = count_detected (count_dump p.(dp_outcome)) ∧
    present q.(dp_last_dump_path) = present p.(dp_last_dump_path) || present (read_dump p.(dp_dir) name)).
Proof.
  cbn zeta. unfold RestartLifecycle.process_dump.
  destruct (read_dump (dp_dir p) name) as [dump|];
    match goal with |- context [emit ?e ?k] => destruct (emit e k) as [[u|err] k1] eqn:E end;
    (split; [simpl; destruct (move_fails name); auto | split; intros Hk;
       match type of E with emit ?e ?k = _ => specialize (Hk e k); rewrite E in Hk; try discriminate Hk end;
       simpl; rewrite ?orb_true_r, ?orb_false_r; split_and!; try done; by intros ->]).
Qed.

Lemma process_dump_completed p name :
  (process_dump p name).(dp_outcome).(kernel_restart_completed_emits)
  = p.(dp_outcome).(kernel_restart_completed_emits).
Proof.
  unfold RestartLifecycle.process_dump. destruct (read_dump (dp_dir p) name);
    match goal with |- context [emit ?e ?k] => by destruct (emit e k) as [[]] end.
Qed.

Lemma process_dump_other p name n :
  n ≠ name → (process_dump p name).(dp_dir).(entries) !! n = p.(dp_dir).(entries) !! n ∧
  (process_dump p name).(dp_dir).(consumed) !! n = p.(dp_dir).(consumed) !! n.
Proof.
  intros Hne. destruct (process_dump_run p name) as ([->|[_ ->]] & _); [done |].
  by apply move_to_consumed_other.
Qed.

Lemma process_dumps_other l : ∀ p n, n ∉ l →
  let q := foldl process_dump p l in
  q.(dp_dir).(entries) !! n = p.(dp_dir).(entries) !! n ∧ q.(dp_dir).(consumed) !! n = p.(dp_dir).(consumed) !! n.
Proof.
  induction l as [|m l IH]; intros p n Hn; [done |]. apply not_elem_of_cons in Hn as [Hne Hn]. simpl.
  destruct (IH (process_dump p m) n Hn) as [-> ->]. by apply process_dump_other.
Qed.

Lemma process_dumps_kept l : ∀ p n,
  NoDup l → is_Some (dump_content p.(dp_dir) n) → kept_or_moved p.(dp_dir) (foldl process_dump p l).(dp_dir) n.
Proof.
  induction l as [|m l IH]; intros p n Hnd Hc; [by left |]. apply NoDup_cons in Hnd as [Hm Hnd]. simpl.
  destruct (decide (n = m)) as [->|Hne].
  - destruct (process_dumps_other l (process_dump p m) m Hm) as [E1 E2]. unfold kept_or_moved. rewrite E1, E2.
    destruct (process_dump_run p m) as ([->|[_ ->]] & _); [by left |]. destruct Hc as [c Hc].
    destruct (move_to_consumed_same m c _ Hc). eauto.
  - destruct (process_dump_other p m n Hne) as [E1 E2].
    assert (Ec : dump_content (dp_dir (process_dump p m)) n = dump_content (dp_dir p) n)
      by (unfold dump_content; by rewrite E1).
    destruct (IH (process_dump p m) n Hnd) as [[E3 E4]|(c & Hc1 & H1 & H2)]; [by rewrite Ec | |].
    + left. by rewrite E3, E4.
    + right. exists c. by rewrite <- Ec.
Qed.

Lemma process_dumps_completed l : ∀ p,
  (foldl process_dump p l).(dp_outcome).(kernel_restart_completed_emits)
  = p.(dp_outcome).(kernel_restart_completed_emits).
Proof. induction l as [|m l IH]; intros p; [done |]. simpl. rewrite IH. apply process_dump_completed. Qed.

Lemma process_dumps_refused l : ∀ p, refusing → (foldl process_dump p l).(dp_dir) = p.(dp_dir).
Proof.
  induction l as [|m l IH]; intros p Hr; [done |]. simpl. rewrite IH by done.
  by destruct (process_dump_run p m) as (_ & (-> & _)%(λ f, f Hr) & _).
Qed.

Lemma process_dumps_accepted l : ∀ p, accepting → NoDup l →
  let q := foldl process_dump p l in
  present q.(dp_last_dump_path)
    = present p.(dp_last_dump_path) || existsb (λ n, present (read_dump p.(dp_dir) n)) l ∧
  ((∀ n, move_fails n = false) → ∀ n, n ∈ l → is_Some (dump_content p.(dp_dir) n) →
   q.(dp_dir).(entries) !! n = None).
Proof.
  induction l as [|m l IH]; intros p Ha Hnd.
  - simpl. split; [by rewrite orb_false_r |]. intros _ n Hn. by apply elem_of_nil in Hn.
  - apply NoDup_cons in Hnd as [Hm Hnd]. simpl.
    destruct (process_dump_run p m) as (_ & _ & (Hmove & _ & Hlast)%(λ f, f Ha)).
    destruct (IH (process_dump p m) Ha Hnd) as [-> Hgone]. split.
    + rewrite Hlast, <- orb_assoc. do 2 f_equal. apply existsb_ext_in. intros n Hn.
      f_equal. apply read_dump_entry, process_dump_other. by intros ->.
    + intros Hok n Hn Hc. apply elem_of_cons in Hn as [->|Hn].
      * destruct (process_dumps_other l (process_dump p m) m Hm) as [-> _]. rewrite Hmove by done.
        destruct Hc as [c Hc]. by apply (move_to_consumed_same m c).
      * apply Hgone; [done | done |]. unfold dump_content.
        destruct (process_dump_other p m n) as [-> _]; [by intros -> | done].
Qed.

(** Whether the boot counts as the end of a restart. *)
Definition restarted (sentinel : option SentinelView) (dir : DataDir) : bool :=
  present sentinel || (negb scan_fails && existsb (λ n, present (read_dump dir n)) (scan_pending_dumps dir)).

Abbreviation rehydrate := (rehydrate_restart_context emit parse_dump read_fails move_fails scan_fails data_dir).

Lemma rehydrate_dir sentinel ms dir k :
  (rehydrate sentinel ms dir k).2.1
  = (process_dumps emit parse_dump read_fails move_fails scan_fails data_dir dir k).(dp_dir).
Proof.
  unfold rehydrate_restart_context, emit_completed.
  destruct sentinel; [destruct (emit _ _) as [[[]|e] k1]; [destruct (emit _ k1) as [[[]|e] k2] |]; done |].
  destruct (present _); [by destruct (emit _ _) as [[[]|e] k1] | done].
Qed.

Lemma rehydrate_completed sentinel ms dir k :
  accepting →
  (rehydrate sentinel ms dir k).1.(kernel_restart_completed_emits) = (if restarted sentinel dir then 1 else 0)%Z.
Proof.
  intros Ha. unfold rehydrate_restart_context, emit_completed, restarted, process_dumps.
  set (l := if scan_fails then [] else scan_pending_dumps dir). set (p0 := MkDumpPass _ _ _ _).
  assert (Hnd : NoDup l) by (unfold l; destruct scan_fails; [constructor | apply scan_NoDup]).
  destruct (process_dumps_accepted l p0 Ha Hnd) as [Hlast _].
  pose proof (process_dumps_completed l p0) as Hc. simpl in Hlast, Hc.
  assert (El : negb scan_fails && existsb (λ n, present (read_dump dir n)) (scan_pending_dumps dir)
               = existsb (λ n, present (read_dump dir n)) l) by (unfold l; by destruct scan_fails).
  rewrite El, Hlast. destruct sentinel as [v|]; simpl.
  - match goal with |- context [emit ?e ?k] => pose proof (Ha e k) as H1; destruct (emit e k) as [[[]|e1] k1] end;
      [| discriminate H1].
    match goal with |- context [emit ?e ?k] => pose proof (Ha e k) as H2; destruct (emit e k) as [[[]|e2] k2] end;
      [| discriminate H2].
    simpl. by rewrite Hc.
  - destruct (existsb _ l); [| done].
    match goal with |- context [emit ?e ?k] => pose proof (Ha e k) as H1; destruct (emit e k) as [[[]|e1] k1] end;
      [| discriminate H1].
    simpl. by rewrite Hc.
Qed.
End rehydrate_facts.

(** ** Theorems *)

(** Rehydration loses no forensic file: every regular file of the data
    directory is afterwards where it was or, unchanged, in the consumed directory;
    files that are not dumps stay; a sink that refuses every event leaves the
    directory as it was; and when the sink takes every event and the moves work,
    no dump is left pending. *)
Theorem no_dump_lost {Sink} (emit : LifecycleEvent → Sink → result string unit * Sink)
    parse_dump read_fails move_fails scan_fails data_dir sentinel ms dir k :
  let dir' := (rehydrate_restart_context emit parse_dump read_fails move_fails scan_fails data_dir
                 sentinel ms dir k).2.1 in
  (∀ n c, dump_content dir n = Some c → kept_or_moved dir dir' n) ∧
  (∀ n, pending_dump dir n = false → dir'.(entries) !! n = dir.(entries) !! n) ∧
  (refusing emit → dir' = dir) ∧
  (accepting emit → scan_fails = false → (∀ n, move_fails n = false) → scan_pending_dumps dir' = []).
Proof.
  intros dir'. subst dir'. rewrite rehydrate_dir. unfold process_dumps.
  set (l := if scan_fails then [] else scan_pending_dumps dir). set (p0 := MkDumpPass _ _ _ _).
  assert (Hnd : NoDup l) by (unfold l; destruct scan_fails; [constructor | apply scan_NoDup]).
  assert (Hl : ∀ n, pending_dump dir n = false → n ∉ l).
  { intros n Hn Hin. unfold l in Hin. destruct scan_fails; [by apply elem_of_nil in Hin |].
    apply elem_of_scan in Hin. congruence. }
  assert (Hother : ∀ n, pending_dump dir n = false →
    (foldl (process_dump emit parse_dump read_fails move_fails data_dir) p0 l).(dp_dir).(entries) !! n
    = dir.(entries) !! n) by (intros n Hn; by apply (process_dumps_other _ _ _ _ _ l p0 n (Hl n Hn))).
  split_and!; [| done | by apply (process_dumps_refused emit parse_dump read_fails move_fails data_dir l p0) |].
  - intros n c Hc. apply (process_dumps_kept _ _ _ _ _ l p0 n); [done | by exists c].
  - intros Ha Hscan Hok. destruct (scan_pending_dumps (dp_dir _)) as [|n ns] eqn:E; [done |]. exfalso.
    assert (Hn : pending_dump (foldl (process_dump emit parse_dump read_fails move_fails data_dir) p0 l).(dp_dir) n = true)
      by (apply elem_of_scan; rewrite E; constructor).
    destruct (pending_dump dir n) eqn:Hp.
    + assert (Hin : n ∈ l) by (unfold l; rewrite Hscan; by apply elem_of_scan).
      destruct (process_dumps_accepted emit parse_dump read_fails move_fails data_dir l p0 Ha Hnd) as [_ Hgone].
      unfold pending_dump in Hn. rewrite (Hgone Hok n Hin) in Hn; [done |].
      unfold dump_content, pending_dump in *. simpl. by destruct (entries dir !! n) as [[c|]|].
    + unfold pending_dump in Hn, Hp. by rewrite Hother, Hp in Hn.
Qed.

(** C37: One whole boot.  If recovery succeeds and the chain takes every event,
    then the tasks in flight at the crash that were not blocked before and whose
    initiative is not quarantined are admitted again exactly when the supervisor's
    sentinel says [Restarting] or some pending deadlock dump can be read; otherwise
    every task in flight is left blocked.  The sentinel is touched only in the
    first case.  A dump that cannot be read is recorded in the chain and moved
    aside but does not count. *)
Theorem boot_resumes_iff_restarted {Sink} from_str view_from_slice value_from_slice to_vec_pretty parse_dump data_dir
    (env : BootEnv Sink) (d d' : Disk Sink) rep :
  activations_ok d.(dk_tables).(db) →
  (∀ e k, (env.(be_emit) e k).1 = Ok tt) →
  boot from_str view_from_slice value_from_slice to_vec_pretty parse_dump data_dir env d = (Ok rep, d') →
  let restart := restarted parse_dump env.(be_read_fails) env.(be_scan_fails)
    (read_sentinel_for_restart view_from_slice d.(dk_sentinel)) d.(dk_dir) in
  let resumes row := non_terminal_row row && negb (blocked row)
    && negb (is_quarantined_or_unknown env.(be_quarantine_fails) d.(dk_tables) row.(task_initiative_id)) in
  (∀ t, d'.(dk_tables).(db).(tasks) !! t =
     (λ row, let swept := sweep_row env.(be_clock).(tasks_now) row in
             if restart && resumes row then admit_row env.(be_unix_now) swept else swept)
       <$> d.(dk_tables).(db).(tasks) !! t) ∧
  (present rep.(br_resume) = restart) ∧
  (restart = false → d'.(dk_sentinel) = d.(dk_sentinel)).
Proof.
  intros Hact Hemit Hboot restart resumes. unfold boot in Hboot.
  destruct (reconcile _ _ _ _ _) as [[r|e] s1] eqn:Hrec; [| done].
  pose proof (rehydrate_completed (λ e, be_emit env (Lifecycle e)) parse_dump env.(be_read_fails) env.(be_move_fails)
    env.(be_scan_fails) data_dir (read_sentinel_for_restart view_from_slice d.(dk_sentinel)) env.(be_recovery_sweep_ms)
    d.(dk_dir) d.(dk_sink) (λ e k, Hemit _ _)) as Hc.
  fold restart in Hc.
  destruct (rehydrate_restart_context _ _ _ _ _ _ _ _ _ _) as [outcome [dir k1]]. simpl in Hc. rewrite Hc in Hboot.
  destruct restart.
  - rewrite bool_decide_eq_true_2 in Hboot by lia.
    destruct (reconcile_after_supervisor_restart _ _ _ _ _ _ _) as [arep [s2 k2]] eqn:Hres.
    destruct (mark_restart_sentinel_rehydrated _ _ _ _ _ _) as [mr file]. simplify_eq. simpl. split_and!; [| done | done].
    intros t. edestruct (admitted_rows (λ e, be_emit env (AutoResume e))) as [Hrows _]; [exact Hact | exact Hrec | exact Hres |].
    apply Hrows.
  - rewrite bool_decide_eq_false_2 in Hboot by lia. simplify_eq. simpl. split_and!; [| done | done].
    intros t. apply reconcile_ok_inv in Hrec as (_ & -> & _). simpl. by rewrite lookup_fmap.
Qed.

(** ** A concrete boot *)
Module RestartExamples.
Import RecoveryExamples.

Definition log : Type := list BootEvent.
Definition record (e : BootEvent) (k : log) : result string unit * log := (Ok tt, k ++ [e]).
Definition view (s : string) : option SentinelView :=
  Some (MkSentinelView s (Some "PanicAbort") (Some 101%Z) (Some 2%Z) None (Some 190%Z) None).
Definition value (s : string) : option Value := Some (JsonObject [("status", JsonString s)]).
Definition to_vec (v : Value) : option string := json_get "status" v ≫= json_as_str.
Definition parse (s : string) : option DeadlockDump :=
  if String.eqb s "dump" then Some (MkDeadlockDump 90 4 5) else None.
Definition env : BootEnv log :=
  MkBootEnv log record no_fault (SegmentBytes "{}") clock 200 77 40 (λ _, false) (λ _, false) false
    (λ _, false) (λ _, false) false.
Definition disk (status content : string) : Disk log :=
  MkDisk tables (MkDataDir {["deadlock_dump_90.json" := RegularFile content; "kernel.db" := RegularFile ""]} ∅)
    (Some status) [].
Definition run (status content : string) := boot genesis view value to_vec parse "/data" env (disk status content).
Definition state_of (status content : string) : option string :=
  task_state <$> (run status content).2.(dk_tables).(db).(tasks) !! "t1".

(** A supervised restart, and a readable dump without one, resume the task; an
    unreadable dump is consumed but resumes nothing. *)
Example resumes_by_sentinel : state_of "Restarting" "broken" = Some "Admitted".
Proof. vm_compute. reflexivity. Qed.
Example resumes_by_dump : state_of "Healthy" "dump" = Some "Admitted".
Proof. vm_compute. reflexivity. Qed.
Example broken_dump_resumes_nothing :
  state_of "Healthy" "broken" = Some "BlockedRecoveryPending" ∧
  (run "Healthy" "broken").2.(dk_dir).(consumed) !! "deadlock_dump_90.json" = Some "broken" ∧
  (run "Healthy" "broken").2.(dk_sink)
    = [Lifecycle (KernelDeadlockDetected 0 0 (Some "/data/deadlock_dump_90.json") 0)].
Proof. vm_compute. done. Qed.

Definition report : BootReport :=
  match (run "Restarting" "dump").1 with
  | Ok r => r
  | Err _ => MkBootReport (report_of first_boot.1) no_outcome None
  end.

Lemma boot_resumes_iff_restarted_witness : present report.(br_resume) = true.
Proof.
  eapply (boot_resumes_iff_restarted genesis view value to_vec parse "/data" env (disk "Restarting" "dump")
    (run "Restarting" "dump").2 report).
  - apply (bool_decide_unpack _). vm_compute. exact I.
  - done.
  - vm_compute. reflexivity.
Defined.

Lemma no_dump_lost_witness :
  scan_pending_dumps (rehydrate_restart_context (λ e k, record (Lifecycle e) k) parse (λ _, false) (λ _, false) false
    "/data" None 40 (disk "Restarting" "dump").(dk_dir) []).2.1 = [].
Proof.
  eapply (no_dump_lost (λ e k, record (Lifecycle e) k) parse (λ _, false) (λ _, false) false "/data" None 40
    (disk "Restarting" "dump").(dk_dir) []); done.
Defined.
End RestartExamples.
