(* ===== verification/DomainGit.v ===== *)
(** * Publishing a merge commit

    [crates/domain-git/src/lib.rs]: the copy of a commit's object graph from the
    orchestrator's worktree into the managed repository and the advance of the
    target ref.  The git library ([gix]) and the [git] program are an interface:
    [Git] has the calls the code makes on a repository, [GitLaws] what their
    documentation promises. *)

From S2P Require Import Prelude.

Abbreviation Oid := string (only parsing).

Inductive Kind := KCommit | KTree | KBlob | KTag.
#[export] Instance Kind_eq_dec : EqDecision Kind.
Proof. solve_decision. Defined.

Inductive EntryKind := ETree | EBlob | EBlobExecutable | ELink | ECommit.
#[export] Instance EntryKind_eq_dec : EqDecision EntryKind.
Proof. solve_decision. Defined.

(** An object as the library returns it: its kind and its raw bytes. *)
Record Object := MkObject { obj_kind : Kind; obj_data : string }.
#[export] Instance Object_eq_dec : EqDecision Object.
Proof. solve_decision. Defined.

Inductive Target := Direct (oid : Oid) | Symbolic (name : string).
#[export] Instance Target_eq_dec : EqDecision Target.
Proof. solve_decision. Defined.

Inductive PreviousValue := MustExistAndMatch (oid : Oid) | MustNotExist.

(** The exit status (absent for a signal) and the standard output of a command
    that could be started. *)
Record CommandOutput := MkCommandOutput { status_code : option Z; stdout : string }.
Definition success (o : CommandOutput) : bool := bool_decide (o.(status_code) = Some 0%Z).

(** The library and the program, over a type of repositories. *)
Class Git (R : Type) := {
  find_object : R → Oid → option Object;
  (** write an object; [Err] leaves the repository as it was *)
  write_buf : Object → R → result string unit * R;
  find_reference : R → string → option Target;
  (** [FullName::try_from] succeeds *)
  valid_name : string → bool;
  edit_reference : string → PreviousValue → Oid → R → result string unit * R;
  (** [git] with a working directory, environment and arguments; [None] when it
      cannot be started *)
  git_command : string → list (string * string) → list string → R → option CommandOutput * R;
  decode_commit : string → option (Oid * list Oid);
  decode_tree : string → option (list (EntryKind * Oid));
  (** [ObjectId::from_hex] succeeds, and the text of the parsed id *)
  from_hex : string → option Oid;
}.

Inductive MainMergeError :=
  | MainRepoUnopenable (path reason : string)
  | SourceUnopenable (path reason : string)
  | FetchFailed (reason : string)
  | ShaMissingPostFetch (sha : string)
  | RefUpdateFailed (reason : string)
  | ConcurrentMergeFailed (target_ref previous_sha candidate_sha reason : string)
  | WorktreeRefreshFailed (path reason : string)
  | InvalidSha (sha reason : string)
  | OutOfFuel.
#[export] Instance MainMergeError_eq_dec : EqDecision MainMergeError.
Proof. solve_decision. Defined.

Record MainAdvance := MkMainAdvance {
  previous_sha : option string;
  current_sha : string;
  already_at_target : bool;
}.

(** A path on disk: whether it exists and the repository that opens there. *)
Record Checkout (R : Type) := MkCheckout {
  co_path : string;
  co_exists : bool;
  co_repo : option R;
}.
Arguments MkCheckout {R}. Arguments co_path {R}. Arguments co_exists {R}. Arguments co_repo {R}.

(** Computations on the managed repository. *)
Abbreviation GitM R := (SE R MainMergeError).

Section publish.
Context {R : Type} `{Git R}.

Definition has_object (r : R) (o : Oid) : bool :=
  match find_object r o with Some _ => true | None => false end.

(** ** Copying objects *)

Definition write_object_bytes (o : Object) : GitM R unit := λ r,
  match write_buf o r with
  | (Ok _, r') => (Ok tt, r')
  | (Err e, r') => (Err (FetchFailed ((match o.(obj_kind) with KBlob => "write_blob: " | _ => "write_buf: " end) +:+ e)), r')
  end.

Definition read_source (src : R) (what : string) (o : Oid) : GitM R Object :=
  lift_result (ok_or (find_object src o) (FetchFailed ("find_object(" +:+ what +:+ o +:+ ")"))).

(** The state of the walk: the ids handled and the ids whose trees and blobs
    are still to be copied. *)
Record Walk := MkWalk { seen : gset Oid; trees : list Oid; blobs : list Oid }.

Fixpoint copy_commits (fuel : nat) (src : R) (commits : list Oid) (w : Walk) : GitM R Walk :=
  match fuel with
  | O => throw OutOfFuel
  | S fuel' =>
      match commits with
      | [] => mret w
      | commit_oid :: rest =>
          if bool_decide (commit_oid ∈ w.(seen)) then copy_commits fuel' src rest w
          else
            let seen' := {[commit_oid]} ∪ w.(seen) in
            present ← gets (λ dst, has_object dst commit_oid);
            if (present : bool) then copy_commits fuel' src rest (MkWalk seen' w.(trees) w.(blobs))
            else
              obj ← read_source src "" commit_oid;
              _ ← guard_or (bool_decide (obj.(obj_kind) = KCommit)) (FetchFailed "not a commit");
              raw ← lift_result (ok_or (decode_commit obj.(obj_data)) (FetchFailed "decode commit"));
              _ ← write_object_bytes obj;
              copy_commits fuel' src (rest ++ List.filter (λ p, negb (bool_decide (p ∈ seen'))) raw.2)
                (MkWalk seen' (w.(trees) ++ [raw.1]) w.(blobs))
      end
  end.

(** A tree's entries, in order: subtrees and files to queue; a submodule is not followed. *)
Definition subtrees (es : list (EntryKind * Oid)) : list Oid :=
  omap (λ e, match e.1 with ETree => Some e.2 | _ => None end) es.
Definition files (es : list (EntryKind * Oid)) : list Oid :=
  omap (λ e, match e.1 with EBlob | EBlobExecutable | ELink => Some e.2 | _ => None end) es.

Fixpoint copy_trees (fuel : nat) (src : R) (w : Walk) : GitM R Walk :=
  match fuel with
  | O => throw OutOfFuel
  | S fuel' =>
      match w.(trees) with
      | [] => mret w
      | tree_oid :: rest =>
          if bool_decide (tree_oid ∈ w.(seen)) then copy_trees fuel' src (MkWalk w.(seen) rest w.(blobs))
          else
            let seen' := {[tree_oid]} ∪ w.(seen) in
            present ← gets (λ dst, has_object dst tree_oid);
            if (present : bool) then copy_trees fuel' src (MkWalk seen' rest w.(blobs))
            else
              obj ← read_source src "" tree_oid;
              _ ← guard_or (bool_decide (obj.(obj_kind) = KTree)) (FetchFailed "not a tree");
              es ← lift_result (ok_or (decode_tree obj.(obj_data)) (FetchFailed "decode tree"));
              _ ← write_object_bytes obj;
              copy_trees fuel' src (MkWalk seen' (rest ++ subtrees es) (w.(blobs) ++ files es))
      end
  end.

Fixpoint copy_blobs (src : R) (seen : gset Oid) (blobs : list Oid) : GitM R unit :=
  match blobs with
  | [] => mret tt
  | blob_oid :: rest =>
      if bool_decide (blob_oid ∈ seen) then copy_blobs src seen rest
      else
        let seen' := {[blob_oid]} ∪ seen in
        present ← gets (λ dst, has_object dst blob_oid);
        if (present : bool) then copy_blobs src seen' rest
        else
          obj ← read_source src "" blob_oid;
          _ ← write_object_bytes (MkObject KBlob obj.(obj_data));
          copy_blobs src seen' rest
  end.

Definition walk_and_copy (fuel : nat) (src : R) (start : Oid) : GitM R unit :=
  w1 ← copy_commits fuel src [start] (MkWalk ∅ [] []);
  w2 ← copy_trees fuel src w1;
  copy_blobs src w2.(seen) w2.(blobs).

(** [gix::open] of an existing path that is not a repository fails as an absent
    one does; the managed repository's path is checked by the caller. *)
Definition fetch_into_main (fuel : nat) (main_exists : bool) (main_path : string) (orch : Checkout R) (commit_sha : Oid)
    : GitM R unit :=
  _ ← guard_or main_exists (MainRepoUnopenable main_path "path does not exist");
  _ ← guard_or orch.(co_exists) (SourceUnopenable orch.(co_path) "path does not exist");
  orch_repo ← lift_result (ok_or orch.(co_repo) (SourceUnopenable orch.(co_path) "open"));
  have ← gets (λ r, has_object r commit_sha);
  if (have : bool) then mret tt
  else
    _ ← guard_or (has_object orch_repo commit_sha) (FetchFailed "commit_sha not found in orchestrator worktree");
    walk_and_copy fuel orch_repo commit_sha.

(** ** The target ref *)

Definition current_ref_oid (r : R) (target_ref : string) : option Oid :=
  match find_reference r target_ref with Some (Direct o) => Some o | _ => None end.

Definition edit_ref (target_ref : string) (expected : PreviousValue) (oid : Oid) : GitM R unit := λ r,
  match edit_reference target_ref expected oid r with
  | (Ok _, r') => (Ok tt, r')
  | (Err e, r') => (Err (RefUpdateFailed ("edit_reference: " +:+ e)), r')
  end.

Definition update_target_ref (oid : Oid) (expected_previous : option Oid) (target_ref : string) : GitM R unit :=
  _ ← guard_or (valid_name target_ref) (RefUpdateFailed "FullName::try_from");
  edit_ref target_ref
    (match expected_previous with Some prev => MustExistAndMatch prev | None => MustNotExist end) oid.

(** Run [git] in a directory. *)
Definition run_git (dir : string) (env : list (string * string)) (args : list string) : GitM R (option CommandOutput) :=
  λ r, let '(o, r') := git_command dir env args r in (Ok o, r').

Definition spawned (o : option CommandOutput) (e : MainMergeError) : GitM R CommandOutput := lift_result (ok_or o e).

Definition refresh_checked_out_worktree (path : string) (oid : Oid) (target_ref : string) : GitM R unit :=
  o ← run_git path [] ["symbolic-ref"; "-q"; "HEAD"];
  head_ref ← spawned o (WorktreeRefreshFailed path "git symbolic-ref spawn failed");
  if negb (success head_ref) then mret tt
  else if negb (String.eqb (str_trim head_ref.(stdout)) target_ref) then mret tt
  else
    o ← run_git path [] ["reset"; "--hard"; oid];
    reset ← spawned o (WorktreeRefreshFailed path "git reset --hard spawn failed");
    guard_or (success reset) (WorktreeRefreshFailed path "git reset --hard exited").

Definition candidate_fast_forwards_target (path : string) (previous candidate : Oid) : GitM R bool :=
  if String.eqb previous candidate then mret true
  else
    o ← run_git path [] ["merge-base"; "--is-ancestor"; previous; candidate];
    status ← spawned o (RefUpdateFailed "git merge-base spawn failed");
    if success status then mret true
    else if bool_decide (status.(status_code) = Some 1%Z) then mret false
    else throw (RefUpdateFailed "git merge-base --is-ancestor exited").

Definition commit_committer_date (path : string) (sha : Oid) : GitM R (option string) :=
  o ← run_git path [] ["show"; "-s"; "--format=%cI"; sha];
  mret (match o with
        | Some out =>
            if negb (success out) || negb (utf8_valid out.(stdout)) then None
            else let s := str_trim out.(stdout) in if String.eqb s "" then None else Some s
        | None => None
        end).

Definition cleanup_merge_worktree (path temp_dir : string) : GitM R unit :=
  _ ← run_git path [] ["worktree"; "remove"; "--force"; temp_dir];
  mret tt.

Definition parse_oid (sha : string) : GitM R Oid := lift_result (ok_or (from_hex sha) (InvalidSha sha "from_hex")).

Definition synthesize_concurrent_target_merge (path temp_dir : string) (previous candidate : Oid) (target_ref : string)
    : GitM R Oid :=
  o ← run_git path [] ["worktree"; "add"; "--detach"; "--quiet"; temp_dir; previous];
  add ← spawned o (RefUpdateFailed "git worktree add");
  _ ← guard_or (success add) (RefUpdateFailed "git worktree add exited");
  date ← commit_committer_date path candidate;
  let merge_date := default "1970-01-01T00:00:00+00:00" date in
  o ← run_git temp_dir
        [("GIT_AUTHOR_NAME", "RAXIS Kernel"); ("GIT_AUTHOR_EMAIL", "kernel@raxis.local");
         ("GIT_COMMITTER_NAME", "RAXIS Kernel"); ("GIT_COMMITTER_EMAIL", "kernel@raxis.local");
         ("GIT_AUTHOR_DATE", merge_date); ("GIT_COMMITTER_DATE", merge_date)]
        ["merge"; "--no-ff"; "--no-gpg-sign"; "-m"; "raxis: preserve concurrent target-ref advancement"; candidate];
  merge ← spawned o (RefUpdateFailed "git merge spawn failed");
  _ ← guard_or (success merge) (ConcurrentMergeFailed target_ref previous candidate "git merge exited");
  o ← run_git temp_dir [] ["rev-parse"; "HEAD"];
  rev ← spawned o (RefUpdateFailed "git rev-parse spawn failed");
  if negb (success rev) then
    _ ← cleanup_merge_worktree path temp_dir;
    throw (RefUpdateFailed "git rev-parse HEAD exited")
  else
    let merge_sha := str_trim rev.(stdout) in
    _ ← cleanup_merge_worktree path temp_dir;
    parse_oid merge_sha.

(** ** Phase 2 *)

Definition commit_merge_to_open_repo (fuel : nat) (path temp_dir : string) (orch : Checkout R) (oid : Oid) (target_ref : string)
    : GitM R MainAdvance :=
  previous ← gets (λ r, current_ref_oid r target_ref);
  if bool_decide (previous = Some oid) then
    _ ← refresh_checked_out_worktree path oid target_ref;
    mret (MkMainAdvance previous oid true)
  else
    _ ← fetch_into_main fuel true path orch oid;
    have ← gets (λ r, has_object r oid);
    _ ← guard_or have (ShaMissingPostFetch oid);
    final_oid ← match previous with
                | Some prev =>
                    ff ← candidate_fast_forwards_target path prev oid;
                    if (ff : bool) then mret oid
                    else synthesize_concurrent_target_merge path temp_dir prev oid target_ref
                | None => mret oid
                end;
    _ ← update_target_ref final_oid previous target_ref;
    _ ← refresh_checked_out_worktree path final_oid target_ref;
    mret (MkMainAdvance previous final_oid false).

(** Lift a computation on the repository to the path it is opened at. *)
Definition with_main {A} (m : GitM R A) (main : Checkout R) : result MainMergeError A * Checkout R :=
  match main.(co_repo) with
  | None => (Err (MainRepoUnopenable main.(co_path) "open"), main)
  | Some r => let '(res, r') := m r in (res, MkCheckout main.(co_path) main.(co_exists) (Some r'))
  end.

Definition commit_merge_to_target_ref (fuel : nat) (temp_dir : string) (orch : Checkout R) (commit_sha target_ref : string)
    (main : Checkout R) : result MainMergeError MainAdvance * Checkout R :=
  match from_hex commit_sha with
  | None => (Err (InvalidSha commit_sha "from_hex"), main)
  | Some oid => with_main (commit_merge_to_open_repo fuel main.(co_path) temp_dir orch oid target_ref) main
  end.

Definition current_target_ref_oid (main : Checkout R) (target_ref : string) : result MainMergeError (option string) :=
  match main.(co_repo) with
  | None => Err (MainRepoUnopenable main.(co_path) "open")
  | Some r => Ok (current_ref_oid r target_ref)
  end.
End publish.

(** ** What the library promises *)

(** The ids an object refers to, as the copy follows them. *)
Definition children {R} `{Git R} (o : Object) : list Oid :=
  match o.(obj_kind) with
  | KCommit => match decode_commit o.(obj_data) with Some (tree, parents) => tree :: parents | None => [] end
  | KTree => match decode_tree o.(obj_data) with Some es => subtrees es ++ files es | None => [] end
  | KBlob | KTag => []
  end.

(** Objects are only added, and refs stay. *)
Definition grows {R} `{Git R} (r r' : R) : Prop :=
  (∀ i o, find_object r i = Some o → find_object r' i = Some o) ∧
  (∀ n, find_reference r' n = find_reference r n).

#[export] Instance grows_preorder {R} `{Git R} : PreOrder (grows (R:=R)).
Proof. split; [done |]. intros r1 r2 r3 [H1 H2] [H3 H4]. split; [eauto |]. intros n. by rewrite H4. Qed.

(** The object store is content addressed by [oid_of]; a failed write or ref
    edit changes nothing; an edit honours its precondition and touches one ref. *)
Class GitLaws (R : Type) `{Git R} (oid_of : Object → Oid) := {
  write_ok r o u r' : write_buf o r = (Ok u, r') →
    (∀ i, find_object r' i = if bool_decide (i = oid_of o) then Some (default o (find_object r i)) else find_object r i) ∧
    (∀ n, find_reference r' n = find_reference r n);
  write_err r o e r' : write_buf o r = (Err e, r') → r' = r;
  edit_ok r n prev oid u r' : edit_reference n prev oid r = (Ok u, r') →
    find_reference r' n = Some (Direct oid) ∧
    (∀ m, m ≠ n → find_reference r' m = find_reference r m) ∧
    (∀ i, find_object r' i = find_object r i) ∧
    match prev with
    | MustExistAndMatch p => find_reference r n = Some (Direct p)
    | MustNotExist => find_reference r n = None
    end;
  edit_err r n prev oid e r' : edit_reference n prev oid r = (Err e, r') → r' = r;
}.

Section facts.
Context {R : Type} `{GitLaws R oid_of}.
Implicit Types r src : R.

(** Every object a present object refers to is present. *)
Definition closed r : Prop :=
  ∀ i o, find_object r i = Some o → ∀ j, j ∈ children o → has_object r j = true.

(** The store of the source: addressed by content, its file entries naming blobs. *)
Definition addressed src : Prop := ∀ i o, find_object src i = Some o → oid_of o = i.
Definition blobs_are_blobs src : Prop :=
  ∀ i o es, find_object src i = Some o → obj_kind o = KTree → decode_tree o.(obj_data) = Some es →
  ∀ j o', j ∈ files es → find_object src j = Some o' → obj_kind o' = KBlob.

Lemma has_object_iff r i : has_object r i = true ↔ is_Some (find_object r i).
Proof. unfold has_object. destruct (find_object r i); split; try done; by intros []. Qed.

Lemma has_object_grows r r' i : grows r r' → has_object r i = true → has_object r' i = true.
Proof. rewrite !has_object_iff. intros [Hg _] [o Ho]. eauto. Qed.

Lemma write_object_bytes_run o r :
  let '(res, r') := write_object_bytes o r in
  grows r r' ∧
  match res with
  | Ok _ => ∀ i, find_object r' i = if bool_decide (i = oid_of o) then Some (default o (find_object r i)) else find_object r i
  | Err e => r' = r ∧ e ≠ OutOfFuel
  end.
Proof.
  unfold write_object_bytes. destruct (write_buf o r) as [[u|e] r'] eqn:E.
  - apply write_ok in E as [Ho Hn]. split; [| done]. split; [| done]. intros i x Hx. rewrite Ho, Hx. by case_bool_decide.
  - apply write_err in E as ->. by split.
Qed.

(** ** The invariant of the copy

    Everything handled is present, and what a present object refers to is present
    or still queued. *)
Definition inv r (seen : gset Oid) (queue : list Oid) : Prop :=
  (∀ i, i ∈ seen → has_object r i = true) ∧
  (∀ i o, find_object r i = Some o → ∀ j, j ∈ children o → has_object r j = true ∨ j ∈ queue).

Lemma inv_mono r seen q q' : q ⊆ q' → inv r seen q → inv r seen q'.
Proof. intros Hq [Hs Hc]. split; [done |]. intros i o Ho j Hj. destruct (Hc i o Ho j Hj); auto. Qed.

Lemma inv_drop r seen x q : inv r seen (x :: q) → has_object r x = true → inv r ({[x]} ∪ seen) q.
Proof.
  intros [Hs Hc] Hx. split.
  - intros i [->%elem_of_singleton|Hi]%elem_of_union; auto.
  - intros i o Ho j Hj. destruct (Hc i o Ho j Hj) as [|[->|]%elem_of_cons]; auto.
Qed.

Lemma inv_seen r seen x q : inv r seen (x :: q) → x ∈ seen → inv r seen q.
Proof.
  intros Hi Hx. replace seen with ({[x]} ∪ seen) by set_solver. apply inv_drop; [done |]. by apply Hi.
Qed.

Lemma inv_write r r' u o x seen q q' :
  inv r seen (x :: q) → find_object r x = None → oid_of o = x →
  write_object_bytes o r = (Ok u, r') → q ⊆ q' → (∀ j, j ∈ children o → j ∈ q' ∨ j ∈ ({[x]} ∪ seen : gset Oid)) →
  inv r' ({[x]} ∪ seen) q'.
Proof.
  intros [Hs Hc] Hx Ho Hw Hq Hch. pose proof (write_object_bytes_run o r) as Hrun. rewrite Hw in Hrun.
  destruct Hrun as [Hg Hf]. rewrite Ho in Hf.
  assert (Hxx : has_object r' x = true) by (apply has_object_iff; rewrite Hf, bool_decide_eq_true_2 by done; eauto).
  assert (Hseen : ∀ i, i ∈ ({[x]} ∪ seen : gset Oid) → has_object r' i = true).
  { intros i [->%elem_of_singleton|Hi]%elem_of_union; [done |]. eapply has_object_grows; eauto. }
  split; [done |]. intros i o' Hi j Hj. rewrite Hf in Hi. case_bool_decide as Hix.
  - rewrite Hix, Hx in Hi. simpl in Hi. simplify_eq. destruct (Hch j Hj) as [?|?%Hseen]; auto.
  - destruct (Hc i o' Hi j Hj) as [Hp|[->|Hq']%elem_of_cons]; [left; by eapply has_object_grows | by left | right; auto].
Qed.

Definition queued (w : Walk) : list Oid := w.(trees) ++ w.(blobs).

Lemma copy_commits_spec fuel src : addressed src → ∀ commits w r,
  let '(res, r') := copy_commits fuel src commits w r in
  grows r r' ∧
  ∀ w', res = Ok w' → inv r w.(seen) (commits ++ queued w) →
    inv r' w'.(seen) (queued w') ∧ w.(seen) ⊆ w'.(seen) ∧ (∀ i, i ∈ commits → i ∈ w'.(seen)).
Proof.
  intros Haddr. induction fuel as [|fuel IH]; intros commits w r; [by split |]. simpl.
  destruct commits as [|x rest].
  { split; [done |]. intros w' [= <-] Hi. split_and!; [done | done |]. intros i Hi'. by apply elem_of_nil in Hi'. }
  case_bool_decide as Hx.
  { specialize (IH rest w r). destruct (copy_commits fuel src rest w r) as [res r']. destruct IH as [Hg HI].
    split; [done |]. intros w' E Hi. destruct (HI w' E) as (? & Hs & Hin); [by eapply inv_seen |].
    split_and!; [done | done |]. intros i [->|Hi']%elem_of_cons; auto. }
  se_unfold. destruct (has_object r x) eqn:Hp.
  { specialize (IH rest (MkWalk ({[x]} ∪ seen w) (trees w) (blobs w)) r).
    destruct (copy_commits fuel src rest _ r) as [res r']. destruct IH as [Hg HI].
    split; [done |]. intros w' E Hi. destruct (HI w' E) as (? & Hs & Hin); [by apply inv_drop |]. simpl in Hs.
    split_and!; [done | set_solver |]. intros i [->|Hi']%elem_of_cons; [set_solver | auto]. }
  assert (Hnone : find_object r x = None) by (unfold has_object in Hp; by destruct (find_object r x)).
  unfold read_source. se_unfold. destruct (find_object src x) as [obj|] eqn:Ho; [| by split]. simpl.
  case_bool_decide as Hk; [| by split].
  destruct (decode_commit (obj_data obj)) as [[tree parents]|] eqn:Hd; [| by split]. simpl.
  pose proof (write_object_bytes_run obj r) as Hw0.
  destruct (write_object_bytes obj r) as [[u|e] r1] eqn:Hw; destruct Hw0 as [Hg1 _]; [| by split].
  match goal with |- context [copy_commits fuel src ?c ?v r1] => specialize (IH c v r1); set (c' := c) in *; set (v' := v) in * end.
  destruct (copy_commits fuel src c' v' r1) as [res r']. destruct IH as [Hg HI].
  split; [by etransitivity |]. intros w' E Hi. destruct (HI w' E) as (? & Hs & Hin).
  - subst c' v'. simpl. eapply (inv_write r r1 u obj x); [exact Hi | done | by apply Haddr | done | |].
    + unfold queued; simpl. set_solver.
    + intros j. unfold children. rewrite Hk, Hd. intros [->|Hj]%elem_of_cons; [left; unfold queued; simpl; set_solver |].
      destruct (decide (j ∈ {[x]} ∪ seen w)) as [|Hn]; [by right |]. left. rewrite elem_of_app. left.
      rewrite elem_of_app. right. apply list_elem_of_In, filter_In. split; [by apply list_elem_of_In |].
      by rewrite bool_decide_eq_false_2.
  - subst c' v'. simpl in Hs. split_and!; [done | set_solver |].
    intros i [->|Hi']%elem_of_cons; [set_solver |]. apply Hin. set_solver.
Qed.

Lemma copy_trees_spec fuel src : addressed src → ∀ w r,
  let '(res, r') := copy_trees fuel src w r in
  grows r r' ∧
  ∀ w', res = Ok w' → inv r w.(seen) (queued w) →
    inv r' w'.(seen) w'.(blobs) ∧ w.(seen) ⊆ w'.(seen) ∧
    (blobs_are_blobs src → (∀ j o', j ∈ w.(blobs) → find_object src j = Some o' → obj_kind o' = KBlob) →
     ∀ j o', j ∈ w'.(blobs) → find_object src j = Some o' → obj_kind o' = KBlob).
Proof.
  intros Haddr. induction fuel as [|fuel IH]; intros w r; [by split |]. simpl.
  destruct (trees w) as [|x rest] eqn:Ht.
  { split; [done |]. intros w' [= <-]. unfold queued. rewrite Ht. done. }
  case_bool_decide as Hx.
  { specialize (IH (MkWalk w.(seen) rest w.(blobs)) r). destruct (copy_trees fuel src _ r) as [res r'].
    destruct IH as [Hg HI]. split; [done |]. intros w' E Hi. apply (HI w' E). unfold queued in *; simpl.
    rewrite Ht in Hi. by eapply inv_seen. }
  se_unfold. destruct (has_object r x) eqn:Hp.
  { specialize (IH (MkWalk ({[x]} ∪ seen w) rest (blobs w)) r). destruct (copy_trees fuel src _ r) as [res r'].
    destruct IH as [Hg HI]. split; [done |]. intros w' E Hi. destruct (HI w' E) as (? & Hs & ?).
    - unfold queued in *; simpl. rewrite Ht in Hi. by apply inv_drop.
    - simpl in Hs. split_and!; [done | set_solver | done]. }
  assert (Hnone : find_object r x = None) by (unfold has_object in Hp; by destruct (find_object r x)).
  unfold read_source. se_unfold. destruct (find_object src x) as [obj|] eqn:Ho; [| by split]. simpl.
  case_bool_decide as Hk; [| by split].
  destruct (decode_tree (obj_data obj)) as [es|] eqn:Hd; [| by split]. simpl.
  pose proof (write_object_bytes_run obj r) as Hw0.
  destruct (write_object_bytes obj r) as [[u|e] r1] eqn:Hw; destruct Hw0 as [Hg1 _]; [| by split].
  match goal with |- context [copy_trees fuel src ?v r1] => specialize (IH v r1); set (v' := v) in * end.
  destruct (copy_trees fuel src v' r1) as [res r']. destruct IH as [Hg HI].
  split; [by etransitivity |]. intros w' E Hi. destruct (HI w' E) as (? & Hs & Hb).
  - subst v'. unfold queued in *; simpl. rewrite Ht in Hi.
    eapply (inv_write r r1 u obj x); [exact Hi | done | by apply Haddr | done | set_solver |].
    intros j. unfold children. rewrite Hk, Hd. set_solver.
  - subst v'. simpl in Hs, Hb. split_and!; [done | set_solver |]. intros Hbb Hbl. apply Hb; [done |].
    intros j o' [Hj|Hj]%elem_of_app; [by apply Hbl | by eapply Hbb].
Qed.

Lemma copy_blobs_spec src : addressed src → ∀ bs seen r,
  let '(res, r') := copy_blobs src seen bs r in
  grows r r' ∧
  (res = Ok tt → inv r seen bs →
   (∀ j o', j ∈ bs → find_object src j = Some o' → obj_kind o' = KBlob) → closed r').
Proof.
  intros Haddr. induction bs as [|x rest IH]; intros seen r; simpl.
  { split; [done |]. intros _ [_ Hc] _ i o Hi j Hj. destruct (Hc i o Hi j Hj) as [|[]%elem_of_nil]; done. }
  case_bool_decide as Hx.
  { specialize (IH seen r). destruct (copy_blobs src seen rest r) as [res r']. destruct IH as [Hg HI].
    split; [done |]. intros E Hi Hb. apply HI; [done | by eapply inv_seen |]. intros j o' Hj. apply Hb. by right. }
  se_unfold. destruct (has_object r x) eqn:Hp.
  { specialize (IH ({[x]} ∪ seen) r). destruct (copy_blobs src _ rest r) as [res r']. destruct IH as [Hg HI].
    split; [done |]. intros E Hi Hb. apply HI; [done | by apply inv_drop |]. intros j o' Hj. apply Hb. by right. }
  assert (Hnone : find_object r x = None) by (unfold has_object in Hp; by destruct (find_object r x)).
  unfold read_source. se_unfold. destruct (find_object src x) as [obj|] eqn:Ho; [| by split]. simpl.
  pose proof (write_object_bytes_run (MkObject KBlob (obj_data obj)) r) as Hw0.
  destruct (write_object_bytes _ r) as [[u|e] r1] eqn:Hw; destruct Hw0 as [Hg1 _]; [| by split].
  specialize (IH ({[x]} ∪ seen) r1). destruct (copy_blobs src _ rest r1) as [res r']. destruct IH as [Hg HI].
  split; [by etransitivity |]. intros E Hi Hb. apply HI; [done | | intros j o' Hj; apply Hb; by right].
  assert (Hkb : obj_kind obj = KBlob) by (apply (Hb x); [constructor | done]).
  assert (Eobj : MkObject KBlob (obj_data obj) = obj) by (destruct obj; simpl in *; by subst).
  rewrite Eobj in Hw. eapply (inv_write r r1 u obj x); [exact Hi | done | by apply Haddr | done | done |].
  intros j. unfold children. rewrite Hkb. set_solver.
Qed.

Lemma copy_commits_blobs fuel src : ∀ commits w r w' r',
  copy_commits fuel src commits w r = (Ok w', r') → w'.(blobs) = w.(blobs).
Proof.
  induction fuel as [|fuel IH]; intros commits w r w' r'; [done |]. simpl.
  destruct commits as [|x rest]; [by intros [= <- <-] |]. case_bool_decide; [apply IH |].
  unfold read_source. se_unfold. destruct (has_object r x); [by intros ->%IH |].
  destruct (find_object src x) as [obj|]; [| done]. simpl. case_bool_decide; [| done].
  destruct (decode_commit (obj_data obj)); [| done]. simpl.
  destruct (write_object_bytes obj r) as [[] r1]; [by intros ->%IH | done].
Qed.

(** The whole copy. *)
Lemma walk_and_copy_spec fuel src start r : addressed src →
  let '(res, r') := walk_and_copy fuel src start r in
  grows r r' ∧ (res = Ok tt → closed r → blobs_are_blobs src → closed r' ∧ has_object r' start = true).
Proof.
  intros Haddr. unfold walk_and_copy. se_unfold.
  pose proof (copy_commits_spec fuel src Haddr [start] (MkWalk ∅ [] []) r) as H1.
  destruct (copy_commits fuel src _ _ r) as [[w1|e] r1] eqn:E1; destruct H1 as [Hg1 H1]; [| by split].
  pose proof (copy_trees_spec fuel src Haddr w1 r1) as H2.
  destruct (copy_trees fuel src w1 r1) as [[w2|e] r2]; destruct H2 as [Hg2 H2]; [| split; [by etransitivity | done]].
  pose proof (copy_blobs_spec src Haddr (blobs w2) (seen w2) r2) as H3.
  destruct (copy_blobs src _ _ r2) as [res r3]; destruct H3 as [Hg3 H3].
  split; [do 2 (etransitivity; [done |]); done |]. intros E Hcl Hbb.
  destruct (H1 w1 eq_refl) as (Hi1 & _ & Hin).
  { split; [set_solver |]. intros i o Ho j Hj. left. eauto. }
  destruct (H2 w2 eq_refl Hi1) as (Hi2 & Hsub & Hb).
  assert (Hb2 : ∀ j o', j ∈ blobs w2 → find_object src j = Some o' → obj_kind o' = KBlob).
  { apply Hb; [done |]. intros j o' Hj. rewrite (copy_commits_blobs _ _ _ _ _ _ _ E1) in Hj. by apply elem_of_nil in Hj. }
  split; [by apply H3 |]. eapply has_object_grows; [exact Hg3 |]. apply Hi2, Hsub, Hin. constructor.
Qed.

(** ** Termination

    The references of the source objects not yet handled bound what the queues
    can still receive. *)
Definition weight src (i : Oid) : nat :=
  match find_object src i with Some o => length (children o) | None => 0 end.
Definition unhandled src (objs : list Oid) (seen : gset Oid) : nat :=
  sum_list_with (λ i, if bool_decide (i ∈ seen) then 0 else weight src i) objs.
Definition covers (objs : list Oid) src : Prop := ∀ i, has_object src i = true → i ∈ objs.

Lemma unhandled_mono src objs seen seen' : seen ⊆ seen' → unhandled src objs seen' ≤ unhandled src objs seen.
Proof.
  intros Hs. unfold unhandled. induction objs as [|i objs IH]; simpl; [done |].
  destruct (decide (i ∈ seen)) as [Hi|Hi].
  - rewrite !bool_decide_eq_true_2 by set_solver. lia.
  - rewrite (bool_decide_eq_false_2 (i ∈ seen)) by done. case_bool_decide; lia.
Qed.

Lemma unhandled_step src objs seen x :
  x ∈ objs → x ∉ seen → unhandled src objs ({[x]} ∪ seen) + weight src x ≤ unhandled src objs seen.
Proof.
  intros Hx Hn. pose proof (unhandled_mono src) as Hm. unfold unhandled in *.
  induction objs as [|i objs IH]; [by apply elem_of_nil in Hx |]. simpl.
  apply elem_of_cons in Hx as [->|Hx].
  - rewrite (bool_decide_eq_true_2 (i ∈ _ ∪ _)), (bool_decide_eq_false_2 (i ∈ seen)) by set_solver.
    specialize (Hm objs seen ({[i]} ∪ seen) ltac:(set_solver)). lia.
  - specialize (IH Hx). destruct (decide (i ∈ seen)) as [Hi|Hi].
    + rewrite !bool_decide_eq_true_2 by set_solver. lia.
    + rewrite (bool_decide_eq_false_2 (i ∈ seen)) by done. case_bool_decide; lia.
Qed.

Lemma copy_commits_fuel src objs : covers objs src → ∀ fuel commits w r,
  length commits + length w.(trees) + unhandled src objs w.(seen) < fuel →
  let '(res, _) := copy_commits fuel src commits w r in
  res ≠ Err OutOfFuel ∧
  ∀ w', res = Ok w' → length w'.(trees) + unhandled src objs w'.(seen)
    ≤ length commits + length w.(trees) + unhandled src objs w.(seen).
Proof.
  intros Hc. induction fuel as [|fuel IH]; intros commits w r Hf; [lia |]. simpl.
  destruct commits as [|x rest]; [split; [done |]; intros w' [= <-]; simpl; lia |]. simpl in Hf.
  case_bool_decide as Hx.
  { specialize (IH rest w r ltac:(lia)). destruct (copy_commits fuel src rest w r) as [res r']. destruct IH as [? IH].
    split; [done |]. intros w' E. specialize (IH w' E). simpl. lia. }
  pose proof (unhandled_mono src objs w.(seen) ({[x]} ∪ seen w) ltac:(set_solver)) as Hm.
  se_unfold. destruct (has_object r x) eqn:Hp.
  { specialize (IH rest (MkWalk ({[x]} ∪ seen w) (trees w) (blobs w)) r ltac:(simpl; lia)).
    destruct (copy_commits fuel src rest _ r) as [res r']. destruct IH as [? IH].
    split; [done |]. intros w' E. specialize (IH w' E). simpl in *. lia. }
  unfold read_source. se_unfold. destruct (find_object src x) as [obj|] eqn:Ho; [| by split]. simpl.
  case_bool_decide as Hk; [| by split].
  destruct (decode_commit (obj_data obj)) as [[tree parents]|] eqn:Hd; [| by split]. simpl.
  pose proof (write_object_bytes_run obj r) as Hw0.
  destruct (write_object_bytes obj r) as [[u|e] r1]; destruct Hw0 as [_ Hw0]; [| split; [destruct Hw0; congruence | done]].
  assert (Hst := unhandled_step src objs w.(seen) x (Hc x ltac:(apply has_object_iff; eauto)) Hx).
  unfold weight, children in Hst. rewrite Ho, Hk, Hd in Hst. simpl in Hst.
  pose proof (filter_length_le (λ p, negb (bool_decide (p ∈ ({[x]} ∪ seen w : gset Oid)))) parents) as Hl.
  match goal with |- context [copy_commits fuel src ?c ?v r1] => specialize (IH c v r1); set (v' := v) in *; set (c' := c) in * end.
  assert (Elen : length c' = length rest + length (List.filter (λ p, negb (bool_decide (p ∈ ({[x]} ∪ seen w : gset Oid)))) parents))
    by (subst c'; apply length_app).
  assert (Etr : length (trees v') = length (trees w) + 1) by (subst v'; simpl; rewrite length_app; done).
  assert (Es : seen v' = {[x]} ∪ seen w) by done. rewrite Es, Etr, Elen in IH.
  specialize (IH ltac:(lia)). destruct (copy_commits fuel src c' v' r1) as [res r']. destruct IH as [? IH].
  split; [done |]. intros w' E. specialize (IH w' E). simpl. lia.
Qed.

Lemma length_tree_children (es : list (EntryKind * Oid)) : length (subtrees es) ≤ length (subtrees es ++ files es).
Proof. rewrite length_app. lia. Qed.

Lemma copy_trees_fuel src objs : covers objs src → ∀ fuel w r,
  length w.(trees) + unhandled src objs w.(seen) < fuel → (copy_trees fuel src w r).1 ≠ Err OutOfFuel.
Proof.
  intros Hc. induction fuel as [|fuel IH]; intros w r Hf; [lia |]. simpl.
  destruct (trees w) as [|x rest] eqn:Ht; [done |]. simpl in Hf.
  case_bool_decide as Hx; [apply IH; simpl; lia |].
  pose proof (unhandled_mono src objs w.(seen) ({[x]} ∪ seen w) ltac:(set_solver)) as Hm.
  se_unfold. destruct (has_object r x) eqn:Hp; [apply IH; simpl; lia |].
  unfold read_source. se_unfold. destruct (find_object src x) as [obj|] eqn:Ho; [| done]. simpl.
  case_bool_decide as Hk; [| done].
  destruct (decode_tree (obj_data obj)) as [es|] eqn:Hd; [| done]. simpl.
  pose proof (write_object_bytes_run obj r) as Hw0.
  destruct (write_object_bytes obj r) as [[u|e] r1]; destruct Hw0 as [_ Hw0]; [| destruct Hw0; simpl; congruence].
  assert (Hst := unhandled_step src objs w.(seen) x (Hc x ltac:(apply has_object_iff; eauto)) Hx).
  unfold weight, children in Hst. rewrite Ho, Hk, Hd in Hst.
  pose proof (length_tree_children es). apply IH. simpl. rewrite length_app. lia.
Qed.

Lemma copy_blobs_total src : ∀ bs seen r, (copy_blobs src seen bs r).1 ≠ Err OutOfFuel.
Proof.
  induction bs as [|x rest IH]; intros seen r; simpl; [done |]. case_bool_decide; [apply IH |].
  se_unfold. destruct (has_object r x); [apply IH |]. unfold read_source. se_unfold.
  destruct (find_object src x) as [obj|]; [| done]. simpl.
  pose proof (write_object_bytes_run (MkObject KBlob (obj_data obj)) r) as Hw0.
  destruct (write_object_bytes _ r) as [[u|e] r1]; destruct Hw0 as [_ Hw0]; [apply IH | destruct Hw0; simpl; congruence].
Qed.

(** Fuel enough for any copy out of a source with these objects. *)
Definition copy_fuel src (objs : list Oid) : nat := 2 + sum_list_with (weight src) objs.

Lemma unhandled_empty src objs : unhandled src objs ∅ = sum_list_with (weight src) objs.
Proof. unfold unhandled. induction objs as [|i objs IH]; simpl; [done |]. rewrite IH. done. Qed.

Lemma walk_and_copy_fuel src objs fuel start r :
  covers objs src → copy_fuel src objs ≤ fuel → (walk_and_copy fuel src start r).1 ≠ Err OutOfFuel.
Proof.
  intros Hc Hf. unfold copy_fuel in Hf. unfold walk_and_copy. se_unfold.
  pose proof (copy_commits_fuel src objs Hc fuel [start] (MkWalk ∅ [] []) r) as H1. cbn [trees seen length] in H1.
  rewrite unhandled_empty in H1. specialize (H1 ltac:(lia)).
  destruct (copy_commits fuel src _ _ r) as [[w1|e] r1]; destruct H1 as [H1 Hw]; [| simpl; congruence].
  specialize (Hw w1 eq_refl).
  pose proof (copy_trees_fuel src objs Hc fuel w1 r1 ltac:(lia)) as H2.
  destruct (copy_trees fuel src w1 r1) as [[w2|e] r2]; [apply copy_blobs_total | simpl in *; congruence].
Qed.
End facts.

#[global] Arguments addressed {R _} oid_of src.

(** What running [git] does to the repository: it drops no object, leaves the
    object graph complete when it was, and moves a ref only by [reset --hard]. *)
Class CommandLaws (R : Type) `{Git R} := {
  command_objects r dir env args o r' : git_command dir env args r = (o, r') →
    ∀ i x, find_object r i = Some x → find_object r' i = Some x;
  command_closed r dir env args o r' : git_command dir env args r = (o, r') → closed r → closed r';
  command_refs r dir env args o r' : git_command dir env args r = (o, r') →
    ∀ n, find_reference r' n = find_reference r n ∨
      ∃ oid, args = ["reset"; "--hard"; oid] ∧ find_reference r' n = Some (Direct oid);
}.

Section commit.
Context {R : Type} `{GitLaws R oid_of} `{!CommandLaws R}.
Implicit Types r : R.

Definition ref_is (n : string) (v : option Target) r : Prop := find_reference r n = v.

Lemma run_git_ref n v dir env args :
  (∀ oid, args ≠ ["reset"; "--hard"; oid]) → preserves (ref_is n v) (run_git (R:=R) dir env args).
Proof.
  intros Hne r Hr. unfold run_git. destruct (git_command dir env args r) as [o r'] eqn:E. simpl.
  destruct (command_refs _ _ _ _ _ _ E n) as [Hn|(oid & -> & _)]; [by unfold ref_is; rewrite Hn | by destruct (Hne oid)].
Qed.

Lemma run_git_closed dir env args : preserves closed (run_git (R:=R) dir env args).
Proof.
  intros r Hr. unfold run_git. destruct (git_command dir env args r) as [o r'] eqn:E. simpl. by eapply command_closed.
Qed.

Ltac not_reset := intros ?; discriminate.
Ltac run_preserves := repeat first
  [ apply preserves_bind; [| intros] | apply preserves_ret | apply preserves_guard | apply preserves_throw
  | apply preserves_lift | apply run_git_closed | apply run_git_ref; not_reset
  | match goal with |- preserves _ (match ?x with _ => _ end) => destruct x end ].

Lemma candidate_ff_ref n v path p c : preserves (ref_is n v) (candidate_fast_forwards_target (R:=R) path p c).
Proof. unfold candidate_fast_forwards_target, spawned. run_preserves. Qed.
Lemma candidate_ff_closed path p c : preserves closed (candidate_fast_forwards_target (R:=R) path p c).
Proof. unfold candidate_fast_forwards_target, spawned. run_preserves. Qed.

Lemma synthesize_ref n v path tmp p c t : preserves (ref_is n v) (synthesize_concurrent_target_merge (R:=R) path tmp p c t).
Proof.
  unfold synthesize_concurrent_target_merge, commit_committer_date, cleanup_merge_worktree, spawned, parse_oid. run_preserves.
Qed.
Lemma synthesize_closed path tmp p c t : preserves closed (synthesize_concurrent_target_merge (R:=R) path tmp p c t).
Proof.
  unfold synthesize_concurrent_target_merge, commit_committer_date, cleanup_merge_worktree, spawned, parse_oid. run_preserves.
Qed.

(** Refreshing the checkout to where the ref points keeps the ref there. *)
Lemma refresh_ref n path oid t : preserves (ref_is n (Some (Direct oid))) (refresh_checked_out_worktree (R:=R) path oid t).
Proof.
  unfold refresh_checked_out_worktree, spawned.
  assert (Hreset : preserves (ref_is n (Some (Direct oid))) (run_git (R:=R) path [] ["reset"; "--hard"; oid])).
  { intros r Hr. unfold run_git. destruct (git_command _ _ _ r) as [o r'] eqn:E. simpl.
    destruct (command_refs _ _ _ _ _ _ E n) as [Hn|(oid' & [= <-] & Hn)]; unfold ref_is in *; congruence. }
  repeat first [exact Hreset | run_preserves].
Qed.
Lemma refresh_closed path oid t : preserves closed (refresh_checked_out_worktree (R:=R) path oid t).
Proof. unfold refresh_checked_out_worktree, spawned. run_preserves. Qed.

Lemma fetch_into_main_spec fuel main_exists path orch sha r :
  (∀ src, orch.(co_repo) = Some src → addressed oid_of src) →
  let '(res, r') := fetch_into_main fuel main_exists path orch sha r in
  grows r r' ∧
  (res = Ok tt → (has_object r sha = true ∧ r' = r) ∨
     (closed r → (∀ src, orch.(co_repo) = Some src → blobs_are_blobs src) → closed r' ∧ has_object r' sha = true)).
Proof.
  intros Ha. unfold fetch_into_main. se_unfold.
  destruct main_exists; [| by split]. destruct (co_exists orch); [| by split].
  destruct (co_repo orch) as [src|] eqn:Eo; [| by split]. simpl.
  destruct (has_object r sha) eqn:Hh; [split; [done |]; intros _; by left |].
  destruct (has_object src sha); [| by split].
  pose proof (walk_and_copy_spec fuel src sha r (Ha src eq_refl)) as Hw.
  destruct (walk_and_copy fuel src sha r) as [res r']. destruct Hw as [Hg Hw]. split; [done |].
  intros E. right. intros Hc Hb. by apply Hw; auto.
Qed.
End commit.

Section publish_facts.
Context {R : Type} `{GitLaws R oid_of} `{!CommandLaws R}.
Implicit Types r : R.

Lemma update_target_ref_run oid prev t r :
  let '(res, r') := update_target_ref oid prev t r in
  (closed r → closed r') ∧
  match res with
  | Ok _ => find_reference r' t = Some (Direct oid) ∧ (∀ m, m ≠ t → find_reference r' m = find_reference r m) ∧
      (∀ i, find_object r' i = find_object r i)
  | Err e => r' = r ∧ ∃ reason, e = RefUpdateFailed reason
  end.
Proof.
  unfold update_target_ref, edit_ref. se_unfold. destruct (valid_name t); [| by eauto].
  destruct (edit_reference _ _ _ r) as [[u|e] r'] eqn:E.
  - apply edit_ok in E as (Hr & Ho & Hobj & _). split; [| done]. intros Hc i o. unfold has_object. rewrite Hobj.
    intros Hi j Hj. specialize (Hc i o Hi j Hj). unfold has_object in Hc. by rewrite Hobj.
  - apply edit_err in E as ->. eauto.
Qed.

(** The errors a refresh of the checkout can return. *)
Definition refresh_failure (e : MainMergeError) : Prop := ∃ path reason, e = WorktreeRefreshFailed path reason.

Lemma refresh_err path oid t r e r' :
  refresh_checked_out_worktree path oid t r = (Err e, r') → refresh_failure e.
Proof.
  unfold refresh_checked_out_worktree, spawned, run_git, refresh_failure. se_unfold.
  destruct (git_command path [] _ r) as [[o|] r1]; simpl; [| intros [= <- <-]; eauto].
  destruct (negb (success o)); [done |]. destruct (negb _); [done |].
  destruct (git_command path [] _ r1) as [[o2|] r2]; simpl; [| intros [= <- <-]; eauto].
  destruct (success o2); [done |]. intros [= <- <-]. eauto.
Qed.

(** The final commit: chosen by running [git], which moves no ref. *)
Definition final_commit path temp_dir (previous : option Oid) (oid : Oid) target_ref : GitM R Oid :=
  match previous with
  | Some prev =>
      ff ← candidate_fast_forwards_target path prev oid;
      if (ff : bool) then mret oid else synthesize_concurrent_target_merge path temp_dir prev oid target_ref
  | None => mret oid
  end.

Lemma final_commit_ref n v path tmp previous oid t : preserves (ref_is n v) (final_commit path tmp previous oid t).
Proof.
  unfold final_commit. destruct previous; [| apply preserves_ret].
  apply preserves_bind; [apply candidate_ff_ref | intros []; [apply preserves_ret | apply synthesize_ref]].
Qed.
Lemma final_commit_closed path tmp previous oid t : preserves closed (final_commit path tmp previous oid t).
Proof.
  unfold final_commit. destruct previous; [| apply preserves_ret].
  apply preserves_bind; [apply candidate_ff_closed | intros []; [apply preserves_ret | apply synthesize_closed]].
Qed.

(** Phase 2, step by step, on a repository that opened. *)
Lemma commit_merge_run fuel path tmp orch oid t r :
  (∀ src, orch.(co_repo) = Some src → addressed oid_of src) →
  let '(res, r') := commit_merge_to_open_repo fuel path tmp orch oid t r in
  match res with
  | Ok adv =>
      current_ref_oid r' t = Some adv.(current_sha) ∧ adv.(previous_sha) = current_ref_oid r t ∧
      (adv.(already_at_target) = true ↔ current_ref_oid r t = Some oid) ∧
      (closed r → (∀ src, orch.(co_repo) = Some src → blobs_are_blobs src) → closed r')
  | Err e =>
      find_reference r' t = find_reference r t ∨
      (refresh_failure e ∧ ∃ o, current_ref_oid r' t = Some o)
  end.
Proof.
  intros Ha. unfold commit_merge_to_open_repo. se_unfold.
  set (v := find_reference r t).
  case_bool_decide as Hprev.
  { pose proof (refresh_ref t path oid t r) as Hr. pose proof (refresh_closed path oid t r) as Hc.
    assert (Hv : ref_is t (Some (Direct oid)) r).
    { unfold current_ref_oid in Hprev. unfold ref_is. destruct (find_reference r t) as [[]|]; by simplify_eq. }
    specialize (Hr Hv). destruct (refresh_checked_out_worktree path oid t r) as [[u|e] r1] eqn:E; simpl in Hr, Hc.
    - unfold current_ref_oid at 1. rewrite Hr. simpl. split_and!; [done | done | done | auto].
    - left. unfold ref_is in Hr, Hv. subst v. by rewrite Hr, Hv. }
  pose proof (fetch_into_main_spec fuel true path orch oid r Ha) as Hf.
  destruct (fetch_into_main fuel true path orch oid r) as [[[]|e] r1]; destruct Hf as [[Hobj Href] Hf]; [| left; by rewrite Href].
  destruct (has_object r1 oid); [| left; by rewrite Href].
  change (match current_ref_oid r t with
          | Some prev => _
          | None => _
          end) with (final_commit path tmp (current_ref_oid r t) oid t).
  pose proof (final_commit_ref t v path tmp (current_ref_oid r t) oid t r1) as Hr2.
  pose proof (final_commit_closed path tmp (current_ref_oid r t) oid t r1) as Hc2.
  assert (Hv1 : ref_is t v r1) by (unfold ref_is; by rewrite Href). specialize (Hr2 Hv1).
  destruct (final_commit path tmp (current_ref_oid r t) oid t r1) as [[final|e] r2]; simpl in Hr2, Hc2; [| by left].
  pose proof (update_target_ref_run final (current_ref_oid r t) t r2) as Hu.
  destruct (update_target_ref final (current_ref_oid r t) t r2) as [[u|e] r3]; destruct Hu as [Hcu Hu];
    [| left; destruct Hu as [-> _]; exact Hr2].
  destruct Hu as (Hu & _ & _).
  pose proof (refresh_ref t path final t r3 Hu) as Hr4. pose proof (refresh_closed path final t r3) as Hc4.
  destruct (refresh_checked_out_worktree path final t r3) as [[u'|e] r4] eqn:E; simpl in Hr4, Hc4.
  - unfold current_ref_oid at 1. rewrite Hr4. simpl. split_and!; [done | done | split; [done | congruence] |].
    intros Hcl Hb. apply Hc4, Hcu, Hc2. destruct (Hf eq_refl) as [[_ ->]|Hf']; [done | by apply Hf'].
  - right. split; [by eapply refresh_err |]. exists final. unfold current_ref_oid. by rewrite Hr4.
Qed.
End publish_facts.

(** ** Fuel *)

(** A computation that does not run out of fuel. *)
Definition never_out {R A} (m : GitM R A) : Prop := ∀ r, (m r).1 ≠ Err OutOfFuel.

Lemma never_out_bind {R A B} (m : GitM R A) (f : A → GitM R B) :
  never_out m → (∀ a, never_out (f a)) → never_out (x ← m; f x).
Proof.
  intros Hm Hf r. unfold mbind, se_bind. specialize (Hm r). destruct (m r) as [[a|e] r']; [apply Hf | simpl in *; congruence].
Qed.
Lemma never_out_ret {R A} (a : A) : never_out (mret a : GitM R A). Proof. done. Qed.
Lemma never_out_gets {R A} (f : R → A) : never_out (gets f : GitM R A). Proof. done. Qed.
Lemma never_out_throw {R A} e : e ≠ OutOfFuel → never_out (throw e : GitM R A).
Proof. intros He r. simpl. congruence. Qed.
Lemma never_out_guard {R} b e : e ≠ OutOfFuel → never_out (guard_or b e : GitM R unit).
Proof. intros He r. unfold guard_or; simpl. destruct b; congruence. Qed.
Lemma never_out_lift {R A} (o : option A) e : e ≠ OutOfFuel → never_out (lift_result (ok_or o e) : GitM R A).
Proof. intros He r. destruct o; simpl; congruence. Qed.
Lemma never_out_git {R} `{Git R} dir env args : never_out (run_git (R:=R) dir env args).
Proof. intros r. unfold run_git. by destruct (git_command dir env args r). Qed.
Lemma never_out_edit {R} `{Git R} t p o : never_out (edit_ref (R:=R) t p o).
Proof. intros r. unfold edit_ref. by destruct (edit_reference t p o r) as [[]]. Qed.

Ltac never_runs_out := repeat first
  [ assumption | apply never_out_bind; [| intros] | apply never_out_ret | apply never_out_gets
  | apply never_out_throw; discriminate | apply never_out_guard; discriminate | apply never_out_lift; discriminate
  | apply never_out_git | apply never_out_edit
  | match goal with |- never_out (match ?x with _ => _ end) => destruct x end ].

Lemma commit_merge_fuel {R} `{Git R} fuel path tmp (orch : Checkout R) oid t r :
  never_out (fetch_into_main fuel true path orch oid) →
  (commit_merge_to_open_repo fuel path tmp orch oid t r).1 ≠ Err OutOfFuel.
Proof.
  intros Hf. revert r. change (never_out (commit_merge_to_open_repo fuel path tmp orch oid t)).
  unfold commit_merge_to_open_repo, refresh_checked_out_worktree, candidate_fast_forwards_target,
    synthesize_concurrent_target_merge, commit_committer_date, cleanup_merge_worktree, spawned, parse_oid, update_target_ref.
  never_runs_out.
Qed.

Lemma fetch_into_main_fuel {R} `{GitLaws R oid_of} fuel exists_ path (orch : Checkout R) oid src objs :
  orch.(co_repo) = Some src → covers objs src → copy_fuel src objs ≤ fuel →
  never_out (fetch_into_main fuel exists_ path orch oid).
Proof.
  intros Hs Hc Hfu r. unfold fetch_into_main. se_unfold. destruct exists_; [| done].
  destruct (co_exists orch); [| done]. rewrite Hs. simpl. destruct (has_object r oid); [done |].
  destruct (has_object src oid); [| done]. by eapply walk_and_copy_fuel.
Qed.

(** ** Theorems *)


(** C34: Publishing always ends: with fuel for the objects of the worktree (two
    more than the number of references between them) it never runs out, whatever
    either repository and [git] do. *)
Theorem publishing_terminates {R} `{GitLaws R oid_of} fuel temp_dir orch commit_sha target_ref main src objs :
  orch.(co_repo) = Some src → covers objs src → copy_fuel src objs ≤ fuel →
  (commit_merge_to_target_ref fuel temp_dir orch commit_sha target_ref main).1 ≠ Err OutOfFuel.
Proof.
  intros Hs Hc Hf. unfold commit_merge_to_target_ref, with_main. destruct (from_hex commit_sha) as [oid|]; [| done].
  destruct (co_repo main) as [r|]; [| done].
  assert (Hend : (commit_merge_to_open_repo fuel (co_path main) temp_dir orch oid target_ref r).1 ≠ Err OutOfFuel).
  { apply commit_merge_fuel. by eapply fetch_into_main_fuel. }
  by destruct (commit_merge_to_open_repo _ _ _ _ _ _ r).
Qed.

(** ** A small repository *)
Module ToyGit.

(** Ids are a letter for the kind and the data; [writes] says which of the next
    writes reach the disk, all of them once it is empty. *)
Record Repo := MkRepo { odb : gmap string Object; refs : gmap string Target; writes : list bool }.

Definition letter (k : Kind) : string := match k with KCommit => "c" | KTree => "t" | KBlob => "b" | KTag => "g" end.
Definition oid_of (o : Object) : string := letter o.(obj_kind) +:+ o.(obj_data).

Definition toy_write (o : Object) (r : Repo) : result string unit * Repo :=
  match r.(writes) with
  | false :: _ => (Err "No space left on device", r)
  | _ => (Ok tt, MkRepo (<[oid_of o := default o (r.(odb) !! oid_of o)]> r.(odb)) r.(refs) (tail r.(writes)))
  end.

Definition toy_edit (n : string) (prev : PreviousValue) (oid : string) (r : Repo) : result string unit * Repo :=
  if bool_decide (r.(refs) !! n = match prev with MustExistAndMatch p => Some (Direct p) | MustNotExist => None end)
  then (Ok tt, MkRepo r.(odb) (<[n := Direct oid]> r.(refs)) r.(writes))
  else (Err "unexpected previous value", r).

(** Tree 1 holds a file; tree 2 calls tree 1 a file. *)
#[export] Instance toy_git : Git Repo := {
  find_object r i := r.(odb) !! i;
  write_buf := toy_write;
  find_reference r n := r.(refs) !! n;
  valid_name _ := true;
  edit_reference := toy_edit;
  git_command _ _ _ r := (Some (MkCommandOutput (Some 1%Z) ""), r);
  decode_commit d := Some ("t" +:+ d, []);
  decode_tree d := Some (if String.eqb d "2" then [(EBlob, "t1")] else [(EBlob, "b1")]);
  from_hex s := Some s;
}.

#[export] Instance toy_laws : GitLaws Repo oid_of.
Proof.
  split.
  - intros r o u r'. simpl. unfold toy_write. destruct (writes r) as [|[] ws]; intros [= _ <-];
      (split; [intros i; simpl; destruct (decide (i = oid_of o)) as [->|Hne];
        [by rewrite lookup_insert_eq, bool_decide_eq_true_2 | by rewrite lookup_insert_ne, bool_decide_eq_false_2] | done]).
  - intros r o e r'. simpl. unfold toy_write. by destruct (writes r) as [|[] ws]; intros [= _ <-].
  - intros r n prev oid u r'. simpl. unfold toy_edit. case_bool_decide as Hb; intros [= _ <-]. simpl.
    split_and!; [by rewrite lookup_insert_eq | intros m Hm; by rewrite lookup_insert_ne | done | by destruct prev].
  - intros r n prev oid e r'. simpl. unfold toy_edit. case_bool_decide; by intros [= _ <-].
Qed.

#[export] Instance toy_commands : CommandLaws Repo.
Proof. split; intros r dir env args o r' [= <- <-]; auto. Qed.

Definition objects (l : list Object) : gmap string Object := list_to_map ((λ o, (oid_of o, o)) <$> l).
Definition file1 := MkObject KBlob "1".
Definition tree1 := MkObject KTree "1".
Definition tree2 := MkObject KTree "2".
Definition commit1 := MkObject KCommit "1".
Definition commit2 := MkObject KCommit "2".

(** An honest worktree, and one whose second tree is forged. *)
Definition worktree_of (l : list Object) : Checkout Repo :=
  MkCheckout "/wt" true (Some (MkRepo (objects l) ∅ [])).
Definition honest : Checkout Repo := worktree_of [file1; tree1; commit1].
Definition forged : Checkout Repo := worktree_of [file1; tree1; tree2; commit2].
Definition managed (ws : list bool) : Checkout Repo := MkCheckout "/main" true (Some (MkRepo ∅ ∅ ws)).

Definition publish (wt : Checkout Repo) (sha : string) :=
  commit_merge_to_target_ref 20 "/tmp" wt sha "refs/heads/main".
Definition lookup_in (c : Checkout Repo) (i : string) : option Object := r ← co_repo c; r.(odb) !! i.

Lemma honest_source src : co_repo honest = Some src → addressed oid_of src ∧ blobs_are_blobs src.
Proof.
  intros [= <-]. split.
  - apply (bool_decide_unpack (map_Forall (λ i o, oid_of o = i) (objects [file1; tree1; commit1]))). vm_compute. exact I.
  - assert (Hd : map_Forall (λ _ o, String.eqb (obj_data o) "2" = false) (objects [file1; tree1; commit1]))
      by (apply (bool_decide_unpack _); vm_compute; exact I).
    intros i o es Hi _ Hes j o' Hj Hj'. simpl in Hes, Hi. rewrite (Hd i o Hi) in Hes. injection Hes as <-.
    apply list_elem_of_singleton in Hj as ->. vm_compute in Hj'. by injection Hj' as <-.
Qed.


Lemma publishing_terminates_witness : (publish forged "c2" (managed [])).1 ≠ Err OutOfFuel.
Proof.
  eapply (publishing_terminates (oid_of := oid_of) 20 "/tmp" forged "c2" "refs/heads/main" (managed []) _
    ["b1"; "t1"; "t2"; "c2"]); [reflexivity | | vm_compute; lia].
  intros i. unfold has_object, objects. simpl.
  destruct (decide (i ∈ ["b1"; "t1"; "t2"; "c2"])) as [|Hn]; [done |].
  rewrite !not_elem_of_cons in Hn. destruct Hn as (? & ? & ? & ? & _).
  rewrite !lookup_insert_ne by done. done.
Defined.
End ToyGit.
Export (hints) ToyGit.


(** A tree of the worktree that calls another tree a file is copied: the bytes
    are stored as a file under another id, and the published graph lacks the
    object the entry names. *)
Theorem mislabelled_entry_is_published :
  let published := ToyGit.publish ToyGit.forged "c2" (ToyGit.managed []) in
  published.1 = Ok (MkMainAdvance None "c2" false) ∧
  ToyGit.lookup_in published.2 "t2" = Some ToyGit.tree2 ∧ ToyGit.lookup_in published.2 "t1" = None.
Proof. vm_compute. done. Qed.
