(* ===== verification/MergeCloseout.v ===== *)
(** * The closeout of an integration merge

    [kernel/src/handlers/intent.rs], from the flag of phase 1 to the audit record
    of the merge: [complete_integration_merge_closeout] and what it calls.  Every
    write is durable before the next one starts, so the closeout is a sequence of
    worlds, and a crash leaves one of them.  The git side is [DomainGit]; the
    worktree snapshot, the permanent-failure escalation (a task spawned at the end)
    and the statements that fail are arguments. *)

From S2P Require Import Prelude Fsm Store TaskTransitions PlanRegistry Recovery DomainGit.

(** ** The tables of the closeout *)

(** One row of [integration_merge_queue] (migration 32), keyed by [queue_id]. *)
Record QueueRow := MkQueueRow {
  q_initiative_id : string;
  q_task_id : string;
  q_orchestrator_session_id : option string;
  q_repository_id : string;
  q_target_ref : string;
  q_requested_commit_sha : string;
  q_base_sha : string;
  q_worktree_root : string;
  q_state : string;
  q_enqueued_at : Z;
  q_started_at : option Z;
  q_finished_at : option Z;
  q_applied_commit_sha : option string;
  q_previous_sha : option string;
  q_failure_category : option string;
  q_failure_reason : option string;
  q_operator_hint : option string;
}.

(** The columns of [managed_repositories] that a publication sets. *)
Record PublishRow := MkPublishRow {
  pub_state : string;
  pub_head_sha : option string;
  pub_last_error : option string;
}.

Inductive MergeEvent :=
  | IntegrationMergeCompleted (initiative_id session_id commit_sha previous_sha : string)
      (operator_assisted : bool) (escalation_id : option string) (target_ref : string)
  | MergeTaskStateChanged (e : TaskStateChanged)
  | InitiativeStateChanged (initiative_id from_state to_state : string)
  | MergeFastForwardFailed (initiative_id commit_sha target_ref category reason : string)
  | GitConsistencyRepaired (initiative_id db_sha previous_git_sha target_ref : string)
  | GitConsistencyVerified (initiative_id sha target_ref : string)
  | GitStateInconsistent (initiative_id db_sha git_sha target_ref reason : string).

(** The statements and calls that can fail without stopping the closeout. *)
Inductive CloseoutStep :=
  | Enqueue | MarkRunning | EnsurePending | QueueCompleted | AttemptCompleted | PublishPending | ClearPending
  | Finalize | AttemptDiscarded | QueueRecoveryRequired | TaskFailed | InitiativeRecoveryRequired.

Section closeout.
Context {R : Type} `{Git R} {Sink Snap : Type}.

(** Everything durable the closeout reads or writes. *)
Record MergeWorld := MkMergeWorld {
  mw_db : Db;
  mw_git_apply_pending : gset string;
  mw_attempts : gmap string AttemptRow;
  mw_queue : gmap string QueueRow;
  mw_published : gmap string PublishRow;
  mw_disk : gmap string (Checkout R);
  mw_snapshots : Snap;
  mw_sink : Sink;
}.

Definition set_db (f : Db → Db) (w : MergeWorld) : MergeWorld :=
  MkMergeWorld (f w.(mw_db)) w.(mw_git_apply_pending) w.(mw_attempts) w.(mw_queue) w.(mw_published) w.(mw_disk)
    w.(mw_snapshots) w.(mw_sink).
Definition set_pending (f : gset string → gset string) (w : MergeWorld) : MergeWorld :=
  MkMergeWorld w.(mw_db) (f w.(mw_git_apply_pending)) w.(mw_attempts) w.(mw_queue) w.(mw_published) w.(mw_disk)
    w.(mw_snapshots) w.(mw_sink).
Definition set_attempts (f : gmap string AttemptRow → gmap string AttemptRow) (w : MergeWorld) : MergeWorld :=
  MkMergeWorld w.(mw_db) w.(mw_git_apply_pending) (f w.(mw_attempts)) w.(mw_queue) w.(mw_published) w.(mw_disk)
    w.(mw_snapshots) w.(mw_sink).
Definition set_queue (f : gmap string QueueRow → gmap string QueueRow) (w : MergeWorld) : MergeWorld :=
  MkMergeWorld w.(mw_db) w.(mw_git_apply_pending) w.(mw_attempts) (f w.(mw_queue)) w.(mw_published) w.(mw_disk)
    w.(mw_snapshots) w.(mw_sink).
Definition set_published (f : gmap string PublishRow → gmap string PublishRow) (w : MergeWorld) : MergeWorld :=
  MkMergeWorld w.(mw_db) w.(mw_git_apply_pending) w.(mw_attempts) w.(mw_queue) (f w.(mw_published)) w.(mw_disk)
    w.(mw_snapshots) w.(mw_sink).
Definition set_disk (f : gmap string (Checkout R) → gmap string (Checkout R)) (w : MergeWorld) : MergeWorld :=
  MkMergeWorld w.(mw_db) w.(mw_git_apply_pending) w.(mw_attempts) w.(mw_queue) w.(mw_published) (f w.(mw_disk))
    w.(mw_snapshots) w.(mw_sink).
Definition set_snapshots (f : Snap → Snap) (w : MergeWorld) : MergeWorld :=
  MkMergeWorld w.(mw_db) w.(mw_git_apply_pending) w.(mw_attempts) w.(mw_queue) w.(mw_published) w.(mw_disk)
    (f w.(mw_snapshots)) w.(mw_sink).
Definition set_sink (f : Sink → Sink) (w : MergeWorld) : MergeWorld :=
  MkMergeWorld w.(mw_db) w.(mw_git_apply_pending) w.(mw_attempts) w.(mw_queue) w.(mw_published) w.(mw_disk)
    w.(mw_snapshots) (f w.(mw_sink)).

(** The path of a checkout that nothing is known of does not exist. *)
Definition checkout_at (w : MergeWorld) (path : string) : Checkout R :=
  default (MkCheckout path false None) (w.(mw_disk) !! path).

(** [UPDATE initiatives SET git_apply_pending = ..], a no-op without the row. *)
Definition set_git_apply_pending (initiative_id : string) (w : MergeWorld) : MergeWorld :=
  if has_initiative w.(mw_db) initiative_id then set_pending (union {[initiative_id]}) w else w.
Definition clear_git_apply_pending (initiative_id : string) (w : MergeWorld) : MergeWorld :=
  set_pending (λ s, s ∖ {[initiative_id]}) w.

Definition DEFAULT_REPOSITORY_ID : string := "main".
Definition managed_repository_path (data_dir repository_id : string) : string :=
  data_dir +:+ "/repositories/" +:+ repository_id.

(** ** Records of the closeout *)

Definition enqueued (now : Z) (initiative_id task_id : string) (session_id : option string)
    (repository_id target_ref requested_sha base_sha worktree_root : string) : QueueRow :=
  MkQueueRow initiative_id task_id session_id repository_id target_ref requested_sha base_sha worktree_root
    "Queued" now None None None None None None None.

Definition queue_running (now : Z) (r : QueueRow) : QueueRow :=
  MkQueueRow r.(q_initiative_id) r.(q_task_id) r.(q_orchestrator_session_id) r.(q_repository_id) r.(q_target_ref)
    r.(q_requested_commit_sha) r.(q_base_sha) r.(q_worktree_root) "Running" r.(q_enqueued_at) (Some now)
    r.(q_finished_at) r.(q_applied_commit_sha) r.(q_previous_sha) r.(q_failure_category) r.(q_failure_reason)
    r.(q_operator_hint).

Definition queue_completed (now : Z) (applied : string) (previous : option string) (r : QueueRow) : QueueRow :=
  MkQueueRow r.(q_initiative_id) r.(q_task_id) r.(q_orchestrator_session_id) r.(q_repository_id) r.(q_target_ref)
    r.(q_requested_commit_sha) r.(q_base_sha) r.(q_worktree_root) "Completed" r.(q_enqueued_at) r.(q_started_at)
    (Some now) (Some applied) previous r.(q_failure_category) r.(q_failure_reason) r.(q_operator_hint).

Definition queue_recovery_required (now : Z) (category reason hint : string) (r : QueueRow) : QueueRow :=
  MkQueueRow r.(q_initiative_id) r.(q_task_id) r.(q_orchestrator_session_id) r.(q_repository_id) r.(q_target_ref)
    r.(q_requested_commit_sha) r.(q_base_sha) r.(q_worktree_root) "RecoveryRequired" r.(q_enqueued_at)
    r.(q_started_at) (Some now) r.(q_applied_commit_sha) r.(q_previous_sha) (Some category) (Some reason) (Some hint).

(** [SELECT id .. WHERE initiative_id = ? AND state IN (..) ORDER BY created_at
    DESC LIMIT 1]; among equal times SQLite's choice is not specified. *)
Definition latest_open_attempt (initiative_id : string) (m : gmap string AttemptRow) : option string :=
  fst <$> latest_by (λ kv, kv.2.(att_created_at))
    (filter (λ kv, String.eqb kv.2.(att_initiative_id) initiative_id
       && bool_decide (kv.2.(att_state) ∈
            [as_sql_str IntegrationMergeAttemptState.AwaitingPreMergeVerifiers;
             as_sql_str IntegrationMergeAttemptState.PreMergeVerifiersPassed]) = true)
      (map_to_list m)).

Definition attempt_completed (now : Z) (sha : string) (r : AttemptRow) : AttemptRow :=
  MkAttemptRow r.(att_initiative_id) r.(att_orchestrator_session_id) r.(att_requested_commit_sha)
    (Some (default sha r.(att_candidate_merge_sha)))
    (as_sql_str IntegrationMergeAttemptState.CompletedAdvanceApplied) r.(att_discard_reason) r.(att_created_at) (Some now).

Definition attempt_discarded (now : Z) (reason : IntegrationMergeAttemptDiscardReason) (r : AttemptRow) : AttemptRow :=
  MkAttemptRow r.(att_initiative_id) r.(att_orchestrator_session_id) r.(att_requested_commit_sha)
    r.(att_candidate_merge_sha) (as_sql_str (discard_terminal_state reason)) (Some (as_sql_str reason))
    r.(att_created_at) (Some now).

Definition on_latest_attempt (initiative_id : string) (f : AttemptRow → AttemptRow) (m : gmap string AttemptRow)
    : gmap string AttemptRow :=
  match latest_open_attempt initiative_id m with Some id => alter f id m | None => m end.

Definition PUBLISH_PENDING : string := "pending".
Definition publish_pending (head_sha : string) (r : PublishRow) : PublishRow :=
  MkPublishRow PUBLISH_PENDING (Some head_sha) None.

(** ** Completion of the coordinator and the initiative *)

Record FinalizeOutcome := MkFinalizeOutcome {
  fo_task_record : TaskTransitionRecord;
  fo_normalization_records : list TaskTransitionRecord;
  fo_initiative_from : string;
  fo_initiative_to : string;
}.

(** The hops that bring the coordinator to [Running]. *)
Definition normalization_path (state : string) : option (list TaskState) :=
  if String.eqb state (as_sql_str TaskState.Running) then Some []
  else if String.eqb state (as_sql_str TaskState.Admitted_) then Some [TaskState.Running]
  else if String.eqb state (as_sql_str TaskState.GatesPending) then Some [TaskState.Admitted_; TaskState.Running]
  else None.

Fixpoint hop (now : Z) (task_id : string) (path : list TaskState) : M LifecycleError (list TaskTransitionRecord) :=
  match path with
  | [] => mret []
  | next :: rest =>
      rec ← transition_task_in_tx now task_id next None Kernel;
      recs ← hop now task_id rest;
      mret (rec :: recs)
  end.

Definition complete_initiative (now : Z) (r : InitiativeRow) : InitiativeRow :=
  MkInitiativeRow (as_sql_str InitiativeState.Completed) r.(ini_terminal_criteria_json) r.(ini_plan_artifact_sha256)
    r.(ini_created_at) r.(ini_approved_at) (Some now) r.(ini_orchestrator_no_progress_respawn_count)
    r.(ini_plan_bundle_sha256).

Definition finalize_tx (now : Z) (initiative_id task_id : string) (path : list TaskState) : M LifecycleError FinalizeOutcome :=
  normalization ← hop now task_id path;
  task_record ← transition_task_in_tx now task_id TaskState.Completed None Kernel;
  cur ← gets (λ d, ini_state <$> d.(initiatives) !! initiative_id);
  match cur with
  | None => mret (MkFinalizeOutcome task_record normalization "" "")
  | Some st =>
      if String.eqb st (as_sql_str InitiativeState.Executing) then
        _ ← modify (on_initiatives (alter (complete_initiative now) initiative_id));
        mret (MkFinalizeOutcome task_record normalization st (as_sql_str InitiativeState.Completed))
      else mret (MkFinalizeOutcome task_record normalization st st)
  end.

(** [Ok(None)], and every early return, drops the transaction. *)
Definition finalize_integration_merge_completion (now : Z) (initiative_id task_id : string) (d : Db)
    : option FinalizeOutcome * Db :=
  match d.(tasks) !! task_id with
  | None => (None, d)
  | Some row =>
      match normalization_path row.(task_state) with
      | None => (None, d)
      | Some path =>
          match with_tx (finalize_tx now initiative_id task_id path) d with
          | (Ok o, d') => (Some o, d')
          | (Err _, d') => (None, d')
          end
      end
  end.

Section emits.
Context (emit : MergeEvent → Sink → bool * Sink).
Definition emit_ (e : MergeEvent) (k : Sink) : Sink := (emit e k).2.

Definition emit_integration_merge_completion_audits (o : FinalizeOutcome) (session_id : option string)
    (initiative_id commit_sha previous_sha target_ref : string) (operator_assisted : bool) (escalation_id : option string)
    (k : Sink) : Sink :=
  let k1 := emit_ (IntegrationMergeCompleted initiative_id (default "" session_id) commit_sha previous_sha
                     operator_assisted escalation_id target_ref) k in
  let changed r k := emit_task_state_changed_audit (λ e, emit (MergeTaskStateChanged e)) r session_id k in
  let k2 := foldl (λ k r, changed r k) k1 o.(fo_normalization_records) in
  let k3 := changed o.(fo_task_record) k2 in
  if negb (String.eqb o.(fo_initiative_from) "") && negb (String.eqb o.(fo_initiative_from) o.(fo_initiative_to))
  then emit_ (InitiativeStateChanged initiative_id o.(fo_initiative_from) o.(fo_initiative_to)) k3
  else k3.
End emits.

(** ** The failed merge *)

(** [str::contains] *)
Fixpoint str_contains (needle s : string) : bool :=
  starts_with needle s || match s with EmptyString => false | String _ s' => str_contains needle s' end.

Definition classify_merge_ff_error (to_lowercase : string → string) (e : MainMergeError) : string * string :=
  match e with
  | MainRepoUnopenable path reason => ("unopenable_main_repo", path +:+ ": " +:+ reason)
  | SourceUnopenable path reason => ("unopenable_source_repo", path +:+ ": " +:+ reason)
  | FetchFailed s => ("git_failed", s)
  | ShaMissingPostFetch sha => ("missing_commit", "sha " +:+ sha +:+ " not present in main ODB after fetch")
  | RefUpdateFailed s =>
      let lower := to_lowercase s in
      if str_contains "locked" lower || str_contains "expected" lower || str_contains "conflict" lower
      then ("target_ref_advanced_concurrently", s) else ("git_failed", s)
  | ConcurrentMergeFailed target_ref previous candidate reason =>
      ("target_ref_concurrent_merge_failed",
       candidate +:+ " could not be merged with live " +:+ target_ref +:+ " tip " +:+ previous +:+ ": " +:+ reason)
  | WorktreeRefreshFailed path reason => ("worktree_refresh_failed", path +:+ ": " +:+ reason)
  | InvalidSha sha reason => ("invalid_sha", "sha " +:+ sha +:+ ": " +:+ reason)
  | OutOfFuel => ("git_failed", "")
  end.

Definition operator_hint (repository_id target_ref requested_sha main_root wt_root : string) : string :=
  "RAXIS serialized IntegrationMerge for repository '" +:+ repository_id +:+ "' on " +:+ target_ref
  +:+ ", but the candidate " +:+ requested_sha +:+ " could not be reconciled with the current managed-repo tip. "
  +:+ "Open the managed repository at " +:+ main_root +:+ " and the orchestrator worktree at " +:+ wt_root
  +:+ " to inspect the conflict, then use the RecoveryRequired escalation to retry after resolving or fork from failed if the plan must change.".

Definition fail_task (reason : string) (r : TaskRow) : TaskRow :=
  if bool_decide (r.(task_state) ∈ ["Admitted"; "Running"; "GatesPending"; "BlockedRecoveryPending"])
  then write_task_state "Failed" r.(task_transitioned_at) (Some reason) r.(task_actor) r else r.

Definition require_recovery (r : InitiativeRow) : InitiativeRow :=
  if bool_decide (r.(ini_state) ∈ ["Executing"; "ApprovedPlan"; "Blocked"])
  then MkInitiativeRow "RecoveryRequired" r.(ini_terminal_criteria_json) r.(ini_plan_artifact_sha256) r.(ini_created_at)
         r.(ini_approved_at) None r.(ini_orchestrator_no_progress_respawn_count) r.(ini_plan_bundle_sha256)
  else r.

(** ** The closeout *)

Record CloseoutArgs := MkCloseoutArgs {
  ca_data_dir : string;
  ca_initiative_id : string;
  ca_task_id : string;
  ca_session_id : option string;
  ca_orch_worktree_root : string;
  ca_requested_sha : string;
  ca_base_sha : string;
  ca_operator_assisted : bool;
  ca_escalation_id : option string;
}.

Record CloseoutResult := MkCloseoutResult {
  cr_host_merge_succeeded : bool;
  cr_task_completed : bool;
  cr_applied_commit_sha : string;
  cr_target_ref : string;
  cr_repository_id : string;
}.

(** What the closeout takes from outside: the clock, a fresh queue id, a fresh
    merge directory, the calls that fail, the snapshot, the audit sink, and the
    fuel of the object copy. *)
Record CloseoutEnv := MkCloseoutEnv {
  ce_now : Z;
  ce_queue_id : string;
  ce_temp_dir : string;
  ce_fails : CloseoutStep → bool;
  ce_snapshot : string → string → Snap → Snap;
  ce_emit : MergeEvent → Sink → bool * Sink;
  ce_to_lowercase : string → string;
  ce_fuel : nat;
}.

(** A world and the durable worlds before it, oldest first. *)
Definition Trace : Type := MergeWorld * list MergeWorld.
Definition durable (f : MergeWorld → MergeWorld) (t : Trace) : Trace := (f t.1, t.2 ++ [t.1]).

Section run.
Context (env : CloseoutEnv) (registry : PlanRegistry) (a : CloseoutArgs).

Definition stmt_ (s : CloseoutStep) (f : MergeWorld → MergeWorld) : Trace → Trace :=
  durable (if env.(ce_fails) s then id else f).

(** Phase 1 (step 12B of the intent handler): the flag, in the intent's transaction. *)
Definition phase1 : Trace → Trace := durable (set_git_apply_pending a.(ca_initiative_id)).

Definition closeout_target_ref : string :=
  match orchestrator registry a.(ca_initiative_id) with Some o => o.(target_ref) | None => DEFAULT_TARGET_REF end.
Definition closeout_repository : string :=
  match orchestrator registry a.(ca_initiative_id) with Some o => o.(repository_id) | None => DEFAULT_REPOSITORY_ID end.
Definition main_repo_root : string := managed_repository_path a.(ca_data_dir) closeout_repository.

(** Queued, running, flagged: everything before [git] runs. *)
Definition closeout_prepare (t : Trace) : Trace :=
  let t := stmt_ Enqueue (set_queue <[env.(ce_queue_id) :=
    enqueued env.(ce_now) a.(ca_initiative_id) a.(ca_task_id) a.(ca_session_id) closeout_repository closeout_target_ref
      a.(ca_requested_sha) a.(ca_base_sha) a.(ca_orch_worktree_root)]>) t in
  let t := stmt_ MarkRunning (set_queue (alter (queue_running env.(ce_now)) env.(ce_queue_id))) t in
  stmt_ EnsurePending (set_git_apply_pending a.(ca_initiative_id)) t.

(** Phase 2: the git side, on the managed repository of the world reached. *)
Definition closeout_merge (w : MergeWorld) : result MainMergeError MainAdvance * Checkout R :=
  commit_merge_to_target_ref env.(ce_fuel) env.(ce_temp_dir) (checkout_at w a.(ca_orch_worktree_root))
    a.(ca_requested_sha) closeout_target_ref (checkout_at w main_repo_root).

(** Phase 3: the records, the flag, the snapshot. *)
Definition closeout_record (adv : MainAdvance) (t : Trace) : Trace :=
  let sha := adv.(current_sha) in
  let t := stmt_ QueueCompleted
    (set_queue (alter (queue_completed env.(ce_now) sha adv.(previous_sha)) env.(ce_queue_id))) t in
  let t := stmt_ AttemptCompleted
    (set_attempts (on_latest_attempt a.(ca_initiative_id) (attempt_completed env.(ce_now) sha))) t in
  let t := stmt_ PublishPending (set_published (alter (publish_pending sha) closeout_repository)) t in
  let t := stmt_ ClearPending (clear_git_apply_pending a.(ca_initiative_id)) t in
  durable (set_snapshots (env.(ce_snapshot) a.(ca_task_id) main_repo_root)) t.

(** The coordinator and the initiative complete, then the audit records the merge. *)
Definition closeout_finalize (sha : string) (t : Trace) : bool * Trace :=
  if env.(ce_fails) Finalize then (false, t)
  else
    let '(o, d') := finalize_integration_merge_completion env.(ce_now) a.(ca_initiative_id) a.(ca_task_id) t.1.(mw_db) in
    match o with
    | None => (false, t)
    | Some outcome =>
        let t := durable (set_db (λ _, d')) t in
        (true, durable (set_sink (emit_integration_merge_completion_audits env.(ce_emit) outcome a.(ca_session_id)
                  a.(ca_initiative_id) sha a.(ca_base_sha) closeout_target_ref a.(ca_operator_assisted) a.(ca_escalation_id))) t)
    end.

Definition closeout_failed (e : MainMergeError) (t : Trace) : Trace :=
  let '(category, reason) := classify_merge_ff_error env.(ce_to_lowercase) e in
  let t := stmt_ AttemptDiscarded (set_attempts (on_latest_attempt a.(ca_initiative_id)
    (attempt_discarded env.(ce_now) IntegrationMergeAttemptDiscardReason.CandidateComputationFailed))) t in
  let hint := operator_hint closeout_repository closeout_target_ref a.(ca_requested_sha) main_repo_root
    a.(ca_orch_worktree_root) in
  let t := stmt_ QueueRecoveryRequired
    (set_queue (alter (queue_recovery_required env.(ce_now) category reason hint) env.(ce_queue_id))) t in
  let merge_failure_reason := "IntegrationMerge target advance failed (" +:+ category +:+ ") for repository "
    +:+ closeout_repository +:+ " " +:+ closeout_target_ref +:+ ": " +:+ reason
    +:+ String (Ascii.ascii_of_nat 10) (String (Ascii.ascii_of_nat 10) "Recovery: ") +:+ hint in
  let t := stmt_ TaskFailed (set_db (on_tasks (alter (fail_task merge_failure_reason) a.(ca_task_id)))) t in
  let t := stmt_ InitiativeRecoveryRequired
    (set_db (on_initiatives (alter require_recovery a.(ca_initiative_id)))) t in
  durable (set_sink (emit_ env.(ce_emit) (MergeFastForwardFailed a.(ca_initiative_id) a.(ca_requested_sha)
    closeout_target_ref category (reason +:+ String (Ascii.ascii_of_nat 10) (String (Ascii.ascii_of_nat 10) "") +:+ hint)))) t.

Definition complete_integration_merge_closeout (t : Trace) : CloseoutResult * Trace :=
  let t := closeout_prepare t in
  let '(host_merge_result, main) := closeout_merge t.1 in
  let t := durable (set_disk <[main_repo_root := main]>) t in
  match host_merge_result with
  | Ok adv =>
      let t := closeout_record adv t in
      let '(completed, t) := closeout_finalize adv.(current_sha) t in
      (MkCloseoutResult true completed adv.(current_sha) closeout_target_ref closeout_repository, t)
  | Err e =>
      (MkCloseoutResult false false a.(ca_requested_sha) closeout_target_ref closeout_repository, closeout_failed e t)
  end.

(** The intent's commit and the closeout, from a world without history. *)
Definition integration_merge (w : MergeWorld) : CloseoutResult * Trace :=
  complete_integration_merge_closeout (phase1 (w, [])).
End run.
End closeout.
Arguments MergeWorld R Sink Snap : clear implicits.
Arguments CloseoutEnv Sink Snap : clear implicits.

(** ** The durable worlds *)

Section trace.
Context {R : Type} `{Git R} {Sink Snap : Type}.
Implicit Types (w : MergeWorld R Sink Snap) (t : Trace (R := R) (Sink := Sink) (Snap := Snap)).

(** Every world a crash can leave, oldest first. *)
Definition worlds t : list (MergeWorld R Sink Snap) := t.2 ++ [t.1].

Lemma worlds_durable P f t : Forall P (worlds t) → (P t.1 → P (f t.1)) → Forall P (worlds (durable f t)).
Proof.
  unfold worlds. intros Ht Hf. simpl. rewrite !Forall_app, !Forall_singleton in *. tauto.
Qed.

Lemma worlds_last P t : Forall P (worlds t) → P t.1.
Proof. unfold worlds. rewrite Forall_app, Forall_singleton. by intros []. Qed.

Section steps.
Context (env : CloseoutEnv Sink Snap) (registry : PlanRegistry) (a : CloseoutArgs).

Lemma worlds_stmt P s f t :
  Forall P (worlds t) → (P t.1 → P (f t.1)) → Forall P (worlds (stmt_ env s f t)).
Proof. unfold stmt_. destruct (ce_fails env s); intros; apply worlds_durable; auto. Qed.

(** What the statements before [git] cannot touch. *)
Lemma prepare_worlds P t : Forall P (worlds t) →
  (∀ w f, P w → P (set_queue f w)) → (∀ w i, P w → P (set_git_apply_pending i w)) →
  Forall P (worlds (closeout_prepare env registry a t)).
Proof. intros. unfold closeout_prepare. repeat apply worlds_stmt; eauto. Qed.

Lemma prepare_db t : mw_db (closeout_prepare env registry a t).1 = mw_db t.1.
Proof.
  unfold closeout_prepare, stmt_. simpl. unfold set_git_apply_pending.
  by repeat (case_match; simpl).
Qed.
Lemma prepare_disk t : mw_disk (closeout_prepare env registry a t).1 = mw_disk t.1.
Proof.
  unfold closeout_prepare, stmt_. simpl. unfold set_git_apply_pending.
  by repeat (case_match; simpl).
Qed.
Lemma prepare_sink t : mw_sink (closeout_prepare env registry a t).1 = mw_sink t.1.
Proof.
  unfold closeout_prepare, stmt_. simpl. unfold set_git_apply_pending.
  by repeat (case_match; simpl).
Qed.

(** The flag of phase 1 is still there when [git] has run. *)
Lemma prepare_flagged t :
  ca_initiative_id a ∈ mw_git_apply_pending t.1 →
  ca_initiative_id a ∈ mw_git_apply_pending (closeout_prepare env registry a t).1.
Proof.
  unfold closeout_prepare, stmt_. simpl. unfold set_git_apply_pending.
  repeat (case_match; simpl); set_solver.
Qed.

Lemma record_db adv t : mw_db (closeout_record env registry a adv t).1 = mw_db t.1.
Proof. unfold closeout_record, stmt_. simpl. by repeat (case_match; simpl). Qed.
Lemma record_disk adv t : mw_disk (closeout_record env registry a adv t).1 = mw_disk t.1.
Proof. unfold closeout_record, stmt_. simpl. by repeat (case_match; simpl). Qed.
Lemma record_sink adv t : mw_sink (closeout_record env registry a adv t).1 = mw_sink t.1.
Proof. unfold closeout_record, stmt_. simpl. by repeat (case_match; simpl). Qed.

(** Phase 3 clears the flag whenever its statement runs. *)
Lemma record_clears adv t : ce_fails env ClearPending = false →
  ca_initiative_id a ∉ mw_git_apply_pending (closeout_record env registry a adv t).1.
Proof. intros Hc. unfold closeout_record, stmt_. rewrite Hc. simpl. set_solver. Qed.

Lemma record_worlds P adv t : Forall P (worlds t) →
  (∀ w f, P w → P (set_queue f w)) → (∀ w f, P w → P (set_attempts f w)) → (∀ w f, P w → P (set_published f w)) →
  (∀ w i, P w → P (clear_git_apply_pending i w)) → (∀ w f, P w → P (set_snapshots f w)) →
  Forall P (worlds (closeout_record env registry a adv t)).
Proof.
  intros. unfold closeout_record. apply worlds_durable; [| eauto]. repeat apply worlds_stmt; eauto.
Qed.
End steps.
End trace.

(** ** Completion of the coordinator *)

(** A transition keeps every initiative's state. *)
Lemma transitioned_ini_state now t ns reason actor row d i :
  ini_state <$> initiatives (transitioned now t ns reason actor row d) !! i = ini_state <$> d.(initiatives) !! i.
Proof.
  simpl. destruct (decide (task_initiative_id row = i)) as [<-|Hne].
  - rewrite lookup_alter_eq. destruct (initiatives d !! _) as [r|]; [| done]. simpl. unfold reset_row. by case_match.
  - by rewrite lookup_alter_ne.
Qed.

(** One transition of a task, as a relation on stores. *)
Definition task_moved (now : Z) (t : string) (cur ns : TaskState) (d d' : Db) : Prop :=
  ∃ row, d.(tasks) !! t = Some row ∧ row.(task_state) = as_sql_str cur ∧
    d' = transitioned now t ns None Kernel row d.

Lemma task_moved_facts now t cur ns d d' : task_moved now t cur ns d d' → activations_ok d →
  activations_ok d' ∧ task_state <$> d'.(tasks) !! t = Some (as_sql_str ns) ∧
  (∀ t', t' ≠ t → d'.(tasks) !! t' = d.(tasks) !! t') ∧ ∀ i, ini_state <$> d'.(initiatives) !! i = ini_state <$> d.(initiatives) !! i.
Proof.
  intros (row & Hr & Hs & ->) Hok. split_and!.
  - by apply transitioned_activations_ok.
  - simpl. by rewrite lookup_insert_eq.
  - intros t' Hne. simpl. by rewrite lookup_insert_ne.
  - intros i. apply transitioned_ini_state.
Qed.

Lemma move_run now t cur ns d : activations_ok d → is_legal_transition cur ns = true →
  task_state <$> d.(tasks) !! t = Some (as_sql_str cur) →
  ∃ r d', transition_task_in_tx now t ns None Kernel d = (Ok r, d') ∧ task_moved now t cur ns d d' ∧
    rec_from_state r = cur ∧ rec_to_state r = ns ∧ rec_task_id r = t.
Proof.
  intros Hok Hl Hs. rewrite transition_task_in_tx_run by done. unfold task_moved.
  destruct (tasks d !! t) as [row|]; [| done]. injection Hs as Hs.
  assert (Hc : from_sql_str (task_state row) = Some cur) by by apply from_sql_str_iff.
  rewrite Hc, Hl.
  eauto 10.
Qed.

(** The hops of the normalization, then the completion. *)
Fixpoint path_legal (cur : TaskState) (path : list TaskState) : bool :=
  match path with [] => true | next :: rest => is_legal_transition cur next && path_legal next rest end.

Fixpoint end_of (cur : TaskState) (path : list TaskState) : TaskState :=
  match path with [] => cur | next :: rest => end_of next rest end.

Lemma hop_run now t : ∀ path cur d, activations_ok d → path_legal cur path = true →
  task_state <$> d.(tasks) !! t = Some (as_sql_str cur) →
  ∃ rs d', hop now t path d = (Ok rs, d') ∧ rec_to_state <$> rs = path ∧ activations_ok d' ∧
    task_state <$> d'.(tasks) !! t = Some (as_sql_str (end_of cur path)) ∧
    (∀ t', t' ≠ t → d'.(tasks) !! t' = d.(tasks) !! t') ∧ ∀ i, ini_state <$> d'.(initiatives) !! i = ini_state <$> d.(initiatives) !! i.
Proof.
  induction path as [|next rest IH]; intros cur d Hok Hl Hs; simpl in *.
  { exists [], d. done. }
  apply andb_true_iff in Hl as [Hl Hrest].
  destruct (move_run now t cur next d Hok Hl Hs) as (r & d1 & Hrun & Hm & _ & Hto & _).
  destruct (task_moved_facts _ _ _ _ _ _ Hm Hok) as (Hok1 & Hs1 & Ho1 & Hi1).
  destruct (IH next d1 Hok1 Hrest Hs1) as (rs & d2 & Hrun2 & Hrs & Hok2 & Hs2 & Ho2 & Hi2).
  exists (r :: rs), d2. rewrite (se_bind_ok _ _ _ _ _ Hrun), (se_bind_ok _ _ _ _ _ Hrun2).
  split_and!; [done | by rewrite fmap_cons, Hto, Hrs | done | | |].
  - done.
  - intros t' Hne. rewrite Ho2 by done. by apply Ho1.
  - intros i. by rewrite Hi2, Hi1.
Qed.

Definition completed_state (st : string) : string :=
  if String.eqb st (as_sql_str InitiativeState.Executing) then as_sql_str InitiativeState.Completed else st.

(** The store after the completion of coordinator [t] of initiative [i]. *)
Definition completed (i t : string) (d d' : Db) : Prop :=
  task_state <$> d'.(tasks) !! t = Some (as_sql_str TaskState.Completed) ∧
  (∀ t', t' ≠ t → d'.(tasks) !! t' = d.(tasks) !! t') ∧
  ini_state <$> d'.(initiatives) !! i = completed_state ∘ ini_state <$> d.(initiatives) !! i.

Lemma finalize_merge_tx_run now i t path cur d : activations_ok d → path_legal cur path = true →
  end_of cur path = TaskState.Running → task_state <$> d.(tasks) !! t = Some (as_sql_str cur) →
  ∃ o d', finalize_tx now i t path d = (Ok o, d') ∧ completed i t d d' ∧
    rec_to_state <$> o.(fo_normalization_records) = path ∧
    rec_from_state o.(fo_task_record) = TaskState.Running ∧ rec_to_state o.(fo_task_record) = TaskState.Completed.
Proof.
  intros Hok Hl He Hs. unfold finalize_tx, completed.
  destruct (hop_run now t path cur d Hok Hl Hs) as (rs & d1 & Hrun1 & Hrs & Hok1 & Hs1 & Ho1 & Hi1).
  rewrite He in Hs1.
  destruct (move_run now t TaskState.Running TaskState.Completed d1 Hok1 eq_refl Hs1) as (r & d2 & Hrun2 & Hm & Hf & Hto & _).
  destruct (task_moved_facts _ _ _ _ _ _ Hm Hok1) as (_ & Hs2 & Ho2 & Hi2).
  rewrite (se_bind_ok _ _ _ _ _ Hrun1), (se_bind_ok _ _ _ _ _ Hrun2). se_unfold.
  assert (Hini : ini_state <$> initiatives d2 !! i = ini_state <$> initiatives d !! i) by by rewrite Hi2, Hi1.
  assert (Hoth : ∀ t', t' ≠ t → tasks d2 !! t' = tasks d !! t') by (intros t' Hne; rewrite Ho2 by done; by apply Ho1).
  destruct (initiatives d2 !! i) as [ri|] eqn:Hri; simpl in *.
  - destruct (initiatives d !! i) as [ri0|]; [| done]. injection Hini as Hini. simpl. unfold completed_state.
    rewrite Hini. destruct (String.eqb (ini_state ri0) "Executing") eqn:Ex; simpl; rewrite Ex; do 2 eexists; split_and!; try done.
    + simpl. rewrite lookup_alter_eq, Hri. done.
    + by rewrite Hri; simpl; f_equal.
  - destruct (initiatives d !! i) as [ri0|]; [done |]. do 2 eexists. split_and!; try done. by rewrite Hri.
Qed.

(** The states [normalization_path] accepts, and its path to [Running]. *)
Lemma normalization_path_Some st path : normalization_path st = Some path →
  ∃ cur, st = as_sql_str cur ∧ path_legal cur path = true ∧ end_of cur path = TaskState.Running.
Proof.
  unfold normalization_path. intros Hp.
  destruct (String.eqb_spec st (as_sql_str TaskState.Running)) as [->|].
  { injection Hp as <-. by exists TaskState.Running. }
  destruct (String.eqb_spec st (as_sql_str TaskState.Admitted_)) as [->|].
  { injection Hp as <-. by exists TaskState.Admitted_. }
  destruct (String.eqb_spec st (as_sql_str TaskState.GatesPending)) as [->|]; [| done].
  injection Hp as <-. by exists TaskState.GatesPending.
Qed.

(** Completion of the coordinator, on every branch. *)
Lemma finalize_run now i t d : activations_ok d →
  match finalize_integration_merge_completion now i t d with
  | (Some o, d') => completed i t d d' ∧
      ((task_state <$> d.(tasks) !! t) ≫= normalization_path = Some (rec_to_state <$> o.(fo_normalization_records))) ∧
      rec_from_state o.(fo_task_record) = TaskState.Running ∧ rec_to_state o.(fo_task_record) = TaskState.Completed
  | (None, d') => d' = d ∧ (task_state <$> d.(tasks) !! t) ≫= normalization_path = None
  end.
Proof.
  intros Hok. unfold finalize_integration_merge_completion.
  destruct (tasks d !! t) as [row|] eqn:Hr; [| done]. simpl.
  destruct (normalization_path (task_state row)) as [path|] eqn:Hp; [| done].
  destruct (normalization_path_Some _ _ Hp) as (cur & Hs & Hl & He).
  assert (Hst : task_state <$> tasks d !! t = Some (as_sql_str cur)) by (by rewrite Hr, <- Hs).
  destruct (finalize_merge_tx_run now i t path cur d Hok Hl He Hst) as (o & d' & Hrun & Hc & Hrs & Hf & Hto).
  unfold with_tx. rewrite Hrun. split_and!; [done | by rewrite Hrs | done | done].
Qed.

Section outcome.
Context {R : Type} `{Git R} {Sink Snap : Type}.
Context (env : CloseoutEnv Sink Snap) (registry : PlanRegistry) (a : CloseoutArgs).
Implicit Types (w : MergeWorld R Sink Snap) (t : Trace (R := R) (Sink := Sink) (Snap := Snap)).
Abbreviation i := a.(ca_initiative_id).

(** A checkout of the world after the managed repository was written. *)
Lemma checkout_at_set w path c : checkout_at (set_disk <[path := c]> w) path = c.
Proof. unfold checkout_at. simpl. by rewrite lookup_insert_eq. Qed.

(** [git] runs on the repositories of the world before the merge. *)
Lemma closeout_merge_of w t : mw_disk t.1 = mw_disk w →
  closeout_merge env registry a t.1 =
  commit_merge_to_target_ref env.(ce_fuel) env.(ce_temp_dir) (checkout_at w a.(ca_orch_worktree_root))
    a.(ca_requested_sha) (closeout_target_ref registry a) (checkout_at w (main_repo_root registry a)).
Proof. intros Hd. unfold closeout_merge, checkout_at. by rewrite Hd. Qed.

Lemma failed_facts e t : let t' := closeout_failed env registry a e t in
  mw_git_apply_pending t'.1 = mw_git_apply_pending t.1 ∧ mw_disk t'.1 = mw_disk t.1 ∧
  ∃ category detail, mw_sink t'.1 = emit_ env.(ce_emit)
    (MergeFastForwardFailed i a.(ca_requested_sha) (closeout_target_ref registry a) category detail) (mw_sink t.1).
Proof.
  unfold closeout_failed, stmt_. destruct (classify_merge_ff_error _ _) as [category reason]. simpl.
  split_and!; [by repeat (case_match; simpl) | by repeat (case_match; simpl) |].
  eexists _, _. repeat (case_match; simpl); done.
Qed.

(** A closeout whose every statement runs leaves no live coordinator behind. *)
Lemma failed_db e t : (∀ s, env.(ce_fails) s = false) →
  ∃ reason, mw_db (closeout_failed env registry a e t).1 =
    on_initiatives (alter require_recovery i) (on_tasks (alter (fail_task reason) a.(ca_task_id)) (mw_db t.1)).
Proof.
  intros Hs. unfold closeout_failed, stmt_. destruct (classify_merge_ff_error _ _) as [category reason].
  rewrite !Hs. simpl. eexists. reflexivity.
Qed.

Lemma finalize_worlds P sha t : Forall P (worlds t) →
  (∀ w f, P w → P (set_db f w)) → (P t.1 → ∀ w f, mw_git_apply_pending w = mw_git_apply_pending t.1 → P (set_sink f w)) →
  Forall P (worlds (closeout_finalize env registry a sha t).2).
Proof.
  intros Ht Hdb Hk. unfold closeout_finalize. destruct (ce_fails env Finalize); [done |].
  destruct (finalize_integration_merge_completion _ _ _ _) as [[o|] d']; [| done]. simpl.
  apply worlds_durable; [by apply worlds_durable; eauto |]. intros _. by apply (Hk (worlds_last _ _ Ht)).
Qed.

(** ** Theorems *)

(** The flag and the record exclude each other.  If the statement that
    clears the flag runs, then in every durable world of an integration merge (so
    after a crash anywhere in it) in which the initiative is flagged, the audit
    sink is as it was before the merge, or, when the merge failed, has received
    only [MergeFastForwardFailed] events: the record that recovery looks for is
    never there for the merge that crashed. *)
Theorem flag_excludes_record w : env.(ce_fails) ClearPending = false →
  Forall (λ w', i ∈ mw_git_apply_pending w' →
    mw_sink w' = mw_sink w ∨
    ∃ category detail, mw_sink w' = emit_ env.(ce_emit)
      (MergeFastForwardFailed i a.(ca_requested_sha) (closeout_target_ref registry a) category detail) (mw_sink w))
    (worlds (integration_merge env registry a w).2).
Proof.
  intros Hc. unfold integration_merge, complete_integration_merge_closeout.
  set (same := λ w' : MergeWorld R Sink Snap, mw_sink w' = mw_sink w).
  assert (Hprep : Forall same (worlds (closeout_prepare env registry a (phase1 a (w, []))))).
  { apply prepare_worlds; [| done |].
    - apply worlds_durable; [by apply Forall_singleton |]. simpl. unfold same, set_git_apply_pending. by case_match.
    - intros w' j. unfold same, set_git_apply_pending. by case_match. }
  destruct (closeout_merge _ _ _ _) as [[adv|e] main].
  - set (t := durable _ _). assert (Ht : Forall same (worlds t)) by (by apply worlds_durable).
    assert (Hrec : Forall same (worlds (closeout_record env registry a adv t))) by by apply record_worlds.
    destruct (closeout_finalize _ _ _ _ _) as [b t'] eqn:Hfin. simpl.
    replace t' with (closeout_finalize env registry a (current_sha adv) (closeout_record env registry a adv t)).2 by by rewrite Hfin.
    pose proof (record_clears env registry a adv t Hc) as Hclr.
    apply finalize_worlds.
    + eapply Forall_impl; [exact Hrec |]. by left.
    + done.
    + intros _ w' f Hp Hin. simpl in Hin. rewrite Hp in Hin. done.
  - simpl. set (t := durable _ _). assert (Ht : Forall same (worlds t)) by (by apply worlds_durable).
    unfold closeout_failed. destruct (classify_merge_ff_error _ _) as [category reason].
    apply worlds_durable.
    + eapply (Forall_impl same); [repeat apply worlds_stmt; done | by left].
    + intros _ _. right. do 2 eexists. simpl. f_equal.
      pose proof (worlds_last _ _ Ht) as Hs. unfold same in Hs. rewrite <- Hs.
      unfold stmt_. by repeat (case_match; simpl).
Qed.

(** C32: What the closeout leaves behind.  A merge that [git] published has its
    flag cleared (if that statement ran), and the coordinator is Completed and the
    initiative moved from Executing to Completed exactly when the coordinator was
    Running, Admitted or GatesPending; otherwise the tables are untouched and no
    record is written.  A merge that failed keeps its flag: nothing in the
    closeout clears it. *)
Theorem closeout_outcome w main' res :
  let r := (integration_merge env registry a w).1 in
  let t := (integration_merge env registry a w).2 in
  commit_merge_to_target_ref env.(ce_fuel) env.(ce_temp_dir) (checkout_at w a.(ca_orch_worktree_root))
    a.(ca_requested_sha) (closeout_target_ref registry a) (checkout_at w (main_repo_root registry a)) = (res, main') →
  activations_ok (mw_db w) → env.(ce_fails) ClearPending = false → env.(ce_fails) Finalize = false →
  checkout_at t.1 (main_repo_root registry a) = main' ∧
  match res with
  | Ok adv =>
      r.(cr_host_merge_succeeded) = true ∧ r.(cr_applied_commit_sha) = adv.(current_sha) ∧
      (i ∉ mw_git_apply_pending t.1) ∧
      (r.(cr_task_completed) = true ↔
        is_Some ((task_state <$> (mw_db w).(tasks) !! a.(ca_task_id)) ≫= normalization_path)) ∧
      (if r.(cr_task_completed) then completed i a.(ca_task_id) (mw_db w) (mw_db t.1)
       else mw_db t.1 = mw_db w ∧ mw_sink t.1 = mw_sink w)
  | Err _ =>
      r.(cr_host_merge_succeeded) = false ∧ r.(cr_task_completed) = false ∧
      (has_initiative (mw_db w) i = true → i ∈ mw_git_apply_pending t.1)
  end.
Proof.
  unfold integration_merge, complete_integration_merge_closeout.
  set (t0 := closeout_prepare env registry a (phase1 a (w, []))).
  assert (Hp1 : mw_disk (phase1 a (w, [])).1 = mw_disk w ∧ mw_db (phase1 a (w, [])).1 = mw_db w ∧
                mw_sink (phase1 a (w, [])).1 = mw_sink w).
  { simpl. unfold set_git_apply_pending. by case_match. }
  destruct Hp1 as (Hd1 & Hdb1 & Hk1).
  assert (Hdisk : mw_disk t0.1 = mw_disk w) by (unfold t0; by rewrite prepare_disk).
  assert (Hdb : mw_db t0.1 = mw_db w) by (unfold t0; by rewrite prepare_db).
  assert (Hk : mw_sink t0.1 = mw_sink w) by (unfold t0; by rewrite prepare_sink).
  assert (Hflag : has_initiative (mw_db w) i = true → i ∈ mw_git_apply_pending t0.1).
  { intros Hi. apply prepare_flagged. simpl. unfold set_git_apply_pending. rewrite Hi. simpl. set_solver. }
  rewrite (closeout_merge_of w t0 Hdisk). clearbody t0.
  destruct (commit_merge_to_target_ref _ _ _ _ _ _) as [res0 main]. destruct res0 as [adv|e].
  - set (t1 := durable _ t0).
    assert (Hmain : ∀ t, mw_disk t.1 = mw_disk t1.1 → checkout_at t.1 (main_repo_root registry a) = main).
    { intros t Ht. unfold checkout_at. rewrite Ht. simpl. by rewrite lookup_insert_eq. }
    pose proof (record_db env registry a adv t1) as Hrdb. pose proof (record_disk env registry a adv t1) as Hrd.
    pose proof (record_sink env registry a adv t1) as Hrk. pose proof (record_clears env registry a adv t1) as Hclr.
    set (t2 := closeout_record env registry a adv t1) in *. clearbody t2. simpl in Hrdb, Hrk. rewrite Hdb in Hrdb. rewrite Hk in Hrk.
    unfold closeout_finalize. destruct (ce_fails env Finalize) eqn:Hf; [by intros |]. rewrite Hrdb.
    pose proof (finalize_run env.(ce_now) i a.(ca_task_id) (mw_db w)) as Hrun.
    destruct (finalize_integration_merge_completion _ _ _ _) as [[o|] d'] eqn:Ho; simpl;
      intros [= <- <-] Hok Hc _; specialize (Hrun Hok); split_and!; auto.
    + unfold checkout_at in *. simpl. by apply Hmain.
    + split; [intros _; destruct Hrun as (_ & -> & _); eauto | done].
    + by destruct Hrun as (? & _).
    + destruct Hrun as [_ ->]. split; [done | by intros []].
  - simpl. intros [= <- <-] Hok Hc _. destruct (failed_facts e (durable (set_disk <[main_repo_root registry a:=main]>) t0)) as (Hp & Hd & _).
    split_and!; [| done | done |].
    + unfold checkout_at. rewrite Hd. simpl. by rewrite lookup_insert_eq.
    + intros Hi. rewrite Hp. simpl. by apply Hflag.
Qed.

(** C40: A failed merge moves the coordinator outside the transition table.  When
    every statement runs, its row becomes Failed from any of the four live states,
    although the table has no edge to Failed from Admitted or
    BlockedRecoveryPending; the time of the last transition stays, no activation is
    closed, and the only event is [MergeFastForwardFailed]: the record of a task
    transition is never written. *)
Theorem failed_merge_bypasses_transitions w main' e row :
  let t := (integration_merge env registry a w).2 in
  (∀ s, env.(ce_fails) s = false) →
  commit_merge_to_target_ref env.(ce_fuel) env.(ce_temp_dir) (checkout_at w a.(ca_orch_worktree_root))
    a.(ca_requested_sha) (closeout_target_ref registry a) (checkout_at w (main_repo_root registry a)) = (Err e, main') →
  (mw_db w).(tasks) !! a.(ca_task_id) = Some row →
  row.(task_state) ∈ as_sql_str <$> [TaskState.Admitted_; TaskState.Running; TaskState.GatesPending; TaskState.BlockedRecoveryPending] →
  (∃ row', (mw_db t.1).(tasks) !! a.(ca_task_id) = Some row' ∧ row'.(task_state) = as_sql_str TaskState.Failed ∧
     row'.(task_transitioned_at) = row.(task_transitioned_at)) ∧
  is_legal_transition TaskState.Admitted_ TaskState.Failed = false ∧
  is_legal_transition TaskState.BlockedRecoveryPending TaskState.Failed = false ∧
  (mw_db t.1).(activations) = (mw_db w).(activations) ∧
  ∃ category detail, mw_sink t.1 = emit_ env.(ce_emit)
    (MergeFastForwardFailed i a.(ca_requested_sha) (closeout_target_ref registry a) category detail) (mw_sink w).
Proof.
  intros t Hs Hcm Hrow Hst. subst t. unfold integration_merge, complete_integration_merge_closeout.
  set (t0 := closeout_prepare env registry a (phase1 a (w, []))).
  assert (Hp1 : mw_disk (phase1 a (w, [])).1 = mw_disk w ∧ mw_db (phase1 a (w, [])).1 = mw_db w ∧
                mw_sink (phase1 a (w, [])).1 = mw_sink w).
  { simpl. unfold set_git_apply_pending. by case_match. }
  destruct Hp1 as (Hd1 & Hdb1 & Hk1).
  assert (Hdb : mw_db t0.1 = mw_db w) by (unfold t0; by rewrite prepare_db).
  assert (Hk : mw_sink t0.1 = mw_sink w) by (unfold t0; by rewrite prepare_sink).
  rewrite (closeout_merge_of w t0), Hcm by (unfold t0; by rewrite prepare_disk). simpl. clearbody t0.
  set (t1 := durable _ t0).
  destruct (failed_db e t1 Hs) as [reason ->]. destruct (failed_facts e t1) as (_ & _ & Hsink).
  assert (Hdb1' : mw_db t1.1 = mw_db w) by done. assert (Hk1' : mw_sink t1.1 = mw_sink w) by done.
  rewrite Hdb1', Hk1' in *. clearbody t1. split_and!; [| done | done | done | exact Hsink].
  exists (fail_task reason row). simpl. rewrite lookup_alter_eq, Hrow. split; [done |].
  unfold fail_task. by rewrite bool_decide_eq_true_2.
Qed.
End outcome.

(** ** A merge of one commit *)
Module CloseoutExamples.
Import ToyGit.

Definition coordinator (st : string) : TaskRow :=
  MkTaskRow "i1" "lane" st None "kernel" 3 10 11 None None None None None 0 None None false None None 0.
Definition initiative (st : string) : InitiativeRow := MkInitiativeRow st "{}" "sha" 1 (Some 2%Z) None 2 None.
Definition orchestrator_session : SessionRow :=
  MkSessionRow "orchestrator" "tok" "lin" (Some "/wt") None None 5 0 10 1000 false None (Some "Orchestrator") false (Some "i1").

(** A worktree with one commit, an empty managed repository, and a coordinator
    in state [st]. *)
Definition world (wt : Checkout Repo) (st : string) : MergeWorld Repo (list MergeEvent) unit :=
  MkMergeWorld
    (on_sessions (λ _, {["s1" := orchestrator_session]})
      (on_tasks (λ _, {["coord" := coordinator st]})
        (on_initiatives (λ _, {["i1" := initiative "Executing"]}) empty_db)))
    ∅ {["a1" := MkAttemptRow "i1" "s1" "c1" None "PreMergeVerifiersPassed" None 5 None]} ∅
    {["main" := MkPublishRow "published" None None]}
    {["/wt" := wt; "/data/repositories/main" := managed []]} tt [].

Definition env_of (fails : CloseoutStep → bool) : CloseoutEnv (list MergeEvent) unit :=
  MkCloseoutEnv 100 "q1" "/tmp" fails (λ _ _ s, s) (λ e k, (true, k ++ [e])) id 20.
Definition env := env_of (λ _, false).
Definition args : CloseoutArgs := MkCloseoutArgs "/data" "i1" "coord" (Some "s1") "/wt" "c1" "base" false None.
Definition empty_worktree : Checkout Repo := MkCheckout "/wt" true None.

Definition event_name (e : MergeEvent) : string :=
  match e with
  | IntegrationMergeCompleted _ _ _ _ _ _ _ => "IntegrationMergeCompleted"
  | MergeTaskStateChanged _ => "TaskStateChanged"
  | InitiativeStateChanged _ _ _ => "InitiativeStateChanged"
  | MergeFastForwardFailed _ _ _ _ _ => "MergeFastForwardFailed"
  | GitConsistencyRepaired _ _ _ _ => "GitConsistencyRepaired"
  | GitConsistencyVerified _ _ _ => "GitConsistencyVerified"
  | GitStateInconsistent _ _ _ _ _ => "GitStateInconsistent"
  end.

(** The successful merge: all tables, and the three kinds of record. *)
Example merge_succeeds :
  let '(r, (w, _)) := integration_merge env new_registry args (world honest "GatesPending") in
  (r.(cr_task_completed), event_name <$> w.(mw_sink), task_state <$> (mw_db w).(tasks) !! "coord",
   ini_state <$> (mw_db w).(initiatives) !! "i1", q_state <$> w.(mw_queue) !! "q1",
   att_state <$> w.(mw_attempts) !! "a1", pub_state <$> w.(mw_published) !! "main",
   bool_decide ("i1" ∈ w.(mw_git_apply_pending))) =
  (true, ["IntegrationMergeCompleted"; "TaskStateChanged"; "TaskStateChanged"; "TaskStateChanged"; "InitiativeStateChanged"],
   Some "Completed", Some "Completed", Some "Completed", Some "CompletedAdvanceApplied", Some "pending", false).
Proof. vm_compute. reflexivity. Qed.

(** The failed one keeps the flag. *)
Example merge_fails :
  let '(r, (w, _)) := integration_merge env new_registry args (world empty_worktree "Running") in
  (r.(cr_host_merge_succeeded), event_name <$> w.(mw_sink), task_state <$> (mw_db w).(tasks) !! "coord",
   ini_state <$> (mw_db w).(initiatives) !! "i1", q_state <$> w.(mw_queue) !! "q1",
   att_discard_reason <$> w.(mw_attempts) !! "a1", bool_decide ("i1" ∈ w.(mw_git_apply_pending))) =
  (false, ["MergeFastForwardFailed"], Some "Failed", Some "RecoveryRequired", Some "RecoveryRequired",
   Some (Some "candidate_computation_failed"), true).
Proof. vm_compute. reflexivity. Qed.

Lemma flag_excludes_record_witness :
  Forall (λ w', "i1" ∈ mw_git_apply_pending w' → mw_sink w' = [] ∨
    ∃ category detail, mw_sink w' = [MergeFastForwardFailed "i1" "c1" DEFAULT_TARGET_REF category detail])
    (worlds (integration_merge env new_registry args (world honest "Running")).2).
Proof. exact (flag_excludes_record env new_registry args (world honest "Running") eq_refl). Defined.

Lemma closeout_outcome_witness :
  let w := world honest "Running" in
  completed "i1" "coord" (mw_db w) (mw_db (integration_merge env new_registry args w).2.1).
Proof.
  set (git := commit_merge_to_target_ref 20 "/tmp" honest "c1" DEFAULT_TARGET_REF (managed [])).
  pose proof (closeout_outcome env new_registry args (world honest "Running") git.2 git.1 (surjective_pairing git)
    ltac:(apply (bool_decide_unpack _); vm_compute; exact I) eq_refl eq_refl) as Ho.
  replace git.1 with (Ok (E := MainMergeError) (MkMainAdvance None "c1" false)) in Ho by (vm_compute; reflexivity).
  destruct Ho as (_ & _ & _ & _ & _ & Hc).
  assert (Hb : cr_task_completed (integration_merge env new_registry args (world honest "Running")).1 = true)
    by (vm_compute; reflexivity).
  rewrite Hb in Hc. exact Hc.
Defined.

Lemma failed_merge_bypasses_transitions_witness :
  task_state <$> (mw_db (integration_merge env new_registry args (world empty_worktree "Admitted")).2.1).(tasks) !! "coord"
  = Some "Failed".
Proof.
  set (git := commit_merge_to_target_ref 20 "/tmp" empty_worktree "c1" DEFAULT_TARGET_REF (managed [])).
  assert (Hcm : git = (Err (SourceUnopenable "/wt" "open"), git.2)) by (vm_compute; reflexivity).
  pose proof (failed_merge_bypasses_transitions env new_registry args (world empty_worktree "Admitted") _ _
    (coordinator "Admitted") ltac:(done) Hcm eq_refl ltac:(set_solver)) as [(row' & Hr & Hs & _) _].
  apply fmap_Some. exists row'. split; [exact Hr | by rewrite Hs].
Defined.
End CloseoutExamples.
