(* ===== verification/GitRecovery.v ===== *)
(** * Recovery of interrupted merges

    [kernel/src/recovery.rs], the sweep over [initiatives.git_apply_pending] that
    runs at boot once the audit writer is open (Cases A, B and C), with the
    repository ids of [kernel/src/managed_repositories.rs].  It works on the worlds
    of [MergeCloseout].  The audit directory is read through [AuditChain]; TOML, the
    JSON parser, the hash and the failing statements are parameters. *)

From stdpp Require Import pretty.
From S2P Require Import Prelude Fsm Store TaskTransitions PlanRegistry AuditChain Toml Gates Json Recovery DomainGit MergeCloseout.

(** ** Repository ids *)

Definition MAX_REPOSITORY_ID_LEN : nat := 64.

Definition is_ascii_alphanumeric (c : Ascii.ascii) : bool :=
  let n := Ascii.nat_of_ascii c in
  ((48 <=? n) && (n <=? 57)) || ((65 <=? n) && (n <=? 90)) || ((97 <=? n) && (n <=? 122)).

Definition BACKSLASH : string := String (Ascii.ascii_of_nat 92) "".

Definition path_safe (c : Ascii.ascii) : bool :=
  is_ascii_alphanumeric c || String.eqb (String c "") "-" || String.eqb (String c "") "_" || String.eqb (String c "") ".".

(** A character outside ASCII is several bytes, each of which fails the tests
    that the character fails. *)
Definition validate_repository_id (id : string) : result string unit :=
  match id with
  | EmptyString => Err "repository id is empty"
  | String first rest =>
      if MAX_REPOSITORY_ID_LEN <? String.length id
      then Err ("repository id is " +:+ pretty (String.length id) +:+ " bytes, exceeds cap " +:+ pretty MAX_REPOSITORY_ID_LEN)
      else if negb (is_ascii_alphanumeric first)
      then Err "repository id must start with an ASCII letter or digit"
      else if String.eqb id "." || String.eqb id ".." || str_contains "/" id || str_contains BACKSLASH id
      then Err "repository id must be a single path-safe segment"
      else if negb (forallb path_safe (chars rest))
      then Err "repository id may contain only ASCII letters, digits, '.', '-' and '_'"
      else Ok tt
  end.

Definition normalize_repository_id (raw : option string) : result string string :=
  let id := str_trim (default DEFAULT_REPOSITORY_ID raw) in
  _ ← validate_repository_id id; Ok id.

(** The reason of a failure is only logged, and the default repository used. *)
Definition repository_id_for_initiative `{Toml} (d : Db) (initiative_id : string) : option string :=
  plan_bytes ← lookup_plan_bytes_for_gate_context d initiative_id;
  doc ← (if utf8_valid plan_bytes then toml_from_str plan_bytes else None);
  raw ← match (v ← value_get doc "workspace"; t ← as_table v; table_get t "repository") with
        | None => Some None
        | Some v => match as_str v with Some s => Some (Some s) | None => None end
        end;
  match normalize_repository_id raw with Ok id => Some id | Err _ => None end.

(** ** The last merge record *)

Record LastIntegrationMerge := MkLastIntegrationMerge {
  lm_commit_sha : string;
  lm_session_id : string;
  lm_target_ref : string;
}.

(** The entry of one audit record, if it records a merge of the initiative. *)
Definition merge_entry (initiative_id : string) (r : @ChainRecord Value) : option LastIntegrationMerge :=
  if negb (String.eqb r.(cr_event_kind) "IntegrationMergeCompleted") then None
  else if negb (bool_decide (r.(AuditChain.cr_initiative_id) = Some initiative_id)) then None
  else
    payload ← json_get "payload" r.(cr_parsed_value);
    commit_sha ← json_get "commit_sha" payload ≫= json_as_str;
    session_id ← json_get "session_id" payload ≫= json_as_str;
    Some (MkLastIntegrationMerge commit_sha session_id (default "" (json_get "target_ref" payload ≫= json_as_str))).

Definition best_entry (initiative_id : string) (best : option (Z * LastIntegrationMerge)) (r : @ChainRecord Value)
    : option (Z * LastIntegrationMerge) :=
  match merge_entry initiative_id r with
  | None => best
  | Some entry =>
      match best with
      | Some (seq, _) => if (r.(cr_seq) <=? seq)%Z then best else Some (r.(cr_seq), entry)
      | None => Some (r.(cr_seq), entry)
      end
  end.

(** [audit_dir]: the segments of the directory in index order, or why it cannot
    be opened. *)
Definition find_last_integration_merge (from_str : string → option Value) (sha256_hex : string → string)
    (audit_dir : result ChainReadError (list (string * string))) (initiative_id : string)
    : result ChainReadError (option LastIntegrationMerge) :=
  segments ← audit_dir;
  let field key v := json_get key v ≫= json_as_str in
  rs ← records from_str (λ v, json_get "seq" v ≫= json_as_u64) (field "event_kind") (field "prev_sha256")
         (λ v, json_get "emitted_at" v ≫= json_as_i64) (field "session_id") (field "task_id") (field "initiative_id")
         sha256_hex segments;
  Ok (snd <$> foldl (best_entry initiative_id) None rs).

(** ** Outcomes *)

Inductive GitApplyRecoveryOutcome :=
  | Repaired (initiative_id commit_sha : string) (previous_sha : option string) (target_ref : string)
  | Verified (initiative_id commit_sha target_ref : string)
  | Inconsistent (initiative_id db_sha git_sha target_ref reason : string).

Definition outcome_initiative (o : GitApplyRecoveryOutcome) : string :=
  match o with Repaired i _ _ _ | Verified i _ _ | Inconsistent i _ _ _ _ => i end.
Definition is_inconsistent (o : GitApplyRecoveryOutcome) : bool :=
  match o with Inconsistent _ _ _ _ _ => true | _ => false end.

Record GitApplyRecoveryResult := MkGitApplyRecoveryResult {
  repaired : nat;
  verified : nat;
  inconsistent : nat;
  outcomes : list GitApplyRecoveryOutcome;
}.

Section recovery.
Context {R : Type} `{Git R} {Sink Snap : Type}.
Context (from_str : string → option Value) (sha256_hex : string → string).
(** What the audit directory holds once the sink is in a state, the sink's
    [emit], the initiatives whose [clear] fails, the text of a chain error, a
    fresh merge directory per initiative, and the fuel of the object copy. *)
Context (audit_dir : Sink → result ChainReadError (list (string * string))) (emit : MergeEvent → Sink → bool * Sink).
Context (clear_fails : string → option string) (error_text : ChainReadError → string) (git_error_text : MainMergeError → string).
Context (temp_dir : string → string) (fuel : nat).

Definition worktree_for_session (d : Db) (session_id : string) : option string :=
  d.(sessions) !! session_id ≫= sess_worktree_root.

Definition clear_pending_under_lock (initiative_id : string) (w : MergeWorld R Sink Snap)
    : option string * MergeWorld R Sink Snap :=
  match clear_fails initiative_id with
  | Some e => (Some e, w)
  | None => (None, clear_git_apply_pending initiative_id w)
  end.

Definition emit_inconsistent (initiative_id db_sha git_sha target_ref reason : string) (w : MergeWorld R Sink Snap)
    : GitApplyRecoveryOutcome * MergeWorld R Sink Snap :=
  (Inconsistent initiative_id db_sha git_sha target_ref reason,
   set_sink (emit_ emit (GitStateInconsistent initiative_id db_sha git_sha target_ref reason)) w).

(** Case A: publish the recorded commit again. *)
Definition reapply (main_repo_root initiative_id worktree_path db_sha git_sha target_ref : string) (w : MergeWorld R Sink Snap)
    : GitApplyRecoveryOutcome * MergeWorld R Sink Snap :=
  let '(res, main) := commit_merge_to_target_ref fuel (temp_dir initiative_id) (checkout_at w worktree_path) db_sha
                        target_ref (checkout_at w main_repo_root) in
  let w := set_disk <[main_repo_root := main]> w in
  match res with
  | Ok advance =>
      match clear_pending_under_lock initiative_id w with
      | (Some e, w) =>
          emit_inconsistent initiative_id db_sha git_sha target_ref
            ("Case A re-applied Phase 2 successfully but clear_git_apply_pending failed: " +:+ e) w
      | (None, w) =>
          (Repaired initiative_id db_sha advance.(previous_sha) target_ref,
           set_sink (emit_ emit (GitConsistencyRepaired initiative_id db_sha git_sha target_ref)) w)
      end
  | Err _ => emit_inconsistent initiative_id db_sha git_sha target_ref "orchestrator_worktree_unreachable_commit" w
  end.

Definition recover_one_initiative (main_repo_root initiative_id : string) (w : MergeWorld R Sink Snap)
    : GitApplyRecoveryOutcome * MergeWorld R Sink Snap :=
  match find_last_integration_merge from_str sha256_hex (audit_dir w.(mw_sink)) initiative_id with
  | Err e => emit_inconsistent initiative_id "" "" "" ("audit chain read failed: " +:+ error_text e) w
  | Ok None => emit_inconsistent initiative_id "" "" "" "audit_record_missing" w
  | Ok (Some last_merge) =>
      let db_sha := last_merge.(lm_commit_sha) in
      let target_ref := last_merge.(lm_target_ref) in
      if String.eqb target_ref "" then emit_inconsistent initiative_id db_sha "" "" "audit_record_missing" w
      else
        match current_target_ref_oid (checkout_at w main_repo_root) target_ref with
        | Err e =>
            emit_inconsistent initiative_id db_sha "" target_ref
              ("main repo at " +:+ main_repo_root +:+ " could not be read: " +:+ git_error_text e) w
        | Ok git_sha_opt =>
            let git_sha := default "" git_sha_opt in
            if String.eqb git_sha db_sha && negb (String.eqb db_sha "") then
              match clear_pending_under_lock initiative_id w with
              | (Some e, w) =>
                  emit_inconsistent initiative_id db_sha git_sha target_ref
                    ("Case B clear_git_apply_pending failed: " +:+ e) w
              | (None, w) =>
                  (Verified initiative_id db_sha target_ref,
                   set_sink (emit_ emit (GitConsistencyVerified initiative_id db_sha target_ref)) w)
              end
            else
              match worktree_for_session w.(mw_db) last_merge.(lm_session_id) with
              | None => emit_inconsistent initiative_id db_sha git_sha target_ref "orchestrator_worktree_missing" w
              | Some worktree_path =>
                  if negb (checkout_at w worktree_path).(co_exists)
                  then emit_inconsistent initiative_id db_sha git_sha target_ref "orchestrator_worktree_missing" w
                  else reapply main_repo_root initiative_id worktree_path db_sha git_sha target_ref w
              end
        end
  end.

(** [SELECT initiative_id .. WHERE git_apply_pending = 1 ORDER BY created_at ASC];
    among equal times SQLite's order is not specified. *)
Definition older (a b : string * InitiativeRow) : Prop := (a.2.(ini_created_at) ≤ b.2.(ini_created_at))%Z.
#[local] Instance older_dec a b : Decision (older a b).
Proof. unfold older. apply _. Defined.

Definition flagged_rows (w : MergeWorld R Sink Snap) : list (string * InitiativeRow) :=
  merge_sort older (List.filter (λ kv, bool_decide (kv.1 ∈ w.(mw_git_apply_pending))) (map_to_list w.(mw_db).(initiatives))).
Definition pending_git_apply_ids (w : MergeWorld R Sink Snap) : list string := fst <$> flagged_rows w.

Definition count_outcome (o : GitApplyRecoveryOutcome) (r : GitApplyRecoveryResult) : GitApplyRecoveryResult :=
  match o with
  | Repaired _ _ _ _ => MkGitApplyRecoveryResult (S r.(repaired)) r.(verified) r.(inconsistent) (r.(outcomes) ++ [o])
  | Verified _ _ _ => MkGitApplyRecoveryResult r.(repaired) (S r.(verified)) r.(inconsistent) (r.(outcomes) ++ [o])
  | Inconsistent _ _ _ _ _ => MkGitApplyRecoveryResult r.(repaired) r.(verified) (S r.(inconsistent)) (r.(outcomes) ++ [o])
  end.

Definition recovery_step `{Toml} (data_dir : string) (st : GitApplyRecoveryResult * MergeWorld R Sink Snap) (initiative_id : string)
    : GitApplyRecoveryResult * MergeWorld R Sink Snap :=
  let '(report, w) := st in
  let repository_id := default DEFAULT_REPOSITORY_ID (repository_id_for_initiative w.(mw_db) initiative_id) in
  let '(outcome, w) := recover_one_initiative (managed_repository_path data_dir repository_id) initiative_id w in
  (count_outcome outcome report, w).

(** [scan_fails]: the read-only connection or its query failed. *)
Definition reconcile_git_apply_pending `{Toml} (data_dir : string) (scan_fails : bool) (w : MergeWorld R Sink Snap)
    : GitApplyRecoveryResult * MergeWorld R Sink Snap :=
  let report := MkGitApplyRecoveryResult 0 0 0 [] in
  if scan_fails then (report, w) else foldl (recovery_step data_dir) (report, w) (pending_git_apply_ids w).
End recovery.

(** ** One initiative *)

Section facts.
Context {R : Type} `{Git R} {Sink Snap : Type}.
Context (from_str : string → option Value) (sha256_hex : string → string).
Context (audit_dir : Sink → result ChainReadError (list (string * string))) (emit : MergeEvent → Sink → bool * Sink).
Context (clear_fails : string → option string) (error_text : ChainReadError → string) (git_error_text : MainMergeError → string).
Context (temp_dir : string → string) (fuel : nat).
Implicit Types w : MergeWorld R Sink Snap.

Abbreviation last_merge_of w i := (find_last_integration_merge from_str sha256_hex (audit_dir w.(mw_sink)) i).
Abbreviation recover := (recover_one_initiative from_str sha256_hex audit_dir emit clear_fails error_text git_error_text temp_dir fuel).

(** The event that announces an outcome; the sweep reports the ref before a
    repair twice, once as [git] returned it and once as it was read. *)
Definition announces (o : GitApplyRecoveryOutcome) (e : MergeEvent) : Prop :=
  match o with
  | Repaired i sha _ r => ∃ git_sha, e = GitConsistencyRepaired i sha git_sha r
  | Verified i sha r => e = GitConsistencyVerified i sha r
  | Inconsistent i db_sha git_sha r reason => e = GitStateInconsistent i db_sha git_sha r reason
  end.

(** One step of recovery: one event, no table, and the flag goes exactly when
    the outcome is not an inconsistency. *)
Record recovered_one (i : string) (o : GitApplyRecoveryOutcome) w w' : Prop := {
  rcv_initiative : outcome_initiative o = i;
  rcv_event : ∃ e, announces o e ∧ mw_sink w' = emit_ emit e (mw_sink w);
  rcv_flag : mw_git_apply_pending w' =
    if is_inconsistent o then mw_git_apply_pending w else mw_git_apply_pending w ∖ {[i]};
  rcv_db : mw_db w' = mw_db w;
  rcv_tables : (mw_attempts w', mw_queue w', mw_published w', mw_snapshots w') =
               (mw_attempts w, mw_queue w, mw_published w, mw_snapshots w);
}.

Lemma recovered_inconsistent i db_sha git_sha r reason w d :
  recovered_one i (Inconsistent i db_sha git_sha r reason) w
    (set_sink (emit_ emit (GitStateInconsistent i db_sha git_sha r reason)) (set_disk d w)).
Proof. split; simpl; eauto. Qed.

Lemma inconsistent_same_disk i db_sha git_sha r reason w :
  recovered_one i (Inconsistent i db_sha git_sha r reason) w
    (set_sink (emit_ emit (GitStateInconsistent i db_sha git_sha r reason)) w).
Proof. split; simpl; eauto. Qed.

Lemma reapply_recovered root i wt db_sha git_sha r w :
  recovered_one i (reapply emit clear_fails temp_dir fuel root i wt db_sha git_sha r w).1 w
    (reapply emit clear_fails temp_dir fuel root i wt db_sha git_sha r w).2.
Proof.
  unfold reapply, clear_pending_under_lock, emit_inconsistent.
  destruct (commit_merge_to_target_ref _ _ _ _ _ _) as [[adv|e] main].
  - destruct (clear_fails i); [apply recovered_inconsistent |]. split; simpl; eauto.
  - apply recovered_inconsistent.
Qed.

Lemma recover_recovered root i w : recovered_one i (recover root i w).1 w (recover root i w).2.
Proof.
  unfold recover_one_initiative, emit_inconsistent.
  destruct (last_merge_of w i) as [[lm|]|e]; [| apply inconsistent_same_disk ..].
  destruct (String.eqb (lm_target_ref lm) ""); [apply inconsistent_same_disk |].
  destruct (current_target_ref_oid _ _) as [git_sha|e]; [| apply inconsistent_same_disk].
  destruct (String.eqb _ _ && _).
  - unfold clear_pending_under_lock, emit_inconsistent.
    destruct (clear_fails i); [apply inconsistent_same_disk |]. split; simpl; eauto.
  - destruct (worktree_for_session _ _) as [wt|]; [| apply inconsistent_same_disk].
    destruct (co_exists _); simpl; [apply reapply_recovered | apply inconsistent_same_disk].
Qed.

(** Case C of a merge that was never recorded. *)
Lemma recover_unrecorded root i w : last_merge_of w i = Ok None →
  recover root i w = (Inconsistent i "" "" "" "audit_record_missing",
    set_sink (emit_ emit (GitStateInconsistent i "" "" "" "audit_record_missing")) w).
Proof. intros Hl. unfold recover_one_initiative, emit_inconsistent. by rewrite Hl. Qed.

(** Case B. *)
Lemma recover_verified root i w lm : last_merge_of w i = Ok (Some lm) → clear_fails i = None →
  lm.(lm_target_ref) ≠ "" → lm.(lm_commit_sha) ≠ "" →
  current_target_ref_oid (checkout_at w root) lm.(lm_target_ref) = Ok (Some lm.(lm_commit_sha)) →
  recover root i w = (Verified i lm.(lm_commit_sha) lm.(lm_target_ref),
    set_sink (emit_ emit (GitConsistencyVerified i lm.(lm_commit_sha) lm.(lm_target_ref))) (clear_git_apply_pending i w)).
Proof.
  intros Hl Hc Hr Hs Hg. unfold recover_one_initiative. rewrite Hl.
  rewrite (proj2 (String.eqb_neq _ _) Hr), Hg. simpl.
  rewrite String.eqb_refl, (proj2 (String.eqb_neq _ _) Hs). simpl.
  unfold clear_pending_under_lock. by rewrite Hc.
Qed.

(** ** The sweep *)

Lemma flagged_rows_spec w : NoDup (pending_git_apply_ids w) ∧ Sorted older (flagged_rows w) ∧
  ∀ i, i ∈ pending_git_apply_ids w ↔ i ∈ w.(mw_git_apply_pending) ∧ has_initiative w.(mw_db) i = true.
Proof.
  assert (Htot : Total older) by (intros x y; unfold older; destruct (Z.le_ge_cases (ini_created_at x.2) (ini_created_at y.2)); auto).
  assert (Hp : flagged_rows w ≡ₚ List.filter (λ kv, bool_decide (kv.1 ∈ w.(mw_git_apply_pending))) (map_to_list w.(mw_db).(initiatives)))
    by apply merge_sort_Permutation.
  unfold pending_git_apply_ids. split_and!.
  - rewrite Hp. clear Hp. generalize (NoDup_fst_map_to_list (initiatives (mw_db w))).
    induction (map_to_list (initiatives (mw_db w))) as [|kv l IH]; [by constructor |].
    rewrite fmap_cons. intros [Hx Hl]%NoDup_cons. simpl. case_match; [| by apply IH].
    rewrite fmap_cons. apply NoDup_cons. split; [| by apply IH].
    intros (kv' & Hk & Hin)%list_elem_of_fmap. apply Hx. apply list_elem_of_fmap. exists kv'. split; [done |].
    apply list_elem_of_In, filter_In in Hin as [Hin _]. by apply list_elem_of_In.
  - apply Sorted_merge_sort, _.
  - intros i. rewrite list_elem_of_fmap. unfold has_initiative. rewrite bool_decide_eq_true. split.
    + intros ([k r] & -> & Hin). rewrite Hp in Hin. apply list_elem_of_In, filter_In in Hin as [Hin Hb].
      apply list_elem_of_In, elem_of_map_to_list in Hin. apply bool_decide_eq_true in Hb. split; [done | by eexists].
    + intros [Hi [r Hr]]. exists (i, r). split; [done |]. rewrite Hp. apply list_elem_of_In, filter_In.
      split; [by apply list_elem_of_In, elem_of_map_to_list | by apply bool_decide_eq_true].
Qed.

(** What a report counts. *)
Definition tallied (r : GitApplyRecoveryResult) : Prop :=
  r.(repaired) + r.(verified) + r.(inconsistent) = length r.(outcomes) ∧
  r.(inconsistent) = length (List.filter is_inconsistent r.(outcomes)).

Lemma count_outcome_tallied o r : tallied r → tallied (count_outcome o r).
Proof.
  unfold tallied. intros [H1 H2]. destruct o; simpl; rewrite length_app, List.filter_app, length_app; simpl; lia.
Qed.
Lemma count_outcome_outcomes o r : outcomes (count_outcome o r) = outcomes r ++ [o].
Proof. by destruct o. Qed.

(** Recovery from [w] over the initiatives that gave the outcomes [os]. *)
Definition swept w (os : list GitApplyRecoveryOutcome) w' : Prop :=
  (∃ es, Forall2 announces os es ∧ mw_sink w' = foldl (λ k e, emit_ emit e k) (mw_sink w) es) ∧
  (∀ i, i ∈ mw_git_apply_pending w' ↔
    i ∈ mw_git_apply_pending w ∧ ∀ o, o ∈ os → outcome_initiative o = i → is_inconsistent o = true) ∧
  mw_db w' = mw_db w.

Lemma swept_nil w : swept w [] w.
Proof.
  split_and!; [by exists [] | | done]. intros i. split; [| by intros []]. intros Hi. split; [done |]. intros o Ho.
  by apply elem_of_nil in Ho.
Qed.

Lemma swept_snoc w os w1 i o w2 : swept w os w1 → recovered_one i o w1 w2 → swept w (os ++ [o]) w2.
Proof.
  intros ((es & Hes & Hk) & Hf & Hd) [Hi (e & He & Hk2) Hf2 Hd2 _]. split_and!.
  - exists (es ++ [e]). split; [by apply Forall2_app; [| constructor] |]. by rewrite Hk2, Hk, foldl_app.
  - intros j. rewrite Hf2. setoid_rewrite elem_of_app. setoid_rewrite list_elem_of_singleton.
    destruct (is_inconsistent o) eqn:Hb; [| rewrite elem_of_difference, elem_of_singleton]; rewrite Hf.
    + split; [intros [Hj Ha] | intros [Hj Ha]]; (split; [done |]); [| auto]. intros o' [Ho| ->]; auto.
    + split.
      * intros [[Hj Ha] Hne]. split; [done |]. intros o' [Ho| ->] Heq; [by auto |]. congruence.
      * intros [Hj Ha]. split; [by auto |]. intros ->. specialize (Ha o (or_intror eq_refl) Hi). congruence.
  - by rewrite Hd2.
Qed.

Lemma recovery_fold `{Toml} data_dir ids : ∀ report w,
  let st := foldl (recovery_step from_str sha256_hex audit_dir emit clear_fails error_text git_error_text temp_dir fuel data_dir)
              (report, w) ids in
  ∀ w0, tallied report → swept w0 report.(outcomes) w →
  tallied st.1 ∧ swept w0 st.1.(outcomes) st.2 ∧
  outcome_initiative <$> st.1.(outcomes) = (outcome_initiative <$> report.(outcomes)) ++ ids.
Proof.
  induction ids as [|i ids IH]; intros report w st w0 Ht Hs; subst st; cbn [foldl].
  { split_and!; [done | done |]. by rewrite app_nil_r. }
  set (root := managed_repository_path data_dir (default DEFAULT_REPOSITORY_ID (repository_id_for_initiative w.(mw_db) i))).
  assert (Hstep : recovery_step from_str sha256_hex audit_dir emit clear_fails error_text git_error_text temp_dir fuel data_dir
            (report, w) i = (count_outcome (recover root i w).1 report, (recover root i w).2)).
  { unfold recovery_step. fold root. by destruct (recover root i w). }
  rewrite Hstep. pose proof (recover_recovered root i w) as Hr.
  destruct (recover root i w) as [o w1]. simpl in Hr |- *.
  destruct (IH (count_outcome o report) w1 w0 (count_outcome_tallied _ _ Ht)) as (H1 & H2 & H3).
  { rewrite count_outcome_outcomes. by eapply swept_snoc. }
  split_and!; [done | done |]. rewrite H3, count_outcome_outcomes, fmap_app, <- (assoc (++)). simpl.
  by rewrite (rcv_initiative _ _ _ _ Hr).
Qed.

(** ** Theorems *)

(** C35: The recovery sweep settles every flagged initiative exactly once, the
    oldest first; each outcome is announced by exactly one event, in that order;
    the counters add up; the tables are untouched; and afterwards exactly the
    initiatives reported as inconsistent are still flagged. *)
Theorem recovery_sweep_outcome `{Toml} data_dir w :
  let '(report, w') := reconcile_git_apply_pending from_str sha256_hex audit_dir emit clear_fails error_text git_error_text
                         temp_dir fuel data_dir false w in
  outcome_initiative <$> report.(outcomes) = pending_git_apply_ids w ∧
  NoDup (pending_git_apply_ids w) ∧ Sorted older (flagged_rows w) ∧
  (∀ i, i ∈ pending_git_apply_ids w ↔ i ∈ mw_git_apply_pending w ∧ has_initiative (mw_db w) i = true) ∧
  tallied report ∧ swept w report.(outcomes) w'.
Proof.
  unfold reconcile_git_apply_pending.
  pose proof (recovery_fold data_dir (pending_git_apply_ids w) (MkGitApplyRecoveryResult 0 0 0 []) w w) as Hf.
  destruct (foldl _ _ _) as [report w'].
  destruct Hf as (Ht & Hs & Ho); [done | apply swept_nil |].
  destruct (flagged_rows_spec w) as (? & ? & ?). done.
Qed.

(** C31: A merge that crashed is never repaired.  When the statement that
    clears the flag works, take any durable world of a merge whose initiative has
    no earlier merge record (the audit trail may receive [MergeFastForwardFailed]
    without gaining one).  If the initiative is still flagged there, recovery, on
    any repository, reports [audit_record_missing] and leaves the flag, the tables
    and every repository as they are, so that the next boot starts from the same
    place: the repair (Case A) and the verification (Case B) are out of reach. *)
Theorem crashed_merge_is_never_repaired (env : CloseoutEnv Sink Snap) registry a w root :
  env.(ce_emit) = emit → env.(ce_fails) ClearPending = false → last_merge_of w a.(ca_initiative_id) = Ok None →
  (∀ k category detail, find_last_integration_merge from_str sha256_hex (audit_dir k) a.(ca_initiative_id) = Ok None →
    find_last_integration_merge from_str sha256_hex (audit_dir (emit_ emit (MergeFastForwardFailed a.(ca_initiative_id)
      a.(ca_requested_sha) (closeout_target_ref registry a) category detail) k)) a.(ca_initiative_id) = Ok None) →
  Forall (λ w', a.(ca_initiative_id) ∈ mw_git_apply_pending w' →
    (recover root a.(ca_initiative_id) w').1 = Inconsistent a.(ca_initiative_id) "" "" "" "audit_record_missing" ∧
    let after := (recover root a.(ca_initiative_id) w').2 in
    mw_git_apply_pending after = mw_git_apply_pending w' ∧ mw_db after = mw_db w' ∧ mw_disk after = mw_disk w')
    (worlds (integration_merge env registry a w).2).
Proof.
  intros He Hc Hl Hff. eapply Forall_impl; [by apply (flag_excludes_record env registry a w) |].
  intros w' Hw Hin. rewrite He in Hw.
  assert (Hnone : last_merge_of w' a.(ca_initiative_id) = Ok None).
  { destruct (Hw Hin) as [-> | (category & detail & ->)]; auto. }
  by rewrite (recover_unrecorded root _ _ Hnone).
Qed.

End facts.

Section laws.
Context {R : Type} `{GitLaws R oid_of} `{!CommandLaws R} {Sink Snap : Type}.
Context (from_str : string → option Value) (sha256_hex : string → string).
Context (audit_dir : Sink → result ChainReadError (list (string * string))) (emit : MergeEvent → Sink → bool * Sink).
Context (clear_fails : string → option string) (error_text : ChainReadError → string) (git_error_text : MainMergeError → string).
Context (temp_dir : string → string) (fuel : nat).
Implicit Types w : MergeWorld R Sink Snap.

Abbreviation last_merge_in w i := (find_last_integration_merge from_str sha256_hex (audit_dir w.(mw_sink)) i).
Abbreviation recover_in := (recover_one_initiative from_str sha256_hex audit_dir emit clear_fails error_text git_error_text temp_dir fuel).

(** Every checkout of the world is a content-addressed store. *)
Definition stores_addressed w : Prop :=
  ∀ path src, (checkout_at w path).(co_repo) = Some src → addressed oid_of src ∧ blobs_are_blobs src.

(** A publication that succeeded, on the checkouts. *)
Lemma commit_merge_published n tmp orch sha target main adv main' :
  (∀ src, orch.(co_repo) = Some src → addressed oid_of src ∧ blobs_are_blobs src) →
  commit_merge_to_target_ref n tmp orch sha target main = (Ok adv, main') →
  current_target_ref_oid main' target = Ok (Some adv.(current_sha)) ∧
  current_target_ref_oid main target = Ok adv.(previous_sha).
Proof.
  intros Ha. unfold commit_merge_to_target_ref, with_main. destruct (from_hex sha) as [oid|]; [| done].
  destruct (co_repo main) as [r|] eqn:Hr; [| done].
  pose proof (commit_merge_run n (co_path main) tmp orch oid target r (λ src E, proj1 (Ha src E))) as Hrun.
  destruct (commit_merge_to_open_repo _ _ _ _ _ _ r) as [res r']. intros [= -> <-].
  destruct Hrun as (H1 & H2 & _). unfold current_target_ref_oid. rewrite Hr. simpl. by rewrite H1, H2.
Qed.

(** What a settled flag means for [git].  After [Verified], the managed
    repository's target ref is at the recorded commit, which is the last one the
    audit trail records for the initiative, and no repository was touched.  After
    [Repaired], the ref exists; where it was before is the value reported and is not
    the recorded commit; and only the managed repository was written.  After an
    inconsistency, too, no other repository was written. *)
Theorem settled_flag_is_published root i w : stores_addressed w →
  let o := (recover_in root i w).1 in
  let w' := (recover_in root i w).2 in
  (∀ path, path ≠ root → checkout_at w' path = checkout_at w path) ∧
  match o with
  | Verified _ sha target =>
      (∃ lm, last_merge_in w i = Ok (Some lm) ∧ lm.(lm_commit_sha) = sha ∧ lm.(lm_target_ref) = target) ∧
      mw_disk w' = mw_disk w ∧ current_target_ref_oid (checkout_at w' root) target = Ok (Some sha)
  | Repaired _ sha previous target =>
      (∃ lm, last_merge_in w i = Ok (Some lm) ∧ lm.(lm_commit_sha) = sha ∧ lm.(lm_target_ref) = target) ∧
      current_target_ref_oid (checkout_at w root) target = Ok previous ∧ (default "" previous ≠ sha ∨ sha = "") ∧
      ∃ moved, current_target_ref_oid (checkout_at w' root) target = Ok (Some moved)
  | Inconsistent _ _ _ _ _ => True
  end.
Proof.
  intros Ha. unfold recover_one_initiative, emit_inconsistent.
  destruct (last_merge_in w i) as [[lm|]|e] eqn:Hlm; [| done | done].
  destruct (String.eqb (lm_target_ref lm) ""); [done |].
  destruct (current_target_ref_oid (checkout_at w root) (lm_target_ref lm)) as [git_sha|e] eqn:Hg; [| done].
  destruct (String.eqb (default "" git_sha) (lm_commit_sha lm) && negb (String.eqb (lm_commit_sha lm) "")) eqn:Hb.
  - unfold clear_pending_under_lock, emit_inconsistent. destruct (clear_fails i); [done |]. split; [done |].
    apply andb_true_iff in Hb as [Hs%String.eqb_eq Hne].
    split_and!; [by eexists | done |]. unfold checkout_at in *. cbn [fst snd mw_disk set_sink clear_git_apply_pending set_pending].
    rewrite Hg. destruct git_sha as [s|]; simpl in Hs; [by subst |]. rewrite <- Hs in Hne. done.
  - destruct (worktree_for_session _ _) as [wt|]; [| done]. destruct (co_exists _); [| done]. simpl.
    unfold reapply, clear_pending_under_lock, emit_inconsistent.
    destruct (commit_merge_to_target_ref _ _ _ _ _ _) as [res main] eqn:Hcm.
    assert (Hother : ∀ path f d, path ≠ root →
      checkout_at (set_sink f (set_pending d (set_disk <[root:=main]> w))) path = checkout_at w path).
    { intros path f d Hne. unfold checkout_at. simpl. by rewrite lookup_insert_ne. }
    destruct res as [adv|e]; [| split; [intros path Hne; apply (Hother path _ id Hne) | done]].
    destruct (clear_fails i); [split; [intros path Hne; apply (Hother path _ id Hne) | done] |].
    split; [intros path Hne; by apply Hother |]. split; [by eexists |].
    destruct (commit_merge_published _ _ _ _ _ _ _ _ (λ src E, Ha _ _ E) Hcm) as [Hnow Hprev].
    split; [done |]. rewrite Hprev in Hg. injection Hg as ->. split.
    + apply andb_false_iff in Hb as [Hb%String.eqb_neq | Hb%negb_false_iff%String.eqb_eq]; auto.
    + exists (current_sha adv). unfold checkout_at. simpl. by rewrite lookup_insert_eq.
Qed.

(** The disk after a merge, whatever else happened. *)
Lemma integration_merge_disk (env : CloseoutEnv Sink Snap) registry a w res main' :
  commit_merge_to_target_ref env.(ce_fuel) env.(ce_temp_dir) (checkout_at w a.(ca_orch_worktree_root))
    a.(ca_requested_sha) (closeout_target_ref registry a) (checkout_at w (main_repo_root registry a)) = (res, main') →
  checkout_at (integration_merge env registry a w).2.1 (main_repo_root registry a) = main'.
Proof.
  intros Hcm. unfold integration_merge, complete_integration_merge_closeout.
  assert (Hd : mw_disk (closeout_prepare env registry a (phase1 a (w, []))).1 = mw_disk w).
  { rewrite prepare_disk. simpl. unfold set_git_apply_pending. by case_match. }
  rewrite (closeout_merge_of env registry a w _ Hd), Hcm.
  set (root := main_repo_root registry a) in *.
  assert (Hat : ∀ w1 : MergeWorld R Sink Snap, mw_disk w1 !! root = Some main' → checkout_at w1 root = main').
  { intros w1 E. unfold checkout_at. by rewrite E. }
  set (t := durable (set_disk <[root := main']>) (closeout_prepare env registry a (phase1 a (w, [])))).
  assert (Hd1 : mw_disk t.1 !! root = Some main') by (simpl; by rewrite lookup_insert_eq).
  destruct res as [adv|e].
  - pose proof (record_disk env registry a adv t) as Hr. rewrite <- Hr in Hd1. clear Hr. clearbody t.
    set (t2 := closeout_record env registry a adv t) in *. clearbody t2. unfold closeout_finalize.
    destruct (ce_fails env Finalize); [by apply Hat |].
    destruct (finalize_integration_merge_completion _ _ _ _) as [[o|] d']; by apply Hat.
  - destruct (failed_facts env registry a e t) as (_ & Hf & _). clearbody t. simpl. apply Hat. by rewrite Hf.
Qed.

(** Recovery finishes a merge whose only loss is the clearing of its flag.
    When the merge was published and the audit trail it left names its commit and
    its target ref, recovery on its repository verifies it, clears the flag and
    writes no repository. *)
Theorem recovery_finishes_recorded_merge (env : CloseoutEnv Sink Snap) registry a w adv main' session :
  let final := (integration_merge env registry a w).2.1 in
  stores_addressed w →
  commit_merge_to_target_ref env.(ce_fuel) env.(ce_temp_dir) (checkout_at w a.(ca_orch_worktree_root))
    a.(ca_requested_sha) (closeout_target_ref registry a) (checkout_at w (main_repo_root registry a)) = (Ok adv, main') →
  last_merge_in final a.(ca_initiative_id) =
    Ok (Some (MkLastIntegrationMerge adv.(current_sha) session (closeout_target_ref registry a))) →
  adv.(current_sha) ≠ "" → closeout_target_ref registry a ≠ "" → clear_fails a.(ca_initiative_id) = None →
  (recover_in (main_repo_root registry a) a.(ca_initiative_id) final).1 =
    Verified a.(ca_initiative_id) adv.(current_sha) (closeout_target_ref registry a) ∧
  let after := (recover_in (main_repo_root registry a) a.(ca_initiative_id) final).2 in
  (a.(ca_initiative_id) ∉ mw_git_apply_pending after) ∧ mw_disk after = mw_disk final ∧ mw_db after = mw_db final.
Proof.
  intros final Ha Hcm Hl Hs Ht Hc.
  destruct (commit_merge_published _ _ _ _ _ _ _ _ (λ src E, Ha _ _ E) Hcm) as [Hnow _].
  rewrite (recover_verified from_str sha256_hex audit_dir emit clear_fails error_text git_error_text temp_dir fuel _ _ final _ Hl Hc Ht Hs).
  - simpl. set_solver.
  - simpl. unfold final. by rewrite (integration_merge_disk _ _ _ _ _ _ Hcm).
Qed.
End laws.

(** ** Crashes of one merge *)
Module GitRecoveryExamples.
Import ToyGit CloseoutExamples.

(** The trail holds one two-character line per merge record: its position and a
    letter; every line but the first has the same hash. *)
Definition is_merge (e : MergeEvent) : bool :=
  match e with IntegrationMergeCompleted _ _ _ _ _ _ _ => true | _ => false end.
Fixpoint lines_of (n : nat) (l : list MergeEvent) : string :=
  match l with
  | [] => ""
  | e :: l => String (Ascii.ascii_of_nat (48 + n)) (String (Ascii.ascii_of_nat 77) (String LF (lines_of (S n) l)))
  end.
Definition trail (k : list MergeEvent) : result ChainReadError (list (string * string)) :=
  Ok [("segment-000.jsonl", lines_of 0 (List.filter is_merge k))].
Definition parse_trail (s : string) : option Value :=
  match s with
  | String d (String _ EmptyString) =>
      Some (JsonObject [("seq", JsonNumber (String d "")); ("event_kind", JsonString "IntegrationMergeCompleted");
        ("prev_sha256", JsonString (if String.eqb (String d "") "0" then GENESIS_PREV_SHA256 else "h"));
        ("initiative_id", JsonString "i1");
        ("payload", JsonObject [("commit_sha", JsonString "c1"); ("session_id", JsonString "s1");
           ("target_ref", JsonString DEFAULT_TARGET_REF)])])
  | _ => None
  end.
Definition emit_to (e : MergeEvent) (k : list MergeEvent) : bool * list MergeEvent := (true, k ++ [e]).

Definition recover_toy : string → string → MergeWorld Repo (list MergeEvent) unit →
    GitApplyRecoveryOutcome * MergeWorld Repo (list MergeEvent) unit :=
  recover_one_initiative parse_trail (λ _, "h") trail emit_to (λ _, None) (λ _, "error") (λ _, "error") (λ _, "/tmp") 20.

#[local] Instance no_toml : Toml := {|
  Toml.Value := string; Table := string; toml_from_str _ := None; value_get _ _ := None;
  table_get _ _ := None; as_table _ := None; as_array _ := None; as_str _ := None;
|}.

Definition sweep_toy (w : MergeWorld Repo (list MergeEvent) unit) :=
  reconcile_git_apply_pending parse_trail (λ _, "h") trail emit_to (λ _, None) (λ _, "error") (λ _, "error") (λ _, "/tmp") 20
    "/data" false w.

Definition merge_of (env : CloseoutEnv (list MergeEvent) unit) := integration_merge env new_registry args (world honest "Running").
Definition env_no_clear := env_of (λ s, match s with ClearPending => true | _ => false end).

(** Durable world 5 of the merge is the one between [git] and the records. *)
Example crash_after_git :
  let w := default (world honest "Running") ((merge_of env).2.2 !! 5) in
  (bool_decide ("i1" ∈ mw_git_apply_pending w),
   current_target_ref_oid (checkout_at w "/data/repositories/main") DEFAULT_TARGET_REF,
   outcomes (sweep_toy w).1, bool_decide ("i1" ∈ mw_git_apply_pending (sweep_toy w).2)) =
  (true, Ok (Some "c1"), [Inconsistent "i1" "" "" "" "audit_record_missing"], true).
Proof. vm_compute. reflexivity. Qed.

Example clear_missed :
  let w := (merge_of env_no_clear).2.1 in
  (bool_decide ("i1" ∈ mw_git_apply_pending w), outcomes (sweep_toy w).1,
   bool_decide ("i1" ∈ mw_git_apply_pending (sweep_toy w).2)) =
  (true, [Verified "i1" "c1" DEFAULT_TARGET_REF], false).
Proof. vm_compute. reflexivity. Qed.

(** The same trail over a repository that lost the ref: published again. *)
Definition lost_ref : MergeWorld Repo (list MergeEvent) unit :=
  set_disk <["/data/repositories/main" := managed []]> (merge_of env_no_clear).2.1.

Example republished :
  (outcomes (sweep_toy lost_ref).1,
   current_target_ref_oid (checkout_at (sweep_toy lost_ref).2 "/data/repositories/main") DEFAULT_TARGET_REF) =
  ([Repaired "i1" "c1" None DEFAULT_TARGET_REF], Ok (Some "c1")).
Proof. vm_compute. reflexivity. Qed.

Example repository_ids :
  (normalize_repository_id None, normalize_repository_id (Some " web-app "),
   match normalize_repository_id (Some "../main") with Ok _ => true | Err _ => false end) =
  (Ok "main", Ok "web-app", false).
Proof. vm_compute. reflexivity. Qed.

Lemma empty_source src : co_repo (managed []) = Some src → addressed oid_of src ∧ blobs_are_blobs src.
Proof. intros [= <-]. split; intros i o; intros; simplify_map_eq. Qed.

Lemma world_addressed st : stores_addressed (oid_of := oid_of) (world honest st).
Proof.
  intros path src. unfold checkout_at, world. simpl. intros Hs.
  destruct (decide (path = "/wt")) as [->|]; [by apply honest_source |].
  destruct (decide (path = "/data/repositories/main")) as [->|]; [by apply empty_source |].
  by rewrite lookup_insert_ne, lookup_singleton_ne in Hs by congruence.
Qed.

Lemma crashed_merge_is_never_repaired_witness :
  let w := default (world honest "Running") ((integration_merge env new_registry args (world honest "Running")).2.2 !! 5) in
  (recover_toy "/data/repositories/main" "i1" w).1 = Inconsistent "i1" "" "" "" "audit_record_missing".
Proof.
  assert (Hff : ∀ k category detail,
    find_last_integration_merge parse_trail (λ _, "h") (trail k) "i1" = Ok None →
    find_last_integration_merge parse_trail (λ _, "h")
      (trail (emit_ emit_to (MergeFastForwardFailed "i1" "c1" (closeout_target_ref new_registry args) category detail) k)) "i1" = Ok None).
  { intros k category detail. unfold trail, emit_, emit_to. simpl. by rewrite List.filter_app, app_nil_r. }
  pose proof (crashed_merge_is_never_repaired parse_trail (λ _, "h") trail emit_to (λ _, None) (λ _, "error") (λ _, "error")
    (λ _, "/tmp") 20 env new_registry args (world honest "Running") "/data/repositories/main" eq_refl eq_refl eq_refl Hff) as Hall.
  rewrite Forall_forall in Hall.
  cbv zeta.
  assert (Hs : bool_decide (is_Some ((integration_merge env new_registry args (world honest "Running")).2.2 !! 5)) = true) by (vm_compute; reflexivity).
  apply bool_decide_eq_true in Hs as [w Hw].
  rewrite Hw. apply (Hall w).
  - unfold worlds. apply elem_of_app. left. exact (list_elem_of_lookup_2 _ _ _ Hw).
  - assert (Hb : bool_decide ("i1" ∈ mw_git_apply_pending (default (world honest "Running") ((integration_merge env new_registry args (world honest "Running")).2.2 !! 5))) = true) by (vm_compute; reflexivity).
    rewrite Hw in Hb. by apply bool_decide_eq_true in Hb.
Defined.

Lemma lost_ref_addressed : stores_addressed (oid_of := oid_of) lost_ref.
Proof.
  intros path src. unfold checkout_at.
  replace (mw_disk lost_ref) with (mw_disk (world honest "Running")) by (vm_compute; reflexivity).
  apply (world_addressed "Running").
Qed.

Lemma settled_flag_is_published_witness :
  ∃ moved, current_target_ref_oid
    (checkout_at (recover_toy "/data/repositories/main" "i1" lost_ref).2 "/data/repositories/main") DEFAULT_TARGET_REF
    = Ok (Some moved).
Proof.
  pose proof (settled_flag_is_published (oid_of := oid_of) parse_trail (λ _, "h") trail emit_to (λ _, None) (λ _, "error")
    (λ _, "error") (λ _, "/tmp") 20 "/data/repositories/main" "i1" lost_ref lost_ref_addressed) as Hs.
  unfold recover_toy.
  assert (Ho : (recover_one_initiative parse_trail (λ _, "h") trail emit_to (λ _, None) (λ _, "error") (λ _, "error")
                  (λ _, "/tmp") 20 "/data/repositories/main" "i1" lost_ref).1 = Repaired "i1" "c1" None DEFAULT_TARGET_REF)
    by (vm_compute; reflexivity).
  cbv zeta in Hs. rewrite Ho in Hs. destruct Hs as (_ & _ & _ & _ & Hm). exact Hm.
Defined.

Lemma recovery_finishes_recorded_merge_witness :
  let final := (integration_merge env_no_clear new_registry args (world honest "Running")).2.1 in
  (recover_toy (main_repo_root new_registry args) "i1" final).1 = Verified "i1" "c1" DEFAULT_TARGET_REF.
Proof.
  set (git := commit_merge_to_target_ref 20 "/tmp" honest "c1" DEFAULT_TARGET_REF (managed [])).
  assert (Hcm : git = (Ok (MkMainAdvance None "c1" false), git.2)) by (vm_compute; reflexivity).
  assert (Hl : find_last_integration_merge parse_trail (λ _, "h")
      (trail (mw_sink (integration_merge env_no_clear new_registry args (world honest "Running")).2.1)) "i1" =
    Ok (Some (MkLastIntegrationMerge "c1" "s1" DEFAULT_TARGET_REF))) by (vm_compute; reflexivity).
  pose proof (recovery_finishes_recorded_merge (oid_of := oid_of) parse_trail (λ _, "h") trail emit_to (λ _, None) (λ _, "error")
    (λ _, "error") (λ _, "/tmp") 20 env_no_clear new_registry args (world honest "Running") _ _ "s1"
    (world_addressed "Running") Hcm Hl) as Hr.
  destruct (Hr ltac:(done) ltac:(done) eq_refl) as [Hv _]. exact Hv.
Defined.
End GitRecoveryExamples.
